(* ===== verification/_CoqProject ===== *)
-Q . S2P
Prelude.v
Ordering.v
Values.v
Redis.v
Schema.v
Fields.v
Walk.v
Versions.v
Tree.v
Linking.v
TreeBuilt.v
TreeChecked.v
TreeLinked.v
Parsing.v
Parsed.v
Preparation.v
SchemaTree.v
Configuration.v
RedisStruct.v
Dispatcher.v
RoundTrip.v
Removal.v
Messages.v
Actions.v
Validator.v
Privileges.v
Accounts.v
AccountHooks.v
JsonSchemas.v
Server.v
Creation.v
Update.v
Presentation.v
Pipelines.v
RedisHelper.v
Performs.v
DeviceKeys.v
Services.v
Certificates.v
Simulator.v
DeviceSetup.v
Replacement.v
Collections.v
Simulated.v
Announce.v
CredentialStores.v
Loaders.v
Pdu.v
PduSetup.v
PduDevice.v
PduRequests.v
PduOutlets.v
PduPolling.v
PduFacts.v
PduWorkers.v
Sls.v
Snmp.v
SnmpSwitch.v
SwitchFacts.v
GCloud.v
CloudFacts.v
HelperExamples.v
Frames.v
Startup.v
AccountTable.v
Lifecycle.v
StartExamples.v
Tools.v
DeviceExamples.v
