(* ===== verification/Prelude.v ===== *)
(** * A verification of the Redfish Translation Layer

    The program is a Redfish service: an HTTP server that presents, as the
    resource tree of the DMTF's Redfish schema, what is stored in a Redis
    server and what backend helpers, scripts and files report.  This library
    models the Go code under [src/internal] and [src/cmd] as executable
    definitions, and proves what makes it correct.

    ** How the program works, and where it is modelled

    - A request names a URI.  [WalkTree] ([rfschema/walk.go], file [Walk])
      walks the schema tree ([rfschema/rfschema.go], file [Schema]) to the
      resource or property the URI denotes; which instances a collection has
      is asked of a callback.  The dispatcher's callback ([GetResource] of
      [dispatcher/rfdispatcher.go], file [Actions]) looks in Redis and then
      asks the callbacks that were registered.
    - The schema tree is made at the start from the JSON schema files of the
      DMTF: the files of the version ([rfschema/versions.go], file [Versions])
      are parsed into resources ([rfschema/parsing.go], file [Parsing], with
      assignments to fields in [Fields]), which are then marked and linked
      ([tree.go], [copy.go], [traverse.go], file [Tree]): every navigation link
      gets its own copy of the resource it refers to.  The copies live in a
      heap while the tree grows; [read_resource] is the finished tree that the
      other components take.  Files [Linking], [TreeBuilt], [TreeChecked] and
      [TreeLinked] study the linking, [Parsed], [Preparation] and [SchemaTree]
      the parsing and the whole of [CreateTree].  Where the files are is read
      from flags or the environment ([rfschema/configuration.go], file
      [Configuration]).
    - A request body is converted, with the schema, into intermediate data,
      which are inserted below a key, patched, or removed
      ([dispatcher/redisstruct.go], files [RedisStruct], [RoundTrip],
      [Removal]).  [BuildStruct] (file [Dispatcher]) reads a structure back;
      a field without a value in Redis is computed from the schema, by a
      script or a file, or by a backend helper.
    - The account service ([accountservice/*.go], files [Privileges],
      [Accounts], [AccountHooks]) authenticates users, locks accounts, and
      decides, with the privilege registry, what an account may do.  It
      reacts to requests on accounts by hooks.
    - Messages of the Redfish registries ([dispatcher/rfmessages.go], file
      [Messages]) tell a client what was wrong; the validator
      ([cmd/rfdispatcher/rfvalidator.go], file [Validator]) finds that out.
    - The HTTP server ([cmd/rfdispatcher/rfserver.go], file [Server]) puts
      these together: a handler per method, and the hooks run before and
      after.  Files [Creation] and [Update] study what POST, DELETE and PATCH
      do to Redis, file [Presentation] what POST, GET and DELETE answer.  The
      schema files are served by [jsonschemas/*.go], file [JsonSchemas].
    - The backend helpers speak for the devices.  They write the resources of
      a device into Redis with a few methods, through a pipeline
      ([backend_helpers/common.go], files [Pipelines] and [RedisHelper]),
      announce devices to other services, keep their credentials and post
      events (the rest of [common.go], file [Services]).  The certificate
      service ([certificateservice.go] and [certificate_store/*.go], file
      [Certificates]) gives each device its TLS certificate; the simulator and
      the mock ([simulator.go], [mock.go], file [Simulator]) are helpers
      without real devices.  Each is a value of [BackendHelper], the interface
      the dispatcher calls.  Files [Performs] and [DeviceKeys] are the logic of
      the set-up of devices, [DeviceSetup], [Replacement], [Collections],
      [Simulated] and [Announce] study the operations, and [HelperExamples]
      has instances of what they use.
    - Power distribution units are a helper of their own: a controller speaks
      the JAWS interface for several units.  File [Pdu] has their data and the
      values that go into Redis, [PduSetup] the resources of a unit,
      [PduDevice] the discovery and the set-up of the helper, [PduRequests] the
      answers to requests and orders (all [backend_helpers/jaws.go]);
      [PduPolling] is the telemetry and a polling round, [PduWorkers] the
      goroutines that poll ([jaws_polling.go]).  [PduOutlets] and [PduFacts]
      study them.  The credentials are in two stores
      ([pdu_credential_store/*.go], [rts_credential_store/*.go], file
      [CredentialStores]), which two programs fill ([cmd/vault_loader],
      [cmd/pdu_loader], file [Loaders]).
    - Management switches are listed by the layout service
      ([slsapi/slsapi.go], file [Sls]) and asked with SNMP
      ([snmp_utilities/*.go], file [Snmp]) by the helper of file [SnmpSwitch]
      ([backend_helpers/snmpSwitch.go]), studied in [SwitchFacts]; the
      instances of a cloud are listed by its compute service for the helper of
      file [GCloud] ([backend_helpers/gcloud.go]), studied in [CloudFacts].
      [DeviceExamples] has instances of what these use.
    - The program starts with the dispatcher and the server ([NewDispatcher]
      of [rfdispatcher.go] and [newRedfishServer] of [rfserver.go], file
      [Startup]).  [AccountTable] studies the accounts from then on, with the
      frames of file [Frames]: what the reading parts of the program preserve.
      File [Lifecycle] is the process itself ([main] and [doRest] of
      [rfserver.go]): the steps of its goroutines, its wait group, and its
      shutdown by a signal.  [StartExamples] has a server that starts from
      schema files and Redis, and runs of a process.
    - The other programs of [cmd] are in file [Tools]: the hash of a password,
      the backend process of an action, the newest schema files.

    ** Conventions

    - A function of the program is a function into the monad [M S A] over a
      state [S]: it ends with a value, a Go panic, a fatal log entry, or (for
      a bounded recursion) without fuel, and keeps the effects it had until then.
      An [error] result is a value of [result].
    - The Redis server is a type class (file [Redis]): the commands, and the
      laws of their documented effect on a keyspace.  Every component is
      defined over the first and proved against the second; [memstore] is an
      instance on which the examples run.  The order of the members of a set
      is left open, so theorems hold for every order.  Failures of the
      connection are not modelled.
    - A Go map is its list of entries in the order of iteration ([gomap]); a
      theorem about every list holds for every order.  Strings are byte
      strings, [int64] is [Z] with its wrap-around written out, [float64] is
      the standard library's specification of binary64 (file [Values]).
    - What is not in the repository is a parameter: backend helpers, the file
      system and programs ([World], [BackendHelper]), the clock, bcrypt, the
      process at the other end of an exchange ([IPC]), the parsing of times,
      URIs and of regular expressions that are data ([TextParsers]), the text
      of floats ([FloatText]), the parsing of JSON references
      ([JsonReferences]), the go-redis pipeline ([PipelineOps]), the
      services a helper talks to and the environment ([Outside]), the crypto
      library ([Crypto]), the secure storage ([Storage]), the replies of a
      controller ([JAWS]), the libraries for the layout service
      ([SLSLibrary]), for SNMP ([SNMPLibrary]) and for the cloud ([Compute]).
      What a theorem relies on of them is a class of laws ([Controller],
      [Agent], [HSM], [PemLaws]), with an instance.  A regular expression of the code is a
      predicate or a matcher on strings.  A JSON document is the value it encodes.
    - Accounts are shared by reference: they are cells of a heap, and the
      collection maps names to cells ([Memory]).
    - A backend helper is a struct behind a pointer: a place ([lens]) in the
      memory, that is only assumed to be apart from the others.
    - [wp ks m Q] says: from every server state with keyspace [ks], [m] ends
      with an outcome and a keyspace that satisfy [Q]; [wpm] is the same with
      memory next to the server.

    ** What the theorems show

    - Walking: the result is what the URI denotes, by a declarative semantics
      ([WalkTree_refines], [GetResource_refines]).
    - The schema tree: linking ends, its own checks pass, and the heap reads as
      the tree by recursion over the references ([linkDFS_builds]); the
      marking is exact ([detectNavigationLinks_marks]), arrays of members
      become collections the linking finds ([convertArrayToCollection_embeds]);
      parsing ends with well-formed resources ([parseSchemas_typed]); and in
      the tree from the files every URI can be looked up
      ([built_tree_walkable], [CreateTree_walkable]).
    - Storage: what a conforming object is stored as, that reading gives it
      back, that removing it removes all of it and nothing else
      ([store_then_read], [create_then_delete],
      [RedisRemoveResource_confined]); the reading recursion ends
      ([BuildStruct_equation]).
    - The collections: a POST keeps the list of the members well-formed and a
      DELETE undoes it ([store_resource_links], [create_delete_identity]).
    - The life of a resource, through the handlers: the answer to its creation,
      to a GET and to the DELETE that ends it ([resource_created],
      [created_resource_read], [created_resource_deleted]), and the refusal to
      create it twice ([creation_conflicts]).
    - Access: nothing changes without the privilege, a PATCH changes only what
      is permitted ([changes_need_privilege], [patch_changes_permitted]); what
      is required and when a role satisfies it ([RequiredPrivileges_spec],
      [HasPrivilege_spec]).
    - Accounts: when they lock and unlock ([lockout_after_threshold],
      [lockout_released]), how passwords are checked and stored
      ([AddAccountBefore_spec], [AddAccountAfter_spec]).
    - Validation: the report is clean exactly on valid objects, which can then
      be stored ([checkResource_decides], [clean_converts]).
    - Devices: what the set-up of a device leaves depends on nothing that was
      there before, a restart changes nothing, and only the keys of the device
      and the service root are touched ([initSimulator_repeatable],
      [initSimulator_confined]); members are listed as they were added
      ([collectionMembers_added]); accounts are stored as the account service
      reads them ([initAccount_stores]); a reset is seen by the next request
      ([reset_sets_power]); the announcement and removal of a device
      ([inform_then_delete]).
    - Power distribution units: an order to switch an outlet is seen by the
      next request, through the dispatcher ([switched_outlet_shown]); the names
      of outlets ([outlet_names]); what a controller reports is divided among
      its units ([units_partition]); the telemetry tells for each reading where
      it comes from ([reading_located], [outlet_events]); and which steps of
      the workers keep a controller from being polled twice at a time
      ([polling_exclusive], [double_polling]).
    - Switches and the cloud: a switch is described by the row of its chassis
      ([physical_table]); the instance that is looked for is found on whatever
      page it is ([instance_found]).
    - The configuration is complete ([SetupEnvConfig_complete]), and from the
      start on a login is checked against the account the table has under the
      name ([started_accounts]).
    - The process: [main] waits for what it started ([main_waits]); a signal
      ends a server that is not in use ([quiet_shutdown]), but requests in
      progress are cut ([shutdown_cuts_requests]) and an early signal is lost
      ([early_signal_lost]); the periods of the ticker ([ticker_period_bounds]).
    - The other programs: an exchange with the backend process is completed and
      leaves nothing ([exchange_completes]); the hash that is printed is read
      back ([hashgen_readable]); the versions that are printed are the newest
      ([newest_printed]).
    - Certificates: a posted text is parsed ([ParseCertificatePairFromString_spec]),
      and a replaced certificate is the one that is presented and read
      ([replaced_certificate_served]).
    - Messages and schema files: [GetRedfishMessage_spec],
      [schema_file_served].
    - Errors: [handleRequest_recovers], and theorems that pin down where the
      code does not do what it means to ([integer_array_panics],
      [PerformIPC_busy], [password_update_lost], [missing_on_create_unnamed],
      [HandleCollection_unserved], [lockout_duration_wraps],
      [nested_links_promoted], [latest_version_is_lexical],
      [nested_array_diverges], [removal_by_prefix], [unreadable_endpoint_recreated],
      [delete_failure_masked], [unaddressed_switch], [vanished_instance_panics],
      [LoadTreeFromConfig_once], [absolute_contrib_finds_nothing]).

    ** Bounds and fuel

    [BuildStruct] recurses over the schema; its fuel is the height of the
    schema tree, and [BuildStruct_equation] shows it satisfies the equation of
    the source.  [redisRemoveObject] recurses over the keys in Redis; every
    key is longer than the one before, so two more than the length of the
    longest key is enough ([RedisRemoveResource_confined]).  The loops that
    link and traverse the tree take a step per resource of the tree, so that
    more fuel than resources is enough ([linkDFS_builds]).  Parsing follows
    references from file to file; its fuel is bounded by the rank of the
    references and the depth of the documents ([parse_fuel],
    [parseSchemas_typed]).  The loop over the
    blocks of a certificate text takes a step per block, so that the length of
    the text is enough ([ParseCertificatePairFromString_spec]).  The program
    waits for Vault for ever; [connectToVault] takes the number of attempts, and
    one more than Vault fails is enough ([connectToVault_waits]); the loops of
    [pdu_loader] and of [getProjectID] wait the same way.  The pages of a list
    of instances take a step each, so that as many as there are pages are
    enough ([instance_found]).

    ** What is not modelled

    The decoding of JSON text (a file, or the body of a reply, is the value or
    the struct it decodes to); the contents of the crypto library; flags,
    printed text and logging; timeouts (a wait answers whether it timed out);
    the expiration of keys in Redis (the time is in the command, and a key may
    be deleted by a request); the profiler ([pprof.go]) and the answer to
    [/healthz], which have no state; and the interleaving of concurrent
    requests and discoveries, with the locks that guard it: a handler runs to
    its end before the next starts.  Goroutines are modelled where they
    coordinate: the polling workers ([PduWorkers]), where a whole polling round
    is one step, and those of [main] ([Lifecycle]), where a request is one.
    What the net/http server does on a shutdown is written as it is documented. *)
From stdpp Require Export base strings list gmap.
From Stdlib Require Export ZArith String Ascii DecimalString DecimalZ Lia.

#[global] Open Scope Z_scope.
#[global] Open Scope string_scope.
#[global] Open Scope list_scope.

Declare Scope go_scope.
Delimit Scope go_scope with go.
#[global] Open Scope go_scope.

(* ===================================================================== *)
(** * Results, panics and the state-passing monad                        *)
(* ===================================================================== *)

(** A Go [error] value.  The sentinel errors the code compares by identity
    have a constructor each; every other error is known by its text. *)
Inductive go_error :=
  | ErrText (msg : string)             (* errors.New, fmt.Errorf *)
  | ErrRedisNil                        (* redis.Nil *)
  | ErrWrongType                       (* a command on a key of another type *)
  | ErrBackendContinue                 (* backend_helpers.ErrBackendContinue *)
  | ErrFileHandlerNoAction             (* dispatcher.ErrFileHandlerNoAction *)
  | ErrMockNoOp                        (* backend_helpers.MockNoOpError *)
  | ErrCertificateNotFound.            (* certificate_store.ErrNotFound *)

#[export] Instance go_error_eq_dec : EqDecision go_error.
Proof. solve_decision. Defined.

(** [err.Error()] *)
Definition err_string (e : go_error) : string :=
  match e with
  | ErrText msg => msg
  | ErrRedisNil => "redis: nil"
  | ErrWrongType => "WRONGTYPE Operation against a key holding the wrong kind of value"
  | ErrBackendContinue => "continue onto the next backend helper"
  | ErrFileHandlerNoAction => "file handler unable to perform any action"
  | ErrMockNoOp => "RunBackendHelper executed with Mock interface"
  | ErrCertificateNotFound => "certificate pair not found"
  end.

(** The pair [(value, error)] of a Go function: exactly one side is set. *)
Inductive result (A : Type) :=
  | Ok (a : A)
  | Err (e : go_error).
Arguments Ok {A} a.
Arguments Err {A} e.

(** How a call ends: it returns, it panics (the HTTP handler recovers), it
    ends the process ([log.Fatal]), or the model's recursion bound ran out
    (every theorem about a bounded function shows a bound that is enough). *)
Inductive outcome (A : Type) :=
  | Ret (a : A)
  | Panic (msg : string)
  | Fatal (msg : string)
  | OutOfFuel.
Arguments Ret {A} a.
Arguments Panic {A} msg.
Arguments Fatal {A} msg.
Arguments OutOfFuel {A}.

(** Stateful code over a state [S].  A panic keeps the effects made before
    it, as they are already in Redis and in memory. *)
Definition M (S A : Type) : Type := S -> outcome A * S.

Definition ret {S A} (a : A) : M S A := fun s => (Ret a, s).
Definition panic {S A} (msg : string) : M S A := fun s => (Panic msg, s).
Definition fatal {S A} (msg : string) : M S A := fun s => (Fatal msg, s).
Definition out_of_fuel {S A} : M S A := fun s => (OutOfFuel, s).

Definition bind {S A B} (m : M S A) (k : A -> M S B) : M S B := fun s =>
  match m s with
  | (Ret a, s') => k a s'
  | (Panic msg, s') => (Panic msg, s')
  | (Fatal msg, s') => (Fatal msg, s')
  | (OutOfFuel, s') => (OutOfFuel, s')
  end.

Notation "x <- m ;; k" := (bind m (fun x => k))
  (at level 100, m at next level, right associativity) : go_scope.
Notation "m ;; k" := (bind m (fun _ => k))
  (at level 100, right associativity) : go_scope.

(** [x, err := m; if err != nil { return ..., err }; k] *)
Definition bind_ok {S A B} (m : M S (result A)) (k : A -> M S (result B)) : M S (result B) :=
  r <- m ;; match r with Ok a => k a | Err e => ret (Err e) end.
Notation "x <-? m ;; k" := (bind_ok m (fun x => k))
  (at level 100, m at next level, right associativity) : go_scope.

(** [if err != nil { panic(err) }] *)
Definition must {S A} (m : M S (result A)) : M S A :=
  r <- m ;; match r with Ok a => ret a | Err e => panic (err_string e) end.

(** [for _, x := range l { f(x) }] *)
Fixpoint for_each {S A} (f : A -> M S unit) (l : list A) : M S unit :=
  match l with
  | [] => ret tt
  | x :: l' => f x ;; for_each f l'
  end.

(** A loop that carries a value and may leave with an error. *)
Fixpoint fold_ok {S A B} (f : B -> A -> M S (result B)) (b : B) (l : list A) : M S (result B) :=
  match l with
  | [] => ret (Ok b)
  | x :: l' => b' <-? f b x ;; fold_ok f b' l'
  end.

(* ===================================================================== *)
(** * Go strings (byte strings) and the parts of [strings], [path] used  *)
(* ===================================================================== *)

Definition has_prefix (p s : string) : bool := String.prefix p s.

Fixpoint str_drop (n : nat) (s : string) : string :=
  match n, s with
  | O, _ => s
  | S n', String _ s' => str_drop n' s'
  | _, EmptyString => EmptyString
  end.

Fixpoint str_take (n : nat) (s : string) : string :=
  match n, s with
  | O, _ => EmptyString
  | S n', String a s' => String a (str_take n' s')
  | _, EmptyString => EmptyString
  end.

(** [strings.TrimPrefix] *)
Definition trim_prefix (p s : string) : string :=
  if has_prefix p s then str_drop (String.length p) s else s.

(** [strings.HasSuffix], [strings.TrimSuffix] *)
Definition has_suffix (suf s : string) : bool :=
  Nat.leb (String.length suf) (String.length s)
  && String.eqb (str_drop (String.length s - String.length suf) s) suf.
Definition trim_suffix (suf s : string) : string :=
  if has_suffix suf s then str_take (String.length s - String.length suf) s else s.

(** [strings.TrimRight(s, c)] for a one-byte cutset *)
Fixpoint trim_right (c : ascii) (s : string) : string :=
  match s with
  | EmptyString => EmptyString
  | String a s' =>
      match trim_right c s' with
      | EmptyString => if Ascii.eqb a c then EmptyString else String a EmptyString
      | r => String a r
      end
  end.

(** [strings.Split(s, c)] for a one-byte separator *)
Fixpoint split_on (c : ascii) (s : string) : list string :=
  match s with
  | EmptyString => [EmptyString]
  | String a s' =>
      if Ascii.eqb a c then EmptyString :: split_on c s'
      else match split_on c s' with
           | h :: t => String a h :: t
           | [] => [String a EmptyString]
           end
  end.

(** [strings.Join(l, sep)], [strings.Contains(s, sub)] *)
Definition join (sep : string) (l : list string) : string := String.concat sep l.
Definition contains (s sub : string) : bool :=
  match String.index 0 sub s with Some _ => true | None => false end.

(** [strings.Replace(s, old, new, -1)] for a non-empty [old]; [skip] bytes
    of [s] belong to an occurrence already replaced. *)
Fixpoint replace_from (old new : string) (skip : nat) (s : string) : string :=
  match s with
  | EmptyString => EmptyString
  | String a s' =>
      match skip with
      | Datatypes.S k => replace_from old new k s'
      | O => if has_prefix old s then new +:+ replace_from old new (String.length old - 1) s'
             else String a (replace_from old new 0 s')
      end
  end.
Definition replace_all (old new s : string) : string := replace_from old new 0 s.

Definition slash : ascii := "/"%char.
Definition split_slash (s : string) : list string := split_on slash s.

(** [path.Clean], [path.Join] and [path.Base] (on Unix the same as the
    [filepath] functions). *)
Fixpoint clean_tokens (rooted : bool) (acc : list string) (l : list string) : list string :=
  match l with
  | [] => reverse acc
  | t :: l' =>
      if String.eqb t "" || String.eqb t "." then clean_tokens rooted acc l'
      else if String.eqb t ".." then
        match acc with
        | [] => if rooted then clean_tokens rooted [] l' else clean_tokens rooted [t] l'
        | h :: acc' => if String.eqb h ".." then clean_tokens rooted (t :: acc) l'
                       else clean_tokens rooted acc' l'
        end
      else clean_tokens rooted (t :: acc) l'
  end.
Definition path_clean (s : string) : string :=
  let rooted := has_prefix "/" s in
  let body := join "/" (clean_tokens rooted [] (split_slash s)) in
  if rooted then "/" +:+ body else if String.eqb body "" then "." else body.
Definition path_join (l : list string) : string :=
  match base.filter (fun s => s <> "") l with
  | [] => ""
  | l' => path_clean (join "/" l')
  end.
Definition path_base (s : string) : string :=
  if String.eqb s "" then "."
  else match trim_right slash s with
       | EmptyString => "/"
       | s' => List.last (split_slash s') ""
       end.

(* ===================================================================== *)
(** * Machine integers and their decimal text                            *)
(* ===================================================================== *)

Definition int64_min : Z := - 2 ^ 63.
Definition int64_max : Z := 2 ^ 63 - 1.
Definition in_int64 (z : Z) : Prop := int64_min <= z <= int64_max.

(** The wrap-around of [int64] arithmetic. *)
Definition wrap64 (z : Z) : Z := (z + 2 ^ 63) mod 2 ^ 64 - 2 ^ 63.

(** [strconv.FormatInt(z, 10)], and [fmt.Sprint] of an integer *)
Definition format_int (z : Z) : string := NilZero.string_of_int (Z.to_int z).
Definition format_nat (n : nat) : string := format_int (Z.of_nat n).

(** [strconv.ParseInt(s, 10, 64)]: an optional sign, decimal digits, and a
    value in range. *)
Definition parse_int (s : string) : option Z :=
  let unsigned :=
    match s with
    | String "+" s' => match s' with String "-" _ => None | _ => NilZero.int_of_string s' end
    | _ => NilZero.int_of_string s
    end in
  match unsigned with
  | Some d => let z := Z.of_int d in
              if decide (int64_min <= z <= int64_max) then Some z else None
  | None => None
  end.

(** [strconv.FormatBool] and [strconv.ParseBool] *)
Definition format_bool (b : bool) : string := if b then "true" else "false".
Definition parse_bool (s : string) : option bool :=
  if decide (s ∈ ["1"; "t"; "T"; "true"; "TRUE"; "True"]) then Some true
  else if decide (s ∈ ["0"; "f"; "F"; "false"; "FALSE"; "False"]) then Some false
  else None.

(* ===================================================================== *)
(** * Go maps with string keys                                           *)
(* ===================================================================== *)

(** A Go map is the list of its entries, in the order in which a [range]
    loop yields them.  Go leaves that order unspecified; a statement about
    every list of entries is a statement about every order. *)
Definition gomap (A : Type) : Type := list (string * A).

Fixpoint mget {A} (k : string) (m : gomap A) : option A :=
  match m with
  | [] => None
  | (k', a) :: m' => if String.eqb k k' then Some a else mget k m'
  end.
(** [m[k] = a] *)
Fixpoint mput {A} (k : string) (a : A) (m : gomap A) : gomap A :=
  match m with
  | [] => [(k, a)]
  | (k', a') :: m' => if String.eqb k k' then (k', a) :: m' else (k', a') :: mput k a m'
  end.
(** [delete(m, k)] *)
Definition mdel {A} (k : string) (m : gomap A) : gomap A :=
  List.filter (fun e => negb (String.eqb k (fst e))) m.
Definition mkeys {A} (m : gomap A) : list string := map fst m.
Definition mmem {A} (k : string) (m : gomap A) : bool :=
  match mget k m with Some _ => true | None => false end.
(** A value that is a map: no key twice. *)
Definition mwf {A} (m : gomap A) : Prop := NoDup (mkeys m).

(** [sort.Strings]: ascending byte order *)
Fixpoint insert_sorted (x : string) (l : list string) : list string :=
  match l with
  | [] => [x]
  | y :: l' => if String.leb x y then x :: l else y :: insert_sorted x l'
  end.
Definition sort_strings (l : list string) : list string := foldr insert_sorted [] l.

(* ===================================================================== *)
(** * Lemmas                                                             *)
(* ===================================================================== *)

(** ** The monad *)

Lemma bind_ret_inv {S A B} (m : M S A) (k : A -> M S B) s b s' :
  bind m k s = (Ret b, s') -> exists a s1, m s = (Ret a, s1) /\ k a s1 = (Ret b, s').
Proof. unfold bind. destruct (m s) as [[] s1] eqn:E; intros; simplify_eq; eauto. Qed.

Lemma bind_step {S A B} (m : M S A) (k : A -> M S B) s a s1 :
  m s = (Ret a, s1) -> bind m k s = k a s1.
Proof. unfold bind. by intros ->. Qed.

Lemma bind_panic {S A B} (m : M S A) (k : A -> M S B) s e s1 :
  m s = (Panic e, s1) -> bind m k s = (Panic e, s1).
Proof. unfold bind. by intros ->. Qed.

Lemma bind_ext {S A B} (m1 m2 : M S A) (k1 k2 : A -> M S B) s :
  m1 s = m2 s -> (forall a s', k1 a s' = k2 a s') -> bind m1 k1 s = bind m2 k2 s.
Proof. unfold bind. intros -> Hk. destruct (m2 s) as [[] ?]; auto. Qed.

Lemma bind_ok_ext {S A B} (m1 m2 : M S (result A)) (k1 k2 : A -> M S (result B)) s :
  m1 s = m2 s -> (forall a s', k1 a s' = k2 a s') -> bind_ok m1 k1 s = bind_ok m2 k2 s.
Proof. intros H Hk. apply bind_ext; [done|]. intros [a|e] s'; [apply Hk|done]. Qed.

Lemma fold_ok_ext {S A B} (f g : B -> A -> M S (result B)) l b s :
  (forall b x s', x ∈ l -> f b x s' = g b x s') -> fold_ok f b l s = fold_ok g b l s.
Proof.
  revert b s. induction l as [|x l IH]; intros b s H; [done|]. simpl.
  apply bind_ok_ext; [apply H; left|].
  intros b' s'. apply IH. intros. apply H. by right.
Qed.

Lemma for_each_ext {S A} (f g : A -> M S unit) l s :
  (forall x s', x ∈ l -> f x s' = g x s') -> for_each f l s = for_each g l s.
Proof.
  revert s. induction l as [|x l IH]; intros s H; [done|]. simpl.
  apply bind_ext; [apply H; left|].
  intros _ s'. apply IH. intros. apply H. by right.
Qed.

(** ** Go maps *)

Lemma mget_mput_eq {A} k (a : A) m : mget k (mput k a m) = Some a.
Proof.
  induction m as [|[k' a'] m IH]; simpl; [by rewrite String.eqb_refl|].
  destruct (String.eqb k k') eqn:E; simpl; by rewrite E.
Qed.

Lemma mget_mput_ne {A} k k' (a : A) m : k <> k' -> mget k (mput k' a m) = mget k m.
Proof.
  intros Hne. apply String.eqb_neq in Hne.
  induction m as [|[k1 a1] m IH]; simpl; [by rewrite Hne|].
  destruct (String.eqb k' k1) eqn:E; simpl; [|by rewrite IH].
  apply String.eqb_eq in E as ->. by rewrite Hne.
Qed.

Lemma mget_mdel_eq {A} k (m : gomap A) : mget k (mdel k m) = None.
Proof.
  induction m as [|[k' a] m IH]; [done|]. cbn.
  destruct (String.eqb k k') eqn:E; cbn; [done|]. by rewrite E.
Qed.

Lemma mget_mdel_ne {A} k k' (m : gomap A) : k <> k' -> mget k (mdel k' m) = mget k m.
Proof.
  intros Hne. unfold mdel. induction m as [|[k1 a] m IH]; [done|]. cbn.
  destruct (String.eqb k' k1) eqn:E; cbn; [|by rewrite IH].
  apply String.eqb_eq in E as ->. apply String.eqb_neq in Hne. by rewrite Hne.
Qed.

Lemma mget_Some_elem {A} k (a : A) m : mget k m = Some a -> (k, a) ∈ m.
Proof.
  induction m as [|[k' a'] m IH]; simpl; [done|].
  destruct (String.eqb k k') eqn:E; intros ?; simplify_eq.
  - apply String.eqb_eq in E as ->. left.
  - right. auto.
Qed.

Lemma mget_elem {A} k (a : A) m : mwf m -> (k, a) ∈ m -> mget k m = Some a.
Proof.
  unfold mwf. induction m as [|[k' a'] m IH]; intros Hnd Hin; [by apply elem_of_nil in Hin|].
  simpl in *. apply NoDup_cons in Hnd as [Hk Hnd].
  apply elem_of_cons in Hin as [[= -> ->]|Hin]; [by rewrite String.eqb_refl|].
  destruct (String.eqb k k') eqn:E; [|auto].
  apply String.eqb_eq in E as ->. destruct Hk.
  apply list_elem_of_fmap. by exists (k', a).
Qed.

Lemma mget_None {A} k (m : gomap A) : mget k m = None <-> k ∉ mkeys m.
Proof.
  induction m as [|[k' a'] m IH]; simpl; [split; [by intros _ ?%elem_of_nil|done]|].
  rewrite not_elem_of_cons.
  destruct (String.eqb k k') eqn:E.
  - apply String.eqb_eq in E as ->. naive_solver.
  - apply String.eqb_neq in E. naive_solver.
Qed.

Lemma mput_fresh {A} k (a : A) m : k ∉ mkeys m -> mput k a m = m ++ [(k, a)].
Proof.
  induction m as [|[k' a'] m IH]; simpl; [done|]. intros [Hne Hk]%not_elem_of_cons.
  apply String.eqb_neq in Hne as ->. by rewrite IH.
Qed.

Lemma mkeys_mput {A} k (a : A) m x : x ∈ mkeys (mput k a m) <-> x = k \/ x ∈ mkeys m.
Proof.
  induction m as [|[k' a'] m IH]; simpl.
  - rewrite list_elem_of_singleton, elem_of_nil. naive_solver.
  - destruct (String.eqb k k') eqn:E; simpl; rewrite !elem_of_cons.
    + apply String.eqb_eq in E as ->. naive_solver.
    + rewrite IH. naive_solver.
Qed.

Lemma mwf_mput {A} k (a : A) m : mwf m -> mwf (mput k a m).
Proof.
  unfold mwf. induction m as [|[k' a'] m IH]; simpl; intros Hm.
  - apply NoDup_cons; split; [apply not_elem_of_nil|constructor].
  - apply NoDup_cons in Hm as [Hk Hm]. destruct (String.eqb k k') eqn:E; simpl.
    + apply String.eqb_eq in E as ->. by apply NoDup_cons.
    + apply NoDup_cons. split; [|auto].
      apply String.eqb_neq in E. rewrite mkeys_mput. naive_solver.
Qed.

Lemma mwf_mdel {A} k (m : gomap A) : mwf m -> mwf (mdel k m).
Proof.
  unfold mwf. induction m as [|[k' a'] m IH]; [done|]. cbn. intros [Hk Hm]%NoDup_cons.
  destruct (String.eqb k k'); cbn; [auto|]. apply NoDup_cons. split; [|auto].
  intros Hin. apply Hk. apply list_elem_of_fmap in Hin as [[k1 a1] [-> Hin]].
  apply list_elem_of_fmap. exists (k1, a1). split; [done|].
  apply list_elem_of_In in Hin. apply filter_In in Hin as [Hin _]. by apply list_elem_of_In.
Qed.

Lemma mget_app {A} k (m1 m2 : gomap A) :
  mget k (m1 ++ m2) = match mget k m1 with Some a => Some a | None => mget k m2 end.
Proof. induction m1 as [|[k' a'] m IH]; simpl; [done|]. by destruct (String.eqb k k'). Qed.

Lemma mget_map {A B} (f : A -> B) k (m : gomap A) :
  mget k (map (fun e => (fst e, f (snd e))) m) = option_map f (mget k m).
Proof. induction m as [|[k' a'] m IH]; simpl; [done|]. by destruct (String.eqb k k'). Qed.

(** ** Decimal text round trips *)

Lemma parse_format_int z : in_int64 z -> parse_int (format_int z) = Some z.
Proof.
  unfold parse_int, format_int, in_int64. intros Hz.
  assert (Hi : NilZero.int_of_string (NilZero.string_of_int (Z.to_int z)) = Some (Z.to_int z)).
  { apply NilZero.isi; destruct z; simpl; try discriminate;
      intros [= H]; (pose proof (f_equal (fun d => Pos.of_uint d) H) as H'; simpl in H';
      rewrite ?DecimalPos.Unsigned.of_to in H'; done). }
  assert (Hs : (match NilZero.string_of_int (Z.to_int z) with
    | String "+" s' => match s' with String "-" _ => None | _ => NilZero.int_of_string s' end
    | _ => NilZero.int_of_string (NilZero.string_of_int (Z.to_int z)) end) = Some (Z.to_int z)).
  { rewrite <- Hi. destruct z as [|p|p]; simpl; [done| |done].
    unfold NilZero.string_of_uint. by destruct (Pos.to_uint p). }
  rewrite Hs, DecimalZ.of_to, decide_True; done.
Qed.

Lemma parse_format_bool b : parse_bool (format_bool b) = Some b.
Proof. by destruct b. Qed.

(** ** Bytes of a string *)

Fixpoint str_forallb (P : ascii -> bool) (s : string) : bool :=
  match s with EmptyString => true | String a s' => P a && str_forallb P s' end.

(** No byte of the string is [c]. *)
Definition free_of (c : ascii) (s : string) : bool :=
  str_forallb (fun a => negb (Ascii.eqb a c)) s.

Definition is_digit (a : ascii) : bool :=
  (N.leb (N_of_ascii "0") (N_of_ascii a) && N.leb (N_of_ascii a) (N_of_ascii "9"))%N.

Lemma str_forallb_impl P Q s :
  (forall a, P a = true -> Q a = true) -> str_forallb P s = true -> str_forallb Q s = true.
Proof.
  intros H. induction s as [|a s IH]; [done|]. simpl.
  rewrite !andb_true_iff. naive_solver.
Qed.

Lemma string_of_uint_digits d : str_forallb is_digit (NilEmpty.string_of_uint d) = true.
Proof. by induction d. Qed.

Lemma format_int_bytes z :
  str_forallb (fun a => is_digit a || Ascii.eqb a "-") (format_int z) = true.
Proof.
  assert (Hu : forall d, str_forallb (fun a => is_digit a || Ascii.eqb a "-")
                 (NilZero.string_of_uint d) = true).
  { intros d. apply (str_forallb_impl is_digit); [by intros a ->|].
    destruct d; [done|apply (string_of_uint_digits (_ d))..]. }
  unfold format_int. destruct (Z.to_int z) as [d|d]; simpl; apply Hu.
Qed.

Lemma format_int_nonempty z : format_int z <> "".
Proof.
  unfold format_int. destruct z as [|p|p]; simpl; [done| |done]. unfold NilZero.string_of_uint.
  by destruct (Pos.to_uint p).
Qed.

Lemma format_int_free c z :
  is_digit c = false -> c <> "-"%char -> free_of c (format_int z) = true.
Proof.
  intros Hd Hc. eapply str_forallb_impl; [|apply format_int_bytes].
  intros a Ha. destruct (Ascii.eqb_spec a c) as [->|]; [|done].
  rewrite Hd in Ha. simpl in Ha. by apply Ascii.eqb_eq in Ha.
Qed.

Lemma format_nat_slash n : free_of slash (format_nat n) = true.
Proof. by apply format_int_free. Qed.

Lemma format_int_inj z1 z2 : format_int z1 = format_int z2 -> z1 = z2.
Proof.
  unfold format_int. intros H.
  assert (Hz : forall z, NilZero.int_of_string (NilZero.string_of_int (Z.to_int z)) = Some (Z.to_int z)).
  { intros z. apply NilZero.isi; destruct z; simpl; try discriminate;
      intros [= E]; (pose proof (f_equal (fun d => Pos.of_uint d) E) as E'; simpl in E';
      rewrite ?DecimalPos.Unsigned.of_to in E'; done). }
  pose proof (Hz z1) as H1. rewrite H, Hz in H1. injection H1 as H1.
  apply (f_equal Z.of_int) in H1. by rewrite !DecimalZ.of_to in H1.
Qed.

Lemma format_nat_inj n1 n2 : format_nat n1 = format_nat n2 -> n1 = n2.
Proof. intros ?%format_int_inj. lia. Qed.

Lemma str_app_nil t : "" +:+ t = t.
Proof. done. Qed.
Lemma str_app_cons a s t : String a s +:+ t = String a (s +:+ t).
Proof. done. Qed.

Create HintDb str_db.
Create HintDb height_db.
#[export] Hint Rewrite str_app_nil str_app_cons : str_db.

(** Induction over a string, with appends unfolded. *)
Ltac str_induction s :=
  let a := fresh "a" in let IH := fresh "IH" in
  induction s as [|a s IH]; simpl; autorewrite with str_db; simpl.

Lemma split_on_free c s : free_of c s = true -> split_on c s = [s].
Proof.
  unfold free_of. str_induction s; [done|].
  rewrite andb_true_iff, negb_true_iff. intros [-> Hs]. by rewrite IH.
Qed.

Lemma split_on_app c s1 s2 :
  free_of c s1 = true -> split_on c (s1 +:+ String c s2) = s1 :: split_on c s2.
Proof.
  unfold free_of. str_induction s1; [by rewrite Ascii.eqb_refl|].
  rewrite andb_true_iff, negb_true_iff. intros [-> Hs]. by rewrite IH.
Qed.

Lemma split_on_cut c s t : split_on c (s +:+ String c t) = split_on c s ++ split_on c t.
Proof.
  induction s as [|a s IH]; [rewrite str_app_nil; simpl; by rewrite Ascii.eqb_refl|].
  rewrite str_app_cons. simpl. destruct (Ascii.eqb a c); [by rewrite IH|]. rewrite IH.
  destruct (split_on c s) as [|h l] eqn:E; [|done]. by destruct s; simpl in E; repeat case_match.
Qed.

Lemma str_forallb_app P s t : str_forallb P (s +:+ t) = str_forallb P s && str_forallb P t.
Proof.
  induction s as [|a s IH]; [done|]. rewrite str_app_cons. simpl. by rewrite IH, andb_assoc.
Qed.

Lemma str_app_assoc s1 s2 s3 : (s1 +:+ s2) +:+ s3 = s1 +:+ (s2 +:+ s3).
Proof. str_induction s1; congruence. Qed.
Lemma str_app_empty_r s : s +:+ "" = s.
Proof. str_induction s; congruence. Qed.
Lemma str_length_app s1 s2 :
  String.length (s1 +:+ s2) = (String.length s1 + String.length s2)%nat.
Proof. str_induction s1; congruence. Qed.
Lemma str_app_inv_head s s1 s2 : s +:+ s1 = s +:+ s2 -> s1 = s2.
Proof. str_induction s; [done|]. intros [= H]. auto. Qed.

Lemma str_app_inv_tail s1 s2 s : s1 +:+ s = s2 +:+ s -> s1 = s2.
Proof.
  intros Hs. pose proof (f_equal String.length Hs) as Hl. rewrite !str_length_app in Hl.
  revert s2 Hs Hl. induction s1 as [|a s1 IH]; intros [|b s2]; simpl; intros; try lia; [done|].
  autorewrite with str_db in *. simplify_eq. f_equal. apply IH; [done|lia].
Qed.

Lemma prefix_app p s : String.prefix p (p +:+ s) = true.
Proof. str_induction p; [by destruct s|]. destruct (ascii_dec a a); done. Qed.

Lemma prefix_true p s : String.prefix p s = true <-> exists t, s = p +:+ t.
Proof.
  split; [|intros [t ->]; apply prefix_app].
  revert s. induction p as [|a p IH]; intros s; [by exists s|].
  destruct s as [|b s]; simpl; [done|]. destruct (ascii_dec a b) as [->|]; [|done].
  intros [t ->]%IH. by exists t.
Qed.

Lemma str_drop_app p s : str_drop (String.length p) (p +:+ s) = s.
Proof. str_induction p; done. Qed.

Lemma str_take_app p s : str_take (String.length p) (p +:+ s) = p.
Proof. str_induction p; congruence. Qed.

Lemma has_suffix_end suf s : has_suffix suf (s +:+ suf) = true.
Proof.
  unfold has_suffix. rewrite str_length_app, Nat.add_sub, str_drop_app, String.eqb_refl, andb_true_r.
  apply Nat.leb_le. lia.
Qed.

Lemma trim_suffix_end suf s : trim_suffix suf (s +:+ suf) = s.
Proof. unfold trim_suffix. by rewrite has_suffix_end, str_length_app, Nat.add_sub, str_take_app. Qed.

Lemma has_prefix_app p s : has_prefix p (p +:+ s) = true.
Proof. unfold has_prefix. by rewrite prefix_app. Qed.

Lemma trim_prefix_app p s : trim_prefix p (p +:+ s) = s.
Proof. unfold trim_prefix, has_prefix. by rewrite prefix_app, str_drop_app. Qed.

Lemma trim_prefix_empty s : trim_prefix "" s = s.
Proof. unfold trim_prefix, has_prefix. by destruct s. Qed.
