(* ===== verification/Ordering.v ===== *)
(** The byte order of strings, and what [sort.Strings] gives. *)
From Stdlib Require Import Sorted OrdersEx.
From stdpp Require Import sorting.
From S2P Require Import Prelude.

Lemma insert_sorted_perm x l : insert_sorted x l ≡ₚ x :: l.
Proof.
  induction l as [|y l IH]; [done|]. simpl. destruct (String.leb x y); [done|]. rewrite IH. apply Permutation_swap.
Qed.

Lemma sort_strings_perm l : sort_strings l ≡ₚ l.
Proof. induction l as [|x l IH]; [done|]. simpl. by rewrite insert_sorted_perm, IH. Qed.

Lemma leb_total x y : String.leb x y = false -> String.leb y x = true.
Proof. intros H. by destruct (String.leb_total x y) as [?|?]; [congruence|]. Qed.

Lemma insert_sorted_HdRel (x y : string) l :
  HdRel (fun a b => String.leb a b = true) y l -> String.leb y x = true ->
  HdRel (fun a b => String.leb a b = true) y (insert_sorted x l).
Proof. intros Hl Hyx. destruct l as [|z l]; simpl; [by constructor|]. inversion Hl; subst. destruct (String.leb x z); by constructor. Qed.

Lemma sort_strings_sorted l : Sorted (fun a b => String.leb a b = true) (sort_strings l).
Proof.
  induction l as [|x l IH]; [constructor|]. simpl. induction IH as [|y l' Hs IH Hd]; [by repeat constructor|].
  simpl. destruct (String.leb x y) eqn:E.
  - constructor; [by constructor|by constructor].
  - constructor; [done|]. apply insert_sorted_HdRel; [done|by apply leb_total].
Qed.

Lemma compare_strings x y : String.compare x y = String_as_OT.compare x y.
Proof. revert y. induction x as [|a x IH]; intros [|b y]; simpl; done. Qed.

Lemma leb_not_gt x y : String.leb x y = true <-> String_as_OT.compare x y <> Gt.
Proof. unfold String.leb. rewrite compare_strings. by destruct (String_as_OT.compare x y). Qed.

#[export] Instance leb_transitive : Transitive (fun x y => String.leb x y = true).
Proof.
  intros x y z. rewrite !leb_not_gt.
  destruct (String_as_OT.compare_spec x y) as [->|Hxy|]; [done| |congruence].
  destruct (String_as_OT.compare_spec y z) as [<-|Hyz|]; [by rewrite Hxy| |congruence].
  assert (Hlt : String_as_OT.lt x z) by by etransitivity. by rewrite Hlt.
Qed.

#[export] Instance leb_antisymmetric : AntiSymm (=) (fun x y => String.leb x y = true).
Proof. intros x y. apply String.leb_antisym. Qed.

Lemma sort_strings_unique l1 l2 : l1 ≡ₚ l2 -> sort_strings l1 = sort_strings l2.
Proof.
  intros Hl. apply (Sorted_unique (fun x y => String.leb x y = true)); [apply sort_strings_sorted..|].
  by rewrite !sort_strings_perm.
Qed.

(** The last of the sorted strings *)
Lemma last_of_sorted l : l <> [] ->
  List.last (sort_strings l) "" ∈ l /\ forall x, x ∈ l -> String.leb x (List.last (sort_strings l) "") = true.
Proof.
  intros Hne.
  assert (Hs : sort_strings l <> []).
  { intros E. apply Hne, Permutation_nil_r. by rewrite <- E, sort_strings_perm. }
  assert (Hsub : forall x, x ∈ l <-> x ∈ sort_strings l) by (intros x; by rewrite sort_strings_perm).
  destruct (exists_last Hs) as (front & x & Ex).
  assert (H : StronglySorted (fun x y => String.leb x y = true) (sort_strings l)).
  { apply Sorted_StronglySorted; [exact _|apply sort_strings_sorted]. }
  rewrite Ex in *. rewrite last_last. split; [apply Hsub, elem_of_app; right; by left|].
  intros y [Hy|Hy]%Hsub%elem_of_app.
  - clear -Hy H. induction front as [|z front IH]; [by apply elem_of_nil in Hy|]. simpl in H. apply StronglySorted_inv in H as [Hf Hall].
    apply elem_of_cons in Hy as [->|Hy]; [|by apply IH]. rewrite Forall_forall in Hall. apply Hall, elem_of_app. right. by left.
  - apply list_elem_of_singleton in Hy as ->. by destruct (String.leb_total x x).
Qed.
