(* ===== verification/Values.v ===== *)
(** Go values: what [interface{}] holds in request and response payloads,
    [float64] with its conversions, and what [encoding/json] accepts.

    Interface values are the type [value]; a JSON object decoded by
    [json.Unmarshal] holds [VNil], [VBool], [VFloat], [VString], [VArray] and
    [VObject] only, the other constructors are built by the program itself
    ([VInt] an [int], [VInt64] an [int64], [VStrings] a [[]string]).  A
    document travels as the value it encodes: a request body is either
    malformed or a value, a response body is absent, a literal text or the
    value that was marshalled. *)
From S2P Require Import Prelude.
From Stdlib Require Import SpecFloat.

(* ===================================================================== *)
(** * float64                                                            *)
(* ===================================================================== *)

(** IEEE 754 binary64, as the standard library specifies it. *)
Definition float64 : Type := spec_float.

Definition float_lt (a b : float64) : bool := SFltb a b.

Definition float_of_Z (z : Z) : float64 := binary_normalize 53 1024 z 0 false.

(** A finite number: what a JSON document can hold. *)
Definition float_finite (f : float64) : bool :=
  match f with
  | S754_zero _ => true
  | S754_finite _ _ _ => valid_binary 53 1024 f
  | _ => false
  end.

(** The integer part, toward zero. *)
Definition float_trunc (f : float64) : Z :=
  match f with
  | S754_finite neg m e =>
      let a := if Z.leb 0 e then Z.pos m * 2 ^ e else Z.pos m / 2 ^ (- e) in
      if neg then - a else a
  | _ => 0
  end.

(** The conversions between float64, text and int64 that Go leaves to
    [strconv]'s shortest-decimal algorithm and to the hardware:
    [fmt.Sprint(f)] (= [FormatFloat(f, 'g', -1, 64)]), [strconv.ParseFloat],
    and [int64(f)] of an [f] out of range, which the language leaves
    implementation-dependent.  What the code relies on is the documented
    round trip of the shortest form. *)
Class FloatText := {
  format_float : float64 -> string;
  parse_float : string -> option float64;
  int64_of_big : float64 -> Z;
  parse_format_float : forall f, float_finite f = true -> parse_float (format_float f) = Some f;
  format_float_nonempty : forall f, float_finite f = true -> format_float f <> "";
}.

(** [int64(f)] *)
Definition float_to_int64 `{FloatText} (f : float64) : Z :=
  let z := float_trunc f in
  if float_finite f && Z.leb int64_min z && Z.leb z int64_max then z else int64_of_big f.

(* ===================================================================== *)
(** * interface{} values                                                 *)
(* ===================================================================== *)

Inductive value :=
  | VNil
  | VBool (b : bool)
  | VFloat (f : float64)
  | VInt (z : Z)
  | VInt64 (z : Z)
  | VString (s : string)
  | VStrings (l : list string)
  | VArray (l : list value)
  | VObject (m : list (string * value)).

(** A [map[string]interface{}] *)
Abbreviation object := (gomap value).

(** [json.Marshal] fails exactly on a float that is not a number. *)
Fixpoint marshalable (v : value) : bool :=
  match v with
  | VFloat (S754_infinity _) | VFloat S754_nan => false
  | VArray l => forallb marshalable l
  | VObject m => forallb (fun e => marshalable (snd e)) m
  | _ => true
  end.

(** A request body, as [json.Unmarshal] into a [map[string]interface{}] sees
    it; [null] leaves the map nil, any other non-object is an error. *)
Inductive request_body := BodyMalformed | BodyValue (v : value).
Definition Unmarshal_map (b : request_body) : option object :=
  match b with
  | BodyValue (VObject m) => Some m
  | BodyValue VNil => Some []
  | _ => None
  end.

(** A response body. *)
Inductive body := NoBody | TextBody (s : string) | JsonBody (v : value).
Definition body_nil (b : body) : bool := match b with NoBody => true | _ => false end.

Definition Marshal (v : value) : option body :=
  if marshalable v then Some (JsonBody v) else None.

(** ** Type assertions *)

Definition not_a (t : string) : string := "interface conversion: interface {} is not " +:+ t.

Definition assert_string {S} (v : option value) : M S string :=
  match v with Some (VString s) => ret s | _ => panic (not_a "string") end.
Definition assert_object {S} (v : option value) : M S object :=
  match v with Some (VObject m) => ret m | _ => panic (not_a "map[string]interface {}") end.
Definition assert_array {S} (v : option value) : M S (list value) :=
  match v with Some (VArray l) => ret l | _ => panic (not_a "[]interface {}") end.
Definition assert_float {S} (v : option value) : M S float64 :=
  match v with Some (VFloat f) => ret f | _ => panic (not_a "float64") end.

Definition index_out_of_range : string := "runtime error: index out of range".
(** [l[i]] *)
Definition index_list {S A} (l : list A) (i : nat) : M S A :=
  match l !! i with Some a => ret a | None => panic index_out_of_range end.

(** A missing key of a map reads as nil. *)
Definition or_nil (v : option value) : value := match v with Some v => v | None => VNil end.

(* ===================================================================== *)
(** * Values up to the order of map entries                              *)
(* ===================================================================== *)

(** Two values are equivalent when they differ only in the order in which
    their maps list their entries: what [reflect.DeepEqual] and the JSON
    text (whose keys [json.Marshal] sorts) identify. *)
Inductive value_equiv : value -> value -> Prop :=
  | equiv_refl v : value_equiv v v
  | equiv_array l1 l2 : Forall2 value_equiv l1 l2 -> value_equiv (VArray l1) (VArray l2)
  | equiv_object m1 m2 m :
      Permutation m1 m ->
      Forall2 (fun a b => fst a = fst b /\ value_equiv (snd a) (snd b)) m m2 ->
      value_equiv (VObject m1) (VObject m2).

Definition entry_equiv (a b : string * value) : Prop :=
  fst a = fst b /\ value_equiv (snd a) (snd b).

Definition object_equiv (m1 m2 : object) : Prop :=
  exists m, Permutation m1 m /\ Forall2 entry_equiv m m2.

(** Induction over values, through the lists. *)
Section value_induction.
Variable P : value -> Prop.
Hypothesis HLeaf : forall v, (forall l, v <> VArray l) -> (forall m, v <> VObject m) -> P v.
Hypothesis HArray : forall l, Forall P l -> P (VArray l).
Hypothesis HObject : forall m, Forall (fun e => P (snd e)) m -> P (VObject m).
Fixpoint value_induction (v : value) : P v :=
  match v with
  | VArray l => HArray l
      ((fix go l := match l return Forall P l with
        | [] => Forall_nil_2 P
        | x :: l' => Forall_cons_2 P x l' (value_induction x) (go l') end) l)
  | VObject m => HObject m
      ((fix go m := match m return Forall (fun e => P (snd e)) m with
        | [] => Forall_nil_2 _
        | x :: m' => Forall_cons_2 _ x m' (value_induction (snd x)) (go m') end) m)
  | v => HLeaf v ltac:(discriminate) ltac:(discriminate)
  end.
End value_induction.

(* ===================================================================== *)
(** * A concrete float text                                              *)
(* ===================================================================== *)

(** Sign, mantissa and binary exponent in decimal: a text form that witnesses
    that the laws of [FloatText] can hold. *)
Definition format_b (f : float64) : string :=
  match f with
  | S754_zero neg => if neg then "00" else "0"
  | S754_infinity neg => if neg then "ii" else "i"
  | S754_nan => "n"
  | S754_finite neg m e =>
      String (if neg then "-" else "+")%char
        (format_int (Z.pos m) +:+ String "p" (format_int e))
  end.

Definition parse_b (s : string) : option float64 :=
  match s with
  | String "0" t => Some (S754_zero (negb (String.eqb t "")))
  | String "i" t => Some (S754_infinity (negb (String.eqb t "")))
  | String "n" _ => Some S754_nan
  | String c t =>
      match split_on "p" t with
      | [m; e] =>
          match parse_int m, parse_int e with
          | Some (Zpos m), Some e => Some (S754_finite (Ascii.eqb c "-") m e)
          | _, _ => None
          end
      | _ => None
      end
  | EmptyString => None
  end.

(* ===================================================================== *)
(** * Lemmas                                                             *)
(* ===================================================================== *)

Lemma finite_bounds neg m e :
  valid_binary 53 1024 (S754_finite neg m e) = true ->
  in_int64 (Z.pos m) /\ in_int64 e.
Proof.
  unfold valid_binary, bounded, canonical_mantissa, fexp, emin, in_int64, int64_min, int64_max.
  rewrite andb_true_iff. intros [H1%Z.eqb_eq H2%Zle_bool_imp_le].
  assert (Hd : forall p, Z.pos p < 2 ^ Z.pos (digits2_pos p)).
  { induction p as [p IH|p IH|]; simpl digits2_pos; [| |done];
      rewrite Pos2Z.inj_succ, Z.pow_succ_r by lia; lia. }
  pose proof (Hd m).
  assert (Z.pos (digits2_pos m) <= 53) by lia.
  assert (2 ^ Z.pos (digits2_pos m) <= 2 ^ 53) by (apply Z.pow_le_mono_r; lia).
  lia.
Qed.

Lemma parse_format_b f : float_finite f = true -> parse_b (format_b f) = Some f.
Proof.
  destruct f as [[]|[]| |neg m e]; try done.
  intros [Hm He]%(finite_bounds neg). unfold parse_b, format_b.
  destruct neg; rewrite split_on_app, split_on_free by (by apply format_int_free);
    by rewrite !parse_format_int.
Qed.

Lemma format_b_nonempty f : float_finite f = true -> format_b f <> "".
Proof. by destruct f as [[]|[]| |[] ? ?]. Qed.

(** A [FloatText] that satisfies its laws. *)
#[export] Instance float_text_b : FloatText := {|
  format_float := format_b;
  parse_float := parse_b;
  int64_of_big _ := int64_min;
  parse_format_float := parse_format_b;
  format_float_nonempty := format_b_nonempty;
|}.
