(* ===== verification/Redis.v ===== *)
(** The Redis server, as the interface the program relies on.

    The server is not part of the program: [RedisOps] is the set of commands
    the code issues through go-redis, over an abstract type of server
    states, and [RedisLaws] states their documented behaviour on the
    keyspace (a map from keys to strings, sets, lists and hashes).  Every
    component is written against [RedisOps] and proved against [RedisLaws];
    [memstore] is an in-memory server that satisfies both, on which the
    concrete examples run.  Failures of the connection are not modelled:
    a command answers, possibly with an error reply. *)
From S2P Require Import Prelude.

(* ===================================================================== *)
(** * The keyspace                                                       *)
(* ===================================================================== *)

Inductive rval :=
  | RStr (s : string)
  | RSet (X : gset string)
  | RList (l : list string)
  | RHash (h : gmap string string).

Abbreviation keys := (gmap string rval).

#[export] Instance rval_eq_dec : EqDecision rval.
Proof. solve_decision. Defined.

Definition arity_error (cmd : string) : go_error :=
  ErrText ("ERR wrong number of arguments for '" +:+ cmd +:+ "' command").

(** ** The documented effect of each command *)

Definition get_reply (v : option rval) : result string :=
  match v with
  | Some (RStr s) => Ok s
  | None => Err ErrRedisNil
  | _ => Err ErrWrongType
  end.

Definition type_reply (v : option rval) : string :=
  match v with
  | None => "none"
  | Some (RStr _) => "string"
  | Some (RSet _) => "set"
  | Some (RList _) => "list"
  | Some (RHash _) => "hash"
  end.

(** [LRANGE k 0 -1] *)
Definition lrange_reply (v : option rval) : result (list string) :=
  match v with
  | None => Ok []
  | Some (RList l) => Ok l
  | _ => Err ErrWrongType
  end.

Definition hgetall_reply (v : option rval) : result (gmap string string) :=
  match v with
  | None => Ok ∅
  | Some (RHash h) => Ok h
  | _ => Err ErrWrongType
  end.

(** The members of a set, as [SMEMBERS] reports them: in some order. *)
Inductive smembers_reply : option rval -> result (list string) -> Prop :=
  | smembers_missing : smembers_reply None (Ok [])
  | smembers_set X l : l ≡ₚ elements X -> smembers_reply (Some (RSet X)) (Ok l)
  | smembers_str s : smembers_reply (Some (RStr s)) (Err ErrWrongType)
  | smembers_list l : smembers_reply (Some (RList l)) (Err ErrWrongType)
  | smembers_hash h : smembers_reply (Some (RHash h)) (Err ErrWrongType).

Definition set_effect (k v : string) (ks : keys) : result unit * keys :=
  (Ok tt, <[k := RStr v]> ks).

Definition sadd_effect (k : string) (ms : list string) (ks : keys) : result unit * keys :=
  match ms with
  | [] => (Err (arity_error "sadd"), ks)
  | _ =>
      match ks !! k with
      | None => (Ok tt, <[k := RSet (list_to_set ms)]> ks)
      | Some (RSet X) => (Ok tt, <[k := RSet (X ∪ list_to_set ms)]> ks)
      | _ => (Err ErrWrongType, ks)
      end
  end.

Definition srem_effect (k m : string) (ks : keys) : result unit * keys :=
  match ks !! k with
  | None => (Ok tt, ks)
  | Some (RSet X) =>
      let X' := X ∖ {[m]} in
      (Ok tt, if decide (X' = ∅) then delete k ks else <[k := RSet X']> ks)
  | _ => (Err ErrWrongType, ks)
  end.

Definition rpush_effect (k : string) (vs : list string) (ks : keys) : result unit * keys :=
  match vs with
  | [] => (Err (arity_error "rpush"), ks)
  | _ =>
      match ks !! k with
      | None => (Ok tt, <[k := RList vs]> ks)
      | Some (RList l) => (Ok tt, <[k := RList (l ++ vs)]> ks)
      | _ => (Err ErrWrongType, ks)
      end
  end.

(** [LREM k 0 v]: every element equal to [v] *)
Definition lrem_effect (k v : string) (ks : keys) : result unit * keys :=
  match ks !! k with
  | None => (Ok tt, ks)
  | Some (RList l) =>
      let l' := base.filter (fun x => x <> v) l in
      (Ok tt, match l' with [] => delete k ks | _ => <[k := RList l']> ks end)
  | _ => (Err ErrWrongType, ks)
  end.

Definition hmset_effect (k : string) (h : gmap string string) (ks : keys) : result unit * keys :=
  if decide (h = ∅) then (Err (arity_error "hmset"), ks)
  else match ks !! k with
       | None => (Ok tt, <[k := RHash h]> ks)
       | Some (RHash h') => (Ok tt, <[k := RHash (h ∪ h')]> ks)
       | _ => (Err ErrWrongType, ks)
       end.

Definition renamenx_effect (k k' : string) (ks : keys) : result bool * keys :=
  match ks !! k with
  | None => (Err (ErrText "ERR no such key"), ks)
  | Some v =>
      match ks !! k' with
      | Some _ => (Ok false, ks)
      | None => (Ok true, <[k' := v]> (delete k ks))
      end
  end.

(* ===================================================================== *)
(** * The interface                                                      *)
(* ===================================================================== *)

(** The commands, as actions on the state [S] the server is part of. *)
Class RedisOps (S : Type) := {
  redis_get : string -> M S (result string);
  redis_type : string -> M S (result string);
  redis_exists : string -> M S (result bool);
  redis_smembers : string -> M S (result (list string));
  redis_lrange : string -> M S (result (list string));
  redis_hgetall : string -> M S (result (gmap string string));
  redis_keys_with_prefix : string -> M S (result (list string));
  redis_set : string -> string -> M S (result unit);
  redis_del : string -> M S (result unit);
  redis_sadd : string -> list string -> M S (result unit);
  redis_srem : string -> string -> M S (result unit);
  redis_rpush : string -> list string -> M S (result unit);
  redis_lrem : string -> string -> M S (result unit);
  redis_hmset : string -> gmap string string -> M S (result unit);
  redis_renamenx : string -> string -> M S (result bool);
}.

(** An action that answers [r] and leaves the keyspace [ks']. *)
Definition answers {S A} (view : S -> keys) (m : M S A) (s : S) (r : A) (ks' : keys) : Prop :=
  exists s', m s = (Ret r, s') /\ view s' = ks'.

Class RedisLaws (S : Type) `{RedisOps S} := {
  keyspace : S -> keys;
  law_get k s : redis_get k s = (Ret (get_reply (keyspace s !! k)), s);
  law_type k s : redis_type k s = (Ret (Ok (type_reply (keyspace s !! k))), s);
  law_exists k s : redis_exists k s = (Ret (Ok (bool_decide (is_Some (keyspace s !! k)))), s);
  law_smembers k s : exists r,
    redis_smembers k s = (Ret r, s) /\ smembers_reply (keyspace s !! k) r;
  law_lrange k s : redis_lrange k s = (Ret (lrange_reply (keyspace s !! k)), s);
  law_hgetall k s : redis_hgetall k s = (Ret (hgetall_reply (keyspace s !! k)), s);
  law_keys p s : exists l,
    redis_keys_with_prefix p s = (Ret (Ok l), s) /\
    NoDup l /\ (forall k, k ∈ l <-> is_Some (keyspace s !! k) /\ has_prefix p k = true);
  law_set k v s : answers keyspace (redis_set k v) s
    (fst (set_effect k v (keyspace s))) (snd (set_effect k v (keyspace s)));
  law_del k s : answers keyspace (redis_del k) s (Ok tt) (delete k (keyspace s));
  law_sadd k ms s : answers keyspace (redis_sadd k ms) s
    (fst (sadd_effect k ms (keyspace s))) (snd (sadd_effect k ms (keyspace s)));
  law_srem k m s : answers keyspace (redis_srem k m) s
    (fst (srem_effect k m (keyspace s))) (snd (srem_effect k m (keyspace s)));
  law_rpush k vs s : answers keyspace (redis_rpush k vs) s
    (fst (rpush_effect k vs (keyspace s))) (snd (rpush_effect k vs (keyspace s)));
  law_lrem k v s : answers keyspace (redis_lrem k v) s
    (fst (lrem_effect k v (keyspace s))) (snd (lrem_effect k v (keyspace s)));
  law_hmset k h s : answers keyspace (redis_hmset k h) s
    (fst (hmset_effect k h (keyspace s))) (snd (hmset_effect k h (keyspace s)));
  law_renamenx k k' s : answers keyspace (redis_renamenx k k') s
    (fst (renamenx_effect k k' (keyspace s))) (snd (renamenx_effect k k' (keyspace s)));
}.

(* ===================================================================== *)
(** * An in-memory server                                                *)
(* ===================================================================== *)

Abbreviation memstore := (gmap string rval).

Definition mem_read {A} (f : keys -> A) : M memstore A := fun s => (Ret (f s), s).
Definition mem_write {A} (f : keys -> A * keys) : M memstore A := fun s =>
  (Ret (fst (f s)), snd (f s)).

Definition mem_smembers (k : string) (ks : keys) : result (list string) :=
  match ks !! k with
  | None => Ok []
  | Some (RSet X) => Ok (elements X)
  | _ => Err ErrWrongType
  end.

#[export] Instance memstore_ops : RedisOps memstore := {|
  redis_get k := mem_read (fun ks => get_reply (ks !! k));
  redis_type k := mem_read (fun ks => Ok (type_reply (ks !! k)));
  redis_exists k := mem_read (fun ks => Ok (bool_decide (is_Some (ks !! k))));
  redis_smembers k := mem_read (mem_smembers k);
  redis_lrange k := mem_read (fun ks => lrange_reply (ks !! k));
  redis_hgetall k := mem_read (fun ks => hgetall_reply (ks !! k));
  redis_keys_with_prefix p :=
    mem_read (fun ks => Ok (base.filter (fun k => has_prefix p k = true) (map fst (map_to_list ks))));
  redis_set k v := mem_write (set_effect k v);
  redis_del k := mem_write (fun ks => (Ok tt, delete k ks));
  redis_sadd k ms := mem_write (sadd_effect k ms);
  redis_srem k m := mem_write (srem_effect k m);
  redis_rpush k vs := mem_write (rpush_effect k vs);
  redis_lrem k v := mem_write (lrem_effect k v);
  redis_hmset k h := mem_write (hmset_effect k h);
  redis_renamenx k k' := mem_write (renamenx_effect k k');
|}.

(** ** A server next to other memory of the process *)

(** Run an action on the second component. *)
Definition on_snd {X S A} (m : M S A) : M (X * S) A := fun xs =>
  let '(o, s') := m (snd xs) in (o, (fst xs, s')).

#[export] Instance pair_ops X S `{RedisOps S} : RedisOps (X * S) := {|
  redis_get k := on_snd (redis_get k);
  redis_type k := on_snd (redis_type k);
  redis_exists k := on_snd (redis_exists k);
  redis_smembers k := on_snd (redis_smembers k);
  redis_lrange k := on_snd (redis_lrange k);
  redis_hgetall k := on_snd (redis_hgetall k);
  redis_keys_with_prefix p := on_snd (redis_keys_with_prefix p);
  redis_set k v := on_snd (redis_set k v);
  redis_del k := on_snd (redis_del k);
  redis_sadd k ms := on_snd (redis_sadd k ms);
  redis_srem k m := on_snd (redis_srem k m);
  redis_rpush k vs := on_snd (redis_rpush k vs);
  redis_lrem k v := on_snd (redis_lrem k v);
  redis_hmset k h := on_snd (redis_hmset k h);
  redis_renamenx k k' := on_snd (redis_renamenx k k');
|}.

(* ===================================================================== *)
(** * Lemmas                                                             *)
(* ===================================================================== *)

Lemma mem_write_answers {A} (f : keys -> A * keys) s :
  answers id (mem_write f) s (fst (f s)) (snd (f s)).
Proof. by eexists. Qed.

#[export] Program Instance memstore_laws : RedisLaws memstore := {|
  keyspace := id;
|}.
Solve Obligations with try (intros; (reflexivity || apply mem_write_answers)).
Next Obligation.
  intros k s. exists (mem_smembers k s). split; [reflexivity|].
  unfold mem_smembers, id. generalize (s !! k). intros [[]|]; by constructor.
Qed.
Next Obligation.
  intros p s. eexists. split; [reflexivity|]. split.
  - apply NoDup_filter, NoDup_fst_map_to_list.
  - intros k. rewrite list_elem_of_filter, list_elem_of_fmap. split.
    + intros [Hp [[k' v] [-> Hin%elem_of_map_to_list]]]. by split; [exists v|].
    + intros [[v Hv] Hp]. split; [done|]. exists (k, v). split; [done|].
      by apply elem_of_map_to_list.
Qed.

Section pair_laws.
Context {X S : Type} `{RedisLaws S}.

Lemma on_snd_read {A} (m : M S A) (xs : X * S) r :
  m (snd xs) = (Ret r, snd xs) -> on_snd m xs = (Ret r, xs).
Proof. unfold on_snd. intros ->. by destruct xs. Qed.

Lemma on_snd_answers {A} (m : M S A) (xs : X * S) r ks' :
  answers keyspace m (snd xs) r ks' ->
  answers (fun xs => keyspace (snd xs)) (on_snd m) xs r ks'.
Proof. intros (s' & E & <-). unfold answers, on_snd. rewrite E. eauto. Qed.

#[export] Program Instance pair_laws : RedisLaws (X * S) := {|
  keyspace xs := keyspace (snd xs);
|}.
Solve Obligations with try (intros; apply on_snd_read, law_get || apply on_snd_read, law_type
  || apply on_snd_read, law_exists || apply on_snd_read, law_lrange
  || apply on_snd_read, law_hgetall || apply on_snd_answers, law_set
  || apply on_snd_answers, law_del || apply on_snd_answers, law_sadd
  || apply on_snd_answers, law_srem || apply on_snd_answers, law_rpush
  || apply on_snd_answers, law_lrem || apply on_snd_answers, law_hmset
  || apply on_snd_answers, law_renamenx).
Next Obligation.
  intros k s. destruct (law_smembers k (snd s)) as (r & E & Hr).
  exists r. split; [by apply on_snd_read|done].
Qed.
Next Obligation.
  intros p s. destruct (law_keys p (snd s)) as (r & E & Hr).
  exists r. split; [by apply on_snd_read|done].
Qed.
End pair_laws.

(* ===================================================================== *)
(** * Weakest preconditions over the keyspace                            *)
(* ===================================================================== *)

Section wp.
Context {S : Type} `{RedisLaws S}.

(** From every server state whose keyspace is [ks], [m] ends with an
    outcome and a keyspace that satisfy [Q]. *)
Definition wp {A} (ks : keys) (m : M S A) (Q : outcome A -> keys -> Prop) : Prop :=
  forall s, keyspace s = ks -> Q (fst (m s)) (keyspace (snd (m s))).

(** [m] returns a value, and it satisfies [Q]. *)
Definition returns {A} (Q : A -> keys -> Prop) : outcome A -> keys -> Prop :=
  fun o ks => match o with Ret a => Q a ks | _ => False end.

Lemma wp_mono {A} ks (m : M S A) Q Q' :
  wp ks m Q -> (forall o ks', Q o ks' -> Q' o ks') -> wp ks m Q'.
Proof. unfold wp. auto. Qed.

Lemma wp_ret {A} ks (a : A) (Q : outcome A -> keys -> Prop) : Q (Ret a) ks -> wp ks (ret a) Q.
Proof. by intros ? ? <-. Qed.
Lemma wp_panic {A} ks msg (Q : outcome A -> keys -> Prop) :
  Q (Panic msg) ks -> wp ks (panic msg) Q.
Proof. by intros ? ? <-. Qed.
Lemma wp_fatal {A} ks msg (Q : outcome A -> keys -> Prop) :
  Q (Fatal msg) ks -> wp ks (fatal msg) Q.
Proof. by intros ? ? <-. Qed.

(** What follows [m] in [bind m k], as a postcondition of [m]. *)
Definition after {A B} (k : A -> M S B) (Q : outcome B -> keys -> Prop)
    (o : outcome A) (ks : keys) : Prop :=
  match o with
  | Ret a => wp ks (k a) Q
  | Panic msg => Q (Panic msg) ks
  | Fatal msg => Q (Fatal msg) ks
  | OutOfFuel => Q OutOfFuel ks
  end.

Lemma wp_bind {A B} ks (m : M S A) (k : A -> M S B) Q :
  wp ks m (after k Q) -> wp ks (bind m k) Q.
Proof.
  intros Hm s Hs. specialize (Hm s Hs). unfold bind.
  destruct (m s) as [[a|msg|msg|] s']; simpl in *; [by apply Hm|done..].
Qed.

Lemma wp_returns_bind {A B} ks (m : M S A) (k : A -> M S B) P Q :
  wp ks m (returns P) -> (forall a ks', P a ks' -> wp ks' (k a) Q) -> wp ks (bind m k) Q.
Proof.
  intros Hm Hk. apply wp_bind. eapply wp_mono; [exact Hm|].
  intros [a|?|?|] ks' HP; simpl in *; [by apply Hk|done..].
Qed.

Lemma wp_bind_ok {A B} ks (m : M S (result A)) (k : A -> M S (result B)) Q :
  wp ks m (after (fun r => match r with Ok a => k a | Err e => ret (Err e) end) Q) ->
  wp ks (bind_ok m k) Q.
Proof. apply wp_bind. Qed.

Lemma wp_must {A} ks (m : M S (result A)) Q :
  wp ks m (after (fun r => match r with Ok a => ret a | Err e => panic (err_string e) end) Q) ->
  wp ks (must m) Q.
Proof. apply wp_bind. Qed.

Lemma wp_read {A} ks (m : M S A) (r : keys -> A) (Q : outcome A -> keys -> Prop) :
  (forall s, m s = (Ret (r (keyspace s)), s)) -> Q (Ret (r ks)) ks -> wp ks m Q.
Proof. intros E HQ s <-. by rewrite E. Qed.

Lemma wp_eq {A} ks (m : M S A) a (Q : outcome A -> keys -> Prop) :
  (forall s, m s = (Ret a, s)) -> Q (Ret a) ks -> wp ks m Q.
Proof. intros E HQ s <-. by rewrite E. Qed.

Lemma wp_answers {A} ks (m : M S A) (eff : keys -> A * keys) (Q : outcome A -> keys -> Prop) :
  (forall s, answers keyspace m s (fst (eff (keyspace s))) (snd (eff (keyspace s)))) ->
  Q (Ret (fst (eff ks))) (snd (eff ks)) -> wp ks m Q.
Proof. intros E HQ s <-. destruct (E s) as (s' & -> & Hs'). simpl. by rewrite Hs'. Qed.

(** ** One rule per command *)
Lemma wp_get k ks Q : Q (Ret (get_reply (ks !! k))) ks -> wp ks (redis_get k) Q.
Proof. intros HQ. apply (wp_read ks _ (fun ks => get_reply (ks !! k))); [apply law_get|exact HQ]. Qed.
Lemma wp_type k ks Q : Q (Ret (Ok (type_reply (ks !! k)))) ks -> wp ks (redis_type k) Q.
Proof. intros HQ. apply (wp_read ks _ (fun ks => Ok (type_reply (ks !! k)))); [apply law_type|exact HQ]. Qed.
Lemma wp_exists k ks Q :
  Q (Ret (Ok (bool_decide (is_Some (ks !! k))))) ks -> wp ks (redis_exists k) Q.
Proof. intros HQ. apply (wp_read ks _ (fun ks => Ok (bool_decide (is_Some (ks !! k))))); [apply law_exists|exact HQ]. Qed.
Lemma wp_lrange k ks Q : Q (Ret (lrange_reply (ks !! k))) ks -> wp ks (redis_lrange k) Q.
Proof. intros HQ. apply (wp_read ks _ (fun ks => lrange_reply (ks !! k))); [apply law_lrange|exact HQ]. Qed.
Lemma wp_smembers k ks Q :
  (forall r, smembers_reply (ks !! k) r -> Q (Ret r) ks) -> wp ks (redis_smembers k) Q.
Proof. intros HQ s <-. destruct (law_smembers k s) as (r & -> & Hr). by apply HQ. Qed.
Lemma wp_set k v ks Q : Q (Ret (Ok tt)) (<[k := RStr v]> ks) -> wp ks (redis_set k v) Q.
Proof. intros HQ. apply (wp_answers ks _ (set_effect k v)); [apply law_set|exact HQ]. Qed.
Lemma wp_del k ks Q : Q (Ret (Ok tt)) (delete k ks) -> wp ks (redis_del k) Q.
Proof. intros HQ. apply (wp_answers ks _ (fun ks => (Ok tt, delete k ks))); [apply law_del|exact HQ]. Qed.
Lemma wp_sadd k ms ks (Q : outcome (result unit) -> keys -> Prop) :
  Q (Ret (fst (sadd_effect k ms ks))) (snd (sadd_effect k ms ks)) ->
  wp ks (redis_sadd k ms) Q.
Proof. intros HQ. apply (wp_answers ks _ (sadd_effect k ms)); [apply law_sadd|exact HQ]. Qed.
Lemma wp_srem k m ks (Q : outcome (result unit) -> keys -> Prop) :
  Q (Ret (fst (srem_effect k m ks))) (snd (srem_effect k m ks)) -> wp ks (redis_srem k m) Q.
Proof. intros HQ. apply (wp_answers ks _ (srem_effect k m)); [apply law_srem|exact HQ]. Qed.
Lemma wp_rpush k vs ks (Q : outcome (result unit) -> keys -> Prop) :
  Q (Ret (fst (rpush_effect k vs ks))) (snd (rpush_effect k vs ks)) ->
  wp ks (redis_rpush k vs) Q.
Proof. intros HQ. apply (wp_answers ks _ (rpush_effect k vs)); [apply law_rpush|exact HQ]. Qed.
Lemma wp_lrem k v ks (Q : outcome (result unit) -> keys -> Prop) :
  Q (Ret (fst (lrem_effect k v ks))) (snd (lrem_effect k v ks)) -> wp ks (redis_lrem k v) Q.
Proof. intros HQ. apply (wp_answers ks _ (lrem_effect k v)); [apply law_lrem|exact HQ]. Qed.
Lemma wp_hmset k h ks (Q : outcome (result unit) -> keys -> Prop) :
  Q (Ret (fst (hmset_effect k h ks))) (snd (hmset_effect k h ks)) -> wp ks (redis_hmset k h) Q.
Proof. intros HQ. apply (wp_answers ks _ (hmset_effect k h)); [apply law_hmset|exact HQ]. Qed.
Lemma wp_hgetall k ks Q : Q (Ret (hgetall_reply (ks !! k))) ks -> wp ks (redis_hgetall k) Q.
Proof. intros HQ. apply (wp_read ks _ (fun ks => hgetall_reply (ks !! k))); [apply law_hgetall|exact HQ]. Qed.
Lemma wp_renamenx k k' ks (Q : outcome (result bool) -> keys -> Prop) :
  Q (Ret (fst (renamenx_effect k k' ks))) (snd (renamenx_effect k k' ks)) ->
  wp ks (redis_renamenx k k') Q.
Proof. intros HQ. apply (wp_answers ks _ (renamenx_effect k k')); [apply law_renamenx|exact HQ]. Qed.

(** A loop with an invariant on the keyspace. *)
Lemma wp_for_each {A} (f : A -> M S unit) l ks (I : list A -> keys -> Prop) :
  I l ks ->
  (forall x l' ks', I (x :: l') ks' -> wp ks' (f x) (returns (fun _ => I l'))) ->
  wp ks (for_each f l) (returns (fun _ => I [])).
Proof.
  intros HI Hf. revert ks HI. induction l as [|x l0 IH]; intros ks HI; [by apply wp_ret|].
  simpl. eapply wp_returns_bind; [by apply Hf|]. intros ? ks'. apply IH.
Qed.
End wp.

(** Symbolic execution of one step of straight-line code. *)
Ltac wp_step :=
  lazymatch goal with
  | |- wp _ (bind_ok _ _) _ => apply wp_bind_ok
  | |- wp _ (must _) _ => apply wp_must
  | |- wp _ (bind _ _) _ => apply wp_bind
  | |- wp _ (ret _) _ => apply wp_ret
  | |- wp _ (panic _) _ => apply wp_panic
  | |- wp _ (fatal _) _ => apply wp_fatal
  | |- wp _ (redis_get _) _ => apply wp_get
  | |- wp _ (redis_type _) _ => apply wp_type
  | |- wp _ (redis_exists _) _ => apply wp_exists
  | |- wp _ (redis_lrange _) _ => apply wp_lrange
  | |- wp _ (redis_smembers _) _ => apply wp_smembers; intros ? ?
  | |- wp _ (redis_set _ _) _ => apply wp_set
  | |- wp _ (redis_del _) _ => apply wp_del
  | |- wp _ (redis_sadd _ _) _ => apply wp_sadd
  | |- wp _ (redis_srem _ _) _ => apply wp_srem
  | |- wp _ (redis_rpush _ _) _ => apply wp_rpush
  | |- wp _ (redis_lrem _ _) _ => apply wp_lrem
  | |- wp _ (redis_hmset _ _) _ => apply wp_hmset
  | |- wp _ (redis_hgetall _) _ => apply wp_hgetall
  | |- wp _ (redis_renamenx _ _) _ => apply wp_renamenx
  | |- after _ _ (Ret _) _ => unfold after at 1; cbv beta iota
  end.
Ltac wp_steps := repeat wp_step.

(* ===================================================================== *)
(** * Weakest preconditions with memory next to the server               *)
(* ===================================================================== *)

Section wpm.
Context {X S : Type} `{RedisLaws S}.

(** From the memory [x] and every server state with keyspace [ks], [m] ends
    with an outcome, a memory and a keyspace that satisfy [Q]. *)
Definition wpm {A} (x : X) (ks : keys) (m : M (X * S) A) (Q : outcome A -> X -> keys -> Prop) : Prop :=
  forall s, keyspace s = ks -> Q (fst (m (x, s))) (fst (snd (m (x, s)))) (keyspace (snd (snd (m (x, s))))).

Lemma wpm_mono {A} x ks (m : M (X * S) A) (Q Q' : outcome A -> X -> keys -> Prop) :
  wpm x ks m Q -> (forall o x' ks', Q o x' ks' -> Q' o x' ks') -> wpm x ks m Q'.
Proof. unfold wpm. auto. Qed.

Lemma wpm_ret {A} x ks (a : A) (Q : outcome A -> X -> keys -> Prop) : Q (Ret a) x ks -> wpm x ks (ret a) Q.
Proof. by intros ? ? <-. Qed.
Lemma wpm_panic {A} x ks msg (Q : outcome A -> X -> keys -> Prop) : Q (Panic msg) x ks -> wpm x ks (panic msg) Q.
Proof. by intros ? ? <-. Qed.

Definition afterm {A B} (k : A -> M (X * S) B) (Q : outcome B -> X -> keys -> Prop)
    (o : outcome A) (x : X) (ks : keys) : Prop :=
  match o with
  | Ret a => wpm x ks (k a) Q
  | Panic msg => Q (Panic msg) x ks
  | Fatal msg => Q (Fatal msg) x ks
  | OutOfFuel => Q OutOfFuel x ks
  end.

Lemma wpm_bind {A B} x ks (m : M (X * S) A) (k : A -> M (X * S) B) Q :
  wpm x ks m (afterm k Q) -> wpm x ks (bind m k) Q.
Proof.
  intros Hm s Hs. specialize (Hm s Hs). unfold bind.
  destruct (m (x, s)) as [[a|msg|msg|] [x' s']]; simpl in *; [by apply Hm|done..].
Qed.

(** An action on the server leaves the memory alone. *)
Lemma wpm_lift {A} x ks (m : M S A) (Q : outcome A -> X -> keys -> Prop) :
  wp ks m (fun o ks' => Q o x ks') -> wpm x ks (on_snd m) Q.
Proof.
  intros Hm s Hs. specialize (Hm s Hs). unfold on_snd. simpl. by destruct (m s) as [o s'].
Qed.

(** An action that answers from the memory alone, and may change it. *)
Lemma wpm_mem {A} x ks (m : M (X * S) A) a x' (Q : outcome A -> X -> keys -> Prop) :
  (forall s, m (x, s) = (Ret a, (x', s))) -> Q (Ret a) x' ks -> wpm x ks m Q.
Proof. intros E HQ s <-. by rewrite E. Qed.
End wpm.

Ltac wpm_step :=
  lazymatch goal with
  | |- wpm _ _ (bind_ok _ _) _ => apply wpm_bind
  | |- wpm _ _ (must _) _ => apply wpm_bind
  | |- wpm _ _ (bind _ _) _ => apply wpm_bind
  | |- wpm _ _ (ret _) _ => apply wpm_ret
  | |- wpm _ _ (panic _) _ => apply wpm_panic
  | |- wpm _ _ (redis_set _ _) _ => apply wpm_lift, wp_set; cbv beta
  | |- wpm _ _ (redis_get _) _ => apply wpm_lift, wp_get; cbv beta
  | |- wpm _ _ (redis_del _) _ => apply wpm_lift, wp_del; cbv beta
  | |- wpm _ _ (redis_sadd _ _) _ => apply wpm_lift, wp_sadd; cbv beta
  | |- afterm _ _ (Ret _) _ _ => unfold afterm at 1; cbv beta iota
  end.
Ltac wpm_steps := repeat wpm_step.
