(* ===== verification/Schema.v ===== *)
(** The Redfish schema tree as the rest of the program sees it
    ([internal/rfschema/rfschema.go]): resources, properties and their types.

    A linked tree is a finite tree: [copyResource] gives every link its own
    copy of the resource it points to.  The Go structures [Resource] and
    [Property] are split into the fields that are plain data ([resource_info],
    [property_info]) and the fields that lead to further nodes.  The fields
    [ApplicationData], [Linkers], [ReferenceCount] and [InstanceID], which
    only the construction of the tree uses, are left out. *)
From S2P Require Import Prelude Values.

(** [PropertyType]: the kinds of properties *)
Inductive PropertyType :=
  | PropUnknown | PropMultiple | PropObject | PropAction | PropEnum | PropString
  | PropNumber | PropInteger | PropBool | PropArray | PropLink.

#[export] Instance PropertyType_eq_dec : EqDecision PropertyType.
Proof. solve_decision. Defined.

(** [PropertyType.String] *)
Definition PropertyType_String (t : PropertyType) : string :=
  match t with
  | PropUnknown => "Unknown"
  | PropObject => "Object"
  | PropAction => "Action"
  | PropEnum => "Enum"
  | PropString => "String"
  | PropNumber => "Number"
  | PropInteger => "Integer"
  | PropBool => "Bool"
  | PropArray => "Array"
  | PropLink => "Link"
  | PropMultiple => "Multiple"
  end.

Inductive StringFormat := FormatUnknown | FormatDate | FormatURI.

#[export] Instance StringFormat_eq_dec : EqDecision StringFormat.
Proof. solve_decision. Defined.

(** The text parsers of Go's library the code calls: [time.Parse] with the
    layout RFC 3339, [url.ParseRequestURI], and [regexp.MatchString] for a
    pattern that is data of the schema (whether they accept the text). *)
Class TextParsers := {
  parse_rfc3339 : string -> bool;
  parse_request_uri : string -> bool;
  regexp_match : string -> string -> bool;
}.

(** [StringFormat.Validate] *)
Definition StringFormat_Validate `{TextParsers} (sf : StringFormat) (str : string) : bool :=
  match sf with
  | FormatDate => parse_rfc3339 str
  | FormatURI => parse_request_uri str
  | FormatUnknown => false
  end.

Record EnumMember := mkEnumMember {
  em_Name : string;
  em_Description : string;
  em_LongDescription : string;
}.

Record PatternProperties := mkPatternProperties {
  pp_Pattern : string;
  pp_Description : string;
  pp_Types : list string;
}.

(** The plain fields of a [Property]. *)
Record property_info := mkPropertyInfo {
  pi_Type : PropertyType;
  pi_NullAllowed : bool;
  pi_ReadOnly : bool;
  pi_Deprecated : bool;
  pi_DeprecatedReason : option string;
  pi_Description : option string;
  pi_LongDescription : option string;
  pi_Types : list PropertyType;
  pi_RequiredParameters : list string;
  pi_linkRef : string;
  pi_IsNavLink : bool;
  pi_LinkAutoExpand : bool;
  pi_AdditionalProperties : option bool;
  pi_PatternProperties : list PatternProperties;
  pi_IsNavArray : bool;
  pi_arrayRefString : option string;
  pi_StringFormat : option StringFormat;
  pi_StringMaxLength : option Z;
  pi_StringMinLength : option Z;
  pi_StringPattern : option string;
  pi_EnumMembers : list EnumMember;
  pi_DeprecatedEnums : gomap string;
  pi_Units : option string;
  pi_NumberMaximum : option float64;
  pi_NumberMinimum : option float64;
  pi_IntegerMaximun : option Z;
  pi_IntegerMinimun : option Z;
}.

(** The plain fields of a [Resource]. *)
Record resource_info := mkResourceInfo {
  ri_Name : string;
  ri_ODataType : string;
  ri_ODataContext : string;
  ri_Description : option string;
  ri_LongDescription : option string;
  ri_AdditionalProperties : bool;
  ri_PatternProperties : list PatternProperties;
  ri_Deletable : bool;
  ri_Insertable : bool;
  ri_Updatable : bool;
  ri_IsCollection : bool;
  ri_EmbeddedCollection : bool;
  ri_RequiredProperties : list string;
  ri_RequiredOnCreate : list string;
  ri_VersionString : string;
}.

Inductive Property :=
  | mkProperty
      (info : property_info)
      (Properties : list (string * Property))     (* Object *)
      (ArrayOf : option Property)                 (* Array *)
      (Link : option Resource)                    (* Link *)
      (Parameters : list (string * Property))     (* Action *)
      (Target Title : option Property)            (* Action *)
with Resource :=
  | mkResource
      (info : resource_info)
      (Properties : list (string * Property))
      (CollectionOf : option Resource).

Abbreviation properties := (gomap Property).

Definition p_info (p : Property) : property_info :=
  match p with mkProperty i _ _ _ _ _ _ => i end.
Definition Properties_of (p : Property) : properties :=
  match p with mkProperty _ ps _ _ _ _ _ => ps end.
Definition ArrayOf (p : Property) : option Property :=
  match p with mkProperty _ _ a _ _ _ _ => a end.
Definition Link (p : Property) : option Resource :=
  match p with mkProperty _ _ _ l _ _ _ => l end.
Definition p_Type (p : Property) : PropertyType := pi_Type (p_info p).
Definition IsNavLink (p : Property) : bool := pi_IsNavLink (p_info p).
Definition LinkAutoExpand (p : Property) : bool := pi_LinkAutoExpand (p_info p).

Definition r_info (r : Resource) : resource_info :=
  match r with mkResource i _ _ => i end.
Definition r_Properties (r : Resource) : properties :=
  match r with mkResource _ ps _ => ps end.
Definition CollectionOf (r : Resource) : option Resource :=
  match r with mkResource _ _ c => c end.
Definition IsCollection (r : Resource) : bool := ri_IsCollection (r_info r).
Definition r_Name (r : Resource) : string := ri_Name (r_info r).

Definition is_type (t : PropertyType) (p : Property) : bool := bool_decide (p_Type p = t).

(** ** Heights *)

(** The height of the tree below a node along the edges that payloads follow:
    object members, array elements and links. *)
Fixpoint p_height (p : Property) : nat :=
  match p with
  | mkProperty _ ps arr link _ _ _ =>
      S (Nat.max (list_max (map (fun e => p_height (snd e)) ps))
           (Nat.max (match arr with Some a => p_height a | None => 0%nat end)
              (match link with Some r => r_height r | None => 0%nat end)))
  end
with r_height (r : Resource) : nat :=
  match r with
  | mkResource _ ps coll =>
      S (Nat.max (list_max (map (fun e => p_height (snd e)) ps))
           (match coll with Some c => r_height c | None => 0%nat end))
  end.

Definition props_height (ps : properties) : nat :=
  list_max (map (fun e => p_height (snd e)) ps).

(** ** Plain nodes, the starting point of concrete examples *)

Definition plain_info (t : PropertyType) : property_info := {|
  pi_Type := t; pi_NullAllowed := false; pi_ReadOnly := false; pi_Deprecated := false;
  pi_DeprecatedReason := None; pi_Description := None; pi_LongDescription := None;
  pi_Types := []; pi_RequiredParameters := []; pi_linkRef := ""; pi_IsNavLink := false;
  pi_LinkAutoExpand := false; pi_AdditionalProperties := None; pi_PatternProperties := [];
  pi_IsNavArray := false; pi_arrayRefString := None; pi_StringFormat := None;
  pi_StringMaxLength := None; pi_StringMinLength := None; pi_StringPattern := None;
  pi_EnumMembers := []; pi_DeprecatedEnums := []; pi_Units := None;
  pi_NumberMaximum := None; pi_NumberMinimum := None; pi_IntegerMaximun := None;
  pi_IntegerMinimun := None |}.

Definition with_ReadOnly (i : property_info) : property_info := {|
  pi_Type := pi_Type i; pi_NullAllowed := pi_NullAllowed i; pi_ReadOnly := true;
  pi_Deprecated := pi_Deprecated i; pi_DeprecatedReason := pi_DeprecatedReason i;
  pi_Description := pi_Description i; pi_LongDescription := pi_LongDescription i;
  pi_Types := pi_Types i; pi_RequiredParameters := pi_RequiredParameters i;
  pi_linkRef := pi_linkRef i; pi_IsNavLink := pi_IsNavLink i;
  pi_LinkAutoExpand := pi_LinkAutoExpand i;
  pi_AdditionalProperties := pi_AdditionalProperties i;
  pi_PatternProperties := pi_PatternProperties i; pi_IsNavArray := pi_IsNavArray i;
  pi_arrayRefString := pi_arrayRefString i; pi_StringFormat := pi_StringFormat i;
  pi_StringMaxLength := pi_StringMaxLength i; pi_StringMinLength := pi_StringMinLength i;
  pi_StringPattern := pi_StringPattern i; pi_EnumMembers := pi_EnumMembers i;
  pi_DeprecatedEnums := pi_DeprecatedEnums i; pi_Units := pi_Units i;
  pi_NumberMaximum := pi_NumberMaximum i; pi_NumberMinimum := pi_NumberMinimum i;
  pi_IntegerMaximun := pi_IntegerMaximun i; pi_IntegerMinimun := pi_IntegerMinimun i |}.

Definition with_links (nav auto : bool) (i : property_info) : property_info := {|
  pi_Type := pi_Type i; pi_NullAllowed := pi_NullAllowed i; pi_ReadOnly := pi_ReadOnly i;
  pi_Deprecated := pi_Deprecated i; pi_DeprecatedReason := pi_DeprecatedReason i;
  pi_Description := pi_Description i; pi_LongDescription := pi_LongDescription i;
  pi_Types := pi_Types i; pi_RequiredParameters := pi_RequiredParameters i;
  pi_linkRef := pi_linkRef i; pi_IsNavLink := nav; pi_LinkAutoExpand := auto;
  pi_AdditionalProperties := pi_AdditionalProperties i;
  pi_PatternProperties := pi_PatternProperties i; pi_IsNavArray := pi_IsNavArray i;
  pi_arrayRefString := pi_arrayRefString i; pi_StringFormat := pi_StringFormat i;
  pi_StringMaxLength := pi_StringMaxLength i; pi_StringMinLength := pi_StringMinLength i;
  pi_StringPattern := pi_StringPattern i; pi_EnumMembers := pi_EnumMembers i;
  pi_DeprecatedEnums := pi_DeprecatedEnums i; pi_Units := pi_Units i;
  pi_NumberMaximum := pi_NumberMaximum i; pi_NumberMinimum := pi_NumberMinimum i;
  pi_IntegerMaximun := pi_IntegerMaximun i; pi_IntegerMinimun := pi_IntegerMinimun i |}.

Definition leaf (i : property_info) : Property := mkProperty i [] None None [] None None.
Definition object_of (ps : properties) : Property :=
  mkProperty (plain_info PropObject) ps None None [] None None.
Definition array_of (p : Property) : Property :=
  mkProperty (plain_info PropArray) [] (Some p) None [] None None.
Definition nav_link (r : Resource) : Property :=
  mkProperty (with_links true false (plain_info PropLink)) [] None (Some r) [] None None.

Definition plain_resource_info (name : string) (coll : bool) : resource_info := {|
  ri_Name := name; ri_ODataType := "#" +:+ name; ri_ODataContext := "/redfish/v1/$metadata#" +:+ name;
  ri_Description := None; ri_LongDescription := None; ri_AdditionalProperties := false;
  ri_PatternProperties := []; ri_Deletable := true; ri_Insertable := true; ri_Updatable := true;
  ri_IsCollection := coll; ri_EmbeddedCollection := false; ri_RequiredProperties := [];
  ri_RequiredOnCreate := []; ri_VersionString := "" |}.

(* ===================================================================== *)
(** * Lemmas                                                             *)
(* ===================================================================== *)

Lemma list_max_elem {A} (f : A -> nat) x l : x ∈ l -> (f x <= list_max (map f l))%nat.
Proof.
  induction l as [|y l IH]; intros Hx; [by apply elem_of_nil in Hx|].
  simpl. apply elem_of_cons in Hx as [->|Hx]; [lia|]. specialize (IH Hx). lia.
Qed.

Lemma props_height_get n p ps : mget n ps = Some p -> (p_height p <= props_height ps)%nat.
Proof.
  intros H%mget_Some_elem. unfold props_height.
  change (p_height p) with ((fun e => p_height (snd e)) (n, p)). by apply list_max_elem.
Qed.

Lemma Properties_height p : (props_height (Properties_of p) < p_height p)%nat.
Proof. destruct p. unfold props_height. simpl. lia. Qed.

Lemma ArrayOf_height p a : ArrayOf p = Some a -> (p_height a < p_height p)%nat.
Proof. destruct p. simpl. intros ->. lia. Qed.

Lemma Link_height p r : Link p = Some r -> (r_height r < p_height p)%nat.
Proof. destruct p. simpl. intros ->. lia. Qed.

Lemma CollectionOf_height r c : CollectionOf r = Some c -> (r_height c < r_height r)%nat.
Proof. destruct r. simpl. intros ->. lia. Qed.

Lemma r_Properties_height r : (props_height (r_Properties r) < r_height r)%nat.
Proof. destruct r. unfold props_height. simpl. lia. Qed.

#[export] Hint Resolve props_height_get Properties_height ArrayOf_height Link_height
  CollectionOf_height r_Properties_height : height_db.
