(* ===== verification/Fields.v ===== *)
(** Assignments to the plain fields of a [Property], as the parsing of the
    schema files makes them. *)
From S2P Require Import Prelude Values Schema.

Definition set_NullAllowed (v0 : bool) (i : property_info) : property_info :=
  mkPropertyInfo (pi_Type i) v0 (pi_ReadOnly i) (pi_Deprecated i) (pi_DeprecatedReason i) (pi_Description i)
    (pi_LongDescription i) (pi_Types i) (pi_RequiredParameters i) (pi_linkRef i) (pi_IsNavLink i)
    (pi_LinkAutoExpand i) (pi_AdditionalProperties i) (pi_PatternProperties i) (pi_IsNavArray i) (pi_arrayRefString i)
    (pi_StringFormat i) (pi_StringMaxLength i) (pi_StringMinLength i) (pi_StringPattern i) (pi_EnumMembers i)
    (pi_DeprecatedEnums i) (pi_Units i) (pi_NumberMaximum i) (pi_NumberMinimum i) (pi_IntegerMaximun i)
    (pi_IntegerMinimun i).

Definition set_ReadOnly (v0 : bool) (i : property_info) : property_info :=
  mkPropertyInfo (pi_Type i) (pi_NullAllowed i) v0 (pi_Deprecated i) (pi_DeprecatedReason i) (pi_Description i)
    (pi_LongDescription i) (pi_Types i) (pi_RequiredParameters i) (pi_linkRef i) (pi_IsNavLink i)
    (pi_LinkAutoExpand i) (pi_AdditionalProperties i) (pi_PatternProperties i) (pi_IsNavArray i) (pi_arrayRefString i)
    (pi_StringFormat i) (pi_StringMaxLength i) (pi_StringMinLength i) (pi_StringPattern i) (pi_EnumMembers i)
    (pi_DeprecatedEnums i) (pi_Units i) (pi_NumberMaximum i) (pi_NumberMinimum i) (pi_IntegerMaximun i)
    (pi_IntegerMinimun i).

Definition set_Deprecated (v0 : bool) (v1 : option string) (i : property_info) : property_info :=
  mkPropertyInfo (pi_Type i) (pi_NullAllowed i) (pi_ReadOnly i) v0 v1 (pi_Description i) (pi_LongDescription i)
    (pi_Types i) (pi_RequiredParameters i) (pi_linkRef i) (pi_IsNavLink i) (pi_LinkAutoExpand i)
    (pi_AdditionalProperties i) (pi_PatternProperties i) (pi_IsNavArray i) (pi_arrayRefString i) (pi_StringFormat i)
    (pi_StringMaxLength i) (pi_StringMinLength i) (pi_StringPattern i) (pi_EnumMembers i) (pi_DeprecatedEnums i)
    (pi_Units i) (pi_NumberMaximum i) (pi_NumberMinimum i) (pi_IntegerMaximun i) (pi_IntegerMinimun i).

Definition set_Description (v0 : option string) (i : property_info) : property_info :=
  mkPropertyInfo (pi_Type i) (pi_NullAllowed i) (pi_ReadOnly i) (pi_Deprecated i) (pi_DeprecatedReason i) v0
    (pi_LongDescription i) (pi_Types i) (pi_RequiredParameters i) (pi_linkRef i) (pi_IsNavLink i)
    (pi_LinkAutoExpand i) (pi_AdditionalProperties i) (pi_PatternProperties i) (pi_IsNavArray i) (pi_arrayRefString i)
    (pi_StringFormat i) (pi_StringMaxLength i) (pi_StringMinLength i) (pi_StringPattern i) (pi_EnumMembers i)
    (pi_DeprecatedEnums i) (pi_Units i) (pi_NumberMaximum i) (pi_NumberMinimum i) (pi_IntegerMaximun i)
    (pi_IntegerMinimun i).

Definition set_LongDescription (v0 : option string) (i : property_info) : property_info :=
  mkPropertyInfo (pi_Type i) (pi_NullAllowed i) (pi_ReadOnly i) (pi_Deprecated i) (pi_DeprecatedReason i)
    (pi_Description i) v0 (pi_Types i) (pi_RequiredParameters i) (pi_linkRef i) (pi_IsNavLink i) (pi_LinkAutoExpand i)
    (pi_AdditionalProperties i) (pi_PatternProperties i) (pi_IsNavArray i) (pi_arrayRefString i) (pi_StringFormat i)
    (pi_StringMaxLength i) (pi_StringMinLength i) (pi_StringPattern i) (pi_EnumMembers i) (pi_DeprecatedEnums i)
    (pi_Units i) (pi_NumberMaximum i) (pi_NumberMinimum i) (pi_IntegerMaximun i) (pi_IntegerMinimun i).

Definition set_Types (v0 : list PropertyType) (i : property_info) : property_info :=
  mkPropertyInfo (pi_Type i) (pi_NullAllowed i) (pi_ReadOnly i) (pi_Deprecated i) (pi_DeprecatedReason i)
    (pi_Description i) (pi_LongDescription i) v0 (pi_RequiredParameters i) (pi_linkRef i) (pi_IsNavLink i)
    (pi_LinkAutoExpand i) (pi_AdditionalProperties i) (pi_PatternProperties i) (pi_IsNavArray i) (pi_arrayRefString i)
    (pi_StringFormat i) (pi_StringMaxLength i) (pi_StringMinLength i) (pi_StringPattern i) (pi_EnumMembers i)
    (pi_DeprecatedEnums i) (pi_Units i) (pi_NumberMaximum i) (pi_NumberMinimum i) (pi_IntegerMaximun i)
    (pi_IntegerMinimun i).

Definition set_RequiredParameters (v0 : list string) (i : property_info) : property_info :=
  mkPropertyInfo (pi_Type i) (pi_NullAllowed i) (pi_ReadOnly i) (pi_Deprecated i) (pi_DeprecatedReason i)
    (pi_Description i) (pi_LongDescription i) (pi_Types i) v0 (pi_linkRef i) (pi_IsNavLink i) (pi_LinkAutoExpand i)
    (pi_AdditionalProperties i) (pi_PatternProperties i) (pi_IsNavArray i) (pi_arrayRefString i) (pi_StringFormat i)
    (pi_StringMaxLength i) (pi_StringMinLength i) (pi_StringPattern i) (pi_EnumMembers i) (pi_DeprecatedEnums i)
    (pi_Units i) (pi_NumberMaximum i) (pi_NumberMinimum i) (pi_IntegerMaximun i) (pi_IntegerMinimun i).

Definition set_linkRef (v0 : string) (i : property_info) : property_info :=
  mkPropertyInfo (pi_Type i) (pi_NullAllowed i) (pi_ReadOnly i) (pi_Deprecated i) (pi_DeprecatedReason i)
    (pi_Description i) (pi_LongDescription i) (pi_Types i) (pi_RequiredParameters i) v0 (pi_IsNavLink i)
    (pi_LinkAutoExpand i) (pi_AdditionalProperties i) (pi_PatternProperties i) (pi_IsNavArray i) (pi_arrayRefString i)
    (pi_StringFormat i) (pi_StringMaxLength i) (pi_StringMinLength i) (pi_StringPattern i) (pi_EnumMembers i)
    (pi_DeprecatedEnums i) (pi_Units i) (pi_NumberMaximum i) (pi_NumberMinimum i) (pi_IntegerMaximun i)
    (pi_IntegerMinimun i).

Definition set_AdditionalProperties (v0 : option bool) (i : property_info) : property_info :=
  mkPropertyInfo (pi_Type i) (pi_NullAllowed i) (pi_ReadOnly i) (pi_Deprecated i) (pi_DeprecatedReason i)
    (pi_Description i) (pi_LongDescription i) (pi_Types i) (pi_RequiredParameters i) (pi_linkRef i) (pi_IsNavLink i)
    (pi_LinkAutoExpand i) v0 (pi_PatternProperties i) (pi_IsNavArray i) (pi_arrayRefString i) (pi_StringFormat i)
    (pi_StringMaxLength i) (pi_StringMinLength i) (pi_StringPattern i) (pi_EnumMembers i) (pi_DeprecatedEnums i)
    (pi_Units i) (pi_NumberMaximum i) (pi_NumberMinimum i) (pi_IntegerMaximun i) (pi_IntegerMinimun i).

Definition set_PatternProperties (v0 : list PatternProperties) (i : property_info) : property_info :=
  mkPropertyInfo (pi_Type i) (pi_NullAllowed i) (pi_ReadOnly i) (pi_Deprecated i) (pi_DeprecatedReason i)
    (pi_Description i) (pi_LongDescription i) (pi_Types i) (pi_RequiredParameters i) (pi_linkRef i) (pi_IsNavLink i)
    (pi_LinkAutoExpand i) (pi_AdditionalProperties i) v0 (pi_IsNavArray i) (pi_arrayRefString i) (pi_StringFormat i)
    (pi_StringMaxLength i) (pi_StringMinLength i) (pi_StringPattern i) (pi_EnumMembers i) (pi_DeprecatedEnums i)
    (pi_Units i) (pi_NumberMaximum i) (pi_NumberMinimum i) (pi_IntegerMaximun i) (pi_IntegerMinimun i).

Definition set_arrayRefString (v0 : option string) (i : property_info) : property_info :=
  mkPropertyInfo (pi_Type i) (pi_NullAllowed i) (pi_ReadOnly i) (pi_Deprecated i) (pi_DeprecatedReason i)
    (pi_Description i) (pi_LongDescription i) (pi_Types i) (pi_RequiredParameters i) (pi_linkRef i) (pi_IsNavLink i)
    (pi_LinkAutoExpand i) (pi_AdditionalProperties i) (pi_PatternProperties i) (pi_IsNavArray i) v0
    (pi_StringFormat i) (pi_StringMaxLength i) (pi_StringMinLength i) (pi_StringPattern i) (pi_EnumMembers i)
    (pi_DeprecatedEnums i) (pi_Units i) (pi_NumberMaximum i) (pi_NumberMinimum i) (pi_IntegerMaximun i)
    (pi_IntegerMinimun i).

Definition set_StringFormat (v0 : option StringFormat) (i : property_info) : property_info :=
  mkPropertyInfo (pi_Type i) (pi_NullAllowed i) (pi_ReadOnly i) (pi_Deprecated i) (pi_DeprecatedReason i)
    (pi_Description i) (pi_LongDescription i) (pi_Types i) (pi_RequiredParameters i) (pi_linkRef i) (pi_IsNavLink i)
    (pi_LinkAutoExpand i) (pi_AdditionalProperties i) (pi_PatternProperties i) (pi_IsNavArray i) (pi_arrayRefString i)
    v0 (pi_StringMaxLength i) (pi_StringMinLength i) (pi_StringPattern i) (pi_EnumMembers i) (pi_DeprecatedEnums i)
    (pi_Units i) (pi_NumberMaximum i) (pi_NumberMinimum i) (pi_IntegerMaximun i) (pi_IntegerMinimun i).

Definition set_StringMaxLength (v0 : option Z) (i : property_info) : property_info :=
  mkPropertyInfo (pi_Type i) (pi_NullAllowed i) (pi_ReadOnly i) (pi_Deprecated i) (pi_DeprecatedReason i)
    (pi_Description i) (pi_LongDescription i) (pi_Types i) (pi_RequiredParameters i) (pi_linkRef i) (pi_IsNavLink i)
    (pi_LinkAutoExpand i) (pi_AdditionalProperties i) (pi_PatternProperties i) (pi_IsNavArray i) (pi_arrayRefString i)
    (pi_StringFormat i) v0 (pi_StringMinLength i) (pi_StringPattern i) (pi_EnumMembers i) (pi_DeprecatedEnums i)
    (pi_Units i) (pi_NumberMaximum i) (pi_NumberMinimum i) (pi_IntegerMaximun i) (pi_IntegerMinimun i).

Definition set_StringMinLength (v0 : option Z) (i : property_info) : property_info :=
  mkPropertyInfo (pi_Type i) (pi_NullAllowed i) (pi_ReadOnly i) (pi_Deprecated i) (pi_DeprecatedReason i)
    (pi_Description i) (pi_LongDescription i) (pi_Types i) (pi_RequiredParameters i) (pi_linkRef i) (pi_IsNavLink i)
    (pi_LinkAutoExpand i) (pi_AdditionalProperties i) (pi_PatternProperties i) (pi_IsNavArray i) (pi_arrayRefString i)
    (pi_StringFormat i) (pi_StringMaxLength i) v0 (pi_StringPattern i) (pi_EnumMembers i) (pi_DeprecatedEnums i)
    (pi_Units i) (pi_NumberMaximum i) (pi_NumberMinimum i) (pi_IntegerMaximun i) (pi_IntegerMinimun i).

Definition set_StringPattern (v0 : option string) (i : property_info) : property_info :=
  mkPropertyInfo (pi_Type i) (pi_NullAllowed i) (pi_ReadOnly i) (pi_Deprecated i) (pi_DeprecatedReason i)
    (pi_Description i) (pi_LongDescription i) (pi_Types i) (pi_RequiredParameters i) (pi_linkRef i) (pi_IsNavLink i)
    (pi_LinkAutoExpand i) (pi_AdditionalProperties i) (pi_PatternProperties i) (pi_IsNavArray i) (pi_arrayRefString i)
    (pi_StringFormat i) (pi_StringMaxLength i) (pi_StringMinLength i) v0 (pi_EnumMembers i) (pi_DeprecatedEnums i)
    (pi_Units i) (pi_NumberMaximum i) (pi_NumberMinimum i) (pi_IntegerMaximun i) (pi_IntegerMinimun i).

Definition set_EnumMembers (v0 : list EnumMember) (i : property_info) : property_info :=
  mkPropertyInfo (pi_Type i) (pi_NullAllowed i) (pi_ReadOnly i) (pi_Deprecated i) (pi_DeprecatedReason i)
    (pi_Description i) (pi_LongDescription i) (pi_Types i) (pi_RequiredParameters i) (pi_linkRef i) (pi_IsNavLink i)
    (pi_LinkAutoExpand i) (pi_AdditionalProperties i) (pi_PatternProperties i) (pi_IsNavArray i) (pi_arrayRefString i)
    (pi_StringFormat i) (pi_StringMaxLength i) (pi_StringMinLength i) (pi_StringPattern i) v0 (pi_DeprecatedEnums i)
    (pi_Units i) (pi_NumberMaximum i) (pi_NumberMinimum i) (pi_IntegerMaximun i) (pi_IntegerMinimun i).

Definition set_DeprecatedEnums (v0 : gomap string) (i : property_info) : property_info :=
  mkPropertyInfo (pi_Type i) (pi_NullAllowed i) (pi_ReadOnly i) (pi_Deprecated i) (pi_DeprecatedReason i)
    (pi_Description i) (pi_LongDescription i) (pi_Types i) (pi_RequiredParameters i) (pi_linkRef i) (pi_IsNavLink i)
    (pi_LinkAutoExpand i) (pi_AdditionalProperties i) (pi_PatternProperties i) (pi_IsNavArray i) (pi_arrayRefString i)
    (pi_StringFormat i) (pi_StringMaxLength i) (pi_StringMinLength i) (pi_StringPattern i) (pi_EnumMembers i) v0
    (pi_Units i) (pi_NumberMaximum i) (pi_NumberMinimum i) (pi_IntegerMaximun i) (pi_IntegerMinimun i).

Definition set_Units (v0 : option string) (i : property_info) : property_info :=
  mkPropertyInfo (pi_Type i) (pi_NullAllowed i) (pi_ReadOnly i) (pi_Deprecated i) (pi_DeprecatedReason i)
    (pi_Description i) (pi_LongDescription i) (pi_Types i) (pi_RequiredParameters i) (pi_linkRef i) (pi_IsNavLink i)
    (pi_LinkAutoExpand i) (pi_AdditionalProperties i) (pi_PatternProperties i) (pi_IsNavArray i) (pi_arrayRefString i)
    (pi_StringFormat i) (pi_StringMaxLength i) (pi_StringMinLength i) (pi_StringPattern i) (pi_EnumMembers i)
    (pi_DeprecatedEnums i) v0 (pi_NumberMaximum i) (pi_NumberMinimum i) (pi_IntegerMaximun i) (pi_IntegerMinimun i).

Definition set_NumberMaximum (v0 : option float64) (i : property_info) : property_info :=
  mkPropertyInfo (pi_Type i) (pi_NullAllowed i) (pi_ReadOnly i) (pi_Deprecated i) (pi_DeprecatedReason i)
    (pi_Description i) (pi_LongDescription i) (pi_Types i) (pi_RequiredParameters i) (pi_linkRef i) (pi_IsNavLink i)
    (pi_LinkAutoExpand i) (pi_AdditionalProperties i) (pi_PatternProperties i) (pi_IsNavArray i) (pi_arrayRefString i)
    (pi_StringFormat i) (pi_StringMaxLength i) (pi_StringMinLength i) (pi_StringPattern i) (pi_EnumMembers i)
    (pi_DeprecatedEnums i) (pi_Units i) v0 (pi_NumberMinimum i) (pi_IntegerMaximun i) (pi_IntegerMinimun i).

Definition set_NumberMinimum (v0 : option float64) (i : property_info) : property_info :=
  mkPropertyInfo (pi_Type i) (pi_NullAllowed i) (pi_ReadOnly i) (pi_Deprecated i) (pi_DeprecatedReason i)
    (pi_Description i) (pi_LongDescription i) (pi_Types i) (pi_RequiredParameters i) (pi_linkRef i) (pi_IsNavLink i)
    (pi_LinkAutoExpand i) (pi_AdditionalProperties i) (pi_PatternProperties i) (pi_IsNavArray i) (pi_arrayRefString i)
    (pi_StringFormat i) (pi_StringMaxLength i) (pi_StringMinLength i) (pi_StringPattern i) (pi_EnumMembers i)
    (pi_DeprecatedEnums i) (pi_Units i) (pi_NumberMaximum i) v0 (pi_IntegerMaximun i) (pi_IntegerMinimun i).

Definition set_IntegerMaximun (v0 : option Z) (i : property_info) : property_info :=
  mkPropertyInfo (pi_Type i) (pi_NullAllowed i) (pi_ReadOnly i) (pi_Deprecated i) (pi_DeprecatedReason i)
    (pi_Description i) (pi_LongDescription i) (pi_Types i) (pi_RequiredParameters i) (pi_linkRef i) (pi_IsNavLink i)
    (pi_LinkAutoExpand i) (pi_AdditionalProperties i) (pi_PatternProperties i) (pi_IsNavArray i) (pi_arrayRefString i)
    (pi_StringFormat i) (pi_StringMaxLength i) (pi_StringMinLength i) (pi_StringPattern i) (pi_EnumMembers i)
    (pi_DeprecatedEnums i) (pi_Units i) (pi_NumberMaximum i) (pi_NumberMinimum i) v0 (pi_IntegerMinimun i).

Definition set_IntegerMinimun (v0 : option Z) (i : property_info) : property_info :=
  mkPropertyInfo (pi_Type i) (pi_NullAllowed i) (pi_ReadOnly i) (pi_Deprecated i) (pi_DeprecatedReason i)
    (pi_Description i) (pi_LongDescription i) (pi_Types i) (pi_RequiredParameters i) (pi_linkRef i) (pi_IsNavLink i)
    (pi_LinkAutoExpand i) (pi_AdditionalProperties i) (pi_PatternProperties i) (pi_IsNavArray i) (pi_arrayRefString i)
    (pi_StringFormat i) (pi_StringMaxLength i) (pi_StringMinLength i) (pi_StringPattern i) (pi_EnumMembers i)
    (pi_DeprecatedEnums i) (pi_Units i) (pi_NumberMaximum i) (pi_NumberMinimum i) (pi_IntegerMaximun i) v0.

(** The fields the construction of the tree looks at *)
Definition same_kind (i j : property_info) : Prop :=
  pi_Type i = pi_Type j /\ pi_IsNavLink i = pi_IsNavLink j /\ pi_IsNavArray i = pi_IsNavArray j.
