(* ===== verification/Walk.v ===== *)
(** Walking the schema tree along a URI ([internal/rfschema/walk.go]).

    [WalkTree] resolves a URI to a resource, or to a property of one, token by
    token; whether a token names a member of a collection is asked of a
    callback, which may consult Redis.  [resolves] says declaratively what a
    URI denotes, and [WalkTree_refines] that the walk computes it. *)
From S2P Require Import Prelude Values Redis Schema.

Definition buildPath (tokens : list string) : string := "/redfish/v1/" +:+ join "/" tokens.

Section walk.
Context {S : Type}.

Definition CollectionCB : Type := Resource -> string -> string -> M S bool.

Definition nil_deref : string := "runtime error: invalid memory address or nil pointer dereference".

(** The property kinds the walk may stop at or descend into. *)
Definition traversable (t : PropertyType) : bool :=
  match t with
  | PropObject | PropAction | PropEnum | PropString | PropInteger | PropNumber | PropLink => true
  | _ => false
  end.

(** [currentProperty.Properties[token]], then the name of an action *)
Definition object_member (p : Property) (token : string) : option Property :=
  match mget token (Properties_of p) with
  | Some q => Some q
  | None => mget ("#" +:+ token) (Properties_of p)
  end.

(** The end of the loop body: a valid navigation link moves to the linked
    resource, a valid value descends into the object. *)
Definition walk_enter
    (continue : bool -> Resource -> option Property -> M S (option Resource * option Property))
    (res : Resource) (p : Property) : M S (option Resource * option Property) :=
  if is_type PropLink p && IsNavLink p then
    match Link p with
    | None => panic "Found nil link while walking"
    | Some r => continue false r (Some p)
    end
  else if traversable (p_Type p) then continue true res (Some p)
  else ret (None, None).

(** The loop over the tokens: [seen] is [tokens[0:i]], [prop] is
    [currentProperty], set exactly when [isWalkingObject] can be. *)
Fixpoint walk_tokens (cb : CollectionCB) (seen : list string) (isWalkingObject : bool)
    (res : Resource) (prop : option Property) (tokens : list string) :
    M S (option Resource * option Property) :=
  match tokens with
  | [] => ret (Some res, if isWalkingObject then prop else None)
  | token :: rest =>
      let seen' := seen ++ [token] in
      if IsCollection res then
        valid <- cb res (buildPath seen) token ;;
        if valid then
          match CollectionOf res with
          | Some r => walk_tokens cb seen' isWalkingObject r prop rest
          | None => panic nil_deref
          end
        else ret (None, None)
      else
        let found :=
          if isWalkingObject
          then match prop with Some p => object_member p token | None => None end
          else mget token (r_Properties res) in
        match found with
        | None => ret (None, None)
        | Some p => walk_enter (fun w r q => walk_tokens cb seen' w r q rest) res p
        end
  end.

(** The part of [WalkTree] before the loop: the tokens of a URI. *)
Definition uri_tokens (path : string) : option (list string) :=
  if has_prefix "/redfish/v1" path then
    let path := trim_prefix "/redfish/v1" path in
    let path := trim_prefix "/" path in
    let path := trim_suffix "/" path in
    Some (split_slash path)
  else None.

Definition WalkTree (root : Resource) (cb : CollectionCB) (path : string) :
    M S (option Resource * option Property) :=
  match uri_tokens path with
  | None => ret (None, None)
  | Some [""] => ret (Some root, None)
  | Some tokens => walk_tokens cb [] false root None tokens
  end.
End walk.
Arguments CollectionCB S : clear implicits.

(* ===================================================================== *)
(** * What a URI denotes                                                 *)
(* ===================================================================== *)

(** A position in the tree: a resource, or a property inside one. *)
Inductive cursor :=
  | AtResource (r : Resource)
  | InObject (r : Resource) (p : Property).

(** [member c path inst]: [inst] names a member of the collection [c] at [path]. *)
Section denotation.
Variable member : Resource -> string -> string -> bool.

(** Where following the property [p] of the resource [r] leads. *)
Inductive enter (r : Resource) (p : Property) : cursor -> Prop :=
  | enter_link r' :
      p_Type p = PropLink -> IsNavLink p = true -> Link p = Some r' ->
      enter r p (AtResource r')
  | enter_value :
      ~ (p_Type p = PropLink /\ IsNavLink p = true) -> traversable (p_Type p) = true ->
      enter r p (InObject r p).

(** One token of a URI. *)
Inductive cursor_step (seen : list string) (token : string) : cursor -> cursor -> Prop :=
  | step_member c r :
      IsCollection c = true -> member c (buildPath seen) token = true ->
      CollectionOf c = Some r ->
      cursor_step seen token (AtResource c) (AtResource r)
  | step_property r p c :
      IsCollection r = false -> mget token (r_Properties r) = Some p -> enter r p c ->
      cursor_step seen token (AtResource r) c
  | step_object r p q c :
      object_member p token = Some q -> enter r q c ->
      cursor_step seen token (InObject r p) c.

Inductive resolves : list string -> cursor -> list string -> cursor -> Prop :=
  | resolves_nil seen c : resolves seen c [] c
  | resolves_cons seen token rest c c' c'' :
      cursor_step seen token c c' -> resolves (seen ++ [token]) c' rest c'' ->
      resolves seen c (token :: rest) c''.
(** [path] denotes the position [c] of the tree below [root]. *)
Definition denotes (root : Resource) (path : string) (c : cursor) : Prop :=
  exists tokens, uri_tokens path = Some tokens /\
    if decide (tokens = [""]) then c = AtResource root
    else resolves [] (AtResource root) tokens c.
End denotation.

(** A linked tree: no navigation link is nil and every collection has a
    member resource; what [consistencyCheck] establishes. *)
Fixpoint p_linked (p : Property) : bool :=
  match p with
  | mkProperty i ps arr link _ _ _ =>
      forallb (fun e => p_linked (snd e)) ps
      && (negb (bool_decide (pi_Type i = PropLink) && pi_IsNavLink i)
          || match link with Some r => r_linked r | None => false end)
  end
with r_linked (r : Resource) : bool :=
  match r with
  | mkResource i ps coll =>
      forallb (fun e => p_linked (snd e)) ps
      && (negb (ri_IsCollection i) || match coll with Some c => r_linked c | None => false end)
  end.

(** The pair [WalkTree] returns for a position. *)
Definition cursor_pair (c : cursor) : option Resource * option Property :=
  match c with
  | AtResource r => (Some r, None)
  | InObject r p => (Some r, Some p)
  end.

(** The position a state of the loop stands for. *)
Definition loop_cursor (walking : bool) (r : Resource) (p : option Property) : option cursor :=
  match walking, p with
  | false, _ => Some (AtResource r)
  | true, Some p => if IsCollection r then None else Some (InObject r p)
  | true, None => None
  end.

(** In the state [s] the callback answers the test [member], and changes nothing. *)
Definition answers_member {S} (member : Resource -> string -> string -> bool) (cb : CollectionCB S) (s : S) : Prop :=
  forall c path inst, cb c path inst s = (Ret (member c path inst), s).

(* ===================================================================== *)
(** * Lemmas                                                             *)
(* ===================================================================== *)

Section walk_facts.
Context {S : Type} (member : Resource -> string -> string -> bool) (cb : CollectionCB S) (s : S).
Hypothesis Hcb : answers_member member cb s.

Lemma is_type_eq t p : is_type t p = true <-> p_Type p = t.
Proof. unfold is_type. apply bool_decide_eq_true. Qed.

Lemma enter_inv r p c :
  enter r p c ->
  (is_type PropLink p && IsNavLink p = true /\ exists r', Link p = Some r' /\ c = AtResource r') \/
  (is_type PropLink p && IsNavLink p = false /\ traversable (p_Type p) = true /\ c = InObject r p).
Proof.
  destruct 1 as [r' Ht Hn Hl|Hn Ht].
  - left. apply is_type_eq in Ht. rewrite Ht, Hn. eauto.
  - right. split; [|done]. apply not_true_iff_false. rewrite andb_true_iff, is_type_eq. tauto.
Qed.

(** The loop finds every position the token list denotes. *)
Lemma walk_tokens_complete tokens seen walking r p c c' :
  loop_cursor walking r p = Some c -> resolves member seen c tokens c' ->
  walk_tokens cb seen walking r p tokens s = (Ret (cursor_pair c'), s).
Proof.
  revert seen walking r p c. induction tokens as [|token rest IH]; intros seen walking r p c Hc Hr.
  - inversion Hr; subst. simpl. destruct walking; simpl in Hc; [|by simplify_eq].
    destruct p; [|done]. by destruct (IsCollection r); simplify_eq.
  - inversion Hr as [|? ? ? ? c1 ? Hstep Hrest]; subst.
    assert (Henter : forall q c1, enter r q c1 -> resolves member (seen ++ [token]) c1 rest c' ->
      IsCollection r = false ->
      walk_enter (fun w r q => walk_tokens cb (seen ++ [token]) w r q rest) r q s = (Ret (cursor_pair c'), s)).
    { intros q c2 He Hr2 Hcoll. unfold walk_enter. apply enter_inv in He as [[-> (r' & -> & ->)]|(-> & -> & ->)].
      - by eapply IH; [|exact Hr2].
      - eapply IH; [|exact Hr2]. simpl. by rewrite Hcoll. }
    simpl. destruct walking; simpl in Hc.
    + destruct p as [p|]; [|done]. destruct (IsCollection r) eqn:Ecoll; simplify_eq.
      inversion Hstep as [| |? ? q ? Hq He]; subst. rewrite Hq. eauto.
    + simplify_eq. inversion Hstep as [? r' Hcoll Hm Hof|? q ? Hcoll Hq He|]; subst.
      * rewrite Hcoll. rewrite (bind_step _ _ s true s), Hof by (by rewrite Hcb, Hm).
        by eapply IH; [|exact Hrest].
      * rewrite Hcoll, Hq. eauto.
Qed.

(** The part of the tree a node leads to is linked when the node is. *)
Lemma p_linked_child p n q : p_linked p = true -> mget n (Properties_of p) = Some q -> p_linked q = true.
Proof.
  destruct p as [i ps arr l pa t1 t2]. cbn. rewrite andb_true_iff. intros [Hps _] Hq%mget_Some_elem.
  rewrite forallb_forall in Hps. by apply (Hps (n, q)), list_elem_of_In.
Qed.

Lemma r_linked_child r n q : r_linked r = true -> mget n (r_Properties r) = Some q -> p_linked q = true.
Proof.
  destruct r as [i ps c]. cbn. rewrite andb_true_iff. intros [Hps _] Hq%mget_Some_elem.
  rewrite forallb_forall in Hps. by apply (Hps (n, q)), list_elem_of_In.
Qed.

Lemma p_linked_link p :
  p_linked p = true -> is_type PropLink p && IsNavLink p = true ->
  exists r, Link p = Some r /\ r_linked r = true.
Proof.
  destruct p as [i ps arr [l|] pa t1 t2]; unfold is_type, IsNavLink, p_Type; cbn;
    rewrite andb_true_iff; intros [_ H] Hn; rewrite Hn in H; simpl in H; [eauto|done].
Qed.

Lemma r_linked_collection r :
  r_linked r = true -> IsCollection r = true -> exists c, CollectionOf r = Some c /\ r_linked c = true.
Proof.
  destruct r as [i ps [c|]]; unfold IsCollection; cbn; rewrite andb_true_iff;
    intros [_ H] Hc; rewrite Hc in H; simpl in H; [eauto|done].
Qed.

(** On a linked tree the loop never panics, and whatever it returns other
    than "not found" is a position the tokens denote. *)
Lemma walk_tokens_sound tokens seen walking r p c :
  loop_cursor walking r p = Some c -> r_linked r = true ->
  (forall q, p = Some q -> p_linked q = true) ->
  (exists c', resolves member seen c tokens c' /\
     walk_tokens cb seen walking r p tokens s = (Ret (cursor_pair c'), s)) \/
  walk_tokens cb seen walking r p tokens s = (Ret (None, None), s).
Proof.
  revert seen walking r p c. induction tokens as [|token rest IH]; intros seen walking r p c Hc Hr Hp.
  - left. exists c. split; [constructor|]. simpl. destruct walking; simpl in Hc; [|by simplify_eq].
    destruct p; [|done]. by destruct (IsCollection r); simplify_eq.
  - assert (Henter : forall q, p_linked q = true -> IsCollection r = false ->
      (forall c1, enter r q c1 -> cursor_step member seen token c c1) ->
      (exists c', resolves member seen c (token :: rest) c' /\
      walk_enter (fun w r q => walk_tokens cb (seen ++ [token]) w r q rest) r q s = (Ret (cursor_pair c'), s)) \/
      walk_enter (fun w r q => walk_tokens cb (seen ++ [token]) w r q rest) r q s = (Ret (None, None), s)).
    { intros q Hq Hcoll Hstep. unfold walk_enter. destruct (is_type PropLink q && IsNavLink q) eqn:En.
      - destruct (p_linked_link q Hq En) as (r' & Hl & Hr'). rewrite Hl.
        edestruct (IH (seen ++ [token]) false r' (Some q)) as [(c' & Hres & E)|E];
          [done..|by intros ? [= <-]| |by right].
        left. exists c'. split; [|done]. econstructor; [|done]. apply Hstep.
        apply andb_true_iff in En as [Ht%is_type_eq Hnav]. by constructor.
      - destruct (traversable (p_Type q)) eqn:Et; [|by right].
        edestruct (IH (seen ++ [token]) true r (Some q)) as [(c' & Hres & E)|E];
          [simpl; by rewrite Hcoll|done|by intros ? [= <-]| |by right].
        left. exists c'. split; [|done]. econstructor; [|done]. apply Hstep.
        constructor; [|done]. intros [Ht%is_type_eq Hn]. by rewrite Ht, Hn in En. }
    simpl. destruct walking; simpl in Hc.
    + destruct p as [p|]; [|done]. destruct (IsCollection r) eqn:Ecoll; simplify_eq.
      destruct (object_member p token) as [q|] eqn:Eq; [|by right].
      apply Henter; [|done|by intros; econstructor].
      unfold object_member in Eq. case_match; simplify_eq; eapply p_linked_child; eauto.
    + simplify_eq. destruct (IsCollection r) eqn:Ecoll.
      * destruct (member r (buildPath seen) token) eqn:Em;
          erewrite bind_step by apply Hcb; rewrite Em; [|by right].
        destruct (r_linked_collection r Hr Ecoll) as (r' & Hof & Hr'). rewrite Hof.
        edestruct (IH (seen ++ [token]) false r' p) as [(c' & Hres & E)|E];
          [done|done|done| |by right].
        left. exists c'. split; [|done]. econstructor; [|done]. by econstructor.
      * destruct (mget token (r_Properties r)) as [q|] eqn:Eq; [|by right].
        apply Henter; [by eapply r_linked_child|done|by intros; econstructor].
Qed.

(** *** The walk and the denotation *)

Lemma WalkTree_complete root path c :
  denotes member root path c -> WalkTree root cb path s = (Ret (cursor_pair c), s).
Proof.
  intros (tokens & Et & Hd). unfold WalkTree. rewrite Et.
  case_decide as E; subst; [done|].
  destruct tokens as [|[|] []]; try done; by eapply walk_tokens_complete.
Qed.

Lemma WalkTree_sound root path :
  r_linked root = true ->
  (exists c, denotes member root path c) \/ WalkTree root cb path s = (Ret (None, None), s).
Proof.
  intros Hlinked. unfold WalkTree, denotes. destruct (uri_tokens path) as [tokens|] eqn:Et; [|by right].
  destruct (decide (tokens = [""])) as [->|Hne].
  - left. exists (AtResource root), [""]. split; [done|]. by rewrite decide_True.
  - assert (Hw : match tokens with [""] => ret (Some root, None)
      | _ => walk_tokens cb [] false root None tokens end s = walk_tokens cb [] false root None tokens s)
      by (by destruct tokens as [|[|] []]).
    rewrite Hw. edestruct (walk_tokens_sound tokens [] false root None)
      as [(c & Hr & _)|E]; [done..| |by right].
    left. exists c, tokens. split; [done|]. by rewrite decide_False.
Qed.

(** The walk returns the position denoted, or nothing when there is none. *)
Definition walk_agrees (root : Resource) (path : string) (r : outcome (option Resource * option Property) * S) : Prop :=
  (exists c, denotes member root path c /\ r = (Ret (cursor_pair c), s) /\
     forall c', denotes member root path c' -> cursor_pair c' = cursor_pair c) \/
  ((~ exists c, denotes member root path c) /\ r = (Ret (None, None), s)).

Lemma WalkTree_agrees root path : r_linked root = true -> walk_agrees root path (WalkTree root cb path s).
Proof.
  intros Hl. destruct (WalkTree_sound root path Hl) as [[c Hc]|E].
  - left. exists c. split; [done|]. split; [by apply WalkTree_complete|].
    intros c' Hc'. apply WalkTree_complete in Hc, Hc'. congruence.
  - right. split; [|done]. intros [c Hc]. apply WalkTree_complete in Hc. rewrite E in Hc. by destruct c.
Qed.
End walk_facts.

(* ===================================================================== *)
(** * Properties                                                         *)
(* ===================================================================== *)

(** C20: WalkTree computes what a URI denotes.  On a linked schema tree, and
    for any callback that tests collection membership without changing the
    state, WalkTree never panics and changes nothing; it returns the resource
    (and the property inside it) that the URI denotes according to the
    declarative semantics, and (nil, nil) exactly when the URI denotes
    nothing. *)
Theorem WalkTree_refines S (member : Resource -> string -> string -> bool) (cb : CollectionCB S) root path (s : S)
    (Hcb : answers_member member cb s) (Hlinked : r_linked root = true) :
  (exists c, denotes member root path c /\
     WalkTree root cb path s = (Ret (cursor_pair c), s) /\
     forall c', denotes member root path c' -> cursor_pair c' = cursor_pair c) \/
  ((~ exists c, denotes member root path c) /\ WalkTree root cb path s = (Ret (None, None), s)).
Proof. by apply WalkTree_agrees. Qed.

(* ===================================================================== *)
(** * Example                                                            *)
(* ===================================================================== *)

Module WalkExample.
(** A manager with an action, in the collection /redfish/v1/Managers. *)
Definition reset : Property := leaf (plain_info PropAction).
Definition manager : Resource :=
  mkResource (plain_resource_info "Manager" false)
    [("Id", leaf (plain_info PropString)); ("Actions", object_of [("#Manager.Reset", reset)])] None.
Definition managers : Resource :=
  mkResource (plain_resource_info "ManagerCollection" true) [] (Some manager).
Definition root : Resource :=
  mkResource (plain_resource_info "ServiceRoot" false) [("Managers", nav_link managers)] None.
Definition is_bmc (c : Resource) (path inst : string) : bool :=
  String.eqb path "/redfish/v1/Managers" && String.eqb inst "BMC".

Definition is_bmc_cb : CollectionCB unit := fun c path inst => ret (is_bmc c path inst).

Example walk_member :
  WalkTree root is_bmc_cb "/redfish/v1/Managers/BMC/" tt = (Ret (Some manager, None), tt).
Proof. reflexivity. Qed.
Example walk_action :
  WalkTree root is_bmc_cb "/redfish/v1/Managers/BMC/Actions/Manager.Reset" tt
  = (Ret (Some manager, Some reset), tt).
Proof. reflexivity. Qed.
Example walk_absent :
  WalkTree root is_bmc_cb "/redfish/v1/Managers/NoSuch" tt = (Ret (None, None), tt).
Proof. reflexivity. Qed.

(** A URI that denotes the action of the only manager. *)
Lemma WalkTree_refines_witness :
  r_linked root = true /\
  ((exists c, denotes is_bmc root "/redfish/v1/Managers/BMC/Actions/Manager.Reset" c /\
     WalkTree root is_bmc_cb "/redfish/v1/Managers/BMC/Actions/Manager.Reset" tt
       = (Ret (cursor_pair c), tt) /\
     forall c', denotes is_bmc root "/redfish/v1/Managers/BMC/Actions/Manager.Reset" c' ->
       cursor_pair c' = cursor_pair c) \/
   ((~ exists c, denotes is_bmc root "/redfish/v1/Managers/BMC/Actions/Manager.Reset" c) /\
     WalkTree root is_bmc_cb "/redfish/v1/Managers/BMC/Actions/Manager.Reset" tt
       = (Ret (None, None), tt))).
Proof.
  split; [reflexivity|]. apply (WalkTree_refines unit is_bmc is_bmc_cb root); [by intros c path inst|reflexivity].
Defined.
End WalkExample.
