(* ===== verification/Versions.v ===== *)
(** The released schema bundles and the mapping of each to the versions of
    its resources ([internal/rfschema/versions.go]). *)
From S2P Require Import Prelude Ordering.

(** [Version] *)
Inductive Version :=
  | VersionUnknown | Version1_0 | Version1_0_1 | Version1_1
  | Version2016_1 | Version2016_2 | Version2016_3
  | Version2017_1 | Version2017_2 | Version2017_3
  | Version2018_1 | Version2018_2 | Version2018_3
  | Version2019_1 | VersionLatest.

#[export] Instance Version_eq_dec : EqDecision Version.
Proof. solve_decision. Defined.

(** [Version.String] *)
Definition Version_String (v : Version) : string :=
  match v with
  | Version1_0 => "Version 1.0"
  | Version1_0_1 => "Version 1.0.1"
  | Version1_1 => "Version 1.1"
  | Version2016_1 => "Version 2016.1"
  | Version2016_2 => "Version 2016.2"
  | Version2016_3 => "Version 2016.3"
  | Version2017_1 => "Version 2017.1"
  | Version2017_2 => "Version 2017.2"
  | Version2017_3 => "Version 2017.3"
  | Version2018_1 => "Version 2018.1"
  | Version2018_2 => "Version 2018.2"
  | Version2018_3 => "Version 2018.3"
  | Version2019_1 => "Version 2019.1"
  | VersionLatest => "Version Latest"
  | VersionUnknown => "Unknown"
  end.

Definition version_names : gomap Version :=
  [("1.0", Version1_0); ("1.0.1", Version1_0_1); ("1.1", Version1_1);
   ("2016.1", Version2016_1); ("2016.2", Version2016_2); ("2016.3", Version2016_3);
   ("2017.1", Version2017_1); ("2017.2", Version2017_2); ("2017.3", Version2017_3);
   ("2018.1", Version2018_1); ("2018.2", Version2018_2); ("2018.3", Version2018_3);
   ("2019.1", Version2019_1); ("Latest", VersionLatest)].

Definition ParseVersion (name : string) : result Version :=
  match mget name version_names with
  | Some version => Ok version
  | None => Err (ErrText (name +:+ " is not a valid version"))
  end.

Record Cycle := mkCycle { SourceField : string; DestinationResource : string }.

Record VersionMapping := mkVersionMapping {
  vm_Version : Version;
  vm_Resources : gomap string;
  vm_Objects : gomap string;
  AllowedCollections : gomap bool;
  KnownCycles : gomap Cycle;
}.

(** [VersionMapper]: a mapping per version *)
Abbreviation VersionMapper := (list (Version * VersionMapping)).

Definition VersionMapper_GetMapping (vm : VersionMapper) (version : Version) : option VersionMapping :=
  option_map snd (List.find (fun e => bool_decide (fst e = version)) vm).

Definition VersionMapper_AddMapping (vm : VersionMapper) (mapping : VersionMapping) : result VersionMapper :=
  match VersionMapper_GetMapping vm (vm_Version mapping) with
  | Some _ => Err (ErrText "Version mapping already exists")
  | None => Ok (vm ++ [(vm_Version mapping, mapping)])
  end.

(** [VersionMapper.ReadDir] with [AddMappingFromFile]: the decoded contents of
    a file, or the error of reading it. *)
Fixpoint VersionMapper_ReadDir (vm : VersionMapper) (files : list (string * result VersionMapping)) : result VersionMapper :=
  match files with
  | [] => Ok vm
  | (filePath, contents) :: rest =>
      match (match contents with Ok mapping => VersionMapper_AddMapping vm mapping | Err e => Err e end) with
      | Ok vm' => VersionMapper_ReadDir vm' rest
      | Err e => Err (ErrText ("Unable to add mapping file: " +:+ filePath +:+ " Reason: " +:+ err_string e))
      end
  end.

Section select.
Context {S : Type}.
Variable mapper : VersionMapper.

(** The last of the versions in byte order *)
Definition highest_version (versions : list string) : string := List.last (sort_strings versions) "".

Definition selectResourceVersion (schemaName : string) (version : Version) (versions : list string) : M S string :=
  match versions with
  | [] => panic "No versions present"
  | _ =>
      if decide (version = VersionLatest) then ret (highest_version versions)
      else match VersionMapper_GetMapping mapper version with
           | None => panic ("Unsupported version: " +:+ Version_String version +:+ " for: " +:+ schemaName)
           | Some mapping =>
               match mget schemaName (vm_Resources mapping) with
               | Some v => ret v
               | None => panic ("Resource not found: " +:+ schemaName)
               end
           end
  end.

Definition selectObjectVersion (schemaName : string) (version : Version) (versions : list string) : M S string :=
  match versions with
  | [] => panic "No versions present"
  | _ =>
      if decide (version = VersionLatest) then ret (highest_version versions)
      else match VersionMapper_GetMapping mapper version with
           | None => panic ("Unsupported version: " +:+ Version_String version +:+ " for: " +:+ schemaName)
           | Some mapping =>
               match mget schemaName (vm_Objects mapping), mget schemaName (vm_Resources mapping) with
               | Some v, _ => ret v
               | None, Some v => ret v
               | None, None => panic ("Object not found: " +:+ schemaName)
               end
           end
  end.
End select.

(* ===================================================================== *)
(** * Properties                                                         *)
(* ===================================================================== *)

Lemma GetMapping_app vm vm' version :
  VersionMapper_GetMapping (vm ++ vm') version = match VersionMapper_GetMapping vm version with Some m => Some m | None => VersionMapper_GetMapping vm' version end.
Proof.
  unfold VersionMapper_GetMapping. induction vm as [|[v m] vm IH]; [done|]. simpl. by destruct (bool_decide (v = version)).
Qed.

Lemma AddMapping_gets vm vm' mapping version :
  VersionMapper_AddMapping vm mapping = Ok vm' ->
  VersionMapper_GetMapping vm' version = if decide (vm_Version mapping = version) then Some mapping else VersionMapper_GetMapping vm version.
Proof.
  unfold VersionMapper_AddMapping. destruct (VersionMapper_GetMapping vm (vm_Version mapping)) eqn:E; [done|]. intros [= <-].
  rewrite GetMapping_app. unfold VersionMapper_GetMapping at 2. simpl. destruct (decide (vm_Version mapping = version)) as [<-|Hne].
  - rewrite bool_decide_true by done. by rewrite E.
  - rewrite bool_decide_false by done. by destruct (VersionMapper_GetMapping vm version).
Qed.

(** The latest version is the last in byte order.  Of several versions
    [selectResourceVersion] and [selectObjectVersion] select, for
    [VersionLatest], one of them that no other one follows in byte order;
    this is not the highest version, since v1_10_0 precedes v1_9_0. *)
Theorem latest_version_is_lexical {S} mapper schemaName versions (s : S) (Hne : versions <> []) :
  exists v, v ∈ versions /\ (forall v', v' ∈ versions -> String.leb v' v = true) /\
    selectResourceVersion mapper schemaName VersionLatest versions s = (Ret v, s) /\
    selectObjectVersion mapper schemaName VersionLatest versions s = (Ret v, s).
Proof.
  exists (highest_version versions). pose proof (last_of_sorted versions Hne) as [Hin Hmax].
  split; [done|]. split; [done|]. destruct versions; [done|]. by split.
Qed.

Lemma latest_version_is_lexical_witness :
  highest_version ["v1_9_0"; "v1_10_0"] = "v1_9_0" /\
  exists v, v ∈ ["v1_9_0"; "v1_10_0"] /\ (forall v', v' ∈ ["v1_9_0"; "v1_10_0"] -> String.leb v' v = true) /\
    selectResourceVersion [] "Chassis.json" VersionLatest ["v1_9_0"; "v1_10_0"] tt = (Ret v, tt) /\
    selectObjectVersion [] "Chassis.json" VersionLatest ["v1_9_0"; "v1_10_0"] tt = (Ret v, tt).
Proof. split; [reflexivity|]. by apply (latest_version_is_lexical [] "Chassis.json" ["v1_9_0"; "v1_10_0"] tt). Defined.
