(* ===== verification/Tree.v ===== *)
(** The construction of the schema tree ([internal/rfschema/tree.go],
    [copy.go], [traverse.go]).

    Parsing leaves a pool of resources that are not linked.  The construction
    marks the links that navigate ([detectNavigationLinks],
    [detectNavigationArrays]), turns arrays of members into collections
    ([detectEmbeddedCollections]), and then builds the tree: every link gets
    its own copy of the resource it refers to ([linkDFS]).

    The tree under construction lives in a heap of resources, a link being the
    address of a resource; a property belongs to one resource.  [read_resource]
    gives the finished tree as the program uses it afterwards. *)
From S2P Require Import Prelude Values Schema Walk Versions.

(* ===================================================================== *)
(** * Marking                                                            *)
(* ===================================================================== *)

Definition mark_nav_link (i : property_info) : property_info := with_links true (pi_LinkAutoExpand i) i.

Definition mark_nav_array (i : property_info) : property_info := {|
  pi_Type := pi_Type i; pi_NullAllowed := pi_NullAllowed i; pi_ReadOnly := pi_ReadOnly i;
  pi_Deprecated := pi_Deprecated i; pi_DeprecatedReason := pi_DeprecatedReason i;
  pi_Description := pi_Description i; pi_LongDescription := pi_LongDescription i;
  pi_Types := pi_Types i; pi_RequiredParameters := pi_RequiredParameters i;
  pi_linkRef := pi_linkRef i; pi_IsNavLink := pi_IsNavLink i; pi_LinkAutoExpand := pi_LinkAutoExpand i;
  pi_AdditionalProperties := pi_AdditionalProperties i;
  pi_PatternProperties := pi_PatternProperties i; pi_IsNavArray := true;
  pi_arrayRefString := pi_arrayRefString i; pi_StringFormat := pi_StringFormat i;
  pi_StringMaxLength := pi_StringMaxLength i; pi_StringMinLength := pi_StringMinLength i;
  pi_StringPattern := pi_StringPattern i; pi_EnumMembers := pi_EnumMembers i;
  pi_DeprecatedEnums := pi_DeprecatedEnums i; pi_Units := pi_Units i;
  pi_NumberMaximum := pi_NumberMaximum i; pi_NumberMinimum := pi_NumberMinimum i;
  pi_IntegerMaximun := pi_IntegerMaximun i; pi_IntegerMinimun := pi_IntegerMinimun i |}.

(** A property that became the link to an embedded collection *)
Definition mark_collection_link (linkRef : string) (i : property_info) : property_info := {|
  pi_Type := PropLink; pi_NullAllowed := pi_NullAllowed i; pi_ReadOnly := pi_ReadOnly i;
  pi_Deprecated := pi_Deprecated i; pi_DeprecatedReason := pi_DeprecatedReason i;
  pi_Description := pi_Description i; pi_LongDescription := pi_LongDescription i;
  pi_Types := pi_Types i; pi_RequiredParameters := pi_RequiredParameters i;
  pi_linkRef := linkRef; pi_IsNavLink := true; pi_LinkAutoExpand := true;
  pi_AdditionalProperties := pi_AdditionalProperties i;
  pi_PatternProperties := pi_PatternProperties i; pi_IsNavArray := pi_IsNavArray i;
  pi_arrayRefString := pi_arrayRefString i; pi_StringFormat := pi_StringFormat i;
  pi_StringMaxLength := pi_StringMaxLength i; pi_StringMinLength := pi_StringMinLength i;
  pi_StringPattern := pi_StringPattern i; pi_EnumMembers := pi_EnumMembers i;
  pi_DeprecatedEnums := pi_DeprecatedEnums i; pi_Units := pi_Units i;
  pi_NumberMaximum := pi_NumberMaximum i; pi_NumberMinimum := pi_NumberMinimum i;
  pi_IntegerMaximun := pi_IntegerMaximun i; pi_IntegerMinimun := pi_IntegerMinimun i |}.

Definition with_info (f : property_info -> property_info) (p : Property) : Property :=
  match p with mkProperty i ps arr link params target title => mkProperty (f i) ps arr link params target title end.
Definition with_Properties (ps : properties) (p : Property) : Property :=
  match p with mkProperty i _ arr link params target title => mkProperty i ps arr link params target title end.
Definition resource_with (ps : properties) (r : Resource) : Resource :=
  match r with mkResource i _ coll => mkResource i ps coll end.

Definition map_values {A B} (f : string -> A -> B) (m : gomap A) : gomap B := map (fun e => (fst e, f (fst e) (snd e))) m.

(** One property of [detectNavigationLinks] *)
Definition detect_link (name : string) (property : Property) : Property :=
  if is_type PropLink property then with_info mark_nav_link property
  else if negb (String.eqb name "Links") && is_type PropObject property then
    with_Properties (map_values (fun _ child =>
      if is_type PropLink child then with_info mark_nav_link child else child) (Properties_of property)) property
  else property.

Definition detectNavigationLinks (resources : gomap Resource) : gomap Resource :=
  map_values (fun _ resource => resource_with (map_values detect_link (r_Properties resource)) resource) resources.

Section detect.
Context {S : Type}.

(** [f] on every entry, in the order of the list *)
Fixpoint map_entries {A B} (f : string -> A -> M S B) (m : gomap A) : M S (gomap B) :=
  match m with
  | [] => ret []
  | (k, a) :: rest =>
      b <- f k a ;;
      m' <- map_entries f rest ;;
      ret ((k, b) :: m')
  end.

Definition linkRef_of (p : Property) : string := pi_linkRef (p_info p).

(** One property of [detectNavigationArrays] *)
Definition detect_array (name : string) (property : Property) : M S Property :=
  if is_type PropArray property then
    match ArrayOf property with
    | None => panic nil_deref
    | Some element =>
        ret (if is_type PropLink element && negb (String.eqb (linkRef_of element) "")
             then with_info mark_nav_array property else property)
    end
  else ret property.

Definition detectNavigationArrays (resources : gomap Resource) : M S (gomap Resource) :=
  map_entries (fun _ resource =>
    if String.eqb (r_Name resource) "ResourceBlock" then ret resource
    else ps <- map_entries detect_array (r_Properties resource) ;; ret (resource_with ps resource)) resources.

(** ** References *)

Definition is_upper (a : ascii) : bool := (N.leb 65 (N_of_ascii a) && N.leb (N_of_ascii a) 90)%N.
Definition is_letter (a : ascii) : bool :=
  is_upper a || ((N.leb 97 (N_of_ascii a) && N.leb (N_of_ascii a) 122)%N).

(** The longest prefix of letters, and the rest *)
Fixpoint span_letters (s : string) : string * string :=
  match s with
  | String a s' => if is_letter a then let '(l, r) := span_letters s' in (String a l, r) else ("", s)
  | EmptyString => ("", "")
  end.

(** The text begins with a name: [[A-Z][A-Za-z]+], with the text after it *)
Definition take_name (s : string) : option (string * string) :=
  let '(l, r) := span_letters s in
  match l with
  | String a (String _ _) => if is_upper a then Some (l, r) else None
  | _ => None
  end.

Definition schemas_prefix : string := "http://redfish.dmtf.org/schemas/v1/".
Definition definitions_prefix : string := "#/definitions/".

(** [regexp.MustCompile(r).ReplaceAllString(linkRef, "${1}")]: the match up
    to the name of the definition is replaced by that name; a text that does
    not match stays. *)
Definition replace_reference (linkRef : string) : string :=
  match take_name (str_drop (String.length schemas_prefix) linkRef) with
  | Some (_, rest) =>
      let mark := ".json" +:+ definitions_prefix in
      if has_prefix mark rest then
        match take_name (str_drop (String.length mark) rest) with
        | Some (name, after) => name +:+ after
        | None => linkRef
        end
      else linkRef
  | None => linkRef
  end.

Definition extractLinkedResourceType (linkRef : string) : M S string :=
  if has_prefix schemas_prefix linkRef then ret (replace_reference linkRef)
  else if has_prefix definitions_prefix linkRef then ret (trim_prefix definitions_prefix linkRef)
  else panic ("Bad format for link reference: " +:+ linkRef).

(** ** Embedded collections *)

Definition embedded_info (parent : resource_info) (resourceType : string) (additional : bool)
    (patterns : list PatternProperties) : resource_info := {|
  ri_Name := resourceType;
  ri_ODataType := "#" +:+ ri_Name parent +:+ "." +:+ ri_VersionString parent +:+ "." +:+ resourceType;
  ri_ODataContext := ri_ODataContext parent;
  ri_Description := None; ri_LongDescription := None; ri_AdditionalProperties := additional;
  ri_PatternProperties := patterns; ri_Deletable := false; ri_Insertable := false; ri_Updatable := false;
  ri_IsCollection := false; ri_EmbeddedCollection := false; ri_RequiredProperties := [];
  ri_RequiredOnCreate := []; ri_VersionString := "" |}.

Definition embedded_collection_info (resourceType : string) : resource_info := {|
  ri_Name := resourceType +:+ "Collection"; ri_ODataType := ""; ri_ODataContext := "";
  ri_Description := None; ri_LongDescription := None; ri_AdditionalProperties := false;
  ri_PatternProperties := []; ri_Deletable := false; ri_Insertable := false; ri_Updatable := false;
  ri_IsCollection := true; ri_EmbeddedCollection := true; ri_RequiredProperties := [];
  ri_RequiredOnCreate := []; ri_VersionString := "" |}.

(** The collection, its resource, and the property that becomes the link.
    The resource shares the properties of the elements, which nothing reads
    through the array any more. *)
Definition convertArrayToCollection (parentResource : Resource) (property : Property) :
    M S (Resource * Resource * Property) :=
  match pi_arrayRefString (p_info property) with
  | None => panic "Array does not have reference string"
  | Some refString =>
      resourceType <- extractLinkedResourceType refString ;;
      match ArrayOf property with
      | None => panic nil_deref
      | Some element =>
          additional <- match pi_AdditionalProperties (p_info property) with
                        | None => ret false
                        | Some _ => match pi_AdditionalProperties (p_info element) with
                                    | Some b => ret b
                                    | None => panic nil_deref
                                    end
                        end ;;
          ret (mkResource (embedded_collection_info resourceType) [] None,
               mkResource (embedded_info (r_info parentResource) resourceType additional
                             (pi_PatternProperties (p_info property))) (Properties_of element) None,
               with_info (mark_collection_link (definitions_prefix +:+ resourceType +:+ "Collection")) property)
      end
  end.

(** The collections and resources found so far *)
Definition embedded : Type := (gomap Resource * gomap Resource)%type.

Fixpoint detect_embedded (parentResource : Resource) (found : embedded) (ps : properties) : M S (embedded * properties) :=
  match ps with
  | [] => ret (found, [])
  | (name, property) :: rest =>
      converted <- (if is_type PropArray property then
                      match ArrayOf property with
                      | None => panic nil_deref
                      | Some element =>
                          if mmem "MemberId" (Properties_of element)
                          then c <- convertArrayToCollection parentResource property ;; ret (Some c)
                          else ret None
                      end
                    else ret None) ;;
      let '(found, property) :=
        match converted with
        | Some (collection, resource, property') =>
            ((mput (r_Name collection) collection (fst found), mput (r_Name resource) resource (snd found)), property')
        | None => (found, property)
        end in
      r <- detect_embedded parentResource found rest ;;
      ret (fst r, (name, property) :: snd r)
  end.

(** The embedded collections and their resources, and the resources with
    the links to them *)
Fixpoint detectEmbeddedCollections (found : embedded) (parentResources : gomap Resource) : M S (embedded * gomap Resource) :=
  match parentResources with
  | [] => ret (found, [])
  | (key, parentResource) :: rest =>
      r <- detect_embedded parentResource found (r_Properties parentResource) ;;
      rs <- detectEmbeddedCollections (fst r) rest ;;
      ret (fst rs, (key, resource_with (snd r) parentResource) :: snd rs)
  end.
End detect.

(* ===================================================================== *)
(** * The heap                                                           *)
(* ===================================================================== *)

Abbreviation addr := nat.

Inductive hProperty :=
  | mkHProperty
      (info : property_info)
      (Properties : list (string * hProperty))
      (ArrayOf : option hProperty)
      (Link : option addr)
      (Parameters : list (string * hProperty))
      (Target Title : option hProperty).

Definition hp_info (p : hProperty) : property_info := match p with mkHProperty i _ _ _ _ _ _ => i end.
Definition hp_Properties (p : hProperty) : gomap hProperty := match p with mkHProperty _ ps _ _ _ _ _ => ps end.
Definition hp_ArrayOf (p : hProperty) : option hProperty := match p with mkHProperty _ _ a _ _ _ _ => a end.
Definition hp_Link (p : hProperty) : option addr := match p with mkHProperty _ _ _ l _ _ _ => l end.
Definition hp_is (t : PropertyType) (p : hProperty) : bool := bool_decide (pi_Type (hp_info p) = t).
Definition hp_nav (p : hProperty) : bool := hp_is PropLink p && pi_IsNavLink (hp_info p).
Definition hp_linkRef (p : hProperty) : string := pi_linkRef (hp_info p).

Definition set_Link (l : addr) (p : hProperty) : hProperty :=
  match p with mkHProperty i ps a _ params target title => mkHProperty i ps a (Some l) params target title end.
Definition set_ArrayOf (e : hProperty) (p : hProperty) : hProperty :=
  match p with mkHProperty i ps _ l params target title => mkHProperty i ps (Some e) l params target title end.
Definition set_Properties (ps : gomap hProperty) (p : hProperty) : hProperty :=
  match p with mkHProperty i _ a l params target title => mkHProperty i ps a l params target title end.

Record hResource := mkHResource {
  h_info : resource_info;
  h_Properties : gomap hProperty;
  h_CollectionOf : option addr;
  h_InstanceID : Z;
  h_ReferenceCount : Z;
  h_Linkers : list addr;
}.

(** The heap, the instance counters of the resources of the pool, and the
    stack of the resources to visit *)
Record tree_state := mkTreeState {
  ts_heap : list hResource;
  ts_instances : gomap Z;
  ts_stack : list addr;
}.
Abbreviation T := (M tree_state).

Definition alloc_node (r : hResource) : T addr := fun s =>
  (Ret (List.length (ts_heap s)), mkTreeState (ts_heap s ++ [r]) (ts_instances s) (ts_stack s)).
Definition load_node (a : addr) : T hResource := fun s =>
  match ts_heap s !! a with Some r => (Ret r, s) | None => (Panic nil_deref, s) end.
Definition store_node (a : addr) (r : hResource) : T unit := fun s =>
  (Ret tt, mkTreeState (<[a := r]> (ts_heap s)) (ts_instances s) (ts_stack s)).
Definition push (a : addr) : T unit := fun s =>
  (Ret tt, mkTreeState (ts_heap s) (ts_instances s) (a :: ts_stack s)).
(** [Empty] and [Pop] *)
Definition pop : T (option addr) := fun s =>
  match ts_stack s with
  | [] => (Ret None, s)
  | a :: rest => (Ret (Some a), mkTreeState (ts_heap s) (ts_instances s) rest)
  end.
(** [InstanceID++] on a resource of the pool, and the new number *)
Definition next_instance (name : string) : T Z := fun s =>
  let id := (match mget name (ts_instances s) with Some i => i | None => 0 end + 1)%Z in
  (Ret id, mkTreeState (ts_heap s) (mput name id (ts_instances s)) (ts_stack s)).

(** [resource.Properties[name] = property] *)
Definition put_property (a : addr) (name : string) (property : hProperty) : T unit :=
  resource <- load_node a ;;
  store_node a (mkHResource (h_info resource) (mput name property (h_Properties resource)) (h_CollectionOf resource)
    (h_InstanceID resource) (h_ReferenceCount resource) (h_Linkers resource)).

(** ** Copying *)

(** The fields [copyProperty] copies: all but the bounds of integers *)
Definition copy_info (i : property_info) : property_info := {|
  pi_Type := pi_Type i; pi_NullAllowed := pi_NullAllowed i; pi_ReadOnly := pi_ReadOnly i;
  pi_Deprecated := pi_Deprecated i; pi_DeprecatedReason := pi_DeprecatedReason i;
  pi_Description := pi_Description i; pi_LongDescription := pi_LongDescription i;
  pi_Types := pi_Types i; pi_RequiredParameters := pi_RequiredParameters i;
  pi_linkRef := pi_linkRef i; pi_IsNavLink := pi_IsNavLink i; pi_LinkAutoExpand := pi_LinkAutoExpand i;
  pi_AdditionalProperties := pi_AdditionalProperties i;
  pi_PatternProperties := pi_PatternProperties i; pi_IsNavArray := pi_IsNavArray i;
  pi_arrayRefString := pi_arrayRefString i; pi_StringFormat := pi_StringFormat i;
  pi_StringMaxLength := pi_StringMaxLength i; pi_StringMinLength := pi_StringMinLength i;
  pi_StringPattern := pi_StringPattern i; pi_EnumMembers := pi_EnumMembers i;
  pi_DeprecatedEnums := pi_DeprecatedEnums i; pi_Units := pi_Units i;
  pi_NumberMaximum := pi_NumberMaximum i; pi_NumberMinimum := pi_NumberMinimum i;
  pi_IntegerMaximun := None; pi_IntegerMinimun := None |}.

Definition map_option {S A B} (f : A -> M S B) (o : option A) : M S (option B) :=
  match o with Some a => b <- f a ;; ret (Some b) | None => ret None end.

Fixpoint copyProperty {S} (from : Property) : M S hProperty :=
  match from with
  | mkProperty i ps arr link params target title =>
      ps' <- map_entries (fun _ => copyProperty) ps ;;
      match link with
      | Some _ => panic "Link has value"
      | None =>
          arr' <- map_option copyProperty arr ;;
          params' <- map_entries (fun _ => copyProperty) params ;;
          target' <- map_option copyProperty target ;;
          title' <- map_option copyProperty title ;;
          ret (mkHProperty (copy_info i) ps' arr' None params' target' title')
      end
  end.

Definition copyResource (from : Resource) (instanceID : Z) : T addr :=
  match CollectionOf from with
  | Some _ => panic "Collection can not link a resource yet"
  | None =>
      ps <- map_entries (fun _ => copyProperty) (r_Properties from) ;;
      alloc_node (mkHResource (r_info from) ps None instanceID 0 [])
  end.

(* ===================================================================== *)
(** * Linking                                                            *)
(* ===================================================================== *)

Definition cycle_info : resource_info := {|
  ri_Name := "CycleDetected"; ri_ODataType := ""; ri_ODataContext := "";
  ri_Description := Some "A cycle was detected when linking the schema tree";
  ri_LongDescription := None; ri_AdditionalProperties := false;
  ri_PatternProperties := []; ri_Deletable := false; ri_Insertable := false; ri_Updatable := false;
  ri_IsCollection := false; ri_EmbeddedCollection := false; ri_RequiredProperties := [];
  ri_RequiredOnCreate := []; ri_VersionString := "" |}.

Section linking.
Variables (mapping : option VersionMapping) (collections resources : gomap Resource).

Definition allResources : gomap Resource :=
  fold_left (fun m e => mput (fst e) (snd e) m) resources
    (fold_left (fun m e => mput (fst e) (snd e) m) collections []).

Definition known_cycle (m : VersionMapping) (source field destination : string) : bool :=
  match mget source (KnownCycles m) with
  | Some cycle => String.eqb (SourceField cycle) field && String.eqb (DestinationResource cycle) destination
  | None => false
  end.

(** The property with its link, and whether the resource was given the
    property under [name] *)
Definition linkNavProperty (a : addr) (name : string) (property : hProperty) : T (hProperty * bool) :=
  resource <- load_node a ;;
  linkedResourceType <- extractLinkedResourceType (hp_linkRef property) ;;
  if String.eqb linkedResourceType "" then panic ("Could not extract linked resource type:" +:+ hp_linkRef property)
  else
    match mget linkedResourceType allResources with
    | None => panic "Property requested in resource does not exist in linked resource"
    | Some linkedResource =>
        match hp_Link property, mapping with
        | Some _, _ => panic "Link is not nil"
        | None, None => panic "Version mapping is not present"
        | None, Some m =>
            if known_cycle m (ri_Name (h_info resource)) name (r_Name linkedResource) then
              l <- alloc_node (mkHResource cycle_info [] None 0 0 []) ;;
              ret (set_Link l property, false)
            else if String.eqb (ri_Name (h_info resource)) (r_Name linkedResource) then panic "Cycle!"
            else
              id <- next_instance linkedResourceType ;;
              l <- copyResource linkedResource id ;;
              put_property a name (set_Link l property) ;;
              ret (set_Link l property, true)
        end
    end.

(** [resourcesToVisit.Push(property.Link)] *)
Definition push_link (property : hProperty) : T unit :=
  match hp_Link property with Some l => push l | None => panic "property link is nil" end.

(** The children of an object property.  The object is in the map of its
    resource as long as it is [attached]: the link of a child is also put into
    that map, under the name of the child. *)
Fixpoint visit_children (a : addr) (name : string) (property : hProperty) (attached : bool) (children : list string) : T unit :=
  match children with
  | [] => ret tt
  | childName :: rest =>
      match mget childName (hp_Properties property) with
      | None => visit_children a name property attached rest
      | Some childProperty =>
          let notYetLinked := match hp_Link property with None => negb (String.eqb (hp_linkRef property) "") | _ => false end in
          if negb (hp_nav childProperty) && negb notYetLinked then visit_children a name property attached rest
          else
            linked <- linkNavProperty a childName childProperty ;;
            let attached := attached && negb (snd linked && String.eqb childName name) in
            let property := set_Properties (mput childName (fst linked) (hp_Properties property)) property in
            (if attached then put_property a name property else ret tt) ;;
            push_link (fst linked) ;;
            visit_children a name property attached rest
      end
  end.

(** The link of the elements of an array *)
Definition visit_array (a : addr) (name : string) (property element : hProperty) : T unit :=
  resource <- load_node a ;;
  linkedResourceType <- extractLinkedResourceType (hp_linkRef element) ;;
  if String.eqb linkedResourceType "" then panic ("Could not extract linked resource type:" +:+ hp_linkRef element)
  else
    match mget linkedResourceType allResources with
    | None => panic ("Does not have resource: " +:+ linkedResourceType)
    | Some linkedResource =>
        match hp_Link element with
        | Some _ => panic "Link is not nil"
        | None =>
            if String.eqb (ri_Name (h_info resource)) (r_Name linkedResource) then panic "Cycle!"
            else
              id <- next_instance linkedResourceType ;;
              l <- copyResource linkedResource id ;;
              put_property a name (set_ArrayOf (set_Link l element) property) ;;
              push l
        end
    end.

(** One property of a resource.  A property that is put into the map during
    the loop is linked already, so that it does not matter whether the loop
    comes to it. *)
Definition visit_property (a : addr) (name : string) : T unit :=
  resource <- load_node a ;;
  match mget name (h_Properties resource) with
  | None => ret tt
  | Some property =>
      if hp_nav property && (match hp_Link property with None => true | _ => false end)
         && negb (String.eqb (hp_linkRef property) "") then
        linked <- linkNavProperty a name property ;;
        put_property a name (fst linked) ;;
        push_link (fst linked)
      else if negb (String.eqb name "Links") && hp_is PropObject property then
        visit_children a name property true (mkeys (hp_Properties property))
      else if hp_is PropArray property && pi_IsNavArray (hp_info property) then
        match hp_ArrayOf property with
        | None => panic nil_deref
        | Some element => if String.eqb (hp_linkRef element) "" then ret tt else visit_array a name property element
        end
      else ret tt
  end.

(** The resource of the members of a collection *)
Definition visit_collection (a : addr) (resource : hResource) : T unit :=
  if negb (has_suffix "Collection" (ri_Name (h_info resource)))
  then panic ("Does not have 'Collection' as a suffix: " +:+ ri_Name (h_info resource))
  else
    let resourceName := trim_suffix "Collection" (ri_Name (h_info resource)) in
    match mget resourceName resources with
    | None => panic "Does not have resource"
    | Some collectionOf =>
        id <- next_instance resourceName ;;
        l <- copyResource collectionOf id ;;
        store_node a (mkHResource (h_info resource) (h_Properties resource) (Some l)
          (h_InstanceID resource) (h_ReferenceCount resource) (h_Linkers resource)) ;;
        push l
    end.

Definition visit (a : addr) : T unit :=
  resource <- load_node a ;;
  if ri_IsCollection (h_info resource) then visit_collection a resource
  else for_each (visit_property a) (mkeys (h_Properties resource)).

Definition checkNilLinks (resource : Resource) : T unit :=
  if existsb (fun e => is_type PropLink (snd e) && IsNavLink (snd e) && match Link (snd e) with Some _ => true | None => false end)
       (r_Properties resource)
  then panic "Should be nil" else ret tt.

Fixpoint linkDFS_loop (fuel : nat) (visited : list addr) : T (list addr) :=
  match fuel with
  | O => out_of_fuel
  | S fuel' =>
      next <- pop ;;
      match next with
      | None => ret visited
      | Some a =>
          for_each (fun e => checkNilLinks (snd e)) allResources ;;
          if bool_decide (a ∈ visited) then linkDFS_loop fuel' visited
          else visit a ;; linkDFS_loop fuel' (a :: visited)
      end
  end.
End linking.

(** ** The checks of the tree *)

Definition dangling (p : hProperty) : bool :=
  hp_nav p && match hp_Link p with None => true | _ => false end.

Definition checkLinks_property (p : hProperty) : T unit :=
  if dangling p then panic "Nil Nav Link"
  else if hp_is PropArray p && pi_IsNavArray (hp_info p) then
    match hp_ArrayOf p with
    | None => panic nil_deref
    | Some e => match hp_Link e with None => panic "Nil Nav Array Link" | Some _ => ret tt end
    end
  else ret tt.
Definition checkLinks (visited : list addr) : T unit :=
  for_each (fun a => r <- load_node a ;; for_each (fun e => checkLinks_property (snd e)) (h_Properties r)) visited.

(** The resources [TraverseTree] pushes after a resource; a collection without
    a resource pushes nil. *)
Definition next_links (r : hResource) : T (list (option addr)) :=
  if ri_IsCollection (h_info r) then ret [h_CollectionOf r]
  else
    (fix go (ps : gomap hProperty) : T (list (option addr)) :=
       match ps with
       | [] => ret []
       | (name, p) :: rest =>
           if hp_nav p then
             match hp_Link p with
             | None => panic ("Link does not exist: " +:+ name)
             | Some l => ls <- go rest ;; ret (Some l :: ls)
             end
           else go rest
       end) (h_Properties r).

Fixpoint TraverseTree_loop (fuel : nat) (onResourceVisit : addr -> T unit) (discovered : list addr) (stack : list (option addr)) : T unit :=
  match fuel with
  | O => out_of_fuel
  | S fuel' =>
      match stack with
      | [] => ret tt
      | None :: _ => panic nil_deref
      | Some a :: rest =>
          if bool_decide (a ∈ discovered) then TraverseTree_loop fuel' onResourceVisit discovered rest
          else
            onResourceVisit a ;;
            r <- load_node a ;;
            ls <- next_links r ;;
            TraverseTree_loop fuel' onResourceVisit (a :: discovered) (rev ls ++ rest)
      end
  end.
Definition TraverseTree (fuel : nat) (root : addr) (onResourceVisit : addr -> T unit) : T unit :=
  TraverseTree_loop fuel onResourceVisit [] [Some root].

Definition add_reference (a b : addr) : T unit :=
  r <- load_node b ;;
  store_node b (mkHResource (h_info r) (h_Properties r) (h_CollectionOf r) (h_InstanceID r)
    (h_ReferenceCount r + 1)%Z (h_Linkers r ++ [a])).

Definition count_visit (a : addr) : T unit :=
  r <- load_node a ;;
  if ri_IsCollection (h_info r) then
    match h_CollectionOf r with Some b => add_reference a b | None => panic nil_deref end
  else
    for_each (fun e => if hp_nav (snd e) then
                         match hp_Link (snd e) with Some b => add_reference a b | None => panic nil_deref end
                       else ret tt) (h_Properties r).
Definition countReferences (fuel : nat) (root : addr) : T unit := TraverseTree fuel root count_visit.

Definition link_visit (a : addr) : T unit :=
  r <- load_node a ;;
  if existsb (fun e => dangling (snd e)) (h_Properties r) then panic "Link is nil" else ret tt.
Definition ref_visit (a : addr) : T unit :=
  r <- load_node a ;;
  if Z.ltb 1 (h_ReferenceCount r) then panic "Resource has too many references" else ret tt.

Definition consistencyCheck (fuel : nat) (root : addr) : T unit :=
  TraverseTree fuel root link_visit ;;
  countReferences fuel root ;;
  TraverseTree fuel root ref_visit.

Definition linkDFS (fuel : nat) (mapping : option VersionMapping) (collections resources : gomap Resource) : T addr :=
  let all := allResources collections resources in
  if negb (Nat.eqb (List.length all) (List.length resources + List.length collections)) then panic "Size mismatch"
  else
    for_each (fun e => checkNilLinks (snd e)) all ;;
    match mget "ServiceRoot" resources with
    | None => panic "Could not get service root"
    | Some serviceRoot =>
        root <- copyResource serviceRoot 0 ;;
        push root ;;
        visited <- linkDFS_loop mapping collections resources fuel [] ;;
        checkLinks visited ;;
        consistencyCheck fuel root ;;
        ret root
    end.

(** [CreateTree], after the parsing *)
Definition merge {A} (m m' : gomap A) : gomap A := fold_left (fun m e => mput (fst e) (snd e) m) m' m.

(** The collections and resources with the embedded ones, marked *)
Definition prepare_pool {S} (collections resources : gomap Resource) : M S (gomap Resource * gomap Resource) :=
  detected <- detectEmbeddedCollections ([], []) resources ;;
  let collections := merge collections (fst (fst detected)) in
  let resources := merge (snd detected) (snd (fst detected)) in
  resources <- detectNavigationArrays (detectNavigationLinks resources) ;;
  ret (collections, resources).

Definition CreateTree_link (fuel : nat) (mapping : option VersionMapping) (collections resources : gomap Resource) : T addr :=
  pool <- prepare_pool collections resources ;;
  linkDFS fuel mapping (fst pool) (snd pool).

(** ** The finished tree *)

Section all_some.
Context {A B : Type} (f : A -> option B).
Fixpoint all_some (l : list (string * A)) : option (list (string * B)) :=
  match l with
  | [] => Some []
  | (k, a) :: rest =>
      match f a, all_some rest with Some b, Some l' => Some ((k, b) :: l') | _, _ => None end
  end.
Definition opt_some (o : option A) : option (option B) :=
  match o with None => Some None | Some a => match f a with Some b => Some (Some b) | None => None end end.
End all_some.

Section read.
Variable link : addr -> option Resource.
Fixpoint read_property (p : hProperty) : option Property :=
  match p with
  | mkHProperty i ps arr l params target title =>
      match all_some read_property ps, opt_some read_property arr, opt_some link l,
            all_some read_property params, opt_some read_property target, opt_some read_property title with
      | Some ps', Some arr', Some l', Some params', Some target', Some title' =>
          Some (mkProperty i ps' arr' l' params' target' title')
      | _, _, _, _, _, _ => None
      end
  end.
End read.

(** The resource at an address, to a depth of links *)
Fixpoint read_resource (n : nat) (h : list hResource) (a : addr) : option Resource :=
  match n with
  | O => None
  | S n' =>
      match h !! a with
      | None => None
      | Some r =>
          match all_some (read_property (read_resource n' h)) (h_Properties r),
                opt_some (read_resource n' h) (h_CollectionOf r) with
          | Some ps, Some coll => Some (mkResource (h_info r) ps coll)
          | _, _ => None
          end
      end
  end.
