(* ===== verification/Linking.v ===== *)
(** What the construction of the tree builds.

    [expand] is the tree by recursion: every link of a resource is a copy of
    the resource of the pool it refers to, itself expanded.  On a pool whose
    references have no cycle but the known ones ([linkable], which is decided),
    [linkDFS] ends without a panic, passes its own checks, and what it leaves
    in the heap reads as that tree. *)
From S2P Require Import Prelude Values Schema Walk Versions Tree.

(** ** Copies *)

(** No property below has a link. *)
Fixpoint copyable (p : Property) : bool :=
  match p with
  | mkProperty _ ps arr link params target title =>
      forallb (fun e => copyable (snd e)) ps
      && match arr with Some e => copyable e | None => true end
      && match link with Some _ => false | None => true end
      && forallb (fun e => copyable (snd e)) params
      && match target with Some e => copyable e | None => true end
      && match title with Some e => copyable e | None => true end
  end.

(** The copy of a property: without the bounds of integers *)
Fixpoint copied (p : Property) : Property :=
  match p with
  | mkProperty i ps arr link params target title =>
      mkProperty (copy_info i) (map (fun e => (fst e, copied (snd e))) ps) (option_map copied arr) link
        (map (fun e => (fst e, copied (snd e))) params) (option_map copied target) (option_map copied title)
  end.
Fixpoint hcopy (p : Property) : hProperty :=
  match p with
  | mkProperty i ps arr link params target title =>
      mkHProperty (copy_info i) (map (fun e => (fst e, hcopy (snd e))) ps) (option_map hcopy arr) None
        (map (fun e => (fst e, hcopy (snd e))) params) (option_map hcopy target) (option_map hcopy title)
  end.

Definition with_Link (r : Resource) (p : Property) : Property :=
  match p with mkProperty i ps arr _ params target title => mkProperty i ps arr (Some r) params target title end.
Definition with_ArrayOf (e : Property) (p : Property) : Property :=
  match p with mkProperty i ps _ l params target title => mkProperty i ps (Some e) l params target title end.

(** ** The tree by recursion *)

Section expand.
Variables (mapping : VersionMapping) (collections resources : gomap Resource).

(** The resource a reference leads to *)
Definition reference (linkRef : string) : option Resource :=
  match fst (extractLinkedResourceType (S := unit) linkRef tt) with
  | Ret t => if String.eqb t "" then None else mget t (allResources collections resources)
  | _ => None
  end.

Definition cycle_resource : Resource := mkResource cycle_info [] None.

Definition is_nav (p : Property) : bool := is_type PropLink p && IsNavLink p.
Definition nav_array (p : Property) : bool := is_type PropArray p && pi_IsNavArray (p_info p).
Definition nav_object (name : string) (p : Property) : bool := negb (String.eqb name "Links") && is_type PropObject p.

(** The link of the property [name] of [r]: the resource that is copied, and
    whether it is the mark of a known cycle *)
Definition target_of (r : Resource) (name : string) (p : Property) : option (Resource * bool) :=
  match reference (linkRef_of p) with
  | None => None
  | Some t =>
      if known_cycle mapping (r_Name r) name (r_Name t) then Some (cycle_resource, true)
      else if String.eqb (r_Name r) (r_Name t) then None else Some (t, false)
  end.

Definition array_target (r : Resource) (e : Property) : option Resource :=
  match reference (linkRef_of e) with
  | None => None
  | Some t => if String.eqb (r_Name r) (r_Name t) then None else Some t
  end.

Definition member_of (r : Resource) : option Resource := mget (trim_suffix "Collection" (r_Name r)) resources.

(** The resources a property leads to, in the order they are pushed *)
Definition child_targets (r : Resource) (e : string * Property) : list Resource :=
  if is_nav (snd e) then match target_of r (fst e) (snd e) with Some t => [fst t] | None => [] end else [].
Definition property_targets (r : Resource) (e : string * Property) : list Resource :=
  let '(name, p) := e in
  if is_nav p then child_targets r e
  else if nav_object name p then flat_map (child_targets r) (Properties_of p)
  else if nav_array p then
    match ArrayOf p with Some e => match array_target r e with Some t => [t] | None => [] end | None => [] end
  else [].
Definition link_targets (r : Resource) : list Resource :=
  if IsCollection r then match member_of r with Some t => [t] | None => [] end
  else flat_map (property_targets r) (r_Properties r).

(** The links of the children of an object that are put at the top of the
    resource as well *)
Definition promotes (r : Resource) (e : string * Property) : bool :=
  is_nav (snd e) && match target_of r (fst e) (snd e) with Some (_, cycle) => negb cycle | None => false end.

(** ** When the construction succeeds *)

Definition copyable_resource (r : Resource) : bool :=
  match CollectionOf r with Some _ => false | None => forallb (fun e => copyable (snd e)) (r_Properties r) end.

Definition link_ok (r : Resource) (e : string * Property) : bool :=
  match target_of r (fst e) (snd e) with Some _ => true | None => false end.
Definition property_ok (r : Resource) (e : string * Property) : bool :=
  let '(name, p) := e in
  if is_nav p then link_ok r e
  else if nav_object name p then
    String.eqb (linkRef_of p) "" && bool_decide (NoDup (mkeys (Properties_of p)))
    && forallb (fun c => negb (is_nav (snd c)) || link_ok r c) (Properties_of p)
  else if nav_array p then
    match ArrayOf p with Some e => match array_target r e with Some _ => true | None => false end | None => false end
  else true.

(** The names at the top of the resource, in the end *)
Definition promoted_names (r : Resource) (e : string * Property) : list string :=
  let '(name, p) := e in
  if is_nav p then [] else if nav_object name p then mkeys (List.filter (promotes r) (Properties_of p)) else [].
Definition final_names (r : Resource) : list string := mkeys (r_Properties r) ++ flat_map (promoted_names r) (r_Properties r).

Definition resource_ok (r : Resource) : bool :=
  copyable_resource r
  && if IsCollection r then
       forallb (fun e => negb (is_nav (snd e)) && negb (nav_array (snd e))) (r_Properties r)
       && (has_suffix "Collection" (r_Name r) && match member_of r with Some _ => true | None => false end)
     else bool_decide (NoDup (final_names r)) && forallb (property_ok r) (r_Properties r).

(** No chain of references is longer than [n]. *)
Fixpoint linkable (n : nat) (r : Resource) : bool :=
  match n with
  | O => false
  | S n' => resource_ok r && forallb (linkable n') (link_targets r)
  end.

(** The number of resources of the tree *)
Fixpoint weight (n : nat) (r : Resource) : nat :=
  match n with
  | O => 0
  | S n' => S (list_sum (map (weight n') (link_targets r)))
  end.

(** ** The tree *)

Section expand_level.
Variable expand : Resource -> Resource.

Definition expand_link (r : Resource) (e : string * Property) : Property :=
  match target_of r (fst e) (snd e) with
  | Some (t, _) => with_Link (expand t) (copied (snd e))
  | None => copied (snd e)
  end.
Definition expand_child (r : Resource) (e : string * Property) : Property :=
  if is_nav (snd e) then expand_link r e else copied (snd e).
Definition expand_property (r : Resource) (e : string * Property) : Property :=
  let '(name, p) := e in
  if is_nav p then expand_link r e
  else if nav_object name p then
    with_Properties (map (fun c => (fst c, expand_child r c)) (Properties_of p)) (copied p)
  else if nav_array p then
    match ArrayOf p with
    | Some e => match array_target r e with
                | Some t => with_ArrayOf (with_Link (expand t) (copied e)) (copied p)
                | None => copied p
                end
    | None => copied p
    end
  else copied p.
Definition promoted (r : Resource) (e : string * Property) : properties :=
  let '(name, p) := e in
  if is_nav p then []
  else if nav_object name p then
    map (fun c => (fst c, expand_child r c)) (List.filter (promotes r) (Properties_of p))
  else [].
Definition expand_resource (r : Resource) : Resource :=
  if IsCollection r then
    mkResource (r_info r) (map (fun e => (fst e, copied (snd e))) (r_Properties r)) (option_map expand (member_of r))
  else
    mkResource (r_info r)
      (map (fun e => (fst e, expand_property r e)) (r_Properties r) ++ flat_map (promoted r) (r_Properties r)) None.
End expand_level.

Fixpoint expand (n : nat) (r : Resource) : Resource :=
  match n with
  | O => r
  | S n' => expand_resource (expand n') r
  end.
End expand.

(* ===================================================================== *)
(** * Copies                                                             *)
(* ===================================================================== *)

Definition opt_all {A} (P : A -> Prop) (o : option A) : Prop := match o with Some a => P a | None => True end.

(** Induction over properties, through the lists and options but not the
    links *)
Section property_induction.
Variable P : Property -> Prop.
Hypothesis HNode : forall i ps arr link params target title,
  Forall (fun e => P (snd e)) ps -> opt_all P arr -> Forall (fun e => P (snd e)) params ->
  opt_all P target -> opt_all P title -> P (mkProperty i ps arr link params target title).
Fixpoint property_induction (p : Property) : P p :=
  let entries := fix go (l : list (string * Property)) : Forall (fun e => P (snd e)) l :=
    match l with
    | [] => Forall_nil_2 _
    | e :: l' => Forall_cons_2 _ e l' (property_induction (snd e)) (go l')
    end in
  let opt := fun o : option Property =>
    match o return opt_all P o with Some q => property_induction q | None => I end in
  match p with
  | mkProperty i ps arr link params target title =>
      HNode i ps arr link params target title (entries ps) (opt arr) (entries params) (opt target) (opt title)
  end.
End property_induction.

Lemma map_entries_ok {S A B} (f : string -> A -> M S B) (g : A -> B) (l : gomap A) (s : S) :
  Forall (fun e => f (fst e) (snd e) s = (Ret (g (snd e)), s)) l ->
  map_entries f l s = (Ret (map (fun e => (fst e, g (snd e))) l), s).
Proof.
  induction 1 as [|[k a] l Ha _ IH]; [done|]. simpl. erewrite bind_step by exact Ha. by erewrite bind_step by exact IH.
Qed.

Lemma map_option_ok {S A B} (f : A -> M S B) (g : A -> B) (o : option A) (s : S) :
  opt_all (fun a => f a s = (Ret (g a), s)) o -> map_option f o s = (Ret (option_map g o), s).
Proof. destruct o as [a|]; simpl; [|done]. intros Ha. by erewrite bind_step by exact Ha. Qed.

Lemma forallb_Forall_impl {A} (f : A -> bool) (P : A -> Prop) l :
  Forall (fun a => f a = true -> P a) l -> forallb f l = true -> Forall P l.
Proof. induction 1; simpl; [constructor|]. intros [? ?]%andb_true_iff. constructor; auto. Qed.

Lemma copyable_inv i ps arr link params target title :
  copyable (mkProperty i ps arr link params target title) = true ->
  forallb (fun e => copyable (snd e)) ps = true /\ opt_all (fun e => copyable e = true) arr /\ link = None /\
  forallb (fun e => copyable (snd e)) params = true /\ opt_all (fun e => copyable e = true) target /\
  opt_all (fun e => copyable e = true) title.
Proof.
  simpl. rewrite !andb_true_iff. intros [[[[[? ?] Hl] ?] ?] ?].
  repeat split; try done; try (by destruct arr); try (by destruct link); try (by destruct target); by destruct title.
Qed.

Lemma opt_all_impl {A} (P Q R : A -> Prop) o : (forall a, P a -> Q a -> R a) -> opt_all P o -> opt_all Q o -> opt_all R o.
Proof. destruct o; simpl; auto. Qed.

(** A property without links is copied. *)
Lemma copyProperty_copies {S} p : copyable p = true -> forall s : S, copyProperty p s = (Ret (hcopy p), s).
Proof.
  induction p as [i ps arr link params target title Hps Harr Hparams Htarget Htitle] using property_induction.
  intros (Cps & Carr & -> & Cparams & Ctarget & Ctitle)%copyable_inv s. simpl.
  assert (Hl : forall l : list (string * Property),
    Forall (fun e => copyable (snd e) = true -> forall s : S, copyProperty (snd e) s = (Ret (hcopy (snd e)), s)) l ->
    forallb (fun e => copyable (snd e)) l = true ->
    map_entries (fun _ => copyProperty) l s = (Ret (map (fun e => (fst e, hcopy (snd e))) l), s)).
  { intros l Hl Hc. apply (map_entries_ok (fun _ => copyProperty) hcopy). eapply forallb_Forall_impl; [|exact Hc].
    eapply Forall_impl; [exact Hl|]. naive_solver. }
  assert (Ho : forall o : option Property,
    opt_all (fun p => copyable p = true -> forall s : S, copyProperty p s = (Ret (hcopy p), s)) o ->
    opt_all (fun e => copyable e = true) o ->
    map_option copyProperty o s = (Ret (option_map hcopy o), s)).
  { intros o Hi Hc. apply map_option_ok. refine (opt_all_impl _ _ _ _ _ Hi Hc). naive_solver. }
  erewrite bind_step by by apply Hl. erewrite bind_step by by apply Ho. erewrite bind_step by by apply Hl.
  erewrite bind_step by by apply Ho. by erewrite bind_step by by apply Ho.
Qed.

Lemma all_some_map {A B C} (f : B -> option C) (g : A -> B) (k : A -> C) (l : list (string * A)) :
  Forall (fun e => f (g (snd e)) = Some (k (snd e))) l ->
  all_some f (map (fun e => (fst e, g (snd e))) l) = Some (map (fun e => (fst e, k (snd e))) l).
Proof. induction 1 as [|[n a] l Ha _ IH]; [done|]. simpl in *. by rewrite Ha, IH. Qed.

Lemma opt_some_map {A B C} (f : B -> option C) (g : A -> B) (k : A -> C) (o : option A) :
  opt_all (fun a => f (g a) = Some (k a)) o -> opt_some f (option_map g o) = Some (option_map k o).
Proof. destruct o; simpl; [|done]. by intros ->. Qed.

(** A copy reads as the copied property, whatever links are. *)
Lemma hcopy_reads link p : copyable p = true -> read_property link (hcopy p) = Some (copied p).
Proof.
  induction p as [i ps arr l params target title Hps Harr Hparams Htarget Htitle] using property_induction.
  intros (Cps & Carr & -> & Cparams & Ctarget & Ctitle)%copyable_inv. simpl.
  assert (Hl : forall m : list (string * Property),
    Forall (fun e => copyable (snd e) = true -> read_property link (hcopy (snd e)) = Some (copied (snd e))) m ->
    forallb (fun e => copyable (snd e)) m = true ->
    all_some (read_property link) (map (fun e => (fst e, hcopy (snd e))) m) = Some (map (fun e => (fst e, copied (snd e))) m)).
  { intros m Hi Hc. apply (all_some_map _ hcopy copied). exact (forallb_Forall_impl _ _ _ Hi Hc). }
  assert (Ho : forall o : option Property,
    opt_all (fun p => copyable p = true -> read_property link (hcopy p) = Some (copied p)) o ->
    opt_all (fun e => copyable e = true) o ->
    opt_some (read_property link) (option_map hcopy o) = Some (option_map copied o)).
  { intros o Hi Hc. apply opt_some_map. refine (opt_all_impl _ _ _ _ _ Hi Hc). naive_solver. }
  by rewrite !Hl, !Ho.
Qed.

(* ===================================================================== *)
(** * One step of the construction                                       *)
(* ===================================================================== *)

(** What is known of an address: the rank and the resource of the pool that
    is copied there, and the place that leads to it, if [TraverseTree] follows
    that place. *)
Record origin := mkOrigin { o_rank : nat; o_resource : Resource; o_parent : option (addr * string) }.

Definition fresh_node (r : Resource) (hr : hResource) : Prop :=
  h_info hr = r_info r /\ h_Properties hr = map (fun e => (fst e, hcopy (snd e))) (r_Properties r) /\
  h_CollectionOf hr = None /\ h_ReferenceCount hr = 0%Z.

Definition with_h_Properties (ps : gomap hProperty) (hr : hResource) : hResource :=
  mkHResource (h_info hr) ps (h_CollectionOf hr) (h_InstanceID hr) (h_ReferenceCount hr) (h_Linkers hr).

(** From [s] to [s'], only the resource at [a] has changed, and the resources
    of [news] were copied to new addresses and pushed in that order. *)
Record grows (a : addr) (src news : list origin) (s s' : tree_state) (hr : hResource) : Prop := {
  g_length : List.length (ts_heap s') = (List.length src + List.length news)%nat;
  g_node : ts_heap s' !! a = Some hr;
  g_other : forall b, b <> a -> (b < List.length src)%nat -> ts_heap s' !! b = ts_heap s !! b;
  g_new : forall j o, news !! j = Some o ->
    exists hr', ts_heap s' !! (List.length src + j)%nat = Some hr' /\ fresh_node (o_resource o) hr';
  g_stack : ts_stack s' = reverse (seq (List.length src) (List.length news)) ++ ts_stack s;
}.

Lemma grows_refl a src s hr :
  List.length (ts_heap s) = List.length src -> ts_heap s !! a = Some hr -> grows a src [] s s hr.
Proof. intros Hl Ha. constructor; simpl; try done; by rewrite Nat.add_0_r. Qed.

Lemma grows_trans a src n1 n2 s s1 s2 hr1 hr2 :
  (a < List.length src)%nat -> grows a src n1 s s1 hr1 -> grows a (src ++ n1) n2 s1 s2 hr2 ->
  grows a src (n1 ++ n2) s s2 hr2.
Proof.
  intros Ha [L1 A1 O1 N1 S1] [L2 A2 O2 N2 S2]. rewrite length_app in *. constructor.
  - rewrite L2, length_app. lia.
  - done.
  - intros b Hb Hlt. rewrite O2 by (done || lia). by apply O1.
  - intros j o Hj. apply lookup_app_Some in Hj as [Hj|[Hge Hj]].
    + destruct (N1 j o Hj) as (hr & Hhr & Hf). exists hr. split; [|done].
      pose proof (lookup_lt_Some _ _ _ Hj). rewrite O2 by lia. done.
    + destruct (N2 _ o Hj) as (hr & Hhr & Hf). exists hr. split; [|done].
      replace (List.length src + j)%nat with (List.length src + List.length n1 + (j - List.length n1))%nat by lia. done.
  - rewrite S2, S1, length_app, seq_app, reverse_app, <- app_assoc. done.
Qed.

Lemma mput_middle {A} k (v w : A) l1 l2 : k ∉ mkeys l1 -> mput k v (l1 ++ (k, w) :: l2) = l1 ++ (k, v) :: l2.
Proof.
  induction l1 as [|[k' a] l1 IH]; simpl; [by rewrite String.eqb_refl|].
  rewrite not_elem_of_cons. intros [Hne Hk]. simpl. destruct (String.eqb_spec k k'); [done|]. by rewrite IH.
Qed.

Lemma mget_middle {A} k (w : A) l1 l2 : k ∉ mkeys l1 -> mget k (l1 ++ (k, w) :: l2) = Some w.
Proof.
  induction l1 as [|[k' a] l1 IH]; simpl; [by rewrite String.eqb_refl|].
  rewrite not_elem_of_cons. intros [Hne Hk]. destruct (String.eqb_spec k k'); [done|]. by apply IH.
Qed.

Lemma load_node_ok a s hr : ts_heap s !! a = Some hr -> load_node a s = (Ret hr, s).
Proof. unfold load_node. by intros ->. Qed.

Lemma put_property_ok a name p s hr : ts_heap s !! a = Some hr ->
  put_property a name p s = (Ret tt, mkTreeState (<[a := with_h_Properties (mput name p (h_Properties hr)) hr]> (ts_heap s))
    (ts_instances s) (ts_stack s)).
Proof. intros Ha. unfold put_property. by erewrite bind_step by by apply load_node_ok. Qed.

Lemma copyResource_ok r id s : copyable_resource r = true ->
  exists hr, copyResource r id s = (Ret (List.length (ts_heap s)), mkTreeState (ts_heap s ++ [hr]) (ts_instances s) (ts_stack s)) /\
    fresh_node r hr.
Proof.
  unfold copyable_resource, copyResource. destruct (CollectionOf r); [done|]. intros Hc.
  eexists. split.
  - erewrite bind_step; [reflexivity|]. apply (map_entries_ok (fun _ => copyProperty) hcopy).
    eapply forallb_Forall_impl; [|exact Hc]. apply Forall_forall. intros e _ He. by apply copyProperty_copies.
  - by repeat split.
Qed.

Section construction.
Variables (mapping : VersionMapping) (collections resources : gomap Resource).
Abbreviation target_of := (target_of mapping collections resources).
Abbreviation array_target := (array_target collections resources).
Abbreviation linkNavProperty := (linkNavProperty (Some mapping) collections resources).

Lemma reference_inv linkRef t : reference collections resources linkRef = Some t ->
  exists ty, (forall S (s : S), extractLinkedResourceType linkRef s = (Ret ty, s)) /\ ty <> "" /\
    mget ty (allResources collections resources) = Some t.
Proof.
  unfold reference, extractLinkedResourceType.
  destruct (has_prefix schemas_prefix linkRef), (has_prefix definitions_prefix linkRef); simpl; try done;
    case_match eqn:E; try done; intros Ht; eexists; (split; [done|]); (split; [by apply String.eqb_neq|done]).
Qed.

(** The link of a property: a new copy, known to the resource unless it marks
    a cycle *)
Lemma linkNavProperty_links a s hr r name hp p t cyc :
  ts_heap s !! a = Some hr -> h_info hr = r_info r -> hp_linkRef hp = linkRef_of p -> hp_Link hp = None ->
  target_of r name p = Some (t, cyc) -> copyable_resource t = true ->
  exists hnew inst, fresh_node t hnew /\
    linkNavProperty a name hp s = (Ret (set_Link (List.length (ts_heap s)) hp, negb cyc),
      mkTreeState ((if cyc then ts_heap s else
          <[a := with_h_Properties (mput name (set_Link (List.length (ts_heap s)) hp) (h_Properties hr)) hr]> (ts_heap s)) ++ [hnew])
        inst (ts_stack s)).
Proof.
  intros Ha Hinfo Href Hlink Ht Hc. unfold Linking.target_of in Ht.
  destruct (reference collections resources (linkRef_of p)) as [t0|] eqn:Er; [|done].
  apply reference_inv in Er as (ty & Hty & Hne & Hget). unfold Tree.linkNavProperty.
  erewrite bind_step by by apply load_node_ok. rewrite Href. erewrite bind_step by apply Hty.
  destruct (String.eqb_spec ty ""); [done|]. rewrite Hget, Hlink, Hinfo. fold (r_Name r).
  destruct (known_cycle mapping (r_Name r) name (r_Name t0)).
  - injection Ht as <- <-. eexists _, _. split; [|reflexivity]. by repeat split.
  - destruct (String.eqb (r_Name r) (r_Name t0)); [done|]. injection Ht as -> <-. simpl.
    destruct (copyResource_ok t (match mget ty (ts_instances s) with Some i => i | None => 0 end + 1)
      (mkTreeState (ts_heap s) (mput ty (match mget ty (ts_instances s) with Some i => i | None => 0 end + 1) (ts_instances s)) (ts_stack s)) Hc)
      as (hnew & Hcopy & Hfresh).
    exists hnew. eexists. split; [done|].
    erewrite bind_step by reflexivity. erewrite bind_step by exact Hcopy. simpl.
    erewrite bind_step; [reflexivity|]. erewrite put_property_ok; simpl.
    2:{ rewrite lookup_app_l; [exact Ha|]. by eapply lookup_lt_Some. }
    rewrite insert_app_l; [done|]. by eapply lookup_lt_Some.
Qed.

(** [b] holds the copy of [t], at a rank below, and is reached from [o]. *)
Definition leads (src : list origin) (a : addr) (n : nat) (t : Resource) (o : option (addr * string)) (b : addr) : Prop :=
  (a < b)%nat /\ src !! b = Some (mkOrigin n t o).

Lemma leads_app src more a n t o b : leads src a n t o b -> leads (src ++ more) a n t o b.
Proof. intros [? Hb]. split; [done|]. by apply lookup_app_l_Some. Qed.

Definition linked_child (src : list origin) (a : addr) (n : nat) (r : Resource) (c : string * Property) (hc : hProperty) : Prop :=
  if is_nav (snd c) then
    exists t cyc b, target_of r (fst c) (snd c) = Some (t, cyc) /\ hc = set_Link b (hcopy (snd c)) /\
      leads src a n t (if cyc then None else Some (a, fst c)) b
  else hc = hcopy (snd c).

(** The entries at the top of a resource for those children of an object
    that are put there *)
Fixpoint selected (r : Resource) (cs : properties) (hcs : gomap hProperty) : gomap hProperty :=
  match cs, hcs with
  | c :: cs', hc :: hcs' =>
      if promotes mapping collections resources r c then hc :: selected r cs' hcs' else selected r cs' hcs'
  | _, _ => []
  end.

Definition copies (ps : properties) : gomap hProperty := map (fun e => (fst e, hcopy (snd e))) ps.

Lemma copies_keys ps : mkeys (copies ps) = mkeys ps.
Proof. unfold copies, mkeys. by rewrite map_map. Qed.

Lemma grows_one a src s hr heap1 hnew o inst :
  List.length (ts_heap s) = List.length src -> List.length heap1 = List.length src -> heap1 !! a = Some hr ->
  (forall b, b <> a -> heap1 !! b = ts_heap s !! b) -> fresh_node (o_resource o) hnew ->
  grows a src [o] s (mkTreeState (heap1 ++ [hnew]) inst (List.length src :: ts_stack s)) hr.
Proof.
  intros Hl Hl1 Ha Hne Hf. constructor; simpl.
  - rewrite length_app, Hl1. done.
  - by apply lookup_app_l_Some.
  - intros b Hb Hlt. rewrite lookup_app_l by lia. by apply Hne.
  - intros [|j] o' Hj; [|done]. simplify_eq/=. exists hnew. split; [|done].
    rewrite lookup_app_r by lia. by replace (List.length src + 0 - List.length heap1)%nat with 0%nat by lia.
  - done.
Qed.

Lemma hp_nav_copy p : hp_nav (hcopy p) = is_nav p.
Proof. by destruct p. Qed.
Lemma hp_is_copy t p : hp_is t (hcopy p) = is_type t p.
Proof. by destruct p. Qed.
Lemma hp_linkRef_copy p : hp_linkRef (hcopy p) = linkRef_of p.
Proof. by destruct p. Qed.
Lemma hp_Link_copy p : hp_Link (hcopy p) = None.
Proof. by destruct p. Qed.
Lemma hp_Properties_copy p : hp_Properties (hcopy p) = copies (Properties_of p).
Proof. by destruct p. Qed.
Lemma hp_ArrayOf_copy p : hp_ArrayOf (hcopy p) = option_map hcopy (ArrayOf p).
Proof. by destruct p. Qed.
Lemma nav_array_copy p : hp_is PropArray (hcopy p) && pi_IsNavArray (hp_info (hcopy p)) = nav_array p.
Proof. by destruct p. Qed.
Lemma set_Properties_twice ps ps' p : set_Properties ps (set_Properties ps' p) = set_Properties ps p.
Proof. by destruct p. Qed.
Lemma hp_Properties_set ps p : hp_Properties (set_Properties ps p) = ps.
Proof. by destruct p. Qed.
Lemma hp_linkRef_set ps p : hp_linkRef (set_Properties ps p) = hp_linkRef p.
Proof. by destruct p. Qed.
Lemma hp_Link_set b p : hp_Link (set_Link b p) = Some b.
Proof. by destruct p. Qed.

Abbreviation child_targets := (child_targets mapping collections resources).
Abbreviation promotes := (promotes mapping collections resources).
Abbreviation visit_children := (visit_children (Some mapping) collections resources).
Abbreviation link_ok := (link_ok mapping collections resources).

(** Which of the new origins come from which resources *)
Definition copies_of (n : nat) (ts : list Resource) (news : list origin) : Prop :=
  Forall2 (fun t o => o_resource o = t /\ o_rank o = n) ts news.

Lemma copies_of_app n ts1 ts2 n1 n2 : copies_of n ts1 n1 -> copies_of n ts2 n2 -> copies_of n (ts1 ++ ts2) (n1 ++ n2).
Proof. apply Forall2_app. Qed.

(** The link of one child of an object *)
Lemma visit_child_ok a n r name p cn cp cs dcs src s hr before rest t cyc :
  List.length (ts_heap s) = List.length src -> ts_heap s !! a = Some hr -> h_info hr = r_info r ->
  h_Properties hr = before ++ (name, set_Properties (dcs ++ copies ((cn, cp) :: cs)) (hcopy p)) :: rest ->
  NoDup (mkeys (h_Properties hr)) -> (cyc = false -> cn ∉ mkeys (h_Properties hr)) -> cn ∉ mkeys dcs ->
  target_of r cn cp = Some (t, cyc) -> copyable_resource t = true ->
  let hc := set_Link (List.length src) (hcopy cp) in
  let obj := set_Properties ((dcs ++ [(cn, hc)]) ++ copies cs) (hcopy p) in
  let obj0 := set_Properties (dcs ++ copies ((cn, cp) :: cs)) (hcopy p) in
  exists s', (forall k : hProperty * bool -> T unit,
    (linked <- linkNavProperty a cn (hcopy cp) ;;
     (if negb (snd linked && String.eqb cn name)
      then put_property a name (set_Properties (mput cn (fst linked) (dcs ++ copies ((cn, cp) :: cs))) obj0) else ret tt) ;;
     push_link (fst linked) ;;
     k linked) s = k (hc, negb cyc) s') /\
    grows a src [mkOrigin n t (if cyc then None else Some (a, cn))] s s'
      (with_h_Properties ((before ++ (name, obj) :: rest) ++ (if cyc then [] else [(cn, hc)])) hr).
Proof.
  intros Hl Ha Hinfo Hps Hnd Hcn Hdcs Ht Hc hc obj obj0.
  destruct (linkNavProperty_links a s hr r cn (hcopy cp) cp t cyc Ha Hinfo
    (hp_linkRef_copy cp) (hp_Link_copy cp) Ht Hc) as (hnew & inst & Hfresh & Hlink).
  assert (Hlt : (a < List.length src)%nat) by (rewrite <- Hl; by eapply lookup_lt_Some).
  rewrite Hl in Hlink. fold hc in Hlink.
  assert (Hname : name ∉ mkeys before).
  { rewrite Hps in Hnd. unfold mkeys in Hnd. rewrite map_app in Hnd. simpl in Hnd.
    apply NoDup_app in Hnd as (_ & Hd & _). intros Hin. apply (Hd _ Hin). by left. }
  assert (Hput : mput cn hc (dcs ++ copies ((cn, cp) :: cs)) = (dcs ++ [(cn, hc)]) ++ copies cs).
  { simpl. rewrite mput_middle by done. by rewrite <- app_assoc. }
  assert (Hpush : forall s, push_link hc s = push (List.length src) s).
  { intros s0. unfold push_link, hc. by rewrite hp_Link_set. }
  assert (Hobj : set_Properties ((dcs ++ [(cn, hc)]) ++ copies cs) obj0 = obj) by apply set_Properties_twice.
  destruct cyc; simpl negb.
  - eexists. split.
    { intros k. erewrite bind_step by exact Hlink. cbn [fst snd andb negb]. rewrite Hput, Hobj. erewrite bind_step.
    2:{ apply (put_property_ok a name obj _ hr). simpl. by apply lookup_app_l_Some. }
    simpl ts_heap. rewrite Hps, mput_middle by done. rewrite insert_app_l by (rewrite Hl; done).
    erewrite bind_step by (rewrite Hpush; unfold push; cbn [ts_heap ts_instances ts_stack]; reflexivity). reflexivity. }
    rewrite app_nil_r. apply grows_one; try done.
    + by rewrite length_insert.
    + apply list_lookup_insert_eq. by rewrite Hl.
    + intros b Hb. by apply list_lookup_insert_ne.
  - specialize (Hcn eq_refl).
    assert (Hcne : String.eqb cn name = false).
    { apply String.eqb_neq. intros ->. apply Hcn. rewrite Hps. unfold mkeys. rewrite map_app, elem_of_app. right. by left. }
    eexists. split.
    { intros k. erewrite bind_step by exact Hlink. cbn [fst snd andb negb]. rewrite Hcne, Hput, Hobj. cbn [negb].
    rewrite (mput_fresh cn) by done. erewrite bind_step.
    2:{ apply (put_property_ok a name obj _ (with_h_Properties (h_Properties hr ++ [(cn, hc)]) hr)). simpl.
        apply lookup_app_l_Some. apply list_lookup_insert_eq. by rewrite Hl. }
    simpl ts_heap. simpl h_Properties. rewrite Hps, <- app_assoc. simpl app at 2. rewrite mput_middle by done.
    rewrite insert_app_l by (rewrite length_insert, Hl; done). rewrite list_insert_insert_eq.
    erewrite bind_step by (rewrite Hpush; unfold push; cbn [ts_heap ts_instances ts_stack]; reflexivity). reflexivity. }
    rewrite <- app_assoc. apply grows_one; try done.
    + by rewrite length_insert.
    + rewrite list_lookup_insert_eq by (by rewrite Hl). done.
    + intros b Hb. by apply list_lookup_insert_ne.
Qed.

Lemma linked_child_app src more a n r c hc : linked_child src a n r c hc -> linked_child (src ++ more) a n r c hc.
Proof.
  unfold linked_child. destruct (is_nav (snd c)); [|done].
  intros (t & cyc & b & ? & ? & ?). exists t, cyc, b. eauto using leads_app.
Qed.

(** Whether the hypotheses on the targets of the children hold of the others *)
Lemma link_ok_target r c : link_ok r c = true -> exists t cyc, target_of r (fst c) (snd c) = Some (t, cyc).
Proof. unfold Linking.link_ok. destruct (target_of r (fst c) (snd c)) as [[t cyc]|]; [eauto|done]. Qed.

Definition children_linked (src : list origin) (a : addr) (n : nat) (r : Resource) (cs : properties) (hcs : gomap hProperty) : Prop :=
  Forall2 (fun c hc => fst c = fst hc /\ linked_child src a n r c (snd hc)) cs hcs.

Lemma children_linked_app src more a n r cs hcs :
  children_linked src a n r cs hcs -> children_linked (src ++ more) a n r cs hcs.
Proof. intros H. eapply Forall2_impl; [exact H|]. intros c hc [? ?]. split; [done|]. by apply linked_child_app. Qed.

Lemma selected_keys src a n r cs hcs :
  children_linked src a n r cs hcs -> mkeys (selected r cs hcs) = mkeys (List.filter (promotes r) cs).
Proof.
  induction 1 as [|c hc cs hcs [Hk _] _ IH]; [done|]. simpl. destruct (promotes r c); [|done].
  unfold mkeys in *. simpl. by rewrite IH, Hk.
Qed.

Lemma visit_children_ok a n r name p : linkRef_of p = "" -> forall cs dcs src s hr before rest,
  List.length (ts_heap s) = List.length src -> ts_heap s !! a = Some hr -> h_info hr = r_info r ->
  h_Properties hr = before ++ (name, set_Properties (dcs ++ copies cs) (hcopy p)) :: rest ->
  NoDup (mkeys (h_Properties hr) ++ mkeys (List.filter (promotes r) cs)) ->
  NoDup (mkeys dcs ++ mkeys cs) ->
  forallb (fun c => negb (is_nav (snd c)) || link_ok r c) cs = true ->
  Forall (fun t => copyable_resource t = true) (flat_map (child_targets r) cs) ->
  exists s' news hcs,
    visit_children a name (set_Properties (dcs ++ copies cs) (hcopy p)) true (mkeys cs) s = (Ret tt, s') /\
    grows a src news s s' (with_h_Properties
      ((before ++ (name, set_Properties (dcs ++ hcs) (hcopy p)) :: rest) ++ selected r cs hcs) hr) /\
    copies_of n (flat_map (child_targets r) cs) news /\ children_linked (src ++ news) a n r cs hcs.
Proof.
  intros Href. induction cs as [|[cn cp] cs IH]; intros dcs src s hr before rest Hl Ha Hinfo Hps Hnd Hndc Hok Hct.
  - exists s, [], []. split; [done|]. split; [|split; constructor]. simpl in *.
    rewrite !app_nil_r in *. rewrite <- Hps. apply grows_refl; [done|]. rewrite Ha. by destruct hr.
  - simpl in Hok. apply andb_true_iff in Hok as [Hc Hok].
    assert (Hcn : cn ∉ mkeys dcs).
    { apply NoDup_app in Hndc as (_ & Hd & _). intros Hin. apply (Hd _ Hin). by left. }
    cbn [mkeys map fst]. fold (mkeys cs). simpl visit_children. rewrite hp_Properties_set, hp_linkRef_set, hp_linkRef_copy, Href.
    unfold copies at 1. cbn [map fst snd]. rewrite mget_middle by done. rewrite hp_nav_copy.
    assert (Hsp : dcs ++ copies ((cn, cp) :: cs) = (dcs ++ [(cn, hcopy cp)]) ++ copies cs) by (by rewrite <- app_assoc).
    assert (Hndc' : NoDup (mkeys (dcs ++ [(cn, hcopy cp)]) ++ mkeys cs)).
    { unfold mkeys in *. rewrite map_app, <- app_assoc. exact Hndc. }
    simpl flat_map in Hct. unfold Linking.child_targets at 1 in Hct. cbn [fst snd] in *.
    destruct (is_nav cp) eqn:En; simpl in Hc.
    + destruct (link_ok_target r (cn, cp) Hc) as (t & cyc & Ht). cbn [fst snd] in Ht. rewrite Ht in Hct.
      apply Forall_app in Hct as [[Htc _]%Forall_cons Hct].
      assert (Hpr : promotes r (cn, cp) = negb cyc).
      { unfold Linking.promotes. cbn [fst snd]. by rewrite En, Ht. }
      destruct (visit_child_ok a n r name p cn cp cs dcs src s hr before rest t cyc) as (s1 & Hrun & Hg); try done.
      { by apply NoDup_app in Hnd as (? & _ & _). }
      { intros ->. apply NoDup_app in Hnd as (_ & Hd & _). intros Hin. apply (Hd _ Hin).
        simpl. rewrite Hpr. by left. }
      set (hc := set_Link (List.length src) (hcopy cp)) in *.
      destruct (IH (dcs ++ [(cn, hc)]) (src ++ [mkOrigin n t (if cyc then None else Some (a, cn))]) s1
        (with_h_Properties ((before ++ (name, set_Properties ((dcs ++ [(cn, hc)]) ++ copies cs) (hcopy p)) :: rest)
           ++ (if cyc then [] else [(cn, hc)])) hr)
        before (rest ++ (if cyc then [] else [(cn, hc)]))) as (s' & news & hcs & Hrun' & Hg' & Hc' & Hlk); try done.
      { rewrite (g_length _ _ _ _ _ _ Hg), length_app. done. }
      { apply (g_node _ _ _ _ _ _ Hg). }
      { simpl. by rewrite <- app_assoc. }
      { simpl. destruct cyc.
        - rewrite app_nil_r. simpl in Hnd. rewrite Hpr, Hps in Hnd.
          unfold mkeys in *. rewrite !map_app in *. exact Hnd.
        - simpl in Hnd. rewrite Hpr, Hps in Hnd. unfold mkeys in *.
          rewrite !map_app in *. simpl in *. by rewrite <- !app_assoc in *. }
      { unfold mkeys in *. by rewrite map_app in *. }
      exists s', (mkOrigin n t (if cyc then None else Some (a, cn)) :: news), ((cn, hc) :: hcs). split; [|split; [|split]].
      * cbn [negb andb]. unfold copies in Hrun. cbn [map fst snd] in Hrun. rewrite Hrun. cbn [fst snd].
        rewrite mput_middle, set_Properties_twice by done.
        assert (Hatt : negb (negb cyc && String.eqb cn name) = true).
        { destruct cyc; [done|]. simpl. apply negb_true_iff, String.eqb_neq. intros ->.
          apply NoDup_app in Hnd as (_ & Hd & _). apply (Hd name).
          - rewrite Hps. unfold mkeys. rewrite map_app, elem_of_app. right. by left.
          - simpl. rewrite Hpr. by left. }
        rewrite Hatt. rewrite cons_middle, app_assoc. exact Hrun'.
      * cbn [selected]. rewrite Hpr. refine (grows_trans a src [_] news s s1 s' _ _ _ Hg _); [rewrite <- Hl; by eapply lookup_lt_Some|].
        replace (with_h_Properties _ hr) with (with_h_Properties ((before ++ (name, set_Properties ((dcs ++ [(cn, hc)]) ++ hcs) (hcopy p))
          :: rest ++ (if cyc then [] else [(cn, hc)])) ++ selected r cs hcs)
          (with_h_Properties ((before ++ (name, set_Properties ((dcs ++ [(cn, hc)]) ++ copies cs) (hcopy p)) :: rest) ++
             (if cyc then [] else [(cn, hc)])) hr)); [exact Hg'|].
        unfold with_h_Properties. simpl. f_equal. rewrite <- !app_assoc. simpl. destruct cyc; simpl; by rewrite <- ?app_assoc.
      * simpl. unfold Linking.child_targets at 1. cbn [fst snd]. rewrite En, Ht. by constructor.
      * rewrite cons_middle, app_assoc. constructor; [|done]. split; [done|].
        unfold linked_child. cbn [fst snd]. rewrite En. exists t, cyc, (List.length src). split; [done|]. split; [done|].
        apply leads_app. split; [rewrite <- Hl; by eapply lookup_lt_Some|]. rewrite lookup_app_r by done.
        by rewrite Nat.sub_diag.
    + assert (Hpr : promotes r (cn, cp) = false) by (unfold Linking.promotes; cbn [fst snd]; by rewrite En).
      destruct (IH (dcs ++ [(cn, hcopy cp)]) src s hr before rest) as (s' & news & hcs & Hrun & Hg & Hc' & Hlk); try done.
      { by rewrite <- Hsp. }
      { simpl in Hnd. by rewrite Hpr in Hnd. }
      exists s', news, ((cn, hcopy cp) :: hcs). cbn [negb andb]. rewrite <- app_assoc in Hrun. simpl in Hrun.
      destruct (hp_Link _); simpl; (split; [exact Hrun|]);
        (split; [cbn [selected]; rewrite Hpr, (cons_middle _ dcs hcs), (app_assoc dcs); exact Hg|]);
        (split; [unfold Linking.child_targets at 1; cbn [fst snd]; by rewrite En|]);
        (constructor; [|done]; split; [done|]; unfold linked_child; cbn [fst snd]; by rewrite En).
Qed.
Abbreviation property_targets := (property_targets mapping collections resources).
Abbreviation property_ok := (property_ok mapping collections resources).
Abbreviation promoted_names := (promoted_names mapping collections resources).
Abbreviation visit_property := (visit_property (Some mapping) collections resources).

Definition linked_property (src : list origin) (a : addr) (n : nat) (r : Resource) (e : string * Property) (hp : hProperty) : Prop :=
  let '(name, p) := e in
  if is_nav p then
    exists t cyc b, target_of r name p = Some (t, cyc) /\ hp = set_Link b (hcopy p) /\ leads src a n t (Some (a, name)) b
  else if nav_object name p then
    exists hcs, hp = set_Properties hcs (hcopy p) /\ children_linked src a n r (Properties_of p) hcs
  else if nav_array p then
    exists el t b, ArrayOf p = Some el /\ array_target r el = Some t /\
      hp = set_ArrayOf (set_Link b (hcopy el)) (hcopy p) /\ leads src a n t None b
  else hp = hcopy p.

(** The entries a property adds at the top *)
Definition hpromoted (r : Resource) (e : string * Property) (hp : hProperty) : gomap hProperty :=
  let '(name, p) := e in
  if is_nav p then [] else if nav_object name p then selected r (Properties_of p) (hp_Properties hp) else [].

Lemma linked_property_app src more a n r e hp : linked_property src a n r e hp -> linked_property (src ++ more) a n r e hp.
Proof.
  destruct e as [name p]. unfold linked_property.
  destruct (is_nav p); [intros (t & cyc & b & ? & ? & ?); exists t, cyc, b; eauto using leads_app|].
  destruct (nav_object name p); [intros (hcs & ? & ?); exists hcs; eauto using children_linked_app|].
  destruct (nav_array p); [intros (el & t & b & ? & ? & ? & ?); exists el, t, b; eauto using leads_app|done].
Qed.

Lemma nav_exclusive name p : is_nav p = true -> nav_object name p = false /\ nav_array p = false.
Proof.
  unfold is_nav, nav_object, nav_array. intros [Hl _]%andb_true_iff. apply is_type_eq in Hl. unfold is_type. rewrite Hl.
  by rewrite andb_false_r.
Qed.

Lemma link_name_not_empty r name p t cyc : target_of r name p = Some (t, cyc) -> linkRef_of p <> "".
Proof. unfold Linking.target_of. intros Ht E. by rewrite E in Ht. Qed.

(** A link at the top *)
Lemma visit_link_ok a n r name p src s hr before rest t cyc :
  List.length (ts_heap s) = List.length src -> ts_heap s !! a = Some hr -> h_info hr = r_info r ->
  h_Properties hr = before ++ (name, hcopy p) :: rest -> name ∉ mkeys before ->
  target_of r name p = Some (t, cyc) -> copyable_resource t = true ->
  let hp := set_Link (List.length src) (hcopy p) in
  exists s', (linked <- linkNavProperty a name (hcopy p) ;; put_property a name (fst linked) ;; push_link (fst linked)) s = (Ret tt, s') /\
    grows a src [mkOrigin n t (Some (a, name))] s s' (with_h_Properties (before ++ (name, hp) :: rest) hr).
Proof.
  intros Hl Ha Hinfo Hps Hname Ht Hc hp.
  destruct (linkNavProperty_links a s hr r name (hcopy p) p t cyc Ha Hinfo
    (hp_linkRef_copy p) (hp_Link_copy p) Ht Hc) as (hnew & inst & Hfresh & Hlink).
  assert (Hlt : (a < List.length (ts_heap s))%nat) by (by eapply lookup_lt_Some).
  rewrite Hl in Hlink. fold hp in Hlink. rewrite Hps, mput_middle in Hlink by done.
  set (hr1 := with_h_Properties (before ++ (name, hp) :: rest) hr) in *.
  assert (Hput : put_property a name hp (mkTreeState ((if cyc then ts_heap s else <[a:=hr1]> (ts_heap s)) ++ [hnew]) inst (ts_stack s))
    = (Ret tt, mkTreeState (<[a:=hr1]> (ts_heap s) ++ [hnew]) inst (ts_stack s))).
  { destruct cyc.
    - rewrite (put_property_ok a name hp _ hr) by (simpl; by apply lookup_app_l_Some). simpl.
      rewrite Hps, mput_middle, insert_app_l by done. done.
    - rewrite (put_property_ok a name hp _ hr1) by (simpl; apply lookup_app_l_Some; by apply list_lookup_insert_eq). simpl.
      rewrite mput_middle, insert_app_l by (done || by rewrite length_insert). by rewrite list_insert_insert_eq. }
  eexists. split.
  - erewrite bind_step by exact Hlink. cbn [fst]. erewrite bind_step by exact Hput. unfold push_link, hp.
    rewrite hp_Link_set. unfold push. cbn [ts_heap ts_instances ts_stack]. reflexivity.
  - apply grows_one; try done; [by rewrite length_insert| |].
    + by apply list_lookup_insert_eq.
    + intros b Hb. by apply list_lookup_insert_ne.
Qed.

(** The link of the elements of an array *)
Lemma visit_array_ok a n r name p el src s hr before rest t :
  List.length (ts_heap s) = List.length src -> ts_heap s !! a = Some hr -> h_info hr = r_info r ->
  h_Properties hr = before ++ (name, hcopy p) :: rest -> name ∉ mkeys before ->
  array_target r el = Some t -> copyable_resource t = true ->
  exists s', visit_array collections resources a name (hcopy p) (hcopy el) s = (Ret tt, s') /\
    grows a src [mkOrigin n t None] s s'
      (with_h_Properties (before ++ (name, set_ArrayOf (set_Link (List.length src) (hcopy el)) (hcopy p)) :: rest) hr).
Proof.
  intros Hl Ha Hinfo Hps Hname Ht Hc. unfold Linking.array_target in Ht.
  destruct (reference collections resources (linkRef_of el)) as [t0|] eqn:Er; [|done].
  destruct (String.eqb (r_Name r) (r_Name t0)) eqn:Ename; [done|]. injection Ht as ->.
  apply reference_inv in Er as (ty & Hty & Hne & Hget).
  assert (Hlt : (a < List.length (ts_heap s))%nat) by (by eapply lookup_lt_Some).
  set (id := (match mget ty (ts_instances s) with Some i => i | None => 0 end + 1)%Z).
  destruct (copyResource_ok t id (mkTreeState (ts_heap s) (mput ty id (ts_instances s)) (ts_stack s)) Hc) as (hnew & Hcopy & Hfresh).
  eexists. split.
  - unfold visit_array. erewrite bind_step by by apply load_node_ok. rewrite hp_linkRef_copy.
    erewrite bind_step by apply Hty. destruct (String.eqb_spec ty ""); [done|].
    rewrite Hget, hp_Link_copy, Hinfo. fold (r_Name r). rewrite Ename.
    erewrite bind_step by reflexivity. erewrite bind_step by exact Hcopy. simpl ts_heap.
    erewrite bind_step; [|apply (put_property_ok a name _ _ hr); simpl; by apply lookup_app_l_Some].
    simpl ts_heap. rewrite Hps, mput_middle, insert_app_l, Hl by done. unfold push. cbn [ts_heap ts_instances ts_stack]. reflexivity.
  - apply grows_one; try done; [by rewrite length_insert| |].
    + by apply list_lookup_insert_eq.
    + intros b Hb. by apply list_lookup_insert_ne.
Qed.

Lemma NoDup_middle {A} k (v : A) l1 l2 : NoDup (mkeys (l1 ++ (k, v) :: l2)) -> k ∉ mkeys l1.
Proof.
  unfold mkeys. rewrite map_app. simpl. intros (_ & Hd & _)%NoDup_app Hin. apply (Hd _ Hin). by left.
Qed.

(** One property, whatever it is *)
Lemma visit_property_ok a n r name p src s hr before rest :
  List.length (ts_heap s) = List.length src -> ts_heap s !! a = Some hr -> h_info hr = r_info r ->
  h_Properties hr = before ++ (name, hcopy p) :: rest ->
  NoDup (mkeys (h_Properties hr) ++ promoted_names r (name, p)) -> property_ok r (name, p) = true ->
  Forall (fun t => copyable_resource t = true) (property_targets r (name, p)) ->
  exists s' news hp, visit_property a name s = (Ret tt, s') /\
    grows a src news s s' (with_h_Properties ((before ++ (name, hp) :: rest) ++ hpromoted r (name, p) hp) hr) /\
    copies_of n (property_targets r (name, p)) news /\ linked_property (src ++ news) a n r (name, p) hp.
Proof.
  intros Hl Ha Hinfo Hps Hnd Hok Hct.
  assert (Hname : name ∉ mkeys before).
  { apply NoDup_app in Hnd as (Hnd & _ & _). rewrite Hps in Hnd. by apply NoDup_middle in Hnd. }
  assert (Hlt : (a < List.length src)%nat) by (rewrite <- Hl; by eapply lookup_lt_Some).
  assert (Hlast : forall o : origin, (src ++ [o]) !! List.length src = Some o).
  { intros o. rewrite lookup_app_r by done. by rewrite Nat.sub_diag. }
  unfold Tree.visit_property, Linking.property_targets, Linking.property_ok, Linking.promoted_names, linked_property, hpromoted in *.
  erewrite bind_step by by apply load_node_ok. rewrite Hps, mget_middle by done.
  rewrite hp_nav_copy, hp_Link_copy, hp_linkRef_copy, hp_is_copy, nav_array_copy.
  destruct (is_nav p) eqn:En.
  - destruct (link_ok_target r (name, p) Hok) as (t & cyc & Ht). cbn [fst snd] in Ht.
    assert (Hct' : copyable_resource t = true).
    { unfold Linking.child_targets in Hct. cbn [fst snd] in Hct. rewrite En, Ht in Hct. by apply Forall_cons in Hct as [? _]. }
    assert (Href : negb (String.eqb (linkRef_of p) "") = true).
    { apply negb_true_iff, String.eqb_neq. by eapply link_name_not_empty. }
    rewrite Href. cbn [andb].
    destruct (visit_link_ok a n r name p src s hr before rest t cyc) as (s' & Hrun & Hg); try done.
    exists s', [mkOrigin n t (Some (a, name))], (set_Link (List.length src) (hcopy p)).
    split; [exact Hrun|]. split; [by rewrite app_nil_r|]. split.
    + unfold Linking.child_targets. cbn [fst snd]. rewrite En, Ht. by repeat constructor.
    + exists t, cyc, (List.length src). repeat split; [done|done|apply Hlast].
  - cbn [andb]. fold (nav_object name p) in *. destruct (nav_object name p) eqn:Eo.
    + apply andb_true_iff in Hok as [[Href%String.eqb_eq Hndc%bool_decide_eq_true]%andb_true_iff Hok].
      rewrite hp_Properties_copy, copies_keys.
      assert (Hself : set_Properties ([] ++ copies (Properties_of p)) (hcopy p) = hcopy p) by by destruct p.
      destruct (visit_children_ok a n r name p Href (Properties_of p) [] src s hr before rest) as (s' & news & hcs & Hrun & Hg & Hc & Hlk);
        try done; [by rewrite Hself|].
      rewrite Hself in Hrun. exists s', news, (set_Properties hcs (hcopy p)). rewrite hp_Properties_set. eauto 8.
    + destruct (nav_array p) eqn:Ea.
      * destruct (ArrayOf p) as [el|] eqn:Eel; [|done]. destruct (array_target r el) as [t|] eqn:Et; [|done].
        apply Forall_cons in Hct as [Hct _]. rewrite hp_ArrayOf_copy, Eel. cbn [option_map].
        assert (Href : String.eqb (hp_linkRef (hcopy el)) "" = false).
        { rewrite hp_linkRef_copy. apply String.eqb_neq. intros E. unfold Linking.array_target in Et. by rewrite E in Et. }
        rewrite Href.
        destruct (visit_array_ok a n r name p el src s hr before rest t) as (s' & Hrun & Hg); try done.
        exists s', [mkOrigin n t None], (set_ArrayOf (set_Link (List.length src) (hcopy el)) (hcopy p)).
        split; [exact Hrun|]. split; [by rewrite app_nil_r|]. split; [by repeat constructor|].
        exists el, t, (List.length src). repeat split; [done|done|apply Hlast].
      * exists s, [], (hcopy p). split; [done|]. rewrite !app_nil_r. split; [|by repeat constructor].
        rewrite <- Hps. apply grows_refl; [done|]. rewrite Ha. by destruct hr.
Qed.

Definition properties_linked (src : list origin) (a : addr) (n : nat) (r : Resource) (ps : properties) (hps : gomap hProperty) : Prop :=
  Forall2 (fun e he => fst e = fst he /\ linked_property src a n r e (snd he)) ps hps.

Lemma properties_linked_app src more a n r ps hps :
  properties_linked src a n r ps hps -> properties_linked (src ++ more) a n r ps hps.
Proof. intros H. eapply Forall2_impl; [exact H|]. intros e he [? ?]. split; [done|]. by apply linked_property_app. Qed.

Fixpoint hpromotions (r : Resource) (ps : properties) (hps : gomap hProperty) : gomap hProperty :=
  match ps, hps with
  | e :: ps', he :: hps' => hpromoted r e (snd he) ++ hpromotions r ps' hps'
  | _, _ => []
  end.

Lemma hpromoted_keys src a n r e hp : linked_property src a n r e hp -> mkeys (hpromoted r e hp) = promoted_names r e.
Proof.
  destruct e as [name p]. unfold linked_property, hpromoted, Linking.promoted_names.
  destruct (is_nav p); [done|]. destruct (nav_object name p); [|done].
  intros (hcs & -> & Hcs). rewrite hp_Properties_set. by eapply selected_keys.
Qed.

(** All properties of a resource *)
Lemma visit_properties_ok a n r ps : forall before after src s hr,
  List.length (ts_heap s) = List.length src -> ts_heap s !! a = Some hr -> h_info hr = r_info r ->
  h_Properties hr = before ++ copies ps ++ after ->
  NoDup (mkeys (h_Properties hr) ++ flat_map (promoted_names r) ps) -> forallb (property_ok r) ps = true ->
  Forall (fun t => copyable_resource t = true) (flat_map (property_targets r) ps) ->
  exists s' news hps, for_each (visit_property a) (mkeys ps) s = (Ret tt, s') /\
    grows a src news s s' (with_h_Properties (before ++ hps ++ after ++ hpromotions r ps hps) hr) /\
    copies_of n (flat_map (property_targets r) ps) news /\ properties_linked (src ++ news) a n r ps hps.
Proof.
  induction ps as [|[name p] ps IH]; intros before after src s hr Hl Ha Hinfo Hps Hnd Hok Hct.
  - exists s, [], []. split; [done|]. split; [|split; constructor]. simpl in *. rewrite app_nil_r, <- Hps.
    apply grows_refl; [done|]. rewrite Ha. by destruct hr.
  - cbn [forallb] in Hok. apply andb_true_iff in Hok as [Hp Hok]. cbn [flat_map] in Hct, Hnd. apply Forall_app in Hct as [Hct1 Hct2].
    rewrite app_assoc in Hnd. pose proof Hnd as (Hnd1 & _ & _)%NoDup_app.
    assert (Hlt : (a < List.length src)%nat) by (rewrite <- Hl; by eapply lookup_lt_Some).
    destruct (visit_property_ok a n r name p src s hr before (copies ps ++ after)) as (s1 & news1 & hp & Hrun & Hg & Hc & Hlk); try done.
    set (hr1 := with_h_Properties ((before ++ (name, hp) :: copies ps ++ after) ++ hpromoted r (name, p) hp) hr) in *.
    destruct (IH (before ++ [(name, hp)]) (after ++ hpromoted r (name, p) hp) (src ++ news1) s1 hr1)
      as (s' & news & hps & Hrun' & Hg' & Hc' & Hlk'); try done.
    { rewrite (g_length _ _ _ _ _ _ Hg), length_app. done. }
    { apply (g_node _ _ _ _ _ _ Hg). }
    { unfold hr1. cbn [h_Properties with_h_Properties]. by rewrite <- !app_assoc, <- app_comm_cons, <- !app_assoc. }
    { replace (mkeys (h_Properties hr1)) with (mkeys (h_Properties hr) ++ promoted_names r (name, p)); [done|].
      rewrite <- (hpromoted_keys _ _ _ _ _ _ Hlk). unfold hr1. cbn [h_Properties with_h_Properties]. rewrite Hps. unfold mkeys. rewrite !map_app. cbn [map fst copies]. by rewrite !map_app. }
    exists s', (news1 ++ news), ((name, hp) :: hps). split; [|split; [|split]].
    + cbn [mkeys map fst for_each]. erewrite bind_step by exact Hrun. exact Hrun'.
    + eapply grows_trans; [done|exact Hg|]. cbn [hpromotions snd].
      replace (with_h_Properties _ hr) with
        (with_h_Properties ((before ++ [(name, hp)]) ++ hps ++ (after ++ hpromoted r (name, p) hp) ++ hpromotions r ps hps) hr1); [exact Hg'|].
      unfold hr1, with_h_Properties. cbn [h_info h_CollectionOf h_InstanceID h_ReferenceCount h_Linkers]. f_equal. by rewrite <- !app_assoc.
    + cbn [flat_map]. by apply copies_of_app.
    + rewrite app_assoc. constructor; [|done]. split; [done|]. by apply linked_property_app.
Qed.

(** ** A resource and a collection *)

Definition node_linked (src : list origin) (a : addr) (n : nat) (r : Resource) (hr : hResource) : Prop :=
  h_info hr = r_info r /\ h_ReferenceCount hr = 0%Z /\
  if IsCollection r then
    h_Properties hr = copies (r_Properties r) /\
    exists t b, member_of resources r = Some t /\ h_CollectionOf hr = Some b /\ leads src a n t (Some (a, "")) b
  else
    h_CollectionOf hr = None /\
    exists hps, properties_linked src a n r (r_Properties r) hps /\ h_Properties hr = hps ++ hpromotions r (r_Properties r) hps.

Abbreviation link_targets := (link_targets mapping collections resources).
Abbreviation resource_ok := (resource_ok mapping collections resources).
Abbreviation visit := (visit (Some mapping) collections resources).

Lemma node_linked_app src more a n r hr : node_linked src a n r hr -> node_linked (src ++ more) a n r hr.
Proof.
  intros (? & ? & H). split; [done|]. split; [done|]. destruct (IsCollection r).
  - destruct H as (? & t & b & ? & ? & ?). split; [done|]. exists t, b. eauto using leads_app.
  - destruct H as (? & hps & ? & ?). split; [done|]. exists hps. eauto using properties_linked_app.
Qed.

(** Visiting a fresh copy links it. *)
Lemma visit_ok a n r src s hr :
  List.length (ts_heap s) = List.length src -> ts_heap s !! a = Some hr -> fresh_node r hr -> resource_ok r = true ->
  Forall (fun t => copyable_resource t = true) (link_targets r) ->
  exists s' news hr', visit a s = (Ret tt, s') /\ grows a src news s s' hr' /\
    copies_of n (link_targets r) news /\ node_linked (src ++ news) a n r hr'.
Proof.
  intros Hl Ha (Hinfo & Hps & Hcoll & Hrc) Hok Hct. unfold Linking.resource_ok in Hok. apply andb_true_iff in Hok as [_ Hok].
  assert (Hlt : (a < List.length (ts_heap s))%nat) by (by eapply lookup_lt_Some).
  unfold Tree.visit. erewrite bind_step by by apply load_node_ok. rewrite Hinfo. fold (IsCollection r).
  unfold Linking.link_targets in *. unfold node_linked. destruct (IsCollection r).
  - apply andb_true_iff in Hok as [_ Hok]. apply andb_true_iff in Hok as [Hsuf Hm]. destruct (member_of resources r) as [t|] eqn:Em; [|done].
    apply Forall_cons in Hct as [Hct _]. unfold visit_collection. rewrite Hinfo. fold (r_Name r). rewrite Hsuf. cbn [negb].
    fold (member_of resources r). rewrite Em. set (key := trim_suffix "Collection" (r_Name r)).
    set (id := (match mget key (ts_instances s) with Some i => i | None => 0 end + 1)%Z).
    destruct (copyResource_ok t id (mkTreeState (ts_heap s) (mput key id (ts_instances s)) (ts_stack s)) Hct) as (hnew & Hcopy & Hfresh).
    set (hr' := mkHResource (r_info r) (h_Properties hr) (Some (List.length src)) (h_InstanceID hr) (h_ReferenceCount hr) (h_Linkers hr)).
    eexists _, [mkOrigin n t (Some (a, ""))], hr'. split; [|split; [|split]].
    + erewrite bind_step by reflexivity. erewrite bind_step by exact Hcopy. erewrite bind_step by reflexivity.
      unfold push. cbn [ts_heap ts_instances ts_stack]. rewrite Hl, insert_app_l by done. reflexivity.
    + apply grows_one; try done; [by rewrite length_insert|by apply list_lookup_insert_eq|].
      intros b Hb. by apply list_lookup_insert_ne.
    + by repeat constructor.
    + split; [done|]. split; [done|]. split; [done|]. exists t, (List.length src). split; [done|]. split; [done|].
      split; [by rewrite <- Hl|]. rewrite lookup_app_r by done. by rewrite Nat.sub_diag.
  - apply andb_true_iff in Hok as [Hnd%bool_decide_eq_true Hok]. fold (copies (r_Properties r)) in Hps.
    destruct (visit_properties_ok a n r (r_Properties r) [] [] src s hr) as (s' & news & hps & Hrun & Hg & Hc & Hlk); try done.
    { by rewrite app_nil_r. }
    { rewrite Hps, copies_keys. exact Hnd. }
    exists s', news, (with_h_Properties ([] ++ hps ++ [] ++ hpromotions r (r_Properties r) hps) hr).
    split; [by rewrite Hps, copies_keys|]. split; [done|]. split; [done|]. split; [done|]. split; [done|]. split; [done|].
    by exists hps.
Qed.

(* ===================================================================== *)
(** * The loop                                                           *)
(* ===================================================================== *)

Abbreviation linkable := (linkable mapping collections resources).
Abbreviation weight := (weight mapping collections resources).

(** The heap under construction: the addresses on the stack hold fresh
    copies, the visited ones hold linked resources. *)
Definition node_state (src : list origin) (visited : list addr) (s : tree_state) (a : addr) (o : origin) : Prop :=
  exists hr, ts_heap s !! a = Some hr /\
    ((a ∈ ts_stack s /\ a ∉ visited /\ fresh_node (o_resource o) hr) \/
     (a ∈ visited /\ a ∉ ts_stack s /\ exists n, o_rank o = S n /\ node_linked src a n (o_resource o) hr)).

Record building (src : list origin) (visited : list addr) (s : tree_state) : Prop := {
  b_length : List.length (ts_heap s) = List.length src;
  b_linkable : Forall (fun o => linkable (o_rank o) (o_resource o) = true) src;
  b_nodes : forall a o, src !! a = Some o -> node_state src visited s a o;
  b_stack : NoDup (ts_stack s);
  b_inside : forall a, a ∈ ts_stack s ++ visited -> (a < List.length src)%nat;
}.

Definition origin_weight (src : list origin) (a : addr) : nat :=
  match src !! a with Some o => weight (o_rank o) (o_resource o) | None => 0 end.
Definition work (src : list origin) (stack : list addr) : nat := list_sum (map (origin_weight src) stack).

Lemma linkable_inv n r : linkable n r = true ->
  exists n', n = S n' /\ resource_ok r = true /\ forallb (linkable n') (link_targets r) = true.
Proof. destruct n as [|n']; [done|]. simpl. intros [? ?]%andb_true_iff. eauto. Qed.

Lemma linkable_copyable n r : linkable n r = true -> copyable_resource r = true.
Proof. intros (n' & _ & Hok & _)%linkable_inv. unfold Linking.resource_ok in Hok. by apply andb_true_iff in Hok as [? _]. Qed.

Lemma linkable_targets n ts : forallb (linkable n) ts = true -> Forall (fun t => copyable_resource t = true) ts.
Proof.
  apply forallb_Forall_impl, Forall_forall. intros t _. apply linkable_copyable.
Qed.

Lemma list_sum_perm l1 l2 : l1 ≡ₚ l2 -> list_sum l1 = list_sum l2.
Proof. induction 1; simpl; lia. Qed.

Lemma work_app src l1 l2 : work src (l1 ++ l2) = (work src l1 + work src l2)%nat.
Proof. unfold work. by rewrite map_app, list_sum_app. Qed.

Lemma work_old src news l : (forall a, a ∈ l -> (a < List.length src)%nat) -> work (src ++ news) l = work src l.
Proof.
  intros Hl. unfold work. f_equal. apply map_ext_in. intros a Ha%list_elem_of_In. unfold origin_weight.
  by rewrite lookup_app_l by by apply Hl.
Qed.

Lemma work_new n src ts news : copies_of n ts news ->
  work (src ++ news) (reverse (seq (List.length src) (List.length news))) = list_sum (map (weight n) ts).
Proof.
  intros Hc. unfold work. rewrite (list_sum_perm _ (map (origin_weight (src ++ news)) (seq (List.length src) (List.length news))))
    by (apply Permutation_map, reverse_Permutation).
  revert src. induction Hc as [|t o ts news [Ht Hn] _ IH]; intros src; [done|]. cbn [List.length seq map list_sum fold_right].
  unfold origin_weight at 1. rewrite lookup_app_r, Nat.sub_diag by done. simpl. rewrite Ht, Hn. f_equal.
  specialize (IH (src ++ [o])). rewrite length_app, <- app_assoc, Nat.add_1_r in IH. exact IH.
Qed.

Lemma copies_of_lookup n ts news j o : copies_of n ts news -> news !! j = Some o -> o_resource o ∈ ts /\ o_rank o = n.
Proof.
  intros Hc Hj. destruct (Forall2_lookup_r _ _ _ _ _ Hc Hj) as (t & Ht & <- & Hr). split; [|done]. by eapply list_elem_of_lookup_2.
Qed.

(** One turn of the loop keeps the heap under construction. *)
Lemma building_visit src visited s a rest n r par news s' hr :
  building src visited s -> ts_stack s = a :: rest -> src !! a = Some (mkOrigin (S n) r par) ->
  grows a src news (mkTreeState (ts_heap s) (ts_instances s) rest) s' hr -> copies_of n (link_targets r) news ->
  forallb (linkable n) (link_targets r) = true -> node_linked (src ++ news) a n r hr ->
  building (src ++ news) (a :: visited) s'.
Proof.
  intros [Hl Hlk Hn Hs Hi] Hst Ha [Gl Ga Go Gn Gs] Hc Hok Hnode. simpl in *.
  rewrite Hst in Hs. apply NoDup_cons in Hs as [Hnot Hs].
  assert (Hlt : (a < List.length src)%nat) by (by eapply lookup_lt_Some).
  assert (Hold : forall b, b ∈ reverse (seq (List.length src) (List.length news)) -> (List.length src <= b < List.length src + List.length news)%nat).
  { intros b Hb. rewrite elem_of_reverse, elem_of_seq in Hb. done. }
  constructor.
  - by rewrite Gl, length_app.
  - apply Forall_app. split; [done|]. apply Forall_lookup. intros j o Hj.
    destruct (copies_of_lookup _ _ _ _ _ Hc Hj) as [Hin ->]. rewrite forallb_forall in Hok. by apply Hok, list_elem_of_In.
  - intros b o Hb. apply lookup_app_Some in Hb as [Hb|[Hge Hb]].
    + pose proof (lookup_lt_Some _ _ _ Hb) as Hblt. destruct (decide (b = a)) as [->|Hne].
      * exists hr. split; [done|]. right. rewrite Ha in Hb. injection Hb as <-. split; [by left|]. split.
        -- rewrite Gs, elem_of_app. intros [Hin%Hold|Hin]; [lia|done].
        -- by exists n.
      * destruct (Hn b o Hb) as (hb & Hhb & Hstate). exists hb. rewrite Go by done. split; [done|].
        rewrite Hst, Gs in *. rewrite elem_of_app, !elem_of_cons in *.
        destruct Hstate as [([->|Hin] & Hnv & Hf)|(Hv & Hns & n' & Hrank & Hlinked)]; [done| |].
        -- left. split; [by right|]. naive_solver.
        -- right. split; [by right|]. split; [|exists n'; split; [done|by apply node_linked_app]].
           intros [Hin%Hold|Hin]; [lia|]. apply Hns. by right.
    + destruct (Gn _ _ Hb) as (hb & Hhb & Hf). exists hb. replace (List.length src + (b - List.length src))%nat with b in Hhb by lia.
      split; [done|]. left. pose proof (lookup_lt_Some _ _ _ Hb). rewrite Gs, elem_of_app, elem_of_reverse, elem_of_seq.
      split; [left; lia|]. split; [|done]. intros [->|Hv]%elem_of_cons; [lia|].
      assert (b < List.length src)%nat by (apply Hi, elem_of_app; by right). lia.
  - rewrite Gs. apply NoDup_app. split; [rewrite reverse_Permutation; apply NoDup_seq|]. split; [|done].
    intros b Hb%Hold Hr. assert (b < List.length src)%nat by (apply Hi; rewrite Hst; apply elem_of_app; left; by right). lia.
  - intros b Hb. rewrite Gs, length_app in *. rewrite !elem_of_app, elem_of_cons in Hb.
    destruct Hb as [[Hb%Hold|Hb]|[->|Hb]]; [lia| |lia|].
    + assert (b < List.length src)%nat by (apply Hi; rewrite Hst; apply elem_of_app; left; by right). lia.
    + assert (b < List.length src)%nat by (apply Hi, elem_of_app; by right). lia.
Qed.

Definition nil_links (r : Resource) : bool :=
  forallb (fun e => negb (is_type PropLink (snd e) && IsNavLink (snd e) && match Link (snd e) with Some _ => true | None => false end))
    (r_Properties r).
Definition pool_nil : bool := forallb (fun e => nil_links (snd e)) (allResources collections resources).

Lemma checkNilLinks_ok r s : nil_links r = true -> checkNilLinks r s = (Ret tt, s).
Proof.
  unfold checkNilLinks, nil_links. induction (r_Properties r) as [|e ps IH]; [done|]. simpl.
  intros [Hn%negb_true_iff Hps]%andb_true_iff. rewrite Hn. by apply IH.
Qed.

Lemma for_each_ok {S A} (f : A -> M S unit) l (s : S) : (forall x, x ∈ l -> f x s = (Ret tt, s)) -> for_each f l s = (Ret tt, s).
Proof.
  induction l as [|x l IH]; [done|]. intros Hf. simpl. erewrite bind_step by (apply Hf; by left).
  apply IH. intros y Hy. apply Hf. by right.
Qed.

Lemma pool_checked s : pool_nil = true -> for_each (fun e => checkNilLinks (snd e)) (allResources collections resources) s = (Ret tt, s).
Proof.
  intros Hp. apply for_each_ok. intros e He. apply checkNilLinks_ok. unfold pool_nil in Hp. rewrite forallb_forall in Hp.
  by apply Hp, list_elem_of_In.
Qed.

Abbreviation linkDFS_loop := (linkDFS_loop (Some mapping) collections resources).

(** Enough fuel, and the loop ends with every address linked. *)
Lemma linkDFS_loop_ok fuel : forall src visited s,
  pool_nil = true -> building src visited s -> (work src (ts_stack s) < fuel)%nat ->
  exists news visited' s', linkDFS_loop fuel visited s = (Ret visited', s') /\
    building (src ++ news) visited' s' /\ ts_stack s' = [] /\
    List.length visited' = (List.length visited + work src (ts_stack s))%nat.
Proof.
  induction fuel as [|fuel IH]; intros src visited s Hp Hb Hfuel; [lia|].
  destruct (ts_stack s) as [|a rest] eqn:Est.
  - exists [], visited, s. rewrite app_nil_r. split; [|by rewrite Nat.add_0_r]. simpl. by erewrite bind_step by (unfold pop; rewrite Est; reflexivity).
  - assert (Hin : (a < List.length src)%nat) by (apply (b_inside _ _ _ Hb); rewrite Est; by left).
    apply lookup_lt_is_Some in Hin as [[rank r par] Ha].
    destruct (b_nodes _ _ _ Hb a _ Ha) as (hr & Hhr & [(_ & Hnv & Hfresh)|(_ & Hns & _)]); [|destruct Hns; rewrite Est; by left].
    pose proof (Forall_lookup_1 _ _ _ _ (b_linkable _ _ _ Hb) Ha) as Hlk. cbn [o_rank o_resource] in Hlk, Hfresh.
    apply linkable_inv in Hlk as (n & -> & Hok & Hts). set (s1 := mkTreeState (ts_heap s) (ts_instances s) rest).
    destruct (visit_ok a n r src s1 hr (b_length _ _ _ Hb) Hhr Hfresh Hok (linkable_targets _ _ Hts))
      as (s2 & news & hr' & Hrun & Hg & Hc & Hnode).
    pose proof (building_visit src visited s a rest n r par news s2 hr' Hb Est Ha Hg Hc Hts Hnode) as Hb'.
    assert (Hwork : work src (a :: rest) = S (work (src ++ news) (ts_stack s2))).
    { rewrite (g_stack _ _ _ _ _ _ Hg), work_app, (work_new n src (link_targets r) news Hc). simpl ts_stack.
      rewrite work_old by (intros b Hbin; apply (b_inside _ _ _ Hb); rewrite Est; apply elem_of_app; left; by right).
      unfold work, origin_weight. simpl. rewrite Ha. simpl. lia. }
    destruct (IH (src ++ news) (a :: visited) s2 Hp Hb') as (news' & visited' & s' & Hloop & Hb'' & Hst & Hlen); [lia|].
    exists (news ++ news'), visited', s'. rewrite app_assoc. split; [|split; [done|]; split; [done|]; simpl in Hlen; lia].
    cbn [Tree.linkDFS_loop].
    erewrite bind_step by (unfold pop; rewrite Est; reflexivity). cbv beta iota. erewrite bind_step by by apply pool_checked.
    rewrite bool_decide_false by done. by erewrite bind_step by exact Hrun.
Qed.

End construction.
