(* ===== verification/TreeBuilt.v ===== *)
(** The tree that was built: what the heap reads as, the checks that end the
    construction, and the guarantee the walk of the tree relies on. *)
From S2P Require Import Prelude Values Schema Walk Versions Tree Linking.

(* ===================================================================== *)
(** * Reading the heap                                                   *)
(* ===================================================================== *)

Lemma read_set_Link link b t p : copyable p = true -> link b = Some t ->
  read_property link (set_Link b (hcopy p)) = Some (with_Link t (copied p)).
Proof.
  intros Hc Hb. pose proof (hcopy_reads link p Hc) as Hr. destruct p as [i ps arr l params target title]. simpl in *.
  rewrite Hb. by repeat case_match; simplify_eq/=.
Qed.

Lemma read_set_Properties link hcs cs p : copyable p = true -> all_some (read_property link) hcs = Some cs ->
  read_property link (set_Properties hcs (hcopy p)) = Some (with_Properties cs (copied p)).
Proof.
  intros Hc Hcs. pose proof (hcopy_reads link p Hc) as Hr. destruct p as [i ps arr l params target title]. simpl in *.
  rewrite Hcs. by repeat case_match; simplify_eq/=.
Qed.

Lemma read_set_ArrayOf link e e' p : copyable p = true -> read_property link e = Some e' ->
  read_property link (set_ArrayOf e (hcopy p)) = Some (with_ArrayOf e' (copied p)).
Proof.
  intros Hc He. pose proof (hcopy_reads link p Hc) as Hr. destruct p as [i ps arr l params target title]. simpl in *.
  rewrite He. by repeat case_match; simplify_eq/=.
Qed.

Lemma copyable_child p c : copyable p = true -> c ∈ Properties_of p -> copyable (snd c) = true.
Proof.
  destruct p as [i ps arr l params target title]. intros (Hps & _)%copyable_inv Hin. rewrite forallb_forall in Hps.
  by apply Hps, list_elem_of_In.
Qed.

Lemma copyable_array p e : copyable p = true -> ArrayOf p = Some e -> copyable e = true.
Proof. destruct p. intros (_ & Ha & _)%copyable_inv. simpl. intros ->. exact Ha. Qed.

Lemma all_some_app {A B} (f : A -> option B) l1 l2 m1 m2 :
  all_some f l1 = Some m1 -> all_some f l2 = Some m2 -> all_some f (l1 ++ l2) = Some (m1 ++ m2).
Proof.
  revert m1. induction l1 as [|[k a] l1 IH]; simpl; intros m1 H1 H2; simplify_eq/=; [done|].
  destruct (f a); [|done]. destruct (all_some f l1) as [m|]; [|done]. simplify_eq. by rewrite (IH m).
Qed.

Section reading.
Variables (mapping : VersionMapping) (collections resources : gomap Resource).
Abbreviation linkable := (linkable mapping collections resources).
Abbreviation expand := (expand mapping collections resources).
Abbreviation children_linked := (children_linked mapping collections resources).
Abbreviation linked_property := (linked_property mapping collections resources).
Abbreviation properties_linked := (properties_linked mapping collections resources).
Abbreviation node_linked := (node_linked mapping collections resources).

(** What the links below [a] read as *)
Variables (src : list origin) (link : addr -> option Resource) (n : nat) (ex : Resource -> Resource).
Hypothesis Hlink : forall b t o, src !! b = Some (mkOrigin n t o) -> link b = Some (ex t).

Lemma leads_reads a t o b : leads src a n t o b -> link b = Some (ex t).
Proof. intros [_ Hb]. by eapply Hlink. Qed.

Lemma linked_child_reads a r c hc : copyable (snd c) = true ->
  linked_child mapping collections resources src a n r c hc ->
  read_property link hc = Some (expand_child mapping collections resources ex r c).
Proof.
  unfold linked_child, expand_child, expand_link. intros Hc. destruct (is_nav (snd c)).
  - intros (t & cyc & b & -> & -> & Hb). apply read_set_Link; [done|]. by eapply leads_reads.
  - intros ->. by apply hcopy_reads.
Qed.

Lemma children_read a r cs hcs : Forall (fun c => copyable (snd c) = true) cs -> children_linked src a n r cs hcs ->
  all_some (read_property link) hcs = Some (map (fun c => (fst c, expand_child mapping collections resources ex r c)) cs).
Proof.
  intros Hc H. induction H as [|c [k hc] cs hcs [Hk Hl] _ IH]; [done|]. apply Forall_cons in Hc as [Hc Hcs]. simpl in *.
  rewrite (linked_child_reads a r c hc Hc Hl), IH by done. by rewrite Hk.
Qed.

Lemma selected_reads a r cs hcs : Forall (fun c => copyable (snd c) = true) cs -> children_linked src a n r cs hcs ->
  all_some (read_property link) (selected mapping collections resources r cs hcs)
  = Some (map (fun c => (fst c, expand_child mapping collections resources ex r c))
      (List.filter (promotes mapping collections resources r) cs)).
Proof.
  intros Hc H. induction H as [|c [k hc] cs hcs [Hk Hl] _ IH]; [done|]. apply Forall_cons in Hc as [Hc Hcs]. simpl in *.
  destruct (promotes mapping collections resources r c); [|by apply IH].
  simpl. rewrite (linked_child_reads a r c hc Hc Hl), IH by done. by rewrite Hk.
Qed.

Lemma linked_property_reads a r e hp : copyable (snd e) = true -> linked_property src a n r e hp ->
  read_property link hp = Some (expand_property mapping collections resources ex r e) /\
  all_some (read_property link) (hpromoted mapping collections resources r e hp) = Some (promoted mapping collections resources ex r e).
Proof.
  destruct e as [name p]. unfold Linking.linked_property, hpromoted, expand_property, promoted, expand_link. simpl. intros Hc.
  destruct (is_nav p).
  - intros (t & cyc & b & -> & -> & Hb). split; [|done]. apply read_set_Link; [done|]. by eapply leads_reads.
  - destruct (nav_object name p).
    + intros (hcs & -> & Hcs). rewrite hp_Properties_set.
      assert (Hcc : Forall (fun c => copyable (snd c) = true) (Properties_of p)).
      { apply Forall_forall. intros c. by apply copyable_child. }
      split; [|by eapply selected_reads]. apply read_set_Properties; [done|]. by eapply children_read.
    + destruct (nav_array p).
      * intros (el & t & b & Hel & Ht & -> & Hb). rewrite Hel, Ht. split; [|done]. apply read_set_ArrayOf; [done|].
        apply read_set_Link; [by eapply copyable_array|]. by eapply leads_reads.
      * intros ->. split; [by apply hcopy_reads|done].
Qed.

Lemma properties_read a r ps hps : Forall (fun e => copyable (snd e) = true) ps -> properties_linked src a n r ps hps ->
  all_some (read_property link) (hps ++ hpromotions mapping collections resources r ps hps)
  = Some (map (fun e => (fst e, expand_property mapping collections resources ex r e)) ps
          ++ flat_map (promoted mapping collections resources ex r) ps).
Proof.
  intros Hc H.
  assert (Hboth : all_some (read_property link) hps
      = Some (map (fun e => (fst e, expand_property mapping collections resources ex r e)) ps) /\
    all_some (read_property link) (hpromotions mapping collections resources r ps hps)
      = Some (flat_map (promoted mapping collections resources ex r) ps)).
  { induction H as [|e [k hp] ps hps [Hk Hl] _ IH]; [done|]. apply Forall_cons in Hc as [Hc Hps]. destruct (IH Hps) as [IH1 IH2].
    destruct (linked_property_reads a r e hp Hc Hl) as [H1 H2]. simpl in *. rewrite H1, IH1. split; [by rewrite Hk|].
    by apply all_some_app. }
  destruct Hboth. by apply all_some_app.
Qed.

End reading.

(** ** The heap of a finished tree *)

(** Every address holds the linked copy of its resource. *)
Record finished (mapping : VersionMapping) (collections resources : gomap Resource) (src : list origin) (h : list hResource) : Prop := {
  f_length : List.length h = List.length src;
  f_linkable : Forall (fun o => linkable mapping collections resources (o_rank o) (o_resource o) = true) src;
  f_nodes : forall a n t par, src !! a = Some (mkOrigin (S n) t par) ->
    exists hr, h !! a = Some hr /\ node_linked mapping collections resources src a n t hr;
}.

Section finished.
Variables (mapping : VersionMapping) (collections resources : gomap Resource) (src : list origin) (h : list hResource).
Hypothesis Hfin : finished mapping collections resources src h.

Lemma building_finished visited s :
  building mapping collections resources src visited s -> ts_stack s = [] -> finished mapping collections resources src (ts_heap s).
Proof.
  intros [Hl Hlk Hn _ _] Hst. constructor; try done. intros a n t par Ha.
  destruct (Hn a _ Ha) as (hr & Hhr & [(Hin & _)|(_ & _ & n' & Hr & Hnode)]); [by rewrite Hst in Hin; apply elem_of_nil in Hin|].
  exists hr. split; [done|]. simpl in Hr. by injection Hr as <-.
Qed.

Lemma rank_positive a n t par : src !! a = Some (mkOrigin n t par) -> exists n', n = S n' /\ copyable_resource t = true.
Proof.
  intros Ha. pose proof (Forall_lookup_1 _ _ _ _ (f_linkable _ _ _ _ _ Hfin) Ha) as Hk. cbn [o_rank o_resource] in Hk.
  apply linkable_copyable in Hk as Hc. apply linkable_inv in Hk as (n' & -> & _). by exists n'.
Qed.

(** What the heap holds reads as the tree by recursion. *)
Lemma finished_reads n : forall a t par, src !! a = Some (mkOrigin n t par) ->
  read_resource n h a = Some (expand mapping collections resources n t).
Proof.
  induction n as [|n IH]; intros a t par Ha; destruct (rank_positive _ _ _ _ Ha) as (n' & [= <-] & Hc).
  destruct (f_nodes _ _ _ _ _ Hfin _ _ _ _ Ha) as (hr & Hhr & Hinfo & _ & Hnode). cbn [read_resource expand]. rewrite Hhr.
  assert (Hlink : forall b t o, src !! b = Some (mkOrigin n t o) ->
    read_resource n h b = Some (expand mapping collections resources n t)) by (intros; by eapply IH).
  assert (Hcp : Forall (fun e => copyable (snd e) = true) (r_Properties t)).
  { unfold copyable_resource in Hc. destruct (CollectionOf t); [done|]. eapply forallb_Forall_impl; [|exact Hc]. by apply Forall_forall. }
  unfold expand_resource. destruct (IsCollection t).
  - destruct Hnode as (-> & m & b & -> & -> & _ & Hb). unfold opt_some. rewrite (Hlink _ _ _ Hb).
    unfold copies. rewrite (all_some_map _ hcopy copied), Hinfo; [done|].
    eapply Forall_impl; [exact Hcp|]. intros e. apply hcopy_reads.
  - destruct Hnode as (-> & hps & Hhps & ->).
    rewrite (properties_read mapping collections resources src (read_resource n h) n (expand mapping collections resources n) Hlink a) by done.
    simpl. by rewrite Hinfo.
Qed.
End finished.
