(* ===== verification/TreeChecked.v ===== *)
(** The checks that end the construction of the tree ([checkLinks],
    [consistencyCheck]): on the heap of a finished tree they pass, and leave
    what the heap reads as. *)
From S2P Require Import Prelude Values Schema Walk Versions Tree Linking TreeBuilt.

(* ===================================================================== *)
(** * The links of a resource                                            *)
(* ===================================================================== *)

Definition nav_edges (e : string * hProperty) : list addr :=
  if hp_nav (snd e) then option_list (hp_Link (snd e)) else [].

(** The addresses [TraverseTree] goes to *)
Definition edges (hr : hResource) : list addr :=
  if ri_IsCollection (h_info hr) then option_list (h_CollectionOf hr) else flat_map nav_edges (h_Properties hr).

(** No link is missing. *)
Definition sound (hr : hResource) : Prop :=
  if ri_IsCollection (h_info hr) then is_Some (h_CollectionOf hr)
  else Forall (fun e => dangling (snd e) = false) (h_Properties hr).

Lemma dangling_nav e : dangling (snd e) = false -> hp_nav (snd e) = true -> exists b, hp_Link (snd e) = Some b /\ nav_edges e = [b].
Proof.
  unfold dangling, nav_edges. intros Hd Hn. rewrite Hn in *. destruct (hp_Link (snd e)) as [b|]; [|done]. by exists b.
Qed.

Lemma not_nav e : hp_nav (snd e) = false -> nav_edges e = [].
Proof. unfold nav_edges. by intros ->. Qed.

Lemma next_links_sound hr s : sound hr -> next_links hr s = (Ret (map Some (edges hr)), s).
Proof.
  unfold sound, next_links, edges. destruct (ri_IsCollection (h_info hr)); [by intros [b ->]|].
  induction 1 as [|[k p] ps Hd _ IH]; [done|]. cbn [flat_map]. destruct (hp_nav p) eqn:En.
  - destruct (dangling_nav (k, p) Hd En) as (b & Hb & ->). simpl in Hb. rewrite Hb. by erewrite bind_step by exact IH.
  - by rewrite (not_nav (k, p) En).
Qed.

(** ** The names of a finished resource *)

Section names.
Variables (mapping : VersionMapping) (collections resources : gomap Resource) (src : list origin) (a : addr) (n : nat) (r : Resource).

Abbreviation linked_property := (linked_property mapping collections resources).
Abbreviation properties_linked := (properties_linked mapping collections resources).

(** What the checks look at in one entry *)
Definition entry_ok (e : string * hProperty) : Prop :=
  (hp_nav (snd e) = true -> exists t b, hp_Link (snd e) = Some b /\ leads src a n t (Some (a, fst e)) b) /\
  (forall s, checkLinks_property (snd e) s = (Ret tt, s)).

Lemma entry_plain k hp : hp_nav hp = false -> hp_is PropArray hp && pi_IsNavArray (hp_info hp) = false -> entry_ok (k, hp).
Proof.
  intros Hn Ha. split; simpl; [by rewrite Hn|]. intros s. unfold checkLinks_property, dangling. by rewrite Hn, Ha.
Qed.

Lemma entry_link k p b t : is_nav p = true -> leads src a n t (Some (a, k)) b -> entry_ok (k, set_Link b (hcopy p)).
Proof.
  intros Hn Hb. split; simpl; [intros _; exists t, b; by destruct p|]. intros s. unfold checkLinks_property, dangling.
  replace (hp_Link (set_Link b (hcopy p))) with (Some b) by (by destruct p). rewrite andb_false_r.
  apply nav_exclusive with (name := k) in Hn as [_ Hn]. 
  replace (hp_is PropArray (set_Link b (hcopy p)) && pi_IsNavArray (hp_info (set_Link b (hcopy p)))) with (nav_array p) by (by destruct p).
  by rewrite Hn.
Qed.

Lemma selected_ok cs hcs : children_linked mapping collections resources src a n r cs hcs ->
  Forall entry_ok (selected mapping collections resources r cs hcs).
Proof.
  induction 1 as [|c [k hc] cs hcs [Hk Hl] _ IH]; [constructor|]. simpl.
  destruct (promotes mapping collections resources r c) eqn:Hp; [|done]. constructor; [|done]. simpl in *. subst k.
  unfold promotes in Hp. apply andb_true_iff in Hp as [Hn Hp]. unfold linked_child in Hl. rewrite Hn in Hl.
  destruct Hl as (t & cyc & b & Ht & -> & Hb). rewrite Ht in Hp. destruct cyc; [done|]. by eapply entry_link.
Qed.

Lemma linked_entry_ok e hp : linked_property src a n r e hp ->
  entry_ok (fst e, hp) /\ Forall entry_ok (hpromoted mapping collections resources r e hp).
Proof.
  destruct e as [name p]. unfold Linking.linked_property, hpromoted. simpl. destruct (is_nav p) eqn:En.
  - intros (t & cyc & b & _ & -> & Hb). split; [by eapply entry_link|constructor].
  - destruct (nav_object name p) eqn:Eo.
    + intros (hcs & -> & Hcs). rewrite hp_Properties_set. split; [|by apply selected_ok].
      apply entry_plain.
      * transitivity (is_nav p); [by destruct p|done].
      * transitivity (nav_array p); [by destruct p|]. unfold nav_object in Eo. apply andb_true_iff in Eo as [_ Ho%is_type_eq].
        unfold nav_array, is_type. by rewrite Ho.
    + destruct (nav_array p) eqn:Ea.
      * intros (el & t & b & _ & _ & -> & _). split; [|constructor]. unfold nav_array in Ea.
        apply andb_true_iff in Ea as [Ha%is_type_eq Hi]. split; simpl.
        -- replace (hp_nav _) with (is_nav p) by (by destruct p). by rewrite En.
        -- intros s. unfold checkLinks_property, dangling.
           replace (hp_nav _) with (is_nav p) by (by destruct p). rewrite En. cbn [andb].
           replace (hp_is PropArray _ && _) with (nav_array p) by (by destruct p). unfold nav_array, is_type.
           rewrite Ha, Hi, bool_decide_true by done. by destruct p, el.
      * intros ->. split; [|constructor]. apply entry_plain; [by rewrite hp_nav_copy|by rewrite nav_array_copy].
Qed.

Lemma entries_ok ps hps : properties_linked src a n r ps hps ->
  Forall entry_ok (hps ++ hpromotions mapping collections resources r ps hps).
Proof.
  intros H.
  assert (Hboth : Forall entry_ok hps /\ Forall entry_ok (hpromotions mapping collections resources r ps hps)).
  { induction H as [|e [k hp] ps hps [Hk Hl] _ [IH1 IH2]]; [by split; constructor|]. simpl in *. subst k.
    destruct (linked_entry_ok e hp Hl). split; [by constructor|]. by apply Forall_app. }
  by apply Forall_app.
Qed.

Lemma entries_sound es : Forall entry_ok es -> Forall (fun e => dangling (snd e) = false) es.
Proof.
  intros H. eapply Forall_impl; [exact H|]. intros [k hp] [Hn _]. unfold dangling. simpl in *. destruct (hp_nav hp); [|done].
  destruct Hn as (t & b & -> & _); done.
Qed.

Lemma entries_edges es : Forall entry_ok es ->
  forall b, b ∈ flat_map nav_edges es -> exists t k, k ∈ mkeys es /\ leads src a n t (Some (a, k)) b.
Proof.
  induction 1 as [|[k hp] es [Hn _] _ IH]; simpl; intros b Hb; [by apply elem_of_nil in Hb|].
  apply elem_of_app in Hb as [Hb|Hb].
  - unfold nav_edges in Hb. simpl in *. destruct (hp_nav hp); [|by apply elem_of_nil in Hb].
    destruct Hn as (t & c & Hc & Hl); [done|]. rewrite Hc in Hb. apply list_elem_of_singleton in Hb as ->. exists t, k. split; [by left|done].
  - destruct (IH b Hb) as (t & k' & Hk & Hl). exists t, k'. split; [by right|done].
Qed.

Lemma entries_NoDup es : Forall entry_ok es -> NoDup (mkeys es) -> NoDup (flat_map nav_edges es).
Proof.
  intros He. induction He as [|[k hp] es H Hes IH]; simpl; [constructor|]. intros [Hk Hnd]%NoDup_cons. apply NoDup_app. split; [|split].
  - unfold nav_edges. simpl. destruct (hp_nav hp); [|constructor]. destruct (hp_Link hp); [apply NoDup_singleton|constructor].
  - intros b Hb Hin. destruct (entries_edges es Hes b Hin) as (t & k' & Hk' & _ & Hl).
    destruct (entries_edges [(k, hp)] (Forall_cons_2 _ _ _ H (Forall_nil_2 _)) b) as (t' & k'' & Hk'' & _ & Hl').
    { simpl. by rewrite app_nil_r. }
    simpl in Hk''. apply list_elem_of_singleton in Hk'' as ->. rewrite Hl in Hl'. by simplify_eq.
  - by apply IH.
Qed.
End names.

(* ===================================================================== *)
(** * Traversing a tree                                                  *)
(* ===================================================================== *)

(** The numbers and the counts of references aside, two heaps are the same. *)
Definition view (hr : hResource) := (h_info hr, h_Properties hr, h_CollectionOf hr).
Definition same_shape (h h' : list hResource) : Prop := map view h = map view h'.

Lemma view_sound hr hr' : view hr = view hr' -> (sound hr <-> sound hr') /\ edges hr = edges hr'.
Proof. unfold view, sound, edges. intros [= -> -> ->]. done. Qed.

Lemma same_shape_lookup h h' a hr' : same_shape h h' -> h' !! a = Some hr' -> exists hr, h !! a = Some hr /\ view hr = view hr'.
Proof.
  unfold same_shape. intros Hs Ha. assert (Hm : (view <$> h) !! a = Some (view hr')).
  { change (view <$> h) with (map view h). rewrite Hs. change (map view h') with (view <$> h').
    by rewrite list_lookup_fmap, Ha. }
  rewrite list_lookup_fmap in Hm. destruct (h !! a) as [hr|]; [|done]. simpl in Hm. exists hr. split; [done|]. congruence.
Qed.

Lemma same_shape_length h h' : same_shape h h' -> List.length h = List.length h'.
Proof. intros Hs. by rewrite <- (length_map view h), Hs, length_map. Qed.

Lemma same_shape_insert h h' a hr hr' : same_shape h h' -> h !! a = Some hr -> view hr' = view hr -> same_shape (<[a := hr']> h) h'.
Proof.
  unfold same_shape. intros Hs Ha Hv. rewrite <- Hs. change (map view) with (fmap (M := list) view). rewrite list_fmap_insert, Hv.
  apply list_insert_id. by rewrite list_lookup_fmap, Ha.
Qed.

Lemma read_property_ext l1 l2 p : (forall b, l1 b = l2 b) -> read_property l1 p = read_property l2 p.
Proof.
  intros Hl. revert p. fix IH 1. intros [i ps arr l params target title]. simpl.
  assert (Hall : forall m, all_some (read_property l1) m = all_some (read_property l2) m).
  { induction m as [|[k q] m IHm]; [done|]. simpl. by rewrite IH, IHm. }
  rewrite !Hall.
  replace (opt_some (read_property l1) arr) with (opt_some (read_property l2) arr) by (destruct arr; simpl; [by rewrite IH|done]).
  replace (opt_some (read_property l1) target) with (opt_some (read_property l2) target) by (destruct target; simpl; [by rewrite IH|done]).
  replace (opt_some (read_property l1) title) with (opt_some (read_property l2) title) by (destruct title; simpl; [by rewrite IH|done]).
  replace (opt_some l1 l) with (opt_some l2 l) by (destruct l; simpl; [by rewrite Hl|done]).
  done.
Qed.

Lemma read_resource_shape n h h' : same_shape h h' -> forall a, read_resource n h a = read_resource n h' a.
Proof.
  intros Hs. induction n as [|n IH]; intros a; [done|]. simpl. destruct (h' !! a) as [hr'|] eqn:Ha.
  - destruct (same_shape_lookup h h' a hr' Hs Ha) as (hr & -> & [= <- <- <-]).
    replace (all_some (read_property (read_resource n h)) (h_Properties hr))
      with (all_some (read_property (read_resource n h')) (h_Properties hr)).
    + destruct (h_CollectionOf hr); simpl; [by rewrite IH|done].
    + induction (h_Properties hr) as [|[k p] ps IHps]; [done|]. simpl. rewrite IHps.
      by rewrite (read_property_ext _ (read_resource n h) p) by (intros; by rewrite IH).
  - apply lookup_ge_None in Ha. rewrite <- (same_shape_length h h' Hs) in Ha. by apply lookup_ge_None in Ha as ->.
Qed.

(** The links form a tree with its root at 0: they lead to larger addresses,
    and no two lead to the same address. *)
Record is_tree (N : nat) (E : addr -> list addr) : Prop := {
  t_inside : forall a b, (a < N)%nat -> b ∈ E a -> (a < b < N)%nat;
  t_NoDup : forall a, (a < N)%nat -> NoDup (E a);
  t_parent : forall a a' b, (a < N)%nat -> (a' < N)%nat -> b ∈ E a -> b ∈ E a' -> a = a';
}.

Section traversal.
Variables (N : nat) (E : addr -> list addr) (cb : addr -> T unit) (I : list addr -> tree_state -> Prop).
Hypothesis Htree : is_tree N E.
Hypothesis Hload : forall disc s a, I disc s -> (a < N)%nat -> exists hr, ts_heap s !! a = Some hr /\ sound hr /\ edges hr = E a.
Hypothesis Hcb : forall disc s a, I disc s -> (a < N)%nat -> exists s', cb a s = (Ret tt, s') /\ I (a :: disc) s'.

(** What is known of the addresses that were or will be visited *)
Record frontier (disc stack : list addr) : Prop := {
  fr_NoDup : NoDup (disc ++ stack);
  fr_inside : forall x, x ∈ disc ++ stack -> (x < N)%nat;
  fr_reached : forall x, x ∈ disc ++ stack -> x = 0%nat \/ exists p, p ∈ disc /\ x ∈ E p;
}.

Lemma frontier_step disc a rest : frontier disc (a :: rest) -> frontier (a :: disc) (rev (E a) ++ rest).
Proof.
  intros [Hnd Hin Hre]. assert (Ha : (a < N)%nat) by (apply Hin, elem_of_app; right; by left).
  rewrite <- Permutation_middle in Hnd. apply NoDup_cons in Hnd as [Hnot Hnd].
  assert (Hcases : forall x, x ∈ (a :: disc) ++ rev (E a) ++ rest -> x ∈ disc ++ a :: rest \/ x ∈ E a).
  { intros x. rewrite !elem_of_app, !elem_of_cons, <- (Permutation_rev (E a)). tauto. }
  assert (Hfresh : forall b, b ∈ E a -> b ∉ disc ++ a :: rest).
  { intros b Hb Hold. destruct (t_inside _ _ Htree a b Ha Hb) as [Hlt _]. destruct (Hre b Hold) as [->|(p & Hp & Hbp)]; [lia|].
    assert (Hpn : (p < N)%nat) by (apply Hin, elem_of_app; by left).
    rewrite (t_parent _ _ Htree a p b Ha Hpn Hb Hbp) in Hnot. apply Hnot, elem_of_app. by left. }
  constructor.
  - simpl. assert (Hperm : disc ++ rev (E a) ++ rest ≡ₚ E a ++ disc ++ rest).
    { rewrite <- Permutation_rev, !app_assoc. apply Permutation_app_tail, Permutation_app_comm. }
    rewrite Hperm. apply NoDup_cons. split.
    + rewrite elem_of_app. intros [Hb|Hb]; [|done]. destruct (t_inside _ _ Htree a a Ha Hb). lia.
    + apply NoDup_app. split; [by apply (t_NoDup _ _ Htree)|]. split; [|done]. intros b Hb Hb2. apply (Hfresh b Hb).
      rewrite elem_of_app, elem_of_cons in *. tauto.
  - intros x [Hx|Hx]%Hcases; [by apply Hin|]. by destruct (t_inside _ _ Htree a x Ha Hx).
  - intros x [Hx|Hx]%Hcases.
    + destruct (Hre x Hx) as [->|(p & Hp & Hxp)]; [by left|]. right. exists p. split; [by right|done].
    + right. exists a. split; [by left|done].
Qed.

Lemma TraverseTree_loop_ok fuel : forall disc stack s,
  frontier disc stack -> I disc s -> (N < fuel + List.length disc)%nat ->
  exists disc' s', TraverseTree_loop fuel cb disc (map Some stack) s = (Ret tt, s') /\ I disc' s' /\ frontier disc' [].
Proof.
  induction fuel as [|fuel IH]; intros disc stack s Hf Hi Hfuel.
  - exfalso. destruct Hf as [Hnd Hin _]. apply NoDup_app in Hnd as (Hnd & _).
    assert (Hsub : disc ⊆+ seq 0 N).
    { apply NoDup_submseteq; [done|]. intros x Hx. apply elem_of_seq. split; [lia|]. apply Hin, elem_of_app. by left. }
    apply submseteq_length in Hsub. rewrite length_seq in Hsub. lia.
  - destruct stack as [|a rest]; [by exists disc, s|]. simpl.
    assert (Ha : (a < N)%nat) by (apply (fr_inside _ _ Hf), elem_of_app; right; by left).
    rewrite bool_decide_false.
    2:{ intros Hd. destruct Hf as [(_ & Hdj & _)%NoDup_app _ _]. apply (Hdj a Hd). by left. }
    destruct (Hcb disc s a Hi Ha) as (s1 & Hrun & Hi1). erewrite bind_step by exact Hrun.
    destruct (Hload (a :: disc) s1 a Hi1 Ha) as (hr & Hhr & Hs & He). erewrite bind_step by by apply load_node_ok.
    erewrite bind_step by by apply next_links_sound. rewrite He, <- map_rev, <- map_app.
    apply IH; [by apply frontier_step|done|simpl; lia].
Qed.

Lemma TraverseTree_ok fuel s : (0 < N)%nat -> I [] s -> (N < fuel)%nat ->
  exists disc s', TraverseTree fuel 0 cb s = (Ret tt, s') /\ I disc s' /\ NoDup disc /\ (forall x, x ∈ disc -> (x < N)%nat).
Proof.
  intros HN Hi Hfuel. destruct (TraverseTree_loop_ok fuel [] [0%nat] s) as (disc & s' & Hrun & Hi' & [Hnd Hin _]); [|done|simpl; lia|].
  - constructor; simpl; [apply NoDup_singleton| |].
    + intros x ->%list_elem_of_singleton. done.
    + intros x ->%list_elem_of_singleton. by left.
  - rewrite app_nil_r in *. by exists disc, s'.
Qed.
End traversal.

Lemma is_tree_NoDup N E disc : is_tree N E -> NoDup disc -> (forall x, x ∈ disc -> (x < N)%nat) -> NoDup (flat_map E disc).
Proof.
  intros Ht Hnd. induction Hnd as [|a disc Hnot Hnd IH]; intros Hin; simpl; [constructor|].
  assert (Ha : (a < N)%nat) by (apply Hin; by left). apply NoDup_app. split; [by apply (t_NoDup _ _ Ht)|]. split.
  - intros b Hb Hb2. apply list_elem_of_In, in_flat_map in Hb2 as (p & Hp%list_elem_of_In & Hbp%list_elem_of_In).
    rewrite (t_parent _ _ Ht a p b) in Hnot; try done. apply Hin. by right.
  - apply IH. intros x Hx. apply Hin. by right.
Qed.

(* ===================================================================== *)
(** * The checks of a finished tree                                      *)
(* ===================================================================== *)

Section checks.
Variables (mapping : VersionMapping) (collections resources : gomap Resource) (src : list origin) (h : list hResource).
Hypothesis Hfin : finished mapping collections resources src h.

Definition E (a : addr) : list addr := match h !! a with Some hr => edges hr | None => [] end.
Abbreviation N := (List.length src).

Lemma finished_node a : (a < N)%nat -> exists n hr,
  h !! a = Some hr /\ sound hr /\ NoDup (edges hr) /\ h_ReferenceCount hr = 0%Z /\
  (forall e, e ∈ h_Properties hr -> forall s, checkLinks_property (snd e) s = (Ret tt, s)) /\
  forall b, b ∈ edges hr -> exists t k, leads src a n t (Some (a, k)) b.
Proof.
  intros Ha. apply lookup_lt_is_Some in Ha as [[rank t par] Ha].
  destruct (rank_positive _ _ _ _ _ Hfin _ _ _ _ Ha) as (n & -> & _). exists n.
  destruct (f_nodes _ _ _ _ _ Hfin _ _ _ _ Ha) as (hr & Hhr & Hinfo & Hrc & Hnode). exists hr.
  pose proof (Forall_lookup_1 _ _ _ _ (f_linkable _ _ _ _ _ Hfin) Ha) as Hk. cbn [o_rank o_resource] in Hk.
  apply linkable_inv in Hk as (n' & _ & Hok & _). unfold resource_ok in Hok. apply andb_true_iff in Hok as [_ Hok].
  unfold sound, edges. split; [done|]. rewrite Hinfo. fold (IsCollection t). destruct (IsCollection t).
  - destruct Hnode as (Hps & m & b & _ & -> & Hb). split; [by eexists|]. split; [apply NoDup_singleton|]. split; [done|]. split.
    + apply andb_true_iff in Hok as [Hplain _]. rewrite forallb_forall in Hplain. rewrite Hps.
      intros e ([k p] & -> & Hp)%list_elem_of_fmap. apply (entry_plain src a n k).
      * apply list_elem_of_In, Hplain in Hp. apply andb_true_iff in Hp as [Hp%negb_true_iff _]. by rewrite hp_nav_copy.
      * apply list_elem_of_In, Hplain in Hp. apply andb_true_iff in Hp as [_ Hp%negb_true_iff]. by rewrite nav_array_copy.
    + intros b' ->%list_elem_of_singleton. by eauto.
  - destruct Hnode as (_ & hps & Hlk & Hps). rewrite Hps.
    assert (He : Forall (entry_ok src a n) (hps ++ hpromotions mapping collections resources t (r_Properties t) hps)) by (by apply entries_ok with (r := t)).
    apply andb_true_iff in Hok as [Hnd%bool_decide_eq_true _].
    split; [by eapply entries_sound|]. split; [|split; [done|split]].
    + apply (entries_NoDup src a n); [done|]. unfold mkeys in *. rewrite map_app. unfold final_names, mkeys in Hnd.
      replace (map fst hps) with (map fst (r_Properties t)).
      2:{ clear -Hlk. induction Hlk as [|e he ps hps [Hk _] _ IH]; simpl; [done|]. by rewrite Hk, IH. }
      replace (map fst (hpromotions mapping collections resources t (r_Properties t) hps))
        with (flat_map (promoted_names mapping collections resources t) (r_Properties t)); [done|].
      clear -Hlk. induction Hlk as [|e he ps hps [Hk Hl] _ IH]; simpl; [done|]. rewrite map_app, <- IH. f_equal.
      symmetry. exact (hpromoted_keys _ _ _ _ _ _ _ _ _ Hl).
    + rewrite Forall_forall in He. intros e He'. by apply He.
    + intros b Hb. destruct (entries_edges _ _ _ _ He b Hb) as (u & k & _ & Hl). by exists u, k.
Qed.

Lemma finished_tree : is_tree N E.
Proof.
  constructor.
  - intros a b Ha. destruct (finished_node a Ha) as (n & hr & Hhr & _ & _ & _ & _ & He). unfold E. rewrite Hhr.
    intros (t & k & Hlt & Hb)%He. split; [done|]. by eapply lookup_lt_Some.
  - intros a Ha. destruct (finished_node a Ha) as (n & hr & Hhr & _ & Hnd & _). unfold E. by rewrite Hhr.
  - intros a a' b Ha Ha'. destruct (finished_node a Ha) as (n & hr & Hhr & _ & _ & _ & _ & He).
    destruct (finished_node a' Ha') as (n' & hr' & Hhr' & _ & _ & _ & _ & He'). unfold E. rewrite Hhr, Hhr'.
    intros (t & k & _ & Hb)%He (t' & k' & _ & Hb')%He'. rewrite Hb in Hb'. by injection Hb'.
Qed.

(** The first check *)
Lemma checkLinks_passes (visited : list addr) s : (forall a, a ∈ visited -> (a < N)%nat) -> ts_heap s = h ->
  checkLinks visited s = (Ret tt, s).
Proof.
  intros Hin Hs. apply for_each_ok. intros a Ha%Hin. destruct (finished_node a Ha) as (n & hr & Hhr & _ & _ & _ & Hc & _).
  erewrite bind_step by (apply load_node_ok; rewrite Hs; exact Hhr). apply for_each_ok. intros e He. by apply Hc.
Qed.

(** The heap after the links of [l] were counted *)
Definition counted (l : list addr) (s : tree_state) : Prop :=
  same_shape (ts_heap s) h /\
  (forall b hr, ts_heap s !! b = Some hr -> h_ReferenceCount hr = Z.of_nat (count_occ Nat.eq_dec l b)).

Lemma counted_load l s a : counted l s -> (a < N)%nat -> exists hr, ts_heap s !! a = Some hr /\ sound hr /\ edges hr = E a.
Proof.
  intros [Hs _] Ha. destruct (finished_node a Ha) as (n & hr0 & Hhr0 & Hsound & _).
  destruct (same_shape_lookup _ _ a hr0 Hs Hhr0) as (hr & Hhr & Hv). exists hr. split; [done|].
  destruct (view_sound hr hr0 Hv) as [Hsd ->]. unfold E. rewrite Hhr0. split; [by apply Hsd|done].
Qed.

Lemma counted_perm l l' s : l ≡ₚ l' -> counted l s -> counted l' s.
Proof.
  intros Hp [Hs Hc]. split; [done|]. intros b hr Hb. rewrite (Hc b hr Hb). f_equal. by apply Permutation_count_occ.
Qed.

Lemma add_reference_counts l a b s : counted l s -> (b < N)%nat ->
  exists s', add_reference a b s = (Ret tt, s') /\ counted (b :: l) s'.
Proof.
  intros Hcl Hb. destruct (counted_load l s b Hcl Hb) as (hr & Hhr & _). destruct Hcl as [Hs Hc].
  unfold add_reference. erewrite bind_step by by apply load_node_ok. eexists. split; [reflexivity|]. split.
  - simpl. by eapply same_shape_insert.
  - simpl. intros c hrc Hget. destruct (Nat.eq_dec b c) as [->|Hne].
    + rewrite list_lookup_insert_eq in Hget by by eapply lookup_lt_Some. injection Hget as <-. simpl. rewrite (Hc c hr Hhr). lia.
    + rewrite list_lookup_insert_ne in Hget by done. by apply Hc.
Qed.

Lemma count_visit_counts l a s : counted l s -> (a < N)%nat -> exists s', count_visit a s = (Ret tt, s') /\ counted (E a ++ l) s'.
Proof.
  intros Hc Ha. destruct (counted_load l s a Hc Ha) as (hr & Hhr & Hsound & He).
  assert (Hin : forall b, b ∈ edges hr -> (b < N)%nat) by (rewrite He; intros b; by apply (t_inside _ _ finished_tree)).
  rewrite <- He. unfold count_visit. erewrite bind_step by by apply load_node_ok. unfold sound, edges in *.
  destruct (ri_IsCollection (h_info hr)).
  - destruct Hsound as [b Hb]. rewrite Hb in *. apply add_reference_counts; [done|]. apply Hin. by left.
  - clear Hhr He. revert l s Hc Hin. induction Hsound as [|e ps Hd _ IH]; intros l s Hc Hin; [by exists s|].
    cbn [for_each flat_map] in *. destruct (hp_nav (snd e)) eqn:En.
    + destruct (dangling_nav e Hd En) as (b & Hb & Heq). rewrite Hb. rewrite Heq in *.
      destruct (add_reference_counts l a b s Hc) as (s1 & Hrun & Hc1); [apply Hin; by left|].
      destruct (IH (b :: l) s1 Hc1) as (s' & Hrun' & Hc'); [intros c Hcin; apply Hin; by right|].
      exists s'. split; [by erewrite bind_step by exact Hrun|]. eapply counted_perm; [|exact Hc']. by rewrite <- Permutation_middle.
    + rewrite (not_nav e En) in *. destruct (IH l s Hc Hin) as (s' & Hrun' & Hc'). by exists s'.
Qed.

(** The second check: every link has its own resource. *)
Lemma consistencyCheck_passes fuel s : ts_heap s = h -> List.length h = N -> (0 < N < fuel)%nat ->
  exists s', consistencyCheck fuel 0 s = (Ret tt, s') /\ same_shape (ts_heap s') h.
Proof.
  intros Hs Hlen [HN Hfuel]. pose proof finished_tree as Htree.
  assert (H0 : counted [] s).
  { split; [by rewrite Hs|]. intros b hr Hb. rewrite Hs in Hb. pose proof (lookup_lt_Some _ _ _ Hb).
    destruct (finished_node b) as (n & hr' & Hhr' & _ & _ & Hrc & _); [lia|]. by simplify_eq. }
  unfold consistencyCheck.
  destruct (TraverseTree_ok N E link_visit (fun _ t => t = s) Htree) with (fuel := fuel) (s := s) as (? & s1 & Hrun1 & -> & _); try done.
  { intros disc t a -> Ha. by eapply counted_load. }
  { intros disc t a -> Ha. exists s. split; [|done]. destruct (counted_load [] s a H0 Ha) as (hr & Hhr & Hsd & _).
    unfold link_visit. erewrite bind_step by by apply load_node_ok.
    destruct (finished_node a Ha) as (n & hr' & Hhr' & _ & _ & _ & Hc & _). rewrite Hs in Hhr. rewrite Hhr in Hhr'. injection Hhr' as <-.
    destruct (existsb _ _) eqn:Ex; [|done]. apply existsb_exists in Ex as (e & He%list_elem_of_In & Hd).
    specialize (Hc e He s). unfold checkLinks_property in Hc. by rewrite Hd in Hc. }
  erewrite bind_step by exact Hrun1.
  destruct (TraverseTree_ok N E count_visit (fun disc t => counted (flat_map E disc) t) Htree) with (fuel := fuel) (s := s)
    as (disc & s2 & Hrun2 & Hc2 & Hnd & Hin); try done.
  { intros d t a Hc Ha. by eapply counted_load. }
  { intros d t a Hc Ha. by apply count_visit_counts. }
  unfold countReferences. erewrite bind_step by exact Hrun2.
  destruct (TraverseTree_ok N E ref_visit (fun _ t => t = s2) Htree) with (fuel := fuel) (s := s2) as (? & s3 & Hrun3 & -> & _); try done.
  { intros d t a -> Ha. by eapply counted_load. }
  { intros d t a -> Ha. exists s2. split; [|done]. destruct (counted_load _ s2 a Hc2 Ha) as (hr & Hhr & _).
    unfold ref_visit. erewrite bind_step by by apply load_node_ok. destruct Hc2 as [_ Hc2]. rewrite (Hc2 a hr Hhr).
    pose proof (proj1 (NoDup_count_occ Nat.eq_dec _) (proj1 (NoDup_ListNoDup _) (is_tree_NoDup N E disc Htree Hnd Hin)) a).
    destruct (Z.ltb_spec 1 (Z.of_nat (count_occ Nat.eq_dec (flat_map E disc) a))); [lia|done]. }
  exists s2. split; [exact Hrun3|]. by destruct Hc2.
Qed.
End checks.
