(* ===== verification/TreeLinked.v ===== *)
(** The guarantees of the construction of the tree: it ends, on the tree by
    recursion, and that tree is one the walk of the URIs can use. *)
From S2P Require Import Prelude Values Schema Walk Versions Tree Linking TreeBuilt TreeChecked.

(* ===================================================================== *)
(** * The construction ends                                              *)
(* ===================================================================== *)

Section ends.
Variables (mapping : VersionMapping) (collections resources : gomap Resource).
Abbreviation linkable := (linkable mapping collections resources).
Abbreviation weight := (weight mapping collections resources).

(** What [linkDFS] asks of its pool *)
Record pool_ready (n : nat) (serviceRoot : Resource) : Prop := {
  pr_sizes : List.length (allResources collections resources) = (List.length resources + List.length collections)%nat;
  pr_nil : pool_nil collections resources = true;
  pr_root : mget "ServiceRoot" resources = Some serviceRoot;
  pr_linkable : linkable n serviceRoot = true;
}.

Lemma building_start n r inst h : linkable n r = true -> fresh_node r h ->
  building mapping collections resources [mkOrigin n r None] [] (mkTreeState [h] inst [0%nat]).
Proof.
  intros Hl Hf. constructor; simpl; try done.
  - by repeat constructor.
  - intros [|a] o Ha; [|done]. injection Ha as <-. exists h. split; [done|]. left. split; [by left|]. split; [|done].
    apply not_elem_of_nil.
  - apply NoDup_singleton.
  - intros a Ha%list_elem_of_singleton. lia.
Qed.

(** Every address of the heap is visited in the end. *)
Lemma building_visited src visited s :
  building mapping collections resources src visited s -> ts_stack s = [] -> (List.length src <= List.length visited)%nat.
Proof.
  intros Hb Hst. rewrite <- (length_seq (List.length src) 0). apply submseteq_length, NoDup_submseteq; [apply NoDup_seq|].
  intros a [_ Ha]%elem_of_seq. apply lookup_lt_is_Some in Ha as [o Ha].
  destruct (b_nodes _ _ _ _ _ _ Hb a o Ha) as (hr & _ & [(Hin & _)|(Hin & _)]); [|done]. by rewrite Hst in Hin; apply elem_of_nil in Hin.
Qed.

Lemma linkDFS_ok n serviceRoot fuel inst :
  pool_ready n serviceRoot -> (weight n serviceRoot < fuel)%nat ->
  exists s', linkDFS fuel (Some mapping) collections resources (mkTreeState [] inst []) = (Ret 0%nat, s') /\
    read_resource n (ts_heap s') 0 = Some (expand mapping collections resources n serviceRoot).
Proof.
  intros [Hsizes Hnil Hroot Hlk] Hfuel. unfold linkDFS. rewrite Hsizes, Nat.eqb_refl. cbn [negb].
  erewrite bind_step by by apply pool_checked. rewrite Hroot.
  destruct (copyResource_ok serviceRoot 0 (mkTreeState [] inst []) (linkable_copyable _ _ _ _ _ Hlk)) as (h & Hcopy & Hf).
  erewrite bind_step by exact Hcopy. simpl ts_heap. erewrite bind_step by reflexivity. simpl ts_heap.
  pose proof (building_start n serviceRoot inst h Hlk Hf) as Hb.
  assert (Hw : work mapping collections resources [mkOrigin n serviceRoot None] [0%nat] = weight n serviceRoot)
    by (unfold work, origin_weight; simpl; lia).
  destruct (linkDFS_loop_ok mapping collections resources fuel [mkOrigin n serviceRoot None] [] _ Hnil Hb) as
    (news & visited & s1 & Hloop & Hb1 & Hst & Hlen); [simpl; by rewrite Hw|]. simpl in Hlen. rewrite Hw in Hlen.
  set (src := [mkOrigin n serviceRoot None] ++ news) in *.
  assert (Hfin : finished mapping collections resources src (ts_heap s1)) by (by eapply building_finished).
  erewrite bind_step by exact Hloop.
  erewrite bind_step.
  2:{ eapply checkLinks_passes; [exact Hfin| |done]. intros a Ha. apply (b_inside _ _ _ _ _ _ Hb1), elem_of_app. by right. }
  pose proof (building_visited src visited s1 Hb1 Hst) as Hcount.
  destruct (consistencyCheck_passes mapping collections resources src (ts_heap s1) Hfin fuel s1) as (s2 & Hcheck & Hshape);
    [done|apply (f_length _ _ _ _ _ Hfin)|simpl in *; lia|].
  erewrite bind_step by exact Hcheck. exists s2. split; [done|].
  rewrite (read_resource_shape n _ _ Hshape). by eapply finished_reads.
Qed.
End ends.

(* ===================================================================== *)
(** * The tree is linked                                                 *)
(* ===================================================================== *)

(** No link that navigates at or below the property *)
Fixpoint unmarked (p : Property) : bool :=
  match p with
  | mkProperty i ps _ _ _ _ _ =>
      negb (bool_decide (pi_Type i = PropLink) && pi_IsNavLink i) && forallb (fun e => unmarked (snd e)) ps
  end.
Definition unmarked_below (p : Property) : bool := forallb (fun e => unmarked (snd e)) (Properties_of p).

(** Links that navigate are at the top of a resource, or children of an
    object at the top. *)
Definition marked_link (p : Property) : bool := is_nav p && unmarked_below p || unmarked p.
Definition marked_property (e : string * Property) : bool :=
  let '(name, p) := e in
  marked_link p || nav_object name p && forallb (fun c => marked_link (snd c)) (Properties_of p).
Definition well_marked (r : Resource) : bool :=
  if IsCollection r then forallb (fun e => unmarked (snd e)) (r_Properties r) else forallb marked_property (r_Properties r).

Lemma forallb_entries {A B} (f : B -> bool) (g : A -> B) (l : list (string * A)) :
  Forall (fun e => f (g (snd e)) = true) l -> forallb (fun e => f (snd e)) (map (fun e => (fst e, g (snd e))) l) = true.
Proof. induction 1 as [|e l He _ IH]; [done|]. simpl. by rewrite He, IH. Qed.

Lemma unmarked_linked p : unmarked p = true -> p_linked (copied p) = true.
Proof.
  induction p as [i ps arr link params target title Hps _ _ _ _] using property_induction. simpl.
  intros [Hn%negb_true_iff Hc]%andb_true_iff. rewrite Hn, andb_true_r. apply (forallb_entries p_linked copied).
  rewrite Forall_forall in *. intros e He. apply Hps; [done|]. rewrite forallb_forall in Hc. by apply Hc, list_elem_of_In.
Qed.

Lemma unmarked_not_nav p : unmarked p = true -> is_nav p = false.
Proof. destruct p. simpl. by intros [H%negb_true_iff _]%andb_true_iff. Qed.

Lemma below_linked p : unmarked_below p = true -> forallb (fun e => p_linked (snd e)) (Properties_of (copied p)) = true.
Proof.
  destruct p as [i ps arr link params target title]. unfold unmarked_below. simpl. intros Hc. apply (forallb_entries p_linked copied).
  eapply forallb_Forall_impl; [|exact Hc]. apply Forall_forall. intros e _. apply unmarked_linked.
Qed.

Lemma p_linked_with_Link r p : p_linked (with_Link r p) = forallb (fun e => p_linked (snd e)) (Properties_of p) && (negb (is_nav p) || r_linked r).
Proof. by destruct p. Qed.

Lemma p_linked_with_ArrayOf e p : p_linked (with_ArrayOf e p) = p_linked p.
Proof. by destruct p. Qed.

Lemma p_linked_with_Properties ps p : is_nav p = false -> p_linked (with_Properties ps p) = forallb (fun e => p_linked (snd e)) ps.
Proof. destruct p. unfold is_nav, is_type, IsNavLink, p_Type. simpl. intros ->. by rewrite andb_true_r. Qed.

Lemma is_nav_copied p : is_nav (copied p) = is_nav p.
Proof. by destruct p. Qed.

Section linked.
Variables (mapping : VersionMapping) (collections resources : gomap Resource).
Abbreviation expand := (expand mapping collections resources).
Hypothesis Hpool : forallb (fun e => well_marked (snd e)) (allResources collections resources) = true.
Hypothesis Hresources : forallb (fun e => well_marked (snd e)) resources = true.

Lemma pool_marked k r : mget k (allResources collections resources) = Some r -> well_marked r = true.
Proof. intros Hk%mget_Some_elem. rewrite forallb_forall in Hpool. by apply (Hpool (k, r)), list_elem_of_In. Qed.

Lemma reference_marked l r : reference collections resources l = Some r -> well_marked r = true.
Proof. intros (ty & _ & _ & Hr)%reference_inv. by eapply pool_marked. Qed.

Lemma target_marked r name p t cyc : target_of mapping collections resources r name p = Some (t, cyc) -> well_marked t = true.
Proof.
  unfold target_of. destruct (reference _ _ _) as [t0|] eqn:Er; [|done]. destruct (known_cycle _ _ _ _); [by intros [= <- _]|].
  destruct (String.eqb _ _); [done|]. intros [= <- _]. by eapply reference_marked.
Qed.

Section level.
Variables (ex : Resource -> Resource) (r : Resource).
Hypothesis Hex : forall t, t ∈ link_targets mapping collections resources r -> well_marked t = true -> r_linked (ex t) = true.

Lemma expand_link_linked e : link_ok mapping collections resources r e = true -> is_nav (snd e) = true ->
  (forall t cyc, target_of mapping collections resources r (fst e) (snd e) = Some (t, cyc) -> t ∈ link_targets mapping collections resources r) ->
  marked_link (snd e) = true -> p_linked (expand_link mapping collections resources ex r e) = true.
Proof.
  unfold link_ok, expand_link, marked_link. intros Hok Hn Hin Hm.
  destruct (target_of _ _ _ _ _ _) as [[t cyc]|] eqn:Et; [|done]. rewrite p_linked_with_Link, is_nav_copied, Hn. cbn [negb orb].
  rewrite Hex; [|by eapply Hin|by eapply target_marked]. rewrite andb_true_r. rewrite Hn in Hm. cbn [andb] in Hm.
  apply orb_true_iff in Hm as [Hm|Hm]; [by apply below_linked|]. apply unmarked_not_nav in Hm. by rewrite Hm in Hn.
Qed.

(** A link of the resource, at the top or in an object *)
Definition in_targets (c : string * Property) : Prop :=
  forall t, t ∈ child_targets mapping collections resources r c -> t ∈ link_targets mapping collections resources r.

Lemma child_linked c : in_targets c -> marked_link (snd c) = true ->
  negb (is_nav (snd c)) || link_ok mapping collections resources r c = true ->
  p_linked (expand_child mapping collections resources ex r c) = true.
Proof.
  unfold expand_child, in_targets, child_targets. intros Hin Hm Hok. destruct (is_nav (snd c)) eqn:En.
  - apply expand_link_linked; try done. intros t cyc Ht. apply Hin. rewrite Ht. by left.
  - unfold marked_link in Hm. rewrite En in Hm. by apply unmarked_linked.
Qed.

Lemma property_linked e : (forall t, t ∈ property_targets mapping collections resources r e -> t ∈ link_targets mapping collections resources r) ->
  marked_property e = true -> property_ok mapping collections resources r e = true ->
  p_linked (expand_property mapping collections resources ex r e) = true /\
  forallb (fun e => p_linked (snd e)) (promoted mapping collections resources ex r e) = true.
Proof.
  destruct e as [name p]. unfold marked_property, property_ok, expand_property, promoted, property_targets. intros Hin Hm Hok.
  destruct (is_nav p) eqn:En.
  - split; [|done]. apply nav_exclusive with (name := name) in En as Hex'. destruct Hex' as [Ho _]. rewrite Ho in Hm.
    rewrite orb_false_r in Hm. apply expand_link_linked; try done. intros t cyc Ht. apply Hin. unfold child_targets. simpl.
    rewrite En. simpl in Ht. rewrite Ht. by left.
  - unfold marked_link in Hm at 1. rewrite En in Hm. cbn [andb orb] in Hm. destruct (nav_object name p).
    + assert (Hcs : Forall (fun c => p_linked (expand_child mapping collections resources ex r c) = true) (Properties_of p)).
      { apply andb_true_iff in Hok as [_ Hok]. rewrite forallb_forall in Hok.
        assert (Hmc : Forall (fun c => marked_link (snd c) = true) (Properties_of p)).
        { apply orb_true_iff in Hm as [Hm|Hm].
          - eapply forallb_Forall_impl; [|destruct p; simpl in Hm; apply andb_true_iff in Hm as [_ Hm]; exact Hm].
            apply Forall_forall. intros c _ Hc. unfold marked_link. rewrite Hc. apply orb_true_r.
          - eapply forallb_Forall_impl; [|exact Hm]. by apply Forall_forall. }
        rewrite Forall_forall in *. intros c Hc. apply child_linked; [|by apply Hmc|by apply Hok, list_elem_of_In].
        intros t Ht. apply Hin, list_elem_of_In, in_flat_map. exists c. split; by apply list_elem_of_In. }
      rewrite p_linked_with_Properties by (by rewrite is_nav_copied). split; apply forallb_forall;
        intros e He%list_elem_of_In; apply list_elem_of_fmap in He as (c & -> & Hc); rewrite Forall_forall in Hcs; apply Hcs; [done|].
      apply list_elem_of_In, filter_In in Hc as [Hc _]. by apply list_elem_of_In.
    + rewrite orb_false_r in Hm. split; [|done]. destruct (nav_array p); [|by apply unmarked_linked].
      destruct (ArrayOf p) as [el|]; [|by apply unmarked_linked].
      destruct (array_target _ _ _ _); [rewrite p_linked_with_ArrayOf|]; by apply unmarked_linked.
Qed.

Lemma resource_linked : well_marked r = true -> resource_ok mapping collections resources r = true ->
  r_linked (expand_resource mapping collections resources ex r) = true.
Proof.
  unfold well_marked, resource_ok, expand_resource. intros Hm Hok. apply andb_true_iff in Hok as [_ Hok].
  destruct (IsCollection r) eqn:Ec.
  - apply andb_true_iff in Hok as [_ Hok]. apply andb_true_iff in Hok as [_ Hok].
    destruct (member_of resources r) as [t|] eqn:Et; [|done]. simpl. apply andb_true_iff. split.
    + apply (forallb_entries p_linked copied). eapply forallb_Forall_impl; [|exact Hm]. apply Forall_forall.
      intros e _. apply unmarked_linked.
    + rewrite Hex; [by rewrite orb_true_r| |].
      * unfold link_targets. rewrite Ec, Et. by left.
      * unfold member_of in Et. apply mget_Some_elem in Et. rewrite forallb_forall in Hresources.
        by apply (Hresources (trim_suffix "Collection" (r_Name r), t)), list_elem_of_In.
  - apply andb_true_iff in Hok as [_ Hok]. rewrite forallb_forall in Hm, Hok. simpl. fold (IsCollection r). rewrite Ec, andb_true_r.
    assert (Hboth : forall e, e ∈ r_Properties r ->
      p_linked (expand_property mapping collections resources ex r e) = true /\
      forallb (fun e => p_linked (snd e)) (promoted mapping collections resources ex r e) = true).
    { intros e He%list_elem_of_In. apply property_linked; [|by apply Hm|by apply Hok]. intros t Ht. unfold link_targets. rewrite Ec.
      apply list_elem_of_In, in_flat_map. exists e. split; [done|]. by apply list_elem_of_In. }
    rewrite forallb_app. apply andb_true_iff. split; apply forallb_forall; intros e He.
    + apply list_elem_of_In, list_elem_of_fmap in He as (e' & -> & He'). by apply Hboth.
    + apply in_flat_map in He as (e' & He' & He). apply list_elem_of_In in He'. destruct (Hboth e' He') as [_ Hp].
      rewrite forallb_forall in Hp. by apply Hp.
Qed.
End level.

(** Every resource of the tree by recursion has its links. *)
Lemma expand_linked n : forall r, linkable mapping collections resources n r = true -> well_marked r = true ->
  r_linked (expand n r) = true.
Proof.
  induction n as [|n IH]; intros r Hl Hm; [done|]. apply linkable_inv in Hl as (n' & [= <-] & Hok & Hts).
  cbn [Linking.expand]. apply resource_linked; try done. intros t Ht. apply IH. rewrite forallb_forall in Hts.
  by apply Hts, list_elem_of_In.
Qed.
End linked.

(* ===================================================================== *)
(** * The marks                                                          *)
(* ===================================================================== *)

(** What parsing leaves: nothing navigates yet. *)
Definition unmarked_resource (r : Resource) : bool := forallb (fun e => unmarked (snd e)) (r_Properties r).

Definition link_navigates (p : Property) : bool := negb (is_type PropLink p) || is_nav p.
Definition property_navigates (e : string * Property) : bool :=
  let '(name, p) := e in
  link_navigates p && (negb (nav_object name p) || forallb (fun c => link_navigates (snd c)) (Properties_of p)).
(** Every link at the top of the resource or of an object navigates. *)
Definition links_navigate (r : Resource) : bool := forallb property_navigates (r_Properties r).

Lemma detected_child p : unmarked p = true ->
  let p' := if is_type PropLink p then with_info mark_nav_link p else p in
  marked_link p' = true /\ link_navigates p' = true.
Proof.
  intros Hu. unfold marked_link, link_navigates. destruct (is_type PropLink p) eqn:El; cbv zeta.
  - apply is_type_eq in El. destruct p as [i ps arr l params target title]. unfold p_Type in El. simpl in El, Hu.
    apply andb_true_iff in Hu as [_ Hu]. unfold is_nav, is_type, IsNavLink, unmarked_below, p_Type. simpl. rewrite El. simpl. by rewrite Hu.
  - rewrite Hu, El. by rewrite orb_true_r.
Qed.

Lemma marked_below p : marked_link p = true -> unmarked_below p = true.
Proof.
  unfold marked_link. intros [[_ Hb]%andb_true_iff|Hu]%orb_true_iff; [done|]. destruct p. simpl in Hu. by apply andb_true_iff in Hu as [_ Hu].
Qed.

Lemma marked_not_link p : marked_link p = true -> is_type PropLink p = false -> unmarked p = true.
Proof. unfold marked_link, is_nav. intros Hm Hl. rewrite Hl in Hm. exact Hm. Qed.

Lemma unmarked_marked p : unmarked p = true -> marked_link p = true.
Proof. unfold marked_link. intros ->. apply orb_true_r. Qed.

Lemma detected_property name p : marked_link p = true ->
  marked_property (name, detect_link name p) = true /\ property_navigates (name, detect_link name p) = true.
Proof.
  intros Hm. unfold marked_property, property_navigates, detect_link. destruct (is_type PropLink p) eqn:El.
  - apply marked_below in Hm as Hb. apply is_type_eq in El. destruct p as [i ps arr l params target title].
    unfold p_Type in El. unfold marked_link, link_navigates, nav_object, is_nav, is_type, IsNavLink, p_Type, unmarked_below in *. simpl in *.
    rewrite El, Hb. simpl. by rewrite andb_false_r.
  - apply marked_not_link in Hm as Hu; [|done]. fold (nav_object name p). destruct (nav_object name p) eqn:Eo.
    + assert (Hcs : forall c, c ∈ Properties_of p -> unmarked (snd c) = true).
      { destruct p. simpl in Hu. apply andb_true_iff in Hu as [_ Hu]. rewrite forallb_forall in Hu.
        intros c Hc%list_elem_of_In. by apply Hu. }
      unfold nav_object in *. apply andb_true_iff in Eo as [Hname Ho%is_type_eq]. rewrite Hname.
      unfold link_navigates at 1. destruct p as [i ps arr l params target title]. unfold is_type, p_Type in *. simpl in *. rewrite Ho in *. simpl.
      split; [apply orb_true_iff; right|]; apply forallb_forall; intros e He%list_elem_of_In;
        apply list_elem_of_fmap in He as ([k c] & -> & Hc); simpl; by apply (detected_child c), (Hcs (k, c)).
    + rewrite Hm. unfold link_navigates. by rewrite El, Eo.
Qed.

Lemma mapped_entries {A} (f : string -> A -> A) (P : string * A -> bool) l :
  (forall k a, (k, a) ∈ l -> P (k, f k a) = true) -> forallb P (map_values f l) = true.
Proof.
  intros Hf. apply forallb_forall. intros e He%list_elem_of_In. apply list_elem_of_fmap in He as ([k a] & -> & Hin). by apply Hf.
Qed.

Lemma detected_resource r : forallb (fun e => marked_link (snd e)) (r_Properties r) = true -> IsCollection r = false ->
  let r' := resource_with (map_values detect_link (r_Properties r)) r in
  well_marked r' = true /\ links_navigate r' = true.
Proof.
  unfold well_marked, links_navigate. rewrite forallb_forall. intros Hu Hc. destruct r as [i ps coll]. simpl in *.
  unfold IsCollection in *. simpl in *. rewrite Hc.
  split; apply mapped_entries; intros k p Hin%list_elem_of_In; by apply detected_property, (Hu (k, p)).
Qed.

Lemma unmarked_premarked r : unmarked_resource r = true -> forallb (fun e => marked_link (snd e)) (r_Properties r) = true.
Proof.
  unfold unmarked_resource. rewrite !forallb_forall. intros Hu e He. by apply unmarked_marked, Hu.
Qed.

(* ===================================================================== *)
(** * Embedded collections                                               *)
(* ===================================================================== *)

Lemma extract_definition {S} x (s : S) : extractLinkedResourceType (definitions_prefix +:+ x) s = (Ret x, s).
Proof. unfold extractLinkedResourceType. simpl. by destruct x. Qed.

(** What the link of a converted array leads to *)
Definition embeds (p : Property) (converted : Resource * Resource * Property) : Prop :=
  let '(collection, resource, link) := converted in
  is_nav link = true /\ linkRef_of link = definitions_prefix +:+ r_Name collection /\
  IsCollection collection = true /\ has_suffix "Collection" (r_Name collection) = true /\
  trim_suffix "Collection" (r_Name collection) = r_Name resource /\
  IsCollection resource = false /\
  exists e, ArrayOf p = Some e /\ r_Properties resource = Properties_of e.

(** An array that can be converted *)
Definition convertible_array (p : Property) : bool :=
  match pi_arrayRefString (p_info p), ArrayOf p with
  | Some ref, Some e =>
      (has_prefix schemas_prefix ref || has_prefix definitions_prefix ref)
      && match pi_AdditionalProperties (p_info p), pi_AdditionalProperties (p_info e) with Some _, None => false | _, _ => true end
  | _, _ => false
  end.

Lemma extract_cases {S} ref : (exists t, forall s : S, extractLinkedResourceType ref s = (Ret t, s)) /\
    has_prefix schemas_prefix ref || has_prefix definitions_prefix ref = true \/
  (exists e, forall s : S, extractLinkedResourceType ref s = (Panic e, s)) /\
    has_prefix schemas_prefix ref || has_prefix definitions_prefix ref = false.
Proof.
  unfold extractLinkedResourceType. destruct (has_prefix schemas_prefix ref); [left; split; [by eexists|done]|].
  destruct (has_prefix definitions_prefix ref); [left; split; [by eexists|done]|]. right. split; [by eexists|done].
Qed.

(** The names at the top of the tree by recursion *)
Lemma expanded_names mapping collections resources ex r :
  map fst (map (fun e => (fst e, expand_property mapping collections resources ex r e)) (r_Properties r)
    ++ flat_map (promoted mapping collections resources ex r) (r_Properties r)) = final_names mapping collections resources r.
Proof.
  unfold final_names, mkeys. rewrite map_app, map_map. f_equal. induction (r_Properties r) as [|[name p] ps IH]; [done|].
  cbn [flat_map]. rewrite map_app, IH. f_equal. unfold promoted, promoted_names. destruct (is_nav p); [done|].
  destruct (nav_object name p); [|done]. by rewrite map_map.
Qed.

(* ===================================================================== *)
(** * Properties                                                         *)
(* ===================================================================== *)


(** The tree that is built is one a URI can be walked in.  When the links
    that navigate are where the construction looks for them, the tree the
    heap reads as makes [WalkTree] answer every path with what it denotes,
    and never panic. *)
Theorem built_tree_walkable {S} mapping collections resources n serviceRoot fuel instances
    (member : Resource -> string -> string -> bool) (cb : CollectionCB S) path (s : S)
    (Hready : pool_ready mapping collections resources n serviceRoot)
    (Hfuel : (weight mapping collections resources n serviceRoot < fuel)%nat)
    (Hpool : forallb (fun e => well_marked (snd e)) (allResources collections resources) = true)
    (Hresources : forallb (fun e => well_marked (snd e)) resources = true)
    (Hcb : answers_member member cb s) :
  exists s' root, linkDFS fuel (Some mapping) collections resources (mkTreeState [] instances []) = (Ret 0%nat, s') /\
    read_resource n (ts_heap s') 0 = Some root /\ walk_agrees member s root path (WalkTree root cb path s).
Proof.
  destruct (linkDFS_ok mapping collections resources n serviceRoot fuel instances Hready Hfuel) as (s' & Hrun & Hread).
  exists s', (expand mapping collections resources n serviceRoot). split; [done|]. split; [done|].
  apply WalkTree_agrees; [done|]. destruct Hready as [_ _ Hroot Hlk]. apply expand_linked; [done|done|done|].
  apply mget_Some_elem in Hroot. rewrite forallb_forall in Hresources.
  by apply (Hresources ("ServiceRoot", serviceRoot)), list_elem_of_In.
Qed.

(** The marking finds exactly the links that navigate.  On resources in
    which nothing navigates yet, [detectNavigationLinks] marks every link at
    the top of a resource and every link of an object at the top other than
    Links, and nothing anywhere else. *)
Theorem detectNavigationLinks_marks resources
    (Hunmarked : forallb (fun e => unmarked_resource (snd e)) resources = true)
    (Hplain : forallb (fun e => negb (IsCollection (snd e))) resources = true) :
  forallb (fun e => well_marked (snd e)) (detectNavigationLinks resources) = true /\
  forallb (fun e => links_navigate (snd e)) (detectNavigationLinks resources) = true /\
  mkeys (detectNavigationLinks resources) = mkeys resources.
Proof.
  rewrite forallb_forall in Hunmarked, Hplain.
  split; [|split].
  1, 2: apply mapped_entries; intros k r Hin%list_elem_of_In; apply detected_resource;
    [by apply unmarked_premarked, (Hunmarked (k, r))|by apply negb_true_iff, (Hplain (k, r))].
  unfold detectNavigationLinks, map_values, mkeys. rewrite map_map. by apply map_ext.
Qed.

(** An array of members becomes a collection the linking can find.
    [convertArrayToCollection] changes no state; on an array with a reference
    in one of the two formats it returns a link that navigates, whose
    reference names the collection, whose name without the suffix names the
    resource of the members, which has the properties of the elements; it
    panics exactly otherwise. *)
Theorem convertArrayToCollection_embeds {S} parent property (s : S) :
  match convertArrayToCollection parent property s with
  | (Ret c, s') => s' = s /\ convertible_array property = true /\ embeds property c /\
      extractLinkedResourceType (linkRef_of (snd c)) s = (Ret (r_Name (fst (fst c))), s)
  | (Panic _, s') => s' = s /\ convertible_array property = false
  | _ => False
  end.
Proof.
  unfold convertArrayToCollection, convertible_array. destruct (pi_arrayRefString (p_info property)) as [ref|]; [|done].
  destruct (@extract_cases S ref) as [[[t Ht] Hp]|[[e He] Hp]].
  2:{ erewrite bind_panic by apply He. destruct (ArrayOf property); rewrite ?Hp; done. }
  erewrite bind_step by apply Ht. rewrite Hp. destruct (ArrayOf property) as [e|] eqn:Ea; [|done].
  destruct (pi_AdditionalProperties (p_info property)), (pi_AdditionalProperties (p_info e)) eqn:Ee; try done;
    (split; [done|]; split; [done|]; split; [|destruct property; apply extract_definition]); destruct property; simpl in *;
    (do 3 (split; [done|])); (split; [apply has_suffix_end|]); (split; [apply trim_suffix_end|]); (split; [done|]); by exists e.
Qed.

(** A link inside an object is put at the top of its resource as well.
    In the tree, a navigation link that is a child of an object of the
    resource is found under its own name in the object, where the schema has
    it, and a second time among the properties of the resource itself. *)
Theorem nested_links_promoted mapping collections resources n r name p child c t
    (Hok : linkable mapping collections resources (S n) r = true) (Hcoll : IsCollection r = false)
    (Hp : (name, p) ∈ r_Properties r) (Hobj : nav_object name p = true)
    (Hc : (child, c) ∈ Properties_of p) (Hnav : is_nav c = true)
    (Ht : target_of mapping collections resources r child c = Some (t, false)) :
  let linked := with_Link (expand mapping collections resources n t) (copied c) in
  let tree := expand mapping collections resources (S n) r in
  mget child (r_Properties tree) = Some linked /\
  exists q, mget name (r_Properties tree) = Some q /\ mget child (Properties_of q) = Some linked.
Proof.
  apply linkable_inv in Hok as (n' & [= <-] & Hok & _). unfold resource_ok in Hok. rewrite Hcoll in Hok.
  apply andb_true_iff in Hok as [_ Hok]. apply andb_true_iff in Hok as [Hnd%bool_decide_eq_true Hok].
  assert (Hnot : is_nav p = false).
  { destruct (is_nav p) eqn:En; [|done]. apply nav_exclusive with (name := name) in En as [En _]. congruence. }
  set (ex := expand mapping collections resources n).
  assert (Hl : expand_child mapping collections resources ex r (child, c) = with_Link (ex t) (copied c)).
  { unfold expand_child, expand_link. simpl. by rewrite Hnav, Ht. }
  cbn [Linking.expand]. unfold expand_resource. rewrite Hcoll. cbn [r_Properties]. fold ex. cbv zeta. rewrite <- Hl.
  set (top := map _ _ ++ _).
  assert (Htop : mwf top).
  { unfold mwf, top, mkeys. by rewrite expanded_names. }
  split.
  - apply mget_elem; [done|]. apply elem_of_app. right. apply list_elem_of_In, in_flat_map. exists (name, p).
    split; [by apply list_elem_of_In|]. unfold promoted. rewrite Hnot, Hobj. apply list_elem_of_In.
    apply (list_elem_of_fmap_2' (fun c => (fst c, expand_child mapping collections resources ex r c)) _ (child, c)); [|done].
    apply list_elem_of_In, filter_In. split; [by apply list_elem_of_In|]. unfold promotes. simpl. by rewrite Hnav, Ht.
  - exists (expand_property mapping collections resources ex r (name, p)). split.
    + apply mget_elem; [done|]. apply elem_of_app. left.
      by apply (list_elem_of_fmap_2' (fun e => (fst e, expand_property mapping collections resources ex r e)) _ (name, p)).
    + unfold expand_property. rewrite Hnot, Hobj. destruct p as [i ps arr l params target title]. simpl in *.
      apply mget_elem.
      * rewrite forallb_forall in Hok. apply list_elem_of_In in Hp. specialize (Hok _ Hp). simpl in Hok. rewrite Hnot, Hobj in Hok.
        apply andb_true_iff in Hok as [Hok _]. apply andb_true_iff in Hok as [_ Hok%bool_decide_eq_true].
        unfold mwf, mkeys in *. by rewrite map_map.
      * by apply (list_elem_of_fmap_2' (fun c => (fst c, expand_child mapping collections resources ex r c)) _ (child, c)).
Qed.

(* ===================================================================== *)
(** * Example                                                            *)
(* ===================================================================== *)

Module TreeExample.
Definition link_to (ref : string) : Property :=
  let i := plain_info PropLink in
  mkProperty {|
    pi_Type := pi_Type i; pi_NullAllowed := pi_NullAllowed i; pi_ReadOnly := pi_ReadOnly i;
    pi_Deprecated := pi_Deprecated i; pi_DeprecatedReason := pi_DeprecatedReason i;
    pi_Description := pi_Description i; pi_LongDescription := pi_LongDescription i;
    pi_Types := pi_Types i; pi_RequiredParameters := pi_RequiredParameters i;
    pi_linkRef := ref; pi_IsNavLink := pi_IsNavLink i; pi_LinkAutoExpand := pi_LinkAutoExpand i;
    pi_AdditionalProperties := pi_AdditionalProperties i;
    pi_PatternProperties := pi_PatternProperties i; pi_IsNavArray := pi_IsNavArray i;
    pi_arrayRefString := pi_arrayRefString i; pi_StringFormat := pi_StringFormat i;
    pi_StringMaxLength := pi_StringMaxLength i; pi_StringMinLength := pi_StringMinLength i;
    pi_StringPattern := pi_StringPattern i; pi_EnumMembers := pi_EnumMembers i;
    pi_DeprecatedEnums := pi_DeprecatedEnums i; pi_Units := pi_Units i;
    pi_NumberMaximum := pi_NumberMaximum i; pi_NumberMinimum := pi_NumberMinimum i;
    pi_IntegerMaximun := pi_IntegerMaximun i; pi_IntegerMinimun := pi_IntegerMinimun i |} [] None None [] None None.

(** The service root, managers with a log in an object, and the log that
    refers back to its manager, which is a known cycle *)
Definition managers : Resource := mkResource (plain_resource_info "ManagerCollection" true) [("Name", leaf (plain_info PropString))] None.
Definition service_root : Resource := mkResource (plain_resource_info "ServiceRoot" false)
  [("Name", leaf (plain_info PropString));
   ("Managers", link_to "http://redfish.dmtf.org/schemas/v1/ManagerCollection.json#/definitions/ManagerCollection")] None.
Definition manager : Resource := mkResource (plain_resource_info "Manager" false)
  [("Id", leaf (plain_info PropString));
   ("Services", object_of [("Log", link_to "#/definitions/LogService")]);
   ("Links", object_of [("Chassis", link_to "#/definitions/Chassis")])] None.
Definition log_service : Resource := mkResource (plain_resource_info "LogService" false)
  [("Manager", link_to "#/definitions/Manager")] None.

Definition collections : gomap Resource := [("ManagerCollection", managers)].
Definition parsed : gomap Resource := [("ServiceRoot", service_root); ("Manager", manager); ("LogService", log_service)].
Definition resources : gomap Resource := detectNavigationLinks parsed.
Definition mapping : VersionMapping :=
  mkVersionMapping Version2017_3 [] [] [] [("LogService", mkCycle "Manager" "Manager")].
Definition marked (name : string) : Resource := match mget name resources with Some r => r | None => cycle_resource end.

Lemma ready : pool_ready mapping collections resources 5 (marked "ServiceRoot").
Proof. by constructor. Qed.


Definition in_managers : CollectionCB unit := fun _ path inst => ret (String.eqb path "/redfish/v1/Managers" && String.eqb inst "BMC").

Lemma built_tree_walkable_witness :
  exists s' root, linkDFS 6 (Some mapping) collections resources (mkTreeState [] [] []) = (Ret 0%nat, s') /\
    read_resource 5 (ts_heap s') 0 = Some root /\
    walk_agrees (fun _ path inst => String.eqb path "/redfish/v1/Managers" && String.eqb inst "BMC") tt root
      "/redfish/v1/Managers/BMC/Log" (WalkTree root in_managers "/redfish/v1/Managers/BMC/Log" tt).
Proof.
  apply (built_tree_walkable mapping collections resources 5 (marked "ServiceRoot") 6 []
    (fun _ path inst => String.eqb path "/redfish/v1/Managers" && String.eqb inst "BMC") in_managers); [exact ready| | | |done].
  - apply Nat.ltb_lt. reflexivity.
  - reflexivity.
  - reflexivity.
Defined.

Lemma detectNavigationLinks_marks_witness :
  forallb (fun e => unmarked_resource (snd e)) parsed = true /\
  (forallb (fun e => well_marked (snd e)) (detectNavigationLinks parsed) = true /\
   forallb (fun e => links_navigate (snd e)) (detectNavigationLinks parsed) = true /\
   mkeys (detectNavigationLinks parsed) = mkeys parsed).
Proof. split; [reflexivity|]. apply (detectNavigationLinks_marks parsed); reflexivity. Defined.

(** The log of the manager is at the top of the manager too. *)
Definition services : Property := detect_link "Services" (object_of [("Log", link_to "#/definitions/LogService")]).
Definition log_link : Property := with_info mark_nav_link (link_to "#/definitions/LogService").

Lemma nested_links_promoted_witness :
  let linked := with_Link (expand mapping collections resources 2 (marked "LogService")) (copied log_link) in
  let tree := expand mapping collections resources 3 (marked "Manager") in
  mget "Log" (r_Properties tree) = Some linked /\
  exists q, mget "Services" (r_Properties tree) = Some q /\ mget "Log" (Properties_of q) = Some linked.
Proof.
  apply (nested_links_promoted mapping collections resources 2 (marked "Manager") "Services" services "Log" log_link); try reflexivity.
  - right. left.
  - left.
Defined.
End TreeExample.
