(* ===== verification/Parsing.v ===== *)
(** The parsing of the schema files ([internal/rfschema/parsing.go],
    [ExtractResourceVersions] of [versions.go]) and the whole of [CreateTree]
    ([tree.go]).

    A schema is a decoded JSON document.  Exploring an object of a schema
    gives its properties; a reference leads to another object, of the same
    document or of another one of the pool.  The recursion of the explore
    functions over objects and references is bounded by fuel ([explorer_at]):
    every function is defined from the record of the functions it calls
    recursively. *)
From S2P Require Import Prelude Values Schema Fields Walk Versions Tree.

Definition KeyRef : string := "$ref".
Definition KeyDeprecated : string := "deprecated".
Definition KeyRequiredOnCreate : string := "requiredOnCreate".
Definition KeyType : string := "type".
Definition KeyEnum : string := "enum".
Definition KeyMaximum : string := "maximum".
Definition KeyMinimum : string := "minimum".
Definition KeyUnits : string := "units".
Definition KeyMaxLength : string := "maxLength".
Definition KeyMinLength : string := "minLength".
Definition KeyPattern : string := "pattern".
Definition KeyFormat : string := "format".
Definition KeyItems : string := "items".
Definition KeyRequired : string := "required".
Definition KeyProperties : string := "properties".
Definition KeyPatternProperties : string := "patternProperties".
Definition KeyAdditionalProperties : string := "additionalProperties".
Definition KeyAnyOf : string := "anyOf".
Definition KeyDescription : string := "description".
Definition KeyLongDescription : string := "longDescription".
Definition KeyReadOnly : string := "readonly".
Definition KeyInsertable : string := "insertable".
Definition KeyUpdatable : string := "updatable".
Definition KeyDeletable : string := "deletable".
Definition KeyParamaters : string := "parameters".
Definition KeyRequiredParameter : string := "requiredParameter".
Definition KeyEnumDescriptions : string := "enumDescriptions".
Definition KeyEnumLongDescriptions : string := "enumLongDescriptions".
Definition KeyEnumDeprecated : string := "enumDeprecated".

(* ===================================================================== *)
(** * Text                                                               *)
(* ===================================================================== *)

(** The regular expressions of the code.  A matcher gives the text after the
    match at the beginning of a text; in each of them the beginning
    determines the match. *)
Definition expect (t s : string) : option string :=
  if has_prefix t s then Some (str_drop (String.length t) s) else None.
Fixpoint skip_digits (s : string) : string :=
  match s with String a s' => if is_digit a then skip_digits s' else s | EmptyString => "" end.
Definition one_digit (s : string) : option string :=
  match s with String a s' => if is_digit a then Some s' else None | EmptyString => None end.
Definition opt_bind {A B} (o : option A) (f : A -> option B) : option B := match o with Some a => f a | None => None end.

(** [v[0-9]*_[0-9]*_[0-9]*] and [v[0-9]_[0-9]_[0-9]] *)
Definition match_long_version (s : string) : option string :=
  opt_bind (expect "v" s) (fun s => opt_bind (expect "_" (skip_digits s)) (fun s =>
    option_map skip_digits (expect "_" (skip_digits s)))).
Definition match_version (s : string) : option string :=
  opt_bind (expect "v" s) (fun s => opt_bind (one_digit s) (fun s => opt_bind (expect "_" s) (fun s =>
    opt_bind (one_digit s) (fun s => opt_bind (expect "_" s) one_digit)))).

(** [VersionResourceFileRegex] *)
Definition VersionResourceFileRegex (s : string) : option string :=
  opt_bind (take_name s) (fun e => opt_bind (expect "." (snd e)) (fun s =>
    opt_bind (match match_long_version s with Some s' => Some s' | None => expect "test" s end) (expect ".json"))).
(** [Redundancy\.v[0-9]_[0-9]_[0-9]\.json] *)
Definition redundancy_regex (s : string) : option string :=
  opt_bind (expect "Redundancy." s) (fun s => opt_bind (match_version s) (expect ".json")).

(** [FindString] and [MatchString] *)
Fixpoint find_string (m : string -> option string) (s : string) : string :=
  match m s with
  | Some rest => str_take (String.length s - String.length rest) s
  | None => match s with String _ s' => find_string m s' | EmptyString => "" end
  end.
Definition match_string (m : string -> option string) (s : string) : bool := negb (String.eqb (find_string m s) "").

(** [strings.SplitN(s, ".", 3)] *)
Definition split_dots (s : string) : list string :=
  match split_on "." s with
  | a :: b :: ((_ :: _) as rest) => [a; b; join "." rest]
  | l => l
  end.

(* ===================================================================== *)
(** * Schemas                                                            *)
(* ===================================================================== *)

Record OemExtension := mkOemExtension { oem_FileName : string; oem_Reference : string }.

(** A schema; its pool is an argument. *)
Record Schema := mkSchema { FileName : string; Body : object; TopLevel : option object }.

Record SchemaPool := mkSchemaPool {
  Pool : gomap Schema;
  pool_Version : Version;
  OemExtensions : gomap OemExtension;
}.

Definition NewSchemaPool (version : Version) : SchemaPool := mkSchemaPool [] version [].
Definition SchemaPool_Get (sp : SchemaPool) (schemaFile : string) : option Schema := mget schemaFile (Pool sp).

Definition Schema_IsCollection (s : Schema) : bool := has_suffix "Collection.json" (FileName s).
Definition IsVersionedResource (s : Schema) : bool :=
  match TopLevel s with Some _ => match_string VersionResourceFileRegex (FileName s) | None => false end.
Definition IsResource (s : Schema) : bool :=
  match TopLevel s with Some _ => negb (IsVersionedResource s) | None => false end.
Definition top (s : Schema) : object := match TopLevel s with Some m => m | None => [] end.

(** A JSON reference, parsed by the library [gojsonreference]: whether it is
    a fragment of the same document, the path of its URL, and the tokens of
    its pointer. *)
Record JsonReference := mkJsonReference { HasFragmentOnly : bool; ref_Path : string; ref_Pointer : list string }.
Class JsonReferences := { NewJsonReference : string -> result JsonReference }.

(** [JsonPointer.Get] and [JsonPointer.String] of the library
    [gojsonpointer] *)
Fixpoint pointer_Get (tokens : list string) (node : value) : option value :=
  match tokens with
  | [] => Some node
  | token :: rest =>
      match node with
      | VObject m =>
          match mget (replace_all "~0" "~" (replace_all "~1" "/" token)) m with Some v => pointer_Get rest v | None => None end
      | VArray l =>
          match parse_int token with
          | Some i => if Z.ltb i 0 then None
                      else match l !! Z.to_nat i with Some v => pointer_Get rest v | None => None end
          | None => None
          end
      | _ => None
      end
  end.
Definition pointer_String (tokens : list string) : string :=
  match tokens with [] => "" | _ => "/" +:+ join "/" tokens end.

Section parse.
Context `{JsonReferences} `{FloatText} {St : Type}.

(** ** Fields of an object of a schema *)

Definition assert_bool (v : option value) : M St bool :=
  match v with Some (VBool b) => ret b | _ => panic (not_a "bool") end.
Definition assert_int (v : option value) : M St Z :=
  match v with Some (VInt z) => ret z | _ => panic (not_a "int") end.

(** [if raw, ok := obj[key]; ok { a := raw.(T) }] *)
Definition field {A} (assert : option value -> M St A) (key : string) (obj : object) : M St (option A) :=
  match mget key obj with
  | None => ret None
  | Some v => a <- assert (Some v) ;; ret (Some a)
  end.
Fixpoint map_list {A B} (f : A -> M St B) (l : list A) : M St (list B) :=
  match l with
  | [] => ret []
  | x :: l' => y <- f x ;; l'' <- map_list f l' ;; ret (y :: l'')
  end.
Definition assert_strings (v : option value) : M St (list string) :=
  l <- assert_array v ;; map_list (fun x => assert_string (Some x)) l.

Definition extractDescription (obj : object) : M St (option string) := field assert_string KeyDescription obj.
Definition extractLongDescription (obj : object) : M St (option string) := field assert_string KeyLongDescription obj.
Definition findAdditionalProperties (obj : object) : M St (option bool) := field assert_bool KeyAdditionalProperties obj.
Definition findRequiredProperties (schema : object) : M St (list string) :=
  required <- field assert_strings KeyRequired schema ;;
  match required with Some l => ret l | None => panic "Entity does not have a required property" end.
Definition findRequiredOnCreate (obj : object) : M St (list string) :=
  required <- field assert_strings KeyRequiredOnCreate obj ;;
  ret (match required with Some l => l | None => [] end).

(** The types a pattern applies to *)
Definition pattern_types (patternObject : object) : M St (list string) :=
  match mget KeyType patternObject with
  | None => ret []
  | Some (VArray types) => map_list (fun t => assert_string (Some t)) types
  | Some (VString t) => ret [t]
  | Some _ => panic "Unsupported type"
  end.
Definition findPatternProperties (obj : object) : M St (list PatternProperties) :=
  match mget KeyPatternProperties obj with
  | None => ret []
  | Some raw =>
      patternProps <- assert_object (Some raw) ;;
      map_list (fun e =>
        patternObject <- assert_object (Some (snd e)) ;;
        description <- extractDescription patternObject ;;
        types <- pattern_types patternObject ;;
        ret (mkPatternProperties (fst e) (match description with Some d => d | None => "" end) types)) patternProps
  end.

(** ** References *)

Definition must_parse (refString : string) : M St JsonReference :=
  match NewJsonReference refString with Ok r => ret r | Err e => panic (err_string e) end.

(** A reference into the schema itself *)
Definition follow_fragment (s : Schema) (pointer : list string) : M St (option (list string * Schema * object)) :=
  match pointer_Get pointer (VObject (Body s)) with
  | None => panic "File does not contain reference string"
  | Some raw => m <- assert_object (Some raw) ;; ret (Some (pointer, s, m))
  end.
(** The reference followed in the other document begins with [#]; its URL has
    no path, so that it leads nowhere when it is not a fragment. *)
Definition followReference (s : Schema) (pool : SchemaPool) (refString : string) : M St (option (list string * Schema * object)) :=
  ref <- must_parse refString ;;
  if HasFragmentOnly ref then follow_fragment s (ref_Pointer ref)
  else if has_prefix "/schemas/v1/" (ref_Path ref) then
    match SchemaPool_Get pool (trim_prefix "/schemas/v1/" (ref_Path ref)) with
    | None => panic "Referenced schema not found:"
    | Some referencedSchema =>
        ref' <- must_parse ("#" +:+ pointer_String (ref_Pointer ref)) ;;
        if HasFragmentOnly ref' then follow_fragment referencedSchema (ref_Pointer ref') else ret None
    end
  else ret None.

Record LinkException := mkLinkException { From : string; To : string; LinkRef : string }.
Definition exceptions : list LinkException :=
  [mkLinkException "Storage.v1_4_0.json" "Storage.json" "#/definitions/StorageController"].
Definition isLinkException (sourceFileName resourceName linkRef : string) : bool :=
  existsb (fun e => String.eqb (From e) sourceFileName && String.eqb (To e) resourceName && String.eqb (LinkRef e) linkRef) exceptions.

(** Whether one of the alternatives is a link or a resource *)
Fixpoint links_in (anyOf : list value) : M St bool :=
  match anyOf with
  | [] => ret false
  | rawElement :: rest =>
      element <- assert_object (Some rawElement) ;;
      ref <- field assert_string KeyRef element ;;
      match ref with
      | Some ref => if contains ref "#/definitions/idRef" || contains ref "#/definitions/Resource" then ret true else links_in rest
      | None => links_in rest
      end
  end.
Definition isResourceLink (refPtr : list string) (refSchema srcSchema : Schema) : M St bool :=
  if isLinkException (FileName srcSchema) (FileName refSchema) ("#" +:+ pointer_String refPtr) then ret false
  else
    match pointer_Get refPtr (VObject (Body refSchema)) with
    | None => panic "Object has no key"
    | Some rawRefBody =>
        refBody <- assert_object (Some rawRefBody) ;;
        match mget KeyAnyOf refBody with
        | None => ret false
        | Some raw => anyOf <- assert_array (Some raw) ;; links_in anyOf
        end
    end.

(** The version in a reference, to the reference *)
Fixpoint extract_versions (anyOf : list value) (version2Ref : gomap string) : M St (gomap string) :=
  match anyOf with
  | [] => ret version2Ref
  | rawElement :: rest =>
      element <- assert_object (Some rawElement) ;;
      ref <- field assert_string KeyRef element ;;
      match ref with
      | None => panic "Expected reference"
      | Some refString =>
          if contains refString "idRef" then extract_versions rest version2Ref
          else
            let version := find_string match_version refString in
            if String.eqb version "" then panic "Could not find version from reference"
            else extract_versions rest (mput version refString version2Ref)
      end
  end.
Definition ExtractResourceVersions (obj : object) : M St (gomap string) :=
  match mget KeyAnyOf obj with
  | None => ret []
  | Some raw => anyOf <- assert_array (Some raw) ;; extract_versions anyOf []
  end.

(** ** Simple types *)

Definition handleString (prop : object) : M St Property :=
  min <- field assert_int KeyMinLength prop ;;
  max <- field assert_int KeyMaxLength prop ;;
  pattern <- field assert_string KeyPattern prop ;;
  formatStr <- field assert_string KeyFormat prop ;;
  let format := option_map (fun f =>
    if String.eqb f "date-time" then FormatDate else if String.eqb f "uri" then FormatURI else FormatUnknown) formatStr in
  ret (leaf (set_StringMinLength min (set_StringMaxLength max (set_StringPattern pattern (set_StringFormat format (plain_info PropString)))))).

(** The text of an enum member in a map of texts *)
Definition enum_text (texts : option object) (name old : string) : M St string :=
  match texts with
  | None => ret old
  | Some m => t <- field assert_string name m ;; ret (match t with Some t => t | None => old end)
  end.
Definition handleEnum (prop : object) (rawEnums : value) : M St Property :=
  enums <- assert_array (Some rawEnums) ;;
  names <- map_list (fun x => assert_string (Some x)) enums ;;
  deprecated <- field assert_object KeyEnumDeprecated prop ;;
  reasons <- map_entries (fun _ raw => assert_string (Some raw)) (match deprecated with Some m => m | None => [] end) ;;
  descriptions <- field assert_object KeyEnumDescriptions prop ;;
  described <- map_list (fun name => d <- enum_text descriptions name "" ;; ret (mkEnumMember name d "")) names ;;
  longDescriptions <- field assert_object KeyEnumLongDescriptions prop ;;
  members <- map_list (fun m => d <- enum_text longDescriptions (em_Name m) "" ;; ret (mkEnumMember (em_Name m) (em_Description m) d)) described ;;
  ret (leaf (set_EnumMembers members (set_DeprecatedEnums reasons (plain_info PropEnum)))).

Definition handleNumber (prop : object) : M St Property :=
  min <- field assert_float KeyMinimum prop ;;
  max <- field assert_float KeyMaximum prop ;;
  units <- field assert_string KeyUnits prop ;;
  ret (leaf (set_NumberMinimum min (set_NumberMaximum max (set_Units units (plain_info PropNumber))))).
Definition handleInteger (prop : object) : M St Property :=
  min <- field assert_float KeyMinimum prop ;;
  max <- field assert_float KeyMaximum prop ;;
  units <- field assert_string KeyUnits prop ;;
  ret (leaf (set_IntegerMinimun (option_map float_to_int64 min)
               (set_IntegerMaximun (option_map float_to_int64 max) (set_Units units (plain_info PropInteger))))).
Definition handleBool : Property := leaf (plain_info PropBool).

(** ** Exploring *)

(** The functions an explore function calls recursively: a type of an object,
    the properties of an object, a reference, and actions *)
Record explorer := mkExplorer {
  exType : Schema -> list string -> object -> value -> M St (option Property);
  exObject : Schema -> list string -> object -> M St properties;
  exRef : Schema -> list string -> object -> string -> M St (option Property);
  exActions : Schema -> list string -> object -> M St (option Property);
  exAction : Schema -> list string -> object -> M St (option Property);
}.

Variables (pool : SchemaPool) (mapper : VersionMapper).

Section explore.
Variable X : explorer.

Definition set_null (p : Property) : Property := with_info (set_NullAllowed true) p.
Definition is_null (v : option value) : bool := match v with Some (VString t) => String.eqb t "null" | _ => false end.

(** ** Types *)

(** What a type adds to a property of several types *)
Definition combine (c p : Property) : M St Property :=
  let '(mkProperty ci cps carr clink cparams ctarget ctitle) := c in
  let '(mkProperty i ps arr link params target title) := p in
  let ci := if pi_NullAllowed i then set_NullAllowed true ci else ci in
  let typed := set_Types (pi_Types ci ++ [pi_Type i]) in
  match pi_Type i with
  | PropObject => ret (mkProperty (typed (set_AdditionalProperties (pi_AdditionalProperties i)
                                            (set_PatternProperties (pi_PatternProperties i) ci)))
                         ps carr clink cparams ctarget ctitle)
  | PropAction => ret (mkProperty (typed (set_RequiredParameters (pi_RequiredParameters i) ci)) cps carr clink params target title)
  | PropEnum => ret (mkProperty (typed (set_EnumMembers (pi_EnumMembers i) ci)) cps carr clink cparams ctarget ctitle)
  | PropString => ret (mkProperty (typed (set_StringFormat (pi_StringFormat i) (set_StringMaxLength (pi_StringMaxLength i)
                                    (set_StringMinLength (pi_StringMinLength i) (set_StringPattern (pi_StringPattern i) ci)))))
                         cps carr clink cparams ctarget ctitle)
  | PropNumber => ret (mkProperty (typed (set_NumberMaximum (pi_NumberMaximum i) (set_NumberMinimum (pi_NumberMinimum i)
                                    (set_Units (pi_Units i) ci)))) cps carr clink cparams ctarget ctitle)
  | PropBool => ret (mkProperty (typed ci) cps carr clink cparams ctarget ctitle)
  | PropArray => ret (mkProperty (typed (set_arrayRefString (pi_arrayRefString i) ci)) cps arr clink cparams ctarget ctitle)
  | PropLink => panic "A link is not a primitive type"
  | PropMultiple => panic "A multiple data type is not a primitive type"
  | t => panic ("Unsupported type:" +:+ PropertyType_String t)
  end.

Fixpoint combine_types (s : Schema) (path : list string) (prop : object) (types : list value) (combined : Property) : M St (option Property) :=
  match types with
  | [] => ret (Some combined)
  | rawType :: rest =>
      typeString <- assert_string (Some rawType) ;;
      if String.eqb typeString "null" then combine_types s path prop rest (set_null combined)
      else
        property <- exType X s path prop (VString typeString) ;;
        match property with
        | None => ret None
        | Some p => combined <- combine combined p ;; combine_types s path prop rest combined
        end
  end.

Definition exploreSchema (s : Schema) (path : list string) (prop : object) (rawType : value) : M St (option Property) :=
  match rawType with
  | VString _ => exType X s path prop rawType
  | VArray typeArray =>
      let one := fun t => property <- exType X s path prop t ;; ret (option_map set_null property) in
      let multiple :=
        description <- extractDescription prop ;;
        long <- extractLongDescription prop ;;
        combine_types s path prop typeArray (leaf (set_Description description (set_LongDescription long (plain_info PropMultiple)))) in
      match typeArray with
      | [t0; t1] => if is_null (Some t0) then one t1 else if is_null (Some t1) then one t0 else multiple
      | _ => multiple
      end
  | _ => panic "Invalid type for 'type' field"
  end.

(** The elements of an array, and the reference to them *)
Definition exploreArray (s : Schema) (path : list string) (prop : object) : M St (option Property * option string) :=
  let nullable := fun m : M St (option Property) => property <- m ;; ret (option_map set_null property, None) in
  match mget KeyItems prop with
  | None => panic "Does not have items key"
  | Some (VObject item) =>
      match mget KeyRef item, mget KeyType item, mget KeyAnyOf item with
      | Some rawRef, _, _ =>
          refString <- assert_string (Some rawRef) ;;
          property <- exRef X s path [] refString ;;
          ret (property, Some refString)
      | None, Some (VArray itemTypes), _ =>
          match itemTypes with
          | [t0; t1] =>
              typeStr0 <- assert_string (Some t0) ;;
              typeStr1 <- assert_string (Some t1) ;;
              if String.eqb typeStr0 "null" then nullable (exType X s path prop (VString typeStr1))
              else if String.eqb typeStr1 "null" then nullable (exType X s path prop (VString typeStr0))
              else panic "Neither of the 2 types were null"
          | _ => panic "Item array contains more than 2 type elements"
          end
      | None, Some VNil, _ => panic "Cannot handle type"
      | None, Some rawItemType, _ => property <- exType X s path prop rawItemType ;; ret (property, None)
      | None, None, Some rawAnyOf =>
          anyOf <- assert_array (Some rawAnyOf) ;;
          match anyOf with
          | [raw0; raw1] =>
              anyOf0 <- assert_object (Some raw0) ;;
              anyOf1 <- assert_object (Some raw1) ;;
              let explore := fun rawRef => ref <- assert_string (Some rawRef) ;; nullable (exRef X s path [] ref) in
              match mget KeyRef anyOf0, mget KeyRef anyOf1 with
              | Some rawRef, other =>
                  if is_null (mget KeyType anyOf1) then explore rawRef
                  else match other with
                       | Some rawRef => if is_null (mget KeyType anyOf0) then explore rawRef else panic "Could not handle anyOf"
                       | None => panic "Could not handle anyOf"
                       end
              | None, Some rawRef => if is_null (mget KeyType anyOf0) then explore rawRef else panic "Could not handle anyOf"
              | None, None => panic "Could not handle anyOf"
              end
          | _ => panic "Item array contains more than 2 type elements"
          end
      | None, None, None => panic "Could not handle array"
      end
  | Some (VArray _) => panic "Cannot handle arrays of multiple types"
  | Some _ => panic "Unknown type"
  end.

Definition exploreType (s : Schema) (path : list string) (prop : object) (rawType : value) : M St (option Property) :=
  typeStr <- assert_string (Some rawType) ;;
  property <- (
    if String.eqb typeStr "object" then
      ps <- exObject X s path prop ;;
      additional <- findAdditionalProperties prop ;;
      patterns <- findPatternProperties prop ;;
      ret (Some (mkProperty (set_AdditionalProperties additional (set_PatternProperties patterns (plain_info PropObject)))
                   ps None None [] None None))
    else if String.eqb typeStr "array" then
      element <- exploreArray s path prop ;;
      ret (match fst element with
           | None => None
           | Some e => Some (mkProperty (set_arrayRefString (snd element) (plain_info PropArray)) [] (Some e) None [] None None)
           end)
    else if String.eqb typeStr "string" then
      match mget KeyEnum prop with
      | Some rawEnums => p <- handleEnum prop rawEnums ;; ret (Some p)
      | None => p <- handleString prop ;; ret (Some p)
      end
    else if String.eqb typeStr "number" then p <- handleNumber prop ;; ret (Some p)
    else if String.eqb typeStr "integer" then p <- handleInteger prop ;; ret (Some p)
    else if String.eqb typeStr "boolean" then ret (Some handleBool)
    else panic ("Unsupported type:" +:+ typeStr +:+ " in " +:+ FileName s)) ;;
  match property with
  | None => ret None
  | Some p =>
      description <- extractDescription prop ;;
      long <- extractLongDescription prop ;;
      ret (Some (with_info (fun i => set_LongDescription long (set_Description description i)) p))
  end.

(** ** References *)

(** The object that is referred to has versions. *)
Definition exploreVersionedObject (path : list string) (refPtr : list string) (refSchema : Schema) : M St (option Property) :=
  match pointer_Get refPtr (VObject (Body refSchema)) with
  | None => panic "Object has no key"
  | Some rawObject =>
      obj <- assert_object (Some rawObject) ;;
      version2Ref <- ExtractResourceVersions obj ;;
      selectedVersion <- selectObjectVersion mapper (FileName refSchema) (pool_Version pool) (mkeys version2Ref) ;;
      exRef X refSchema path [] (match mget selectedVersion version2Ref with Some r => r | None => "" end)
  end.

(** A link that is not followed *)
Definition link_property (linkRef : string) (referingObject : object) : M St (option Property) :=
  description <- extractDescription referingObject ;;
  ret (Some (leaf (set_Description description (set_linkRef linkRef (plain_info PropLink))))).

Definition empty_resource : string := "http://redfish.dmtf.org/schemas/v1/Resource.v1_0_0.json#/definitions/Resource".

Definition exploreRef (s : Schema) (path : list string) (referingObject : object) (refString : string) : M St (option Property) :=
  if contains refString "swordfish" then ret None
  else if contains refString "#/definitions/idRef" then link_property "" referingObject
  else
    followed <- followReference s pool refString ;;
    match followed with
    | None => panic ("Reference not present:" +:+ refString)
    | Some (refPtr, refSchema, reference) =>
        isLink <- isResourceLink refPtr refSchema s ;;
        if isLink : bool then link_property refString referingObject
        else
          match mget KeyType reference, mget KeyRef reference, mget KeyAnyOf reference, reference with
          | Some rawType, _, _, _ => exploreSchema refSchema path reference rawType
          | None, Some _, _, _ => panic "What?"
          | None, None, Some _, _ => exploreVersionedObject path refPtr refSchema
          | None, None, None, [] =>
              if String.eqb refString empty_resource then ret (Some (leaf (set_linkRef refString (plain_info PropLink))))
              else ret (Some (leaf (plain_info PropUnknown)))
          | None, None, None, _ => panic "Unable to handle reference"
          end
    end.

Definition handleOEMExtension (path : list string) : M St (option Property) :=
  match mget (join "/" path) (OemExtensions pool) with
  | Some mapping =>
      match SchemaPool_Get pool (oem_FileName mapping) with
      | None => panic ("Oem extension schema not present: " +:+ oem_FileName mapping)
      | Some schema => exRef X schema path [] (oem_Reference mapping)
      end
  | None => ret (Some (leaf (plain_info PropObject)))
  end.

(** ** Objects *)

(** The alternatives of a property: a reference, and null *)
Fixpoint explore_anyOf (s : Schema) (path : list string) (prop : object) (anyOf : list value)
    (found : option Property * bool) : M St (option Property * bool) :=
  match anyOf with
  | [] => ret found
  | rawElement :: rest =>
      element <- assert_object (Some rawElement) ;;
      found <- match mget KeyRef element, mget KeyType element with
               | Some rawRef, _ =>
                   ref <- assert_string (Some rawRef) ;;
                   property <- exRef X s path prop ref ;;
                   ret (property, snd found)
               | None, Some rawType =>
                   typeStr <- assert_string (Some rawType) ;;
                   if String.eqb typeStr "null" then ret (fst found, true)
                   else panic ("Type other than null and $ref:" +:+ typeStr)
               | None, None => ret found
               end ;;
      explore_anyOf s path prop rest found
  end.

(** One property of an object, before the fields common to all *)
Definition explore_member (s : Schema) (path : list string) (name : string) (prop : object) : M St (option Property) :=
  if String.eqb name "Actions" then exActions X s path prop
  else if String.eqb name "Oem" then handleOEMExtension path
  else
    match mget KeyAnyOf prop, mget KeyRef prop, mget KeyType prop with
    | Some rawAnyOf, _, _ =>
        anyOf <- assert_array (Some rawAnyOf) ;;
        if negb (Nat.eqb (List.length anyOf) 2)
        then panic ("Property " +:+ name +:+ " does not contain 2 elements in a AnyOf field")
        else
          found <- explore_anyOf s path prop anyOf (None, false) ;;
          match fst found with
          | None => panic nil_deref
          | Some p => ret (Some (with_info (set_NullAllowed (snd found)) p))
          end
    | None, Some rawRef, _ => ref <- assert_string (Some rawRef) ;; exRef X s path prop ref
    | None, None, Some rawType => exploreSchema s path prop rawType
    | None, None, None => ret None
    end.

(** The fields common to all properties *)
Definition finish_member (prop : object) (p : Property) : M St Property :=
  reason <- field assert_string KeyDeprecated prop ;;
  readOnly <- field assert_bool KeyReadOnly prop ;;
  ret (with_info (fun i =>
    let i := match reason with Some _ => set_Deprecated true reason i | None => i end in
    match readOnly with Some b => set_ReadOnly b i | None => i end) p).

Fixpoint explore_members (s : Schema) (path : list string) (props : object) (found : properties) : M St properties :=
  match props with
  | [] => ret found
  | (name, rawProp) :: rest =>
      prop <- assert_object (Some rawProp) ;;
      property <- explore_member s (path ++ [name]) name prop ;;
      found <- match property with
               | None => ret found
               | Some p => p' <- finish_member prop p ;; ret (mput name p' found)
               end ;;
      explore_members s path rest found
  end.

Definition exploreObject (s : Schema) (path : list string) (prop : object) : M St properties :=
  match mget KeyProperties prop with
  | None => panic "Object has no key 'properties'"
  | Some raw => props <- assert_object (Some raw) ;; explore_members s path props []
  end.

(** ** Actions *)

Fixpoint explore_actions (s : Schema) (path : list string) (actions : object) (found : properties) : M St properties :=
  match actions with
  | [] => ret found
  | (name, rawAction) :: rest =>
      actionProperties <- assert_object (Some rawAction) ;;
      action <- exAction X s (path ++ [name]) actionProperties ;;
      match action with
      | None => panic "Action is nil"
      | Some a => explore_actions s path rest (mput name a found)
      end
  end.

Definition exploreActions (s : Schema) (path : list string) (actions : object) : M St (option Property) :=
  match mget KeyRef actions with
  | Some rawRef =>
      refString <- assert_string (Some rawRef) ;;
      followed <- followReference s pool refString ;;
      match followed with
      | Some (_, refSchema, reference) => exActions X refSchema path reference
      | None => panic ("Reference could not be followed: " +:+ refString)
      end
  | None =>
      description <- extractDescription actions ;;
      long <- extractLongDescription actions ;;
      additional <- findAdditionalProperties actions ;;
      patterns <- findPatternProperties actions ;;
      match mget KeyProperties actions with
      | None => panic "Actions does not contain a properties property"
      | Some raw =>
          props <- assert_object (Some raw) ;;
          ps <- explore_actions s path props [] ;;
          ret (Some (mkProperty (set_Description description (set_LongDescription long (set_AdditionalProperties additional
                 (set_PatternProperties patterns (plain_info PropObject))))) ps None None [] None None))
      end
  end.

(** The parameters of an action, and the names of those that are required *)
Fixpoint explore_parameters (s : Schema) (path : list string) (actionFields params : object)
    (found : list string * properties) : M St (list string * properties) :=
  match params with
  | [] => ret found
  | (name, rawParam) :: rest =>
      param <- assert_object (Some rawParam) ;;
      property <- match mget KeyRef param, mget KeyType param with
                  | Some rawRef, _ => ref <- assert_string (Some rawRef) ;; exRef X s path actionFields ref
                  | None, Some rawType => exploreSchema s path param rawType
                  | None, None => panic "Can't handle action"
                  end ;;
      found <- match property with
               | None => ret found
               | Some p =>
                   required <- field assert_bool KeyRequiredParameter param ;;
                   readOnly <- field assert_bool KeyReadOnly param ;;
                   ret (match required with Some true => fst found ++ [name] | _ => fst found end,
                        mput name (with_info (fun i => match readOnly with Some b => set_ReadOnly b i | None => i end) p) (snd found))
               end ;;
      explore_parameters s path actionFields rest found
  end.

Definition exploreAction (s : Schema) (path : list string) (actionFields : object) : M St (option Property) :=
  match mget KeyRef actionFields with
  | Some rawRef =>
      refString <- assert_string (Some rawRef) ;;
      followed <- followReference s pool refString ;;
      match followed with
      | Some (_, refSchema, reference) => exAction X refSchema path reference
      | None => panic ("Reference could not be followed: " +:+ refString)
      end
  | None =>
      description <- extractDescription actionFields ;;
      long <- extractLongDescription actionFields ;;
      found <- match mget KeyParamaters actionFields with
               | None => ret ([], [])
               | Some raw => params <- assert_object (Some raw) ;; explore_parameters s path actionFields params ([], [])
               end ;;
      ps <- match mget KeyProperties actionFields with None => ret [] | Some _ => exObject X s path actionFields end ;;
      ret (Some (mkProperty (set_Description description (set_LongDescription long (set_RequiredParameters (fst found) (plain_info PropAction))))
             [] None None (snd found) (mget "target" ps) (mget "title" ps)))
  end.
End explore.

(** The recursion, to a depth *)
Fixpoint explorer_at (fuel : nat) : explorer :=
  match fuel with
  | O => mkExplorer (fun _ _ _ _ => out_of_fuel) (fun _ _ _ => out_of_fuel) (fun _ _ _ _ => out_of_fuel)
           (fun _ _ _ => out_of_fuel) (fun _ _ _ => out_of_fuel)
  | Datatypes.S fuel' =>
      let X := explorer_at fuel' in
      mkExplorer (exploreType X) (exploreObject X) (exploreRef X) (exploreActions X) (exploreAction X)
  end.

(* ===================================================================== *)
(** * Resources                                                          *)
(* ===================================================================== *)

(** A capability of a resource *)
Definition capability (s : Schema) (key : string) : M St bool :=
  match mget key (top s) with
  | None => panic ("Resource " +:+ FileName s +:+ " missing '" +:+ key +:+ "' key")
  | Some raw => assert_bool (Some raw)
  end.

(** [*findAdditionalProperties(...)] *)
Definition additional_of (obj : object) : M St bool :=
  additional <- findAdditionalProperties obj ;;
  match additional with Some b => ret b | None => panic nil_deref end.

Definition odata_context (name : string) : string := "/redfish/v1/$metadata#" +:+ name +:+ "." +:+ name.

Definition ParseCollection (fuel : nat) (schema : Schema) : M St (Resource * string) :=
  let name := trim_suffix ".json" (path_base (FileName schema)) in
  match pointer_Get ["anyOf"; "1"] (VObject (top schema)) with
  | None => panic "Object has no key 'anyOf'"
  | Some bodyRaw =>
      body <- assert_object (Some bodyRaw) ;;
      description <- extractDescription body ;;
      long <- extractLongDescription body ;;
      ps <- exploreObject (explorer_at fuel) schema [name] body ;;
      required <- findRequiredProperties body ;;
      requiredOnCreate <- findRequiredOnCreate body ;;
      additional <- additional_of body ;;
      patterns <- findPatternProperties body ;;
      insertable <- capability schema KeyInsertable ;;
      updatable <- capability schema KeyUpdatable ;;
      deletable <- capability schema KeyDeletable ;;
      ret (mkResource {|
        ri_Name := name; ri_ODataType := "#" +:+ name +:+ "." +:+ name; ri_ODataContext := odata_context name;
        ri_Description := description; ri_LongDescription := long; ri_AdditionalProperties := additional;
        ri_PatternProperties := patterns; ri_Deletable := deletable; ri_Insertable := insertable; ri_Updatable := updatable;
        ri_IsCollection := true; ri_EmbeddedCollection := false; ri_RequiredProperties := required;
        ri_RequiredOnCreate := requiredOnCreate; ri_VersionString := "" |} ps None, name)
  end.

Definition extractNameVersion (resourceFileName : string) : M St (string * string) :=
  match split_dots resourceFileName with
  | [name; version; _] => ret (name, version)
  | _ => panic "Resource Name, Version or '.json' is missing"
  end.

(** The resource of a versioned schema, with the capabilities and the OData
    fields that [ParseResource] adds *)
Definition parseVersionedResource (fuel : nat) (schema : Schema) : M St Resource :=
  nameVersion <- extractNameVersion (FileName schema) ;;
  let '(name, version) := nameVersion in
  description <- extractDescription (top schema) ;;
  long <- extractLongDescription (top schema) ;;
  ps <- exploreObject (explorer_at fuel) schema [name] (top schema) ;;
  required <- findRequiredProperties (top schema) ;;
  requiredOnCreate <- findRequiredOnCreate (top schema) ;;
  additional <- additional_of (top schema) ;;
  patterns <- findPatternProperties (top schema) ;;
  ret (mkResource {|
    ri_Name := name; ri_ODataType := ""; ri_ODataContext := "";
    ri_Description := description; ri_LongDescription := long; ri_AdditionalProperties := additional;
    ri_PatternProperties := patterns; ri_Deletable := false; ri_Insertable := false; ri_Updatable := false;
    ri_IsCollection := false; ri_EmbeddedCollection := false; ri_RequiredProperties := required;
    ri_RequiredOnCreate := requiredOnCreate; ri_VersionString := version |} ps None).

Definition with_capabilities (insertable updatable deletable : bool) (r : Resource) : Resource :=
  let '(mkResource i ps coll) := r in
  mkResource {|
    ri_Name := ri_Name i; ri_ODataType := "#" +:+ ri_Name i +:+ "." +:+ ri_VersionString i +:+ "." +:+ ri_Name i;
    ri_ODataContext := odata_context (ri_Name i);
    ri_Description := ri_Description i; ri_LongDescription := ri_LongDescription i;
    ri_AdditionalProperties := ri_AdditionalProperties i;
    ri_PatternProperties := ri_PatternProperties i; ri_Deletable := deletable; ri_Insertable := insertable; ri_Updatable := updatable;
    ri_IsCollection := ri_IsCollection i; ri_EmbeddedCollection := ri_EmbeddedCollection i;
    ri_RequiredProperties := ri_RequiredProperties i; ri_RequiredOnCreate := ri_RequiredOnCreate i;
    ri_VersionString := ri_VersionString i |} ps coll.

Definition ParseResource (fuel : nat) (schema : Schema) : M St (Resource * string) :=
  version2Ref <- ExtractResourceVersions (top schema) ;;
  selectedVersion <- selectResourceVersion mapper (FileName schema) (pool_Version pool) (mkeys version2Ref) ;;
  let refString := match mget selectedVersion version2Ref with Some r => r | None => "" end in
  let resourceFileName := find_string VersionResourceFileRegex refString in
  if String.eqb resourceFileName "" then panic ("Could not extract resource version: " +:+ refString)
  else
    match SchemaPool_Get pool resourceFileName with
    | None => panic ("Schema not found: " +:+ resourceFileName)
    | Some resourceSchema =>
        resource <- parseVersionedResource fuel resourceSchema ;;
        if String.eqb (FileName schema) "Redundancy.json" then ret (with_capabilities false false false resource, r_Name resource)
        else
          insertable <- capability schema KeyInsertable ;;
          updatable <- capability schema KeyUpdatable ;;
          deletable <- capability schema KeyDeletable ;;
          ret (with_capabilities insertable updatable deletable resource, r_Name resource)
    end.

(** The schemas of the version, in the order of the pool *)
Fixpoint parse_all (fuel : nat) (versionMapping : VersionMapping) (schemas : gomap Schema)
    (collections resources : gomap Resource) : M St (gomap Resource * gomap Resource) :=
  match schemas with
  | [] => ret (collections, resources)
  | (_, schema) :: rest =>
      if Schema_IsCollection schema then
        match mget (FileName schema) (AllowedCollections versionMapping) with
        | Some true => p <- ParseCollection fuel schema ;; parse_all fuel versionMapping rest (mput (snd p) (fst p) collections) resources
        | _ => parse_all fuel versionMapping rest collections resources
        end
      else if IsResource schema && mmem (FileName schema) (vm_Resources versionMapping) then
        p <- ParseResource fuel schema ;; parse_all fuel versionMapping rest collections (mput (snd p) (fst p) resources)
      else parse_all fuel versionMapping rest collections resources
  end.
Definition parseSchemas (fuel : nat) (version : Version) : M St (gomap Resource * gomap Resource) :=
  match VersionMapper_GetMapping mapper version with
  | None => panic (Version_String version +:+ " does not exist")
  | Some versionMapping => parse_all fuel versionMapping (Pool pool) [] []
  end.
End parse.

(* ===================================================================== *)
(** * Reading the files                                                  *)
(* ===================================================================== *)

Section read.
Context `{JsonReferences} {St : Type}.

(** The top level schema that the reference of a document leads to *)
Definition top_level (fileName : string) (body : object) : M St (result (option object)) :=
  refString <- (if String.eqb fileName "Redundancy.json" || match_string redundancy_regex fileName
                then ret (Some "#/definitions/Redundancy")
                else field assert_string KeyRef body) ;;
  match refString with
  | None => ret (Ok None)
  | Some refString =>
      match NewJsonReference refString with
      | Err e => ret (Err e)
      | Ok ref =>
          if HasFragmentOnly ref then
            match pointer_Get (ref_Pointer ref) (VObject body) with
            | None => panic "Object has no key"
            | Some topLevelSchema => m <- assert_object (Some topLevelSchema) ;; ret (Ok (Some m))
            end
          else ret (Ok None)
      end
  end.

(** A file: its name, and its contents or the error of reading it *)
Definition ReadSchema (filePath : string) (contents : result request_body) : M St (result Schema) :=
  match contents with
  | Err e => ret (Err (ErrText ("Unable to read schema: " +:+ filePath +:+ " Reason: " +:+ err_string e)))
  | Ok raw =>
      match Unmarshal_map raw with
      | None => ret (Err (ErrText ("Unable to unmarshal schema: " +:+ filePath)))
      | Some body =>
          topLevel <-? top_level (path_base filePath) body ;;
          ret (Ok (mkSchema (path_base filePath) body topLevel))
      end
  end.

Definition with_schema (name : string) (s : Schema) (sp : SchemaPool) : SchemaPool :=
  mkSchemaPool (mput name s (Pool sp)) (pool_Version sp) (OemExtensions sp).
Fixpoint read_files (schemaDir : string) (sp : SchemaPool) (files : list (string * result request_body)) : M St (result SchemaPool) :=
  match files with
  | [] => ret (Ok sp)
  | (name, contents) :: rest =>
      schema <-? ReadSchema (path_join [schemaDir; name]) contents ;;
      read_files schemaDir (with_schema name schema sp) rest
  end.
Definition SchemaPool_ReadDir (sp : SchemaPool) (schemaDir : string) (files : result (list (string * result request_body))) : M St (result SchemaPool) :=
  match files with
  | Err e => ret (Err (ErrText ("Unable to read schema dir. Reason: " +:+ err_string e)))
  | Ok files => read_files schemaDir sp files
  end.

(** [mappingRaw]: the mapping file, or the error of reading it, and the map
    it decodes to, or the error of decoding it *)
Definition AddOemExtensions (sp : SchemaPool) (mappingRaw : result (result (gomap OemExtension))) (extensionDir : string)
    (files : result (list (string * result request_body))) : M St (result SchemaPool) :=
  match mappingRaw with
  | Err e => ret (Err (ErrText ("Unable to read oem mapping file. Reason: " +:+ err_string e)))
  | Ok (Err e) => ret (Err (ErrText ("Unable to parse oem mapping file. Reason: " +:+ err_string e)))
  | Ok (Ok mapping) =>
      r <- SchemaPool_ReadDir (mkSchemaPool (Pool sp) (pool_Version sp) mapping) extensionDir files ;;
      ret (match r with
           | Ok sp' => Ok sp'
           | Err e => Err (ErrText ("Unable to read oem extension dir. Reason: " +:+ err_string e))
           end)
  end.
End read.

(** The parameters of a schema tree; the last two are optional. *)
Record Config := mkConfig {
  ContribDirPrefix : string;
  SchemaDir : string;
  MappingDir : string;
  CrayRegistriesDir : string;
  DMTFRegistriesDir : string;
  cfg_Version : string;
  OemMappings : string;
  OemExtensionDir : string;
}.

(** The files that the configuration names *)
Record SchemaFiles := mkSchemaFiles {
  sf_schemas : result (list (string * result request_body));
  sf_mapping : result (result (gomap OemExtension));
  sf_extensions : result (list (string * result request_body));
}.

(** The schemas, with the extensions *)
Definition load_pool `{JsonReferences} {St} (files : SchemaFiles) (config : Config) (version : Version) : M St (result SchemaPool) :=
  pool <-? SchemaPool_ReadDir (NewSchemaPool version) (SchemaDir config) (sf_schemas files) ;;
  if String.eqb (OemMappings config) "" then ret (Ok pool)
  else AddOemExtensions pool (sf_mapping files) (OemExtensionDir config) (sf_extensions files).

(** The tree is the address of its root. *)
Definition CreateTree `{JsonReferences} `{FloatText} (fuel : nat) (mapper : VersionMapper) (files : SchemaFiles)
    (config : Config) (version : Version) : T (result addr) :=
  pool <-? load_pool files config version ;;
  parsed <- parseSchemas pool mapper fuel version ;;
  root <- CreateTree_link fuel (VersionMapper_GetMapping mapper version) (fst parsed) (snd parsed) ;;
  ret (Ok root).
