(* ===== verification/Parsed.v ===== *)
(** What the parsing of the schema files gives.

    The explore functions follow references from document to document.  On a
    pool whose references have a rank that drops whenever one is followed
    ([pool_ranked], which is decided), exploring ends, without changing any
    state, and gives properties without links and marks: what the construction
    of the tree expects. *)
From S2P Require Import Prelude Values Schema Fields Walk Versions Tree Linking TreeLinked Parsing.

(* ===================================================================== *)
(** * Computations that change nothing                                   *)
(* ===================================================================== *)

(** [m] ends, with a panic or with a value that satisfies [Q], and leaves the
    state alone. *)
Definition yields {S A} (Q : A -> Prop) (m : M S A) : Prop := forall s,
  match m s with
  | (Ret a, s') => s' = s /\ Q a
  | (Panic _, s') => s' = s
  | _ => False
  end.

Create HintDb yields.

Section yields.
Context {S : Type}.

Lemma yields_ret {A} (Q : A -> Prop) (a : A) : Q a -> yields Q (ret (S := S) a).
Proof. by intros Ha s. Qed.

Lemma yields_panic {A} (Q : A -> Prop) e : yields Q (panic (S := S) (A := A) e).
Proof. by intros s. Qed.

Lemma yields_bind {A B} (P : A -> Prop) (Q : B -> Prop) (m : M S A) (k : A -> M S B) :
  yields P m -> (forall a, P a -> yields Q (k a)) -> yields Q (bind m k).
Proof.
  intros Hm Hk s. unfold bind. specialize (Hm s). destruct (m s) as [[a|e|e|] s']; try done.
  destruct Hm as [-> Ha]. by apply Hk.
Qed.

Lemma yields_mono {A} (P Q : A -> Prop) (m : M S A) : yields P m -> (forall a, P a -> Q a) -> yields Q m.
Proof. intros Hm HPQ s. specialize (Hm s). destruct (m s) as [[a|e|e|] s']; try done. destruct Hm. auto. Qed.

(** When nothing is asked of the value *)
Lemma yields_step {A B} (Q : B -> Prop) (m : M S A) (k : A -> M S B) :
  yields (fun _ => True) m -> (forall a, yields Q (k a)) -> yields Q (bind m k).
Proof. intros Hm Hk. eapply yields_bind; [exact Hm|]. auto. Qed.

Abbreviation quiet := (yields (fun _ => True)).

Lemma quiet_assert_string v : quiet (assert_string (S := S) v).
Proof. intros s. unfold assert_string. by destruct v as [[]|]. Qed.
Lemma quiet_assert_array v : quiet (assert_array (S := S) v).
Proof. intros s. unfold assert_array. by destruct v as [[]|]. Qed.
Lemma quiet_assert_float v : quiet (assert_float (S := S) v).
Proof. intros s. unfold assert_float. by destruct v as [[]|]. Qed.
Lemma quiet_assert_bool v : quiet (assert_bool (St := S) v).
Proof. intros s. unfold assert_bool. by destruct v as [[]|]. Qed.
Lemma quiet_assert_int v : quiet (assert_int (St := S) v).
Proof. intros s. unfold assert_int. by destruct v as [[]|]. Qed.
Lemma yields_object v : yields (fun m => v = Some (VObject m)) (assert_object (S := S) v).
Proof. intros s. unfold assert_object. by destruct v as [[]|]. Qed.
Lemma yields_array v : yields (fun l => v = Some (VArray l)) (assert_array (S := S) v).
Proof. intros s. unfold assert_array. by destruct v as [[]|]. Qed.
Lemma yields_string v : yields (fun t => v = Some (VString t)) (assert_string (S := S) v).
Proof. intros s. unfold assert_string. by destruct v as [[]|]. Qed.
Lemma quiet_assert_object v : quiet (assert_object (S := S) v).
Proof. eapply yields_mono; [apply yields_object|done]. Qed.

Lemma quiet_field {A} (assert : option value -> M S A) key obj :
  (forall v, quiet (assert v)) -> quiet (field assert key obj).
Proof. intros Ha. unfold field. destruct (mget key obj); [|by apply yields_ret]. eapply yields_step; [apply Ha|]. intros a. by apply yields_ret. Qed.

Lemma quiet_map_list {A B} (f : A -> M S B) l : (forall a, quiet (f a)) -> quiet (map_list f l).
Proof.
  intros Hf. induction l as [|a l IH]; simpl; [by apply yields_ret|].
  eapply yields_step; [apply Hf|]. intros b. eapply yields_step; [exact IH|]. intros bs. by apply yields_ret.
Qed.
Lemma quiet_map_entries {A B} (f : string -> A -> M S B) l : (forall k a, quiet (f k a)) -> quiet (map_entries f l).
Proof.
  intros Hf. induction l as [|[k a] l IH]; simpl; [by apply yields_ret|].
  eapply yields_step; [apply Hf|]. intros b. eapply yields_step; [exact IH|]. intros bs. by apply yields_ret.
Qed.
End yields.
Abbreviation quiet := (yields (fun _ => True)).

#[export] Hint Resolve yields_ret yields_panic quiet_assert_string quiet_assert_array quiet_assert_float quiet_assert_bool
  quiet_assert_int quiet_assert_object quiet_field quiet_map_list quiet_map_entries : yields.

(** Step through a computation of which nothing is asked. *)
Ltac quiet_step :=
  match goal with
  | |- yields _ (bind _ _) => eapply yields_step; [|intros ?]
  | |- yields _ (match ?x with _ => _ end) => destruct x
  | |- yields _ (ret _) => by apply yields_ret
  | |- yields _ (map_list _ _) => apply quiet_map_list; intros ?
  | |- yields _ (map_entries _ _) => apply quiet_map_entries; intros ? ?
  | |- yields _ (panic _) => apply yields_panic
  | |- _ => by eauto with yields
  end.
Ltac quiet := repeat quiet_step.

Section simple.
Context `{JsonReferences} `{FloatText} {St : Type}.

Lemma quiet_extractDescription obj : quiet (extractDescription (St := St) obj).
Proof. unfold extractDescription. quiet. Qed.
Lemma quiet_extractLongDescription obj : quiet (extractLongDescription (St := St) obj).
Proof. unfold extractLongDescription. quiet. Qed.
Lemma quiet_findAdditionalProperties obj : quiet (findAdditionalProperties (St := St) obj).
Proof. unfold findAdditionalProperties. quiet. Qed.
Lemma quiet_assert_strings v : quiet (assert_strings (St := St) v).
Proof. unfold assert_strings. quiet. Qed.
#[local] Hint Resolve quiet_extractDescription quiet_extractLongDescription quiet_findAdditionalProperties quiet_assert_strings : yields.
Lemma quiet_findRequiredProperties obj : quiet (findRequiredProperties (St := St) obj).
Proof. unfold findRequiredProperties. quiet. Qed.
Lemma quiet_findRequiredOnCreate obj : quiet (findRequiredOnCreate (St := St) obj).
Proof. unfold findRequiredOnCreate. quiet. Qed.
Lemma quiet_pattern_types obj : quiet (pattern_types (St := St) obj).
Proof. unfold pattern_types. quiet. Qed.
#[local] Hint Resolve quiet_pattern_types : yields.
Lemma quiet_findPatternProperties obj : quiet (findPatternProperties (St := St) obj).
Proof.
  unfold findPatternProperties. quiet.
Qed.
Lemma quiet_enum_text texts name old : quiet (enum_text (St := St) texts name old).
Proof. unfold enum_text. quiet. Qed.
#[local] Hint Resolve quiet_enum_text : yields.

(** The properties of the simple types *)
Lemma handleString_leaf prop : yields (fun p => exists i, p = leaf i /\ same_kind i (plain_info PropString)) (handleString (St := St) prop).
Proof. unfold handleString. do 4 (eapply yields_step; [quiet|intros ?]). apply yields_ret. by eexists. Qed.
Lemma handleNumber_leaf prop : yields (fun p => exists i, p = leaf i /\ same_kind i (plain_info PropNumber)) (handleNumber (St := St) prop).
Proof. unfold handleNumber. do 3 (eapply yields_step; [quiet|intros ?]). apply yields_ret. by eexists. Qed.
Lemma handleInteger_leaf prop : yields (fun p => exists i, p = leaf i /\ same_kind i (plain_info PropInteger)) (handleInteger (St := St) prop).
Proof. unfold handleInteger. do 3 (eapply yields_step; [quiet|intros ?]). apply yields_ret. by eexists. Qed.
Lemma handleEnum_leaf prop raw : yields (fun p => exists i, p = leaf i /\ same_kind i (plain_info PropEnum)) (handleEnum (St := St) prop raw).
Proof.
  unfold handleEnum. do 8 (eapply yields_step; [quiet|intros ?]). apply yields_ret. by eexists.
Qed.
End simple.
#[export] Hint Resolve quiet_extractDescription quiet_extractLongDescription quiet_findAdditionalProperties quiet_assert_strings
  quiet_findRequiredProperties quiet_findRequiredOnCreate quiet_pattern_types quiet_findPatternProperties : yields.

(* ===================================================================== *)
(** * What parsing gives                                                 *)
(* ===================================================================== *)

(** Neither linked nor marked, without a name twice, and with the elements of
    every array, all the way down *)
Fixpoint pristine (p : Property) : bool :=
  match p with
  | mkProperty i ps arr link params target title =>
      negb (pi_IsNavLink i) && negb (pi_IsNavArray i)
      && (negb (bool_decide (pi_Type i = PropArray)) || match arr with Some _ => true | None => false end)
      && bool_decide (NoDup (mkeys ps)) && forallb (fun e => pristine (snd e)) ps
      && match arr with Some e => pristine e | None => true end
      && match link with Some _ => false | None => true end
      && forallb (fun e => pristine (snd e)) params
      && match target with Some e => pristine e | None => true end
      && match title with Some e => pristine e | None => true end
  end.
Definition pristine_opt (o : option Property) : bool := match o with Some p => pristine p | None => true end.
Definition pristine_all (ps : properties) : bool := bool_decide (NoDup (mkeys ps)) && forallb (fun e => pristine (snd e)) ps.

Lemma pristine_node i ps arr link params target title :
  pristine (mkProperty i ps arr link params target title) = true <->
  pi_IsNavLink i = false /\ pi_IsNavArray i = false /\ (pi_Type i = PropArray -> is_Some arr) /\ pristine_all ps = true /\ pristine_opt arr = true /\ link = None /\
  forallb (fun e => pristine (snd e)) params = true /\ pristine_opt target = true /\ pristine_opt title = true.
Proof.
  assert (Harr : negb (bool_decide (pi_Type i = PropArray)) || match arr with Some _ => true | None => false end = true <->
    (pi_Type i = PropArray -> is_Some arr)).
  { destruct (decide (pi_Type i = PropArray)) as [E|E]; [rewrite bool_decide_true by done|rewrite bool_decide_false by done]; simpl.
    - destruct arr; split; [by eexists|done|done|]. intros Ha. by destruct (Ha E).
    - by split. }
  simpl. rewrite !andb_true_iff, Harr. unfold pristine_all, pristine_opt. rewrite !andb_true_iff, !negb_true_iff.
  split; intros; destruct_and?; split_and?; try done; by destruct link.
Qed.

Lemma pristine_with_info f p : same_kind (f (p_info p)) (p_info p) -> pristine (with_info f p) = pristine p.
Proof. destruct p. unfold same_kind. simpl. by intros (-> & -> & ->). Qed.

Lemma pristine_set_null p : pristine (set_null p) = pristine p.
Proof. by apply pristine_with_info. Qed.

Lemma pristine_kind i t : same_kind i (plain_info t) -> t <> PropArray -> pristine (leaf i) = true.
Proof. intros (Ht & Hn & Ha) Hne. apply pristine_node. rewrite Ht, Hn, Ha. done. Qed.

Lemma pristine_mput k p ps : pristine_all ps = true -> pristine p = true -> pristine_all (mput k p ps) = true.
Proof.
  unfold pristine_all. rewrite !andb_true_iff, !bool_decide_eq_true. intros [Hnd Hps] Hp. split; [by apply mwf_mput|].
  clear Hnd. induction ps as [|[k' q] ps IH]; simpl in *; [by rewrite Hp|]. apply andb_true_iff in Hps as [Hq Hps].
  destruct (String.eqb k k'); simpl; [by rewrite Hp|]. rewrite Hq. by apply IH.
Qed.

Lemma pristine_mget k ps : pristine_all ps = true -> pristine_opt (mget k ps) = true.
Proof.
  unfold pristine_all. intros [_ Hps]%andb_true_iff. destruct (mget k ps) as [p|] eqn:E; [|done]. apply mget_Some_elem in E.
  rewrite forallb_forall in Hps. by apply (Hps (k, p)), list_elem_of_In.
Qed.

(** Such a property can be copied, and nothing in it navigates. *)
Lemma pristine_unmarked p : pristine p = true -> copyable p = true /\ unmarked p = true.
Proof.
  induction p as [i ps arr link params target title Hps Harr Hparams Htarget Htitle] using property_induction.
  intros (Hn & Ha & _ & Cps & Carr & -> & Cparams & Ctarget & Ctitle)%pristine_node.
  unfold pristine_all in Cps. apply andb_true_iff in Cps as [_ Cps].
  assert (Hl : forall l : list (string * Property), Forall (fun e => pristine (snd e) = true -> copyable (snd e) = true /\ unmarked (snd e) = true) l ->
    forallb (fun e => pristine (snd e)) l = true -> forallb (fun e => copyable (snd e)) l = true /\ forallb (fun e => unmarked (snd e)) l = true).
  { induction 1 as [|e l He _ IH]; simpl; [done|]. intros [Hp Hl]%andb_true_iff. destruct (He Hp) as [-> ->]. by apply IH. }
  destruct (Hl ps Hps Cps) as [C1 U1], (Hl params Hparams Cparams) as [C2 _]. simpl. rewrite C1, C2, U1, Hn, andb_false_r.
  assert (Ho : forall o, opt_all (fun p => pristine p = true -> copyable p = true /\ unmarked p = true) o -> pristine_opt o = true ->
    match o with Some e => copyable e | None => true end = true).
  { intros [e|]; simpl; [|done]. intros He Hp. by apply He. }
  by rewrite (Ho arr Harr Carr), (Ho target Htarget Ctarget), (Ho title Htitle Ctitle).
Qed.

(* ===================================================================== *)
(** * Sizes and references of a document                                 *)
(* ===================================================================== *)

Fixpoint v_depth (v : value) : nat :=
  match v with
  | VArray l => S (list_max (map v_depth l))
  | VObject m => S (list_max (map (fun e => v_depth (snd e)) m))
  | _ => 0
  end.

(** The elements of an array are not arrays. *)
Definition item_not_array (item : object) : bool :=
  match mget KeyType item with
  | Some (VString t) => negb (String.eqb t "array")
  | Some (VArray l) => forallb (fun t => match t with VString t => negb (String.eqb t "array") | _ => true end) l
  | _ => true
  end.
Fixpoint flat_arrays (v : value) : bool :=
  match v with
  | VArray l => forallb flat_arrays l
  | VObject m =>
      match mget KeyItems m with Some (VObject item) => item_not_array item | _ => true end
      && forallb (fun e => flat_arrays (snd e)) m
  | _ => true
  end.

Section ranks.
Context `{JsonReferences}.
Variable pool : SchemaPool.

(** A reference and the schema it is in *)
Abbreviation jump := (Schema * string)%type.

Definition oem_jumps : list jump :=
  flat_map (fun e => match SchemaPool_Get pool (oem_FileName (snd e)) with Some s => [(s, oem_Reference (snd e))] | None => [] end)
    (OemExtensions pool).

(** The references in a part of a schema *)
Fixpoint jumps (s : Schema) (v : value) : list jump :=
  match v with
  | VArray l => flat_map (jumps s) l
  | VObject m =>
      match mget KeyRef m with Some (VString r) => [(s, r)] | _ => [] end
      ++ (if mmem "Oem" m then oem_jumps else []) ++ flat_map (fun e => jumps s (snd e)) m
  | _ => []
  end.

(** An object in which nothing is explored unless it is a link *)
Definition bare (m : object) : bool := negb (mmem KeyRef m) && negb (mmem KeyProperties m) && negb (mmem KeyParamaters m).

(** The object a reference leads to, if it is explored *)
Definition follows (j : jump) : option (Schema * object) :=
  match fst (followReference (St := unit) (fst j) pool (snd j) tt) with
  | Ret (Some (ptr, s', m)) =>
      match fst (isResourceLink (St := unit) ptr s' (fst j) tt) with
      | Ret false => Some (s', m)
      | _ => if bare m then None else Some (s', m)
      end
  | _ => None
  end.

Section rank.
Variable rank : jump -> nat.

Definition descends (j : jump) : bool :=
  match follows j with
  | None => true
  | Some (s', m) => forallb (fun j' => Nat.ltb (rank j') (rank j)) (jumps s' (VObject m))
  end.

(** [D] bounds the depth of the documents, [R] the ranks of their
    references. *)
Definition schema_ranked (D R : nat) (s : Schema) : bool :=
  let body := VObject (Body s) in
  Nat.leb (v_depth body) D && flat_arrays body && forallb (fun j => descends j && Nat.ltb (rank j) R) (jumps s body).
Definition pool_ranked (D R : nat) : bool := forallb (fun e => schema_ranked D R (snd e)) (Pool pool).
End rank.
End ranks.

(** ** The same computation over any state *)

Definition agree {S S' A} (m : M S A) (m' : M S' A) : Prop := forall s s',
  snd (m s) = s /\ snd (m' s') = s' /\ fst (m s) = fst (m' s').

Lemma agree_bind {S S' A B} (m : M S A) (m' : M S' A) (k : A -> M S B) (k' : A -> M S' B) :
  agree m m' -> (forall a, agree (k a) (k' a)) -> agree (bind m k) (bind m' k').
Proof.
  intros Hm Hk s s'. unfold bind. destruct (Hm s s') as (H1 & H2 & H3). destruct (m s) as [o t], (m' s') as [o' t'].
  simpl in *. subst. destruct o'; try done. apply Hk.
Qed.

Ltac agree_step :=
  match goal with
  | |- agree (bind _ _) (bind _ _) => apply agree_bind; [|intros ?]
  | |- agree (match ?x with _ => _ end) _ => destruct x
  | |- agree (assert_object ?v) _ => unfold assert_object
  | |- agree (assert_array ?v) _ => unfold assert_array
  | |- agree (assert_string ?v) _ => unfold assert_string
  | |- agree (field _ _ _) _ => unfold field
  | |- agree (must_parse _) _ => unfold must_parse
  | |- agree (follow_fragment _ _) _ => unfold follow_fragment
  | |- _ => by intros ? ?
  end.

Section agree.
Context `{JsonReferences} {S S' : Type}.

Lemma followReference_agree s pool r : agree (followReference (St := S) s pool r) (followReference (St := S') s pool r).
Proof. unfold followReference. repeat agree_step. Qed.

Lemma links_in_agree l : agree (links_in (St := S) l) (links_in (St := S') l).
Proof. induction l as [|v l IH]; [by intros ? ?|]. cbn [links_in]. repeat agree_step; exact IH. Qed.

Lemma isResourceLink_agree ptr s' s : agree (isResourceLink (St := S) ptr s' s) (isResourceLink (St := S') ptr s' s).
Proof. unfold isResourceLink. repeat agree_step. apply links_in_agree. Qed.
End agree.

Lemma agree_yields {S A} (m : M S A) (m' : M unit A) (Q : A -> Prop) :
  agree m m' -> quiet m -> (forall a, fst (m' tt) = Ret a -> Q a) -> yields Q m.
Proof.
  intros Ha Hq HQ s. destruct (Ha s tt) as (H1 & _ & H3). specialize (Hq s). destruct (m s) as [[a|e|e|] t]; try done.
  simpl in *. split; [done|]. by apply HQ.
Qed.

(** ** Parts of a schema *)

Section parts.
Context `{JsonReferences}.
Variables (pool : SchemaPool) (rank : (Schema * string) -> nat) (D R : nat).
Hypothesis Hpool : pool_ranked pool rank D R = true.

Definition jump_ok (k : nat) (j : Schema * string) : Prop :=
  (exists f, SchemaPool_Get pool f = Some (fst j)) /\ descends pool rank j = true /\ (rank j < k)%nat.

(** A part of a schema of the pool, with references of a rank below [k] *)
Record part (k : nat) (s : Schema) (v : value) : Prop := {
  pt_schema : exists f, SchemaPool_Get pool f = Some s;
  pt_depth : (v_depth v <= D)%nat;
  pt_flat : flat_arrays v = true;
  pt_jumps : forall j, j ∈ jumps pool s v -> descends pool rank j = true /\ (rank j < k)%nat;
}.

Lemma entry_depth k v (m : object) : (k, v) ∈ m -> (v_depth v < v_depth (VObject m))%nat.
Proof. intros Hin. simpl. apply (list_max_elem (fun e => v_depth (snd e))) in Hin. simpl in Hin. lia. Qed.
Lemma element_depth v l : v ∈ l -> (v_depth v < v_depth (VArray l))%nat.
Proof. intros Hin. simpl. apply (list_max_elem v_depth) in Hin. lia. Qed.

Lemma part_entry k s name v m : part k s (VObject m) -> (name, v) ∈ m -> part k s v.
Proof.
  intros [Hs Hd Hf Hj] Hin. constructor; [done| | |].
  - apply entry_depth in Hin. lia.
  - simpl in Hf. apply andb_true_iff in Hf as [_ Hf]. rewrite forallb_forall in Hf. by apply (Hf (name, v)), list_elem_of_In.
  - intros j Hjin. apply Hj. simpl. rewrite !elem_of_app. right. right. apply list_elem_of_In, in_flat_map.
    exists (name, v). split; by apply list_elem_of_In.
Qed.

Lemma part_element k s v l : part k s (VArray l) -> v ∈ l -> part k s v.
Proof.
  intros [Hs Hd Hf Hj] Hin. constructor; [done| | |].
  - apply element_depth in Hin. lia.
  - simpl in Hf. rewrite forallb_forall in Hf. by apply Hf, list_elem_of_In.
  - intros j Hjin. apply Hj. simpl. apply list_elem_of_In, in_flat_map. exists v. split; by apply list_elem_of_In.
Qed.

Lemma part_get k s name v m : part k s (VObject m) -> mget name m = Some v -> part k s v /\ (v_depth v < v_depth (VObject m))%nat.
Proof. intros Hp Hv%mget_Some_elem. split; [by eapply part_entry|by eapply entry_depth]. Qed.

Lemma part_pointer k s tokens : forall v v', part k s v -> pointer_Get tokens v = Some v' -> part k s v'.
Proof.
  induction tokens as [|t tokens IH]; intros v v' Hp Hv; [by injection Hv as <-|]. simpl in Hv. destruct v; try done.
  - destruct (parse_int t) as [i|]; [|done]. destruct (Z.ltb i 0); [done|]. destruct (l !! Z.to_nat i) as [x|] eqn:Ex; [|done].
    eapply IH; [|exact Hv]. eapply part_element; [exact Hp|]. by eapply list_elem_of_lookup_2.
  - destruct (mget _ m) as [x|] eqn:Ex; [|done]. eapply IH; [|exact Hv]. eapply part_entry; [exact Hp|].
    by apply mget_Some_elem in Ex.
Qed.

Lemma part_ref k s m r : part k s (VObject m) -> mget KeyRef m = Some (VString r) -> jump_ok k (s, r).
Proof.
  intros [Hs Hd Hf Hj] Hr. split; [done|]. apply Hj. simpl. rewrite Hr. by left.
Qed.

Lemma part_body f s : SchemaPool_Get pool f = Some s -> part R s (VObject (Body s)).
Proof.
  intros Hs. unfold SchemaPool_Get in Hs. apply mget_Some_elem in Hs as Hin. unfold pool_ranked in Hpool.
  rewrite forallb_forall in Hpool. apply list_elem_of_In, Hpool in Hin. cbn [snd] in Hin. unfold schema_ranked in Hin.
  apply andb_true_iff in Hin as [Hin Hj]. apply andb_true_iff in Hin as [Hd%Nat.leb_le Hf]. rewrite forallb_forall in Hj.
  constructor; [by eexists|done|done|]. intros j Hjin%list_elem_of_In%Hj. apply andb_true_iff in Hjin as [Hdj Hr%Nat.ltb_lt]. done.
Qed.

(** What a reference leads to *)
Lemma follow_inv s r ptr s' m : fst (followReference (St := unit) s pool r tt) = Ret (Some (ptr, s', m)) ->
  (s' = s \/ exists f, SchemaPool_Get pool f = Some s') /\ pointer_Get ptr (VObject (Body s')) = Some (VObject m).
Proof.
  unfold followReference, must_parse, follow_fragment. destruct (NewJsonReference r) as [ref|]; [|done]. cbn.
  unfold bind at 1. cbn. destruct (HasFragmentOnly ref).
  - destruct (pointer_Get (ref_Pointer ref) (VObject (Body s))) as [raw|] eqn:Er; [|done].
    destruct raw; try done. cbn. intros [= <- <- <-]. split; [by left|done].
  - destruct (has_prefix _ _); [|done]. destruct (SchemaPool_Get pool _) as [s2|] eqn:Es; [|done].
    destruct (NewJsonReference _) as [ref'|]; [|done]. unfold bind at 1. cbn. destruct (HasFragmentOnly ref'); [|done].
    destruct (pointer_Get (ref_Pointer ref') (VObject (Body s2))) as [raw|] eqn:Er; [|done].
    destruct raw; try done. cbn. intros [= <- <- <-]. split; [by right; eexists|done].
Qed.

Lemma part_follows k j s' m : jump_ok (S k) j -> follows pool j = Some (s', m) -> part k s' (VObject m).
Proof.
  intros ((f & Hs) & Hd & Hr) Hf. unfold descends in Hd. rewrite Hf, forallb_forall in Hd. unfold follows in Hf.
  destruct (fst (followReference _ _ _ _)) as [[[[ptr s2] m2]|]|e|e|] eqn:Ef; try done.
  apply follow_inv in Ef as [Hs' Hptr].
  assert (Heq : s2 = s' /\ m2 = m).
  { destruct (fst (isResourceLink _ _ _ _)) as [[]|e|e|]; [| |..]; try (destruct (bare m2); [done|]); by injection Hf. }
  destruct Heq as [-> ->].
  assert (Hin : exists f', SchemaPool_Get pool f' = Some s') by (destruct Hs' as [->|?]; eauto).
  destruct Hin as [f' Hf']. pose proof (part_pointer _ _ _ _ _ (part_body f' s' Hf') Hptr) as [H1 H2 H3 H4].
  constructor; [done|done|done|]. intros j' Hj'. split; [by apply H4|]. apply list_elem_of_In, Hd, Nat.ltb_lt in Hj'. lia.
Qed.
End parts.

(* ===================================================================== *)
(** * Exploring ends                                                     *)
(* ===================================================================== *)

Section exploring.
Context `{JsonReferences} `{FloatText} {St : Type}.
Variables (pool : SchemaPool) (mapper : VersionMapper) (rank : (Schema * string) -> nat) (D R : nat).
Hypothesis Hpool : pool_ranked pool rank D R = true.
(** An empty reference has an empty URL. *)
Hypothesis Hempty : NewJsonReference "" = Ok (mkJsonReference false "" []).

Abbreviation part := (part pool rank D).
Abbreviation jump_ok := (jump_ok pool rank).
Abbreviation explorer := (explorer (St := St)).
Abbreviation good := (yields (fun o : option Property => pristine_opt o = true)).
Abbreviation good_all := (yields (fun ps : properties => pristine_all ps = true)).

(** The fuel for the references of a rank *)
Definition W : nat := (4 * D + 8)%nat.
Definition need (k : nat) (v : object) (c : nat) : nat := (k * W + 4 * v_depth (VObject v) + c)%nat.
Definition type_cost (t : value) : nat := match t with VString t => if String.eqb t "array" then 3 else 2 | _ => 2 end.

(** What the functions that are called recursively do with fuel [n] *)
Record explores (n : nat) (X : explorer) : Prop := {
  ok_type k s path v t : part k s (VObject v) -> (need k v (type_cost t) <= n)%nat -> good (exType X s path v t);
  ok_object k s path v : part k s (VObject v) -> (need k v 1 <= n)%nat -> good_all (exObject X s path v);
  ok_ref k s path v r : jump_ok k (s, r) -> (k * W <= n)%nat -> good (exRef X s path v r);
  ok_empty s path v : (1 <= n)%nat -> good (exRef X s path v "");
  ok_actions k s path v : part k s (VObject v) -> (need k v 3 <= n)%nat -> good (exActions X s path v);
  ok_action k s path v : part k s (VObject v) -> (need k v 3 <= n)%nat -> good (exAction X s path v);
  ok_bare s path v : bare v = true -> (1 <= n)%nat -> good (exActions X s path v) /\ good (exAction X s path v);
}.

Lemma good_null (m : M St (option Property)) : good m -> good (property <- m ;; ret (option_map set_null property)).
Proof.
  intros Hm. eapply yields_bind; [exact Hm|]. intros [p|] Hp; apply yields_ret; [|done]. simpl in *. by rewrite pristine_set_null.
Qed.

Lemma jump_positive k j : jump_ok k j -> exists k', k = S k'.
Proof. intros (_ & _ & Hr). destruct k as [|k']; [lia|]. by exists k'. Qed.

Lemma combine_pristine c p : pristine c = true -> pristine p = true -> yields (fun q => pristine q = true) (combine (St := St) c p).
Proof.
  destruct c as [ci cps carr clink cparams ctarget ctitle], p as [i ps arr link params target title].
  rewrite !pristine_node. intros (C1 & C2 & C0 & C3 & C4 & C5 & C6 & C7 & C8) (P1 & P2 & P0 & P3 & P4 & P5 & P6 & P7 & P8).
  unfold combine. destruct (pi_NullAllowed i), (pi_Type i) eqn:Et; try apply yields_panic;
    apply yields_ret, pristine_node; split_and?; try done; intros _; by apply P0.
Qed.

Section step.
Variables (n : nat) (X : explorer).
Hypothesis HX : explores n X.

Lemma combine_types_ok k s path v types c : part k s (VObject v) -> (need k v 3 <= n)%nat -> pristine c = true ->
  good (combine_types X s path v types c).
Proof.
  intros Hp Hn. revert c. induction types as [|t types IH]; intros c Hc; cbn [combine_types]; [by apply yields_ret|].
  eapply yields_step; [apply quiet_assert_string|]. intros ty. destruct (String.eqb ty "null").
  { apply IH. by rewrite pristine_set_null. }
  eapply yields_bind.
  { eapply (ok_type _ _ HX); [exact Hp|]. unfold need, type_cost in *. destruct (String.eqb ty "array"); lia. }
  intros [p|] Hpr; [|by apply yields_ret]. eapply yields_bind; [by apply combine_pristine|]. intros q Hq. by apply IH.
Qed.

Lemma type_need k v t : (need k v (type_cost t) <= need k v 3)%nat.
Proof. unfold need, type_cost. destruct t; try lia. destruct (String.eqb s "array"); lia. Qed.

Lemma exploreSchema_ok k s path v t : part k s (VObject v) -> (need k v 3 <= n)%nat -> good (exploreSchema X s path v t).
Proof.
  intros Hp Hn.
  assert (Ht : forall t, good (exType X s path v t)).
  { intros t'. eapply (ok_type _ _ HX); [exact Hp|]. pose proof (type_need k v t'). lia. }
  unfold exploreSchema. destruct t; try apply yields_panic; [apply Ht|].
  assert (Hm : good (description <- extractDescription v ;; long <- extractLongDescription v ;;
    combine_types X s path v l (leaf (set_Description description (set_LongDescription long (plain_info PropMultiple)))))).
  { eapply yields_step; [eauto with yields|]. intros d. eapply yields_step; [eauto with yields|]. intros long.
    by eapply combine_types_ok. }
  destruct l as [|t0 [|t1 [|t2 l]]]; try exact Hm.
  destruct (is_null (Some t0)); [by apply good_null|]. destruct (is_null (Some t1)); [by apply good_null|exact Hm].
Qed.

Lemma item_flat k s v item : part k s (VObject v) -> mget KeyItems v = Some (VObject item) -> item_not_array item = true.
Proof. intros [_ _ Hf _] Hi. simpl in Hf. rewrite Hi in Hf. by apply andb_true_iff in Hf as [? _]. Qed.

Abbreviation good_element := (yields (fun e : option Property * option string => pristine_opt (fst e) = true)).

Lemma good_nullable (m : M St (option Property)) : good m -> good_element (property <- m ;; ret (option_map set_null property, None)).
Proof.
  intros Hm. eapply yields_bind; [exact Hm|]. intros [p|] Hp; apply yields_ret; [|done]. simpl in *. by rewrite pristine_set_null.
Qed.

Lemma exploreArray_ok k s path v : part k s (VObject v) -> (need k v 2 <= n)%nat -> good_element (exploreArray X s path v).
Proof.
  intros Hp Hn. unfold exploreArray. destruct (mget KeyItems v) as [[]|] eqn:Ei; try apply yields_panic.
  pose proof (item_flat k s v m Hp Ei) as Hflat. pose proof (part_get _ _ _ _ _ _ _ _ Hp Ei) as [Hitem _].
  assert (Hk : (k * W <= n)%nat) by (unfold need in Hn; lia).
  assert (Ht : forall t, String.eqb t "array" = false -> good (exType X s path v (VString t))).
  { intros t Ht. eapply (ok_type _ _ HX); [exact Hp|]. unfold type_cost. by rewrite Ht. }
  destruct (mget KeyRef m) as [rawRef|] eqn:Er.
  { eapply yields_bind; [apply yields_string|]. intros r [= ->]. eapply yields_bind.
    - eapply (ok_ref _ _ HX); [|exact Hk]. by eapply part_ref.
    - intros p Hpr. by apply yields_ret. }
  unfold item_not_array in Hflat. destruct (mget KeyType m) as [rawType|] eqn:Et.
  - destruct rawType; try apply yields_panic;
      try (eapply yields_bind; [eapply (ok_type _ _ HX); [exact Hp|]; unfold type_cost; exact Hn|intros p Hpr; by apply yields_ret]).
    + eapply yields_bind; [apply Ht; by apply negb_true_iff|]. intros p Hpr. by apply yields_ret.
    + destruct l as [|t0 [|t1 [|t2 l]]]; try apply yields_panic.
      eapply yields_bind; [apply yields_string|]. intros ty0 [= ->]. eapply yields_bind; [apply yields_string|]. intros ty1 [= ->].
      simpl in Hflat. rewrite !andb_true_iff, !negb_true_iff in Hflat. destruct Hflat as (Hf0 & Hf1 & _).
      destruct (String.eqb ty0 "null"); [by apply good_nullable, Ht|].
      destruct (String.eqb ty1 "null"); [by apply good_nullable, Ht|apply yields_panic].
  - destruct (mget KeyAnyOf m) as [rawAnyOf|] eqn:Ea; [|apply yields_panic].
    eapply yields_bind; [apply yields_array|]. intros l [= ->]. destruct l as [|raw0 [|raw1 [|raw2 l]]]; try apply yields_panic.
    eapply yields_bind; [apply yields_object|]. intros o0 [= ->]. eapply yields_bind; [apply yields_object|]. intros o1 [= ->].
    pose proof (part_get _ _ _ _ _ _ _ _ Hitem Ea) as [Hany _].
    assert (Hexp : forall o rawRef, VObject o ∈ [VObject o0; VObject o1] -> mget KeyRef o = Some rawRef ->
      good_element (ref <- assert_string (Some rawRef) ;; property <- exRef X s path [] ref ;; ret (option_map set_null property, None))).
    { intros o rawRef Hin Hr. eapply yields_bind; [apply yields_string|]. intros r [= ->]. apply good_nullable.
      eapply (ok_ref _ _ HX); [|exact Hk]. eapply part_ref; [|exact Hr]. by eapply part_element. }
    assert (Hin0 : VObject o0 ∈ [VObject o0; VObject o1]) by left.
    assert (Hin1 : VObject o1 ∈ [VObject o0; VObject o1]) by (right; left).
    destruct (mget KeyRef o0) as [r0|] eqn:E0, (mget KeyRef o1) as [r1|] eqn:E1;
      destruct (is_null (mget KeyType o1)), (is_null (mget KeyType o0)); eauto using yields_panic.
Qed.

Lemma exploreType_ok k s path v t : part k s (VObject v) -> (need k v (type_cost t) <= S n)%nat -> good (exploreType X s path v t).
Proof.
  intros Hp Hn. unfold exploreType. eapply yields_bind; [apply yields_string|]. intros ty [= ->]. unfold type_cost in Hn.
  eapply yields_bind with (P := fun o => pristine_opt o = true).
  - destruct (String.eqb ty "object").
    { eapply yields_bind; [eapply (ok_object _ _ HX); [exact Hp|]; unfold need in *; destruct (String.eqb ty "array"); lia|].
      intros ps Hps. eapply yields_step; [eauto with yields|]. intros a. eapply yields_step; [eauto with yields|]. intros pats.
      apply yields_ret. cbn [pristine_opt]. by apply pristine_node. }
    destruct (String.eqb ty "array") eqn:Ea.
    { eapply yields_bind; [eapply exploreArray_ok; [exact Hp|]; unfold need in *; lia|]. intros [[e|] ref] He; apply yields_ret; [|done].
      cbn [pristine_opt fst] in *. by apply pristine_node. }
    destruct (String.eqb ty "string").
    { destruct (mget KeyEnum v).
      - eapply yields_bind; [apply handleEnum_leaf|]. intros p (i & -> & Hi). apply yields_ret. by eapply pristine_kind.
      - eapply yields_bind; [apply handleString_leaf|]. intros p (i & -> & Hi). apply yields_ret. by eapply pristine_kind. }
    destruct (String.eqb ty "number").
    { eapply yields_bind; [apply handleNumber_leaf|]. intros p (i & -> & Hi). apply yields_ret. by eapply pristine_kind. }
    destruct (String.eqb ty "integer").
    { eapply yields_bind; [apply handleInteger_leaf|]. intros p (i & -> & Hi). apply yields_ret. by eapply pristine_kind. }
    destruct (String.eqb ty "boolean"); [by apply yields_ret|apply yields_panic].
  - intros [p|] Hpr; [|by apply yields_ret]. eapply yields_step; [eauto with yields|]. intros d. eapply yields_step; [eauto with yields|].
    intros long. apply yields_ret. cbn [pristine_opt] in *. by rewrite pristine_with_info.
Qed.

(** ** References *)

Lemma quiet_followReference s r : quiet (followReference (St := St) s pool r).
Proof. unfold followReference, must_parse, follow_fragment. quiet. Qed.
Lemma quiet_links_in l : quiet (links_in (St := St) l).
Proof. induction l as [|v l IH]; cbn [links_in]; quiet; exact IH. Qed.
Lemma quiet_isResourceLink ptr s' s : quiet (isResourceLink (St := St) ptr s' s).
Proof. unfold isResourceLink. quiet. apply quiet_links_in. Qed.

Lemma followReference_yields s r :
  yields (fun o => fst (followReference (St := unit) s pool r tt) = Ret o) (followReference (St := St) s pool r).
Proof. eapply agree_yields; [apply followReference_agree|apply quiet_followReference|done]. Qed.
Lemma isResourceLink_yields ptr s' s :
  yields (fun b => fst (isResourceLink (St := unit) ptr s' s tt) = Ret b) (isResourceLink (St := St) ptr s' s).
Proof. eapply agree_yields; [apply isResourceLink_agree|apply quiet_isResourceLink|done]. Qed.

(** Every reference of the versions is one of the object's. *)
Lemma extract_versions_ok k s l : part k s (VArray l) -> forall acc,
  (forall v r, mget v acc = Some r -> jump_ok k (s, r)) ->
  yields (fun m => forall v r, mget v m = Some r -> jump_ok k (s, r)) (extract_versions (St := St) l acc).
Proof.
  intros Hp. assert (Hin : forall x, x ∈ l -> part k s x) by (intros x; by apply part_element). clear Hp.
  induction l as [|x l IH]; intros acc Hacc; cbn [extract_versions]; [by apply yields_ret|].
  eapply yields_bind; [apply yields_object|]. intros m [= ->].
  assert (Hl : forall y, y ∈ l -> part k s y) by (intros y Hy; apply Hin; by right).
  assert (Hm : part k s (VObject m)) by (apply Hin; by left).
  unfold field at 1. destruct (mget KeyRef m) as [raw|] eqn:Er.
  - eapply yields_bind with (P := fun o => forall r, o = Some r -> jump_ok k (s, r)).
    { eapply yields_bind; [apply yields_string|]. intros r [= ->]. apply yields_ret. intros r' [= <-]. by eapply part_ref. }
    intros [r|] Hr; [|apply yields_panic]. destruct (contains r "idRef"); [by apply IH|].
    destruct (String.eqb _ ""); [apply yields_panic|]. apply IH; [done|]. intros v r' Hv.
    destruct (decide (find_string match_version r = v)) as [<-|Hne].
    + rewrite mget_mput_eq in Hv. injection Hv as <-. by apply Hr.
    + rewrite mget_mput_ne in Hv by done. by eapply Hacc.
  - eapply yields_bind with (P := fun o => o = None); [by apply yields_ret|]. intros o ->. apply yields_panic.
Qed.

Lemma ExtractResourceVersions_ok k s m : part k s (VObject m) ->
  yields (fun refs => forall v r, mget v refs = Some r -> jump_ok k (s, r)) (ExtractResourceVersions (St := St) m).
Proof.
  intros Hp. unfold ExtractResourceVersions. destruct (mget KeyAnyOf m) as [raw|] eqn:Ea; [|by apply yields_ret].
  eapply yields_bind; [apply yields_array|]. intros l [= ->]. apply extract_versions_ok; [|done].
  by apply (part_get _ _ _ _ _ _ _ _ Hp) in Ea as [? _].
Qed.

Lemma quiet_selectObjectVersion name version versions : quiet (selectObjectVersion (S := St) mapper name version versions).
Proof. unfold selectObjectVersion. quiet. Qed.

Lemma exploreVersionedObject_ok k path ptr s' m : part k s' (VObject m) -> pointer_Get ptr (VObject (Body s')) = Some (VObject m) ->
  (k * W <= n)%nat -> (1 <= n)%nat -> good (exploreVersionedObject pool mapper X path ptr s').
Proof.
  intros Hp Hptr Hk H1. unfold exploreVersionedObject. rewrite Hptr. eapply yields_bind; [apply yields_object|]. intros o [= <-].
  eapply yields_bind; [by apply (ExtractResourceVersions_ok k)|]. intros refs Hrefs.
  eapply yields_step; [apply quiet_selectObjectVersion|]. intros v. destruct (mget v refs) as [r|] eqn:Er.
  - eapply (ok_ref _ _ HX); [by eapply Hrefs|done].
  - by apply (ok_empty _ _ HX).
Qed.

Lemma good_link linkRef obj : good (link_property (St := St) linkRef obj).
Proof. unfold link_property. eapply yields_step; [eauto with yields|]. intros d. by apply yields_ret. Qed.

Lemma need_below k v : (v_depth (VObject v) <= D)%nat -> (S k * W <= S n)%nat -> (need k v 3 <= n)%nat.
Proof. unfold need, W. lia. Qed.

Lemma exploreRef_ok k s path v r : jump_ok k (s, r) -> (k * W <= S n)%nat -> good (exploreRef pool mapper X s path v r).
Proof.
  intros Hj Hn. destruct (jump_positive _ _ Hj) as [k' ->]. unfold exploreRef.
  destruct (contains r "swordfish"); [by apply yields_ret|]. destruct (contains r "#/definitions/idRef"); [apply good_link|].
  eapply yields_bind; [apply followReference_yields|]. intros [[[ptr s'] m]|] Hfollow; [|apply yields_panic].
  eapply yields_bind; [apply isResourceLink_yields|]. intros [] Hlink; [apply good_link|].
  assert (Hf : follows pool (s, r) = Some (s', m)) by (unfold follows; simpl; by rewrite Hfollow, Hlink).
  pose proof (part_follows pool rank D R Hpool k' (s, r) s' m Hj Hf) as Hp.
  apply follow_inv in Hfollow as [_ Hptr]. pose proof (pt_depth _ _ _ _ _ _ Hp) as Hd.
  destruct (mget KeyType m); [eapply exploreSchema_ok; [exact Hp|by apply need_below]|].
  destruct (mget KeyRef m); [apply yields_panic|].
  destruct (mget KeyAnyOf m).
  { eapply exploreVersionedObject_ok; [exact Hp|exact Hptr|..]; unfold W in *; lia. }
  destruct m; [|apply yields_panic]. destruct (String.eqb r empty_resource); by apply yields_ret.
Qed.

Lemma exploreRef_empty s path v : good (exploreRef pool mapper X s path v "").
Proof. unfold exploreRef, followReference, must_parse. simpl. rewrite Hempty. intros st. done. Qed.

(** ** Objects *)

Lemma oem_ok k path : (forall j, j ∈ oem_jumps pool -> jump_ok k j) -> (k * W <= n)%nat -> good (handleOEMExtension pool X path).
Proof.
  intros Hoem Hk. unfold handleOEMExtension. destruct (mget (join "/" path) (OemExtensions pool)) as [e|] eqn:Ee; [|by apply yields_ret].
  destruct (SchemaPool_Get pool (oem_FileName e)) as [s|] eqn:Es; [|apply yields_panic].
  eapply (ok_ref _ _ HX); [|exact Hk]. apply Hoem. apply mget_Some_elem in Ee.
  apply list_elem_of_In, in_flat_map. exists (join "/" path, e). split; [by apply list_elem_of_In|]. simpl. rewrite Es. by left.
Qed.

Lemma part_oem k s m : part k s (VObject m) -> mmem "Oem" m = true -> forall j, j ∈ oem_jumps pool -> jump_ok k j.
Proof.
  intros [_ _ _ Hj] Hm j Hin. split.
  - apply list_elem_of_In, in_flat_map in Hin as (e & _ & Hin). destruct (SchemaPool_Get pool (oem_FileName (snd e))) eqn:Es; [|done].
    destruct Hin as [<-|[]]. by eexists.
  - apply Hj. simpl. rewrite !elem_of_app. right. left. by rewrite Hm.
Qed.

Lemma explore_anyOf_ok k s path v l : part k s (VArray l) -> (k * W <= n)%nat -> forall found, pristine_opt (fst found) = true ->
  yields (fun e => pristine_opt (fst e) = true) (explore_anyOf X s path v l found).
Proof.
  intros Hp Hk. assert (Hin : forall x, x ∈ l -> part k s x) by (intros x; by apply part_element). clear Hp.
  induction l as [|x l IH]; intros found Hfound; cbn [explore_anyOf]; [by apply yields_ret|].
  assert (Hl : forall y, y ∈ l -> part k s y) by (intros y Hy; apply Hin; by right).
  eapply yields_bind; [apply yields_object|]. intros m [= ->]. assert (Hm : part k s (VObject m)) by (apply Hin; by left).
  eapply yields_bind with (P := fun e => pristine_opt (fst e) = true); [|intros e He; by apply IH].
  destruct (mget KeyRef m) as [raw|] eqn:Er.
  - eapply yields_bind; [apply yields_string|]. intros r [= ->]. eapply yields_bind.
    + eapply (ok_ref _ _ HX); [by eapply part_ref|exact Hk].
    + intros p Hpr. by apply yields_ret.
  - destruct (mget KeyType m); [|by apply yields_ret]. eapply yields_step; [apply quiet_assert_string|]. intros ty.
    destruct (String.eqb ty "null"); [by apply yields_ret|apply yields_panic].
Qed.

Lemma explore_member_ok k s path name v : part k s (VObject v) -> (need k v 3 <= n)%nat ->
  (name = "Oem" -> forall j, j ∈ oem_jumps pool -> jump_ok k j) -> good (explore_member pool X s path name v).
Proof.
  intros Hp Hn Hoem. assert (Hk : (k * W <= n)%nat) by (unfold need in Hn; lia). unfold explore_member.
  destruct (String.eqb_spec name "Actions"); [by eapply (ok_actions _ _ HX)|].
  destruct (String.eqb_spec name "Oem"); [by eapply oem_ok; [apply Hoem|]|].
  destruct (mget KeyAnyOf v) as [raw|] eqn:Ea.
  { eapply yields_bind; [apply yields_array|]. intros l [= ->]. destruct (negb _); [apply yields_panic|].
    eapply yields_bind; [eapply explore_anyOf_ok; [|exact Hk|done]; by apply (part_get _ _ _ _ _ _ _ _ Hp) in Ea as [? _]|].
    intros [[p|] nul] Hpr; [|apply yields_panic]. apply yields_ret. cbn [fst pristine_opt snd] in *. by rewrite pristine_with_info. }
  destruct (mget KeyRef v) as [raw|] eqn:Er.
  { eapply yields_bind; [apply yields_string|]. intros r [= ->]. eapply (ok_ref _ _ HX); [by eapply part_ref|exact Hk]. }
  destruct (mget KeyType v); [by eapply exploreSchema_ok|by apply yields_ret].
Qed.

Lemma finish_member_ok prop p : pristine p = true -> yields (fun q => pristine q = true) (finish_member (St := St) prop p).
Proof.
  intros Hp. unfold finish_member. eapply yields_step; [quiet|]. intros reason. eapply yields_step; [quiet|]. intros ro.
  apply yields_ret. by rewrite pristine_with_info; destruct reason, ro.
Qed.

(** The members of an object, whose parts are at a depth below [d] *)
Lemma explore_members_ok k s path d props : (k * W + 4 * d + 3 <= n)%nat ->
  (forall name v, (name, v) ∈ props -> part k s v /\ (v_depth v <= d)%nat) ->
  (mmem "Oem" props = true -> forall j, j ∈ oem_jumps pool -> jump_ok k j) ->
  forall found, pristine_all found = true -> good_all (explore_members pool X s path props found).
Proof.
  intros Hn. induction props as [|[name raw] props IH]; intros Hprops Hoem found Hfound; cbn [explore_members]; [by apply yields_ret|].
  eapply yields_bind; [apply yields_object|]. intros v [= ->]. destruct (Hprops name (VObject v)) as [Hp Hd]; [by left|].
  assert (Hrest : mmem "Oem" props = true -> forall j, j ∈ oem_jumps pool -> jump_ok k j).
  { intros Hm. apply Hoem. unfold mmem in *. cbn [mget]. by destruct (String.eqb "Oem" name). }
  eapply yields_bind.
  { eapply explore_member_ok; [exact Hp|unfold need; lia|]. intros ->. by apply Hoem. }
  intros o Ho. eapply yields_bind with (P := fun ps => pristine_all ps = true).
  - destruct o as [p|]; [|by apply yields_ret]. eapply yields_bind; [by apply finish_member_ok|]. intros q Hq. apply yields_ret.
    by apply pristine_mput.
  - intros ps Hps. apply IH; [|done|done]. intros name' v' Hin. apply (Hprops name'). by right.
Qed.

Lemma exploreObject_ok k s path v : part k s (VObject v) -> (need k v 1 <= S n)%nat -> good_all (exploreObject pool X s path v).
Proof.
  intros Hp Hn. unfold exploreObject. destruct (mget KeyProperties v) as [raw|] eqn:Ep; [|apply yields_panic].
  eapply yields_bind; [apply yields_object|]. intros props [= ->]. apply (part_get _ _ _ _ _ _ _ _ Hp) in Ep as [Hps Hd].
  unfold need in Hn. apply explore_members_ok with (k := k) (d := (v_depth (VObject props) - 1)%nat); [lia| | |done].
  - intros name x Hin. split; [by eapply part_entry|]. apply entry_depth in Hin. lia.
  - by apply part_oem with (s := s).
Qed.

(** ** Actions *)

Lemma explore_actions_ok k s path d props : (k * W + 4 * d + 3 <= n)%nat ->
  (forall name v, (name, v) ∈ props -> part k s v /\ (v_depth v <= d)%nat) ->
  forall found, pristine_all found = true -> good_all (explore_actions X s path props found).
Proof.
  intros Hn. induction props as [|[name raw] props IH]; intros Hprops found Hfound; cbn [explore_actions]; [by apply yields_ret|].
  eapply yields_bind; [apply yields_object|]. intros v [= ->]. destruct (Hprops name (VObject v)) as [Hp Hd]; [by left|].
  eapply yields_bind; [eapply (ok_action _ _ HX); [exact Hp|unfold need; lia]|]. intros [p|] Hpr; [|apply yields_panic].
  apply IH; [intros name' v' Hin; apply (Hprops name'); by right|by apply pristine_mput].
Qed.

(** What an action's reference leads to is explored with less fuel. *)
Lemma follow_action k s v raw (f : Schema -> object -> M St (option Property)) : part k s (VObject v) -> mget KeyRef v = Some raw ->
  (need k v 3 <= S n)%nat ->
  (forall k' s' m, part k' s' (VObject m) -> (need k' m 3 <= n)%nat -> good (f s' m)) ->
  (forall s' m, bare m = true -> (1 <= n)%nat -> good (f s' m)) ->
  good (refString <- assert_string (Some raw) ;; followed <- followReference s pool refString ;;
        match followed with Some (_, s', m) => f s' m | None => panic ("Reference could not be followed: " +:+ refString) end).
Proof.
  intros Hp Hr Hn Hf Hbare. eapply yields_bind; [apply yields_string|]. intros r [= ->].
  pose proof (part_ref _ _ _ _ _ _ _ Hp Hr) as Hj. destruct (jump_positive _ _ Hj) as [k' ->].
  eapply yields_bind; [apply followReference_yields|]. intros [[[ptr s'] m]|] Hfollow; [|apply yields_panic].
  assert (Hcase : follows pool (s, r) = Some (s', m) \/ bare m = true).
  { unfold follows. simpl. rewrite Hfollow. destruct (fst (isResourceLink _ _ _ _)) as [[]|e|e|]; try (destruct (bare m)); auto. }
  destruct Hcase as [Hfl|Hb].
  - pose proof (part_follows pool rank D R Hpool k' (s, r) s' m Hj Hfl) as Hp'. apply (Hf k'); [done|].
    apply need_below; [exact (pt_depth _ _ _ _ _ _ Hp')|]. unfold need in Hn. lia.
  - apply Hbare; [done|]. unfold need, W in Hn. lia.
Qed.

Lemma exploreActions_ok k s path v : part k s (VObject v) -> (need k v 3 <= S n)%nat -> good (exploreActions pool X s path v).
Proof.
  intros Hp Hn. unfold exploreActions. destruct (mget KeyRef v) as [raw|] eqn:Er.
  - apply (follow_action k s v raw (fun s' m => exActions X s' path m)); [done|done|done| |].
    + intros k' s' m Hp' Hn'. by eapply (ok_actions _ _ HX).
    + intros s' m Hb H1. by apply (ok_bare _ _ HX).
  - do 4 (eapply yields_step; [eauto with yields|intros ?]). destruct (mget KeyProperties v) as [rawp|] eqn:Ep; [|apply yields_panic].
    eapply yields_bind; [apply yields_object|]. intros props [= ->]. apply (part_get _ _ _ _ _ _ _ _ Hp) in Ep as [Hps Hd].
    unfold need in Hn. eapply yields_bind.
    + apply explore_actions_ok with (k := k) (d := (v_depth (VObject props) - 1)%nat); [lia| |done].
      intros name x Hin. split; [by eapply part_entry|]. apply entry_depth in Hin. lia.
    + intros ps Hpr. apply yields_ret. cbn [pristine_opt]. by apply pristine_node.
Qed.

Lemma explore_parameters_ok k s path fields d params : (k * W + 4 * d + 3 <= n)%nat ->
  (forall name v, (name, v) ∈ params -> part k s v /\ (v_depth v <= d)%nat) ->
  forall found, pristine_all (snd found) = true ->
  yields (fun e => pristine_all (snd e) = true) (explore_parameters X s path fields params found).
Proof.
  intros Hn. induction params as [|[name raw] params IH]; intros Hprops found Hfound; cbn [explore_parameters]; [by apply yields_ret|].
  eapply yields_bind; [apply yields_object|]. intros v [= ->]. destruct (Hprops name (VObject v)) as [Hp Hd]; [by left|].
  eapply yields_bind with (P := fun o => pristine_opt o = true).
  { destruct (mget KeyRef v) as [rawr|] eqn:Er.
    - eapply yields_bind; [apply yields_string|]. intros r [= ->]. eapply (ok_ref _ _ HX); [by eapply part_ref|lia].
    - destruct (mget KeyType v); [|apply yields_panic]. eapply exploreSchema_ok; [exact Hp|unfold need; lia]. }
  intros o Ho. eapply yields_bind with (P := fun e => pristine_all (snd e) = true).
  - destruct o as [p|]; [|by apply yields_ret]. eapply yields_step; [quiet|]. intros required. eapply yields_step; [quiet|]. intros ro.
    apply yields_ret. cbn [snd]. apply pristine_mput; [done|]. by rewrite pristine_with_info; destruct ro.
  - intros e He. apply IH; [|done]. intros name' v' Hin. apply (Hprops name'). by right.
Qed.

Lemma exploreAction_ok k s path v : part k s (VObject v) -> (need k v 3 <= S n)%nat -> good (exploreAction pool X s path v).
Proof.
  intros Hp Hn. unfold exploreAction. destruct (mget KeyRef v) as [raw|] eqn:Er.
  - apply (follow_action k s v raw (fun s' m => exAction X s' path m)); [done|done|done| |].
    + intros k' s' m Hp' Hn'. by eapply (ok_action _ _ HX).
    + intros s' m Hb H1. by apply (ok_bare _ _ HX).
  - do 2 (eapply yields_step; [eauto with yields|intros ?]). eapply yields_bind with (P := fun e => pristine_all (snd e) = true).
    { destruct (mget KeyParamaters v) as [rawp|] eqn:Ep; [|by apply yields_ret].
      eapply yields_bind; [apply yields_object|]. intros params [= ->]. apply (part_get _ _ _ _ _ _ _ _ Hp) in Ep as [Hps Hd].
      unfold need in Hn. apply explore_parameters_ok with (k := k) (d := (v_depth (VObject params) - 1)%nat); [lia| |done].
      intros name x Hin. split; [by eapply part_entry|]. apply entry_depth in Hin. lia. }
    intros [req params] Hparams. eapply yields_bind with (P := fun ps => pristine_all ps = true).
    { destruct (mget KeyProperties v); [|by apply yields_ret]. eapply (ok_object _ _ HX); [exact Hp|unfold need in *; lia]. }
    intros ps Hps. apply yields_ret. cbn [pristine_opt fst snd] in *. apply pristine_node. do 6 (split; [done|]).
    split; [unfold pristine_all in Hparams; by apply andb_true_iff in Hparams as [_ ?]|]. split; by apply pristine_mget.
Qed.

Lemma bare_ok s path v : bare v = true -> good (exploreActions pool X s path v) /\ good (exploreAction pool X s path v).
Proof.
  unfold bare, mmem. intros Hb. unfold exploreActions, exploreAction.
  destruct (mget KeyRef v); [done|]. destruct (mget KeyProperties v); [done|]. destruct (mget KeyParamaters v); [done|].
  split.
  - do 4 (eapply yields_step; [eauto with yields|intros ?]). apply yields_panic.
  - do 2 (eapply yields_step; [eauto with yields|intros ?]). eapply yields_bind with (P := fun e => e = ([], [])); [by apply yields_ret|].
    intros e ->. eapply yields_bind with (P := fun ps => ps = []); [by apply yields_ret|]. intros ps ->. by apply yields_ret.
Qed.
End step.

(** Enough fuel, and exploring ends. *)
Lemma explorer_ok n : explores n (explorer_at pool mapper n).
Proof.
  induction n as [|n IH].
  - constructor; unfold need, type_cost; intros; try lia.
    + destruct t; try lia. destruct (String.eqb s0 "array"); lia.
    + exfalso. destruct (jump_positive _ _ H1) as [k' ->]. unfold W in *. lia.
  - constructor; intros; cbn [explorer_at exType exObject exRef exActions exAction].
    + by eapply exploreType_ok.
    + by eapply exploreObject_ok.
    + by eapply exploreRef_ok.
    + apply exploreRef_empty.
    + by eapply exploreActions_ok.
    + by eapply exploreAction_ok.
    + by apply bare_ok.
Qed.
End exploring.
