(* ===== verification/Preparation.v ===== *)
(** From the schema files to the linked tree: what the parsing gives, once
    prepared ([detectEmbeddedCollections], [detectNavigationLinks],
    [detectNavigationArrays]), is what the linking expects. *)
From S2P Require Import Prelude Values Schema Fields Walk Versions Tree Linking TreeBuilt TreeChecked TreeLinked Parsing Parsed.

(* ===================================================================== *)
(** * Resources from the parsing                                         *)
(* ===================================================================== *)

Definition all_in {A} (P : A -> bool) (m : gomap A) : Prop := forallb (fun e => P (snd e)) m = true.

Lemma all_in_mput {A} (P : A -> bool) k a m : all_in P m -> P a = true -> all_in P (mput k a m).
Proof.
  unfold all_in. intros Hm Ha. induction m as [|[k' b] m IH]; simpl in *; [by rewrite Ha|].
  apply andb_true_iff in Hm as [Hb Hm]. destruct (String.eqb k k'); simpl; [by rewrite Ha|]. rewrite Hb. by apply IH.
Qed.

Lemma all_in_merge {A} (P : A -> bool) m m' : all_in P m -> all_in P m' -> all_in P (merge m m').
Proof.
  unfold merge. revert m. induction m' as [|[k a] m' IH]; intros m Hm Hm'; [done|]. simpl in *.
  apply andb_true_iff in Hm' as [Ha Hm']. apply IH; [by apply all_in_mput|done].
Qed.

Lemma all_in_allResources P collections resources : all_in P collections -> all_in P resources ->
  all_in P (allResources collections resources).
Proof. intros Hc Hr. by apply (all_in_merge P (merge [] collections) resources); [apply all_in_merge|]. Qed.

Definition pristine_resource (coll : bool) (r : Resource) : bool :=
  match CollectionOf r with Some _ => false | None => true end
  && pristine_all (r_Properties r) && Bool.eqb (IsCollection r) coll.

Section resources.
Context `{JsonReferences} `{FloatText} {St : Type}.
Variables (pool : SchemaPool) (mapper : VersionMapper) (rank : (Schema * string) -> nat) (D R : nat).
Hypothesis Hpool : pool_ranked pool rank D R = true.
Hypothesis Hempty : NewJsonReference "" = Ok (mkJsonReference false "" []).

(** The top level schema is a part of the document. *)
Definition top_inside (s : Schema) : Prop :=
  forall m, TopLevel s = Some m -> exists tokens, pointer_Get tokens (VObject (Body s)) = Some (VObject m).
Definition pool_read : Prop := forall f s, SchemaPool_Get pool f = Some s -> top_inside s.
Hypothesis Hread : pool_read.

(** The fuel for every part of the pool *)
Definition parse_fuel : nat := (R * W D + 4 * D)%nat.

Lemma part_top f s m : SchemaPool_Get pool f = Some s -> TopLevel s = Some m -> part pool rank D R s (VObject m).
Proof.
  intros Hs Hm. destruct (Hread f s Hs m Hm) as [tokens Hp]. eapply part_pointer; [|exact Hp]. by eapply part_body.
Qed.

Lemma explore_part fuel s path m : (parse_fuel <= fuel)%nat -> part pool rank D R s (VObject m) ->
  yields (fun ps => pristine_all ps = true) (exploreObject (St := St) pool (explorer_at pool mapper fuel) s path m).
Proof.
  intros Hfuel Hp. eapply exploreObject_ok; [by eapply explorer_ok|exact Hp|]. pose proof (pt_depth _ _ _ _ _ _ Hp).
  unfold need, parse_fuel in *. lia.
Qed.

Lemma explore_top fuel f s path : (parse_fuel <= fuel)%nat -> SchemaPool_Get pool f = Some s ->
  yields (fun ps => pristine_all ps = true) (exploreObject (St := St) pool (explorer_at pool mapper fuel) s path (top s)).
Proof.
  intros Hfuel Hs. unfold top. destruct (TopLevel s) as [m|] eqn:Em; [|apply yields_panic].
  apply explore_part; [done|]. by eapply part_top.
Qed.

Lemma quiet_additional_of obj : quiet (additional_of (St := St) obj).
Proof. unfold additional_of. quiet. Qed.
Lemma quiet_capability s key : quiet (capability (St := St) s key).
Proof. unfold capability. quiet. Qed.
#[local] Hint Resolve quiet_additional_of quiet_capability : yields.

Abbreviation parsed coll := (yields (fun p : Resource * string => pristine_resource coll (fst p) = true)).

Lemma ParseCollection_ok fuel f s : (parse_fuel <= fuel)%nat -> SchemaPool_Get pool f = Some s ->
  parsed true (ParseCollection (St := St) pool mapper fuel s).
Proof.
  intros Hfuel Hs. unfold ParseCollection. destruct (pointer_Get ["anyOf"; "1"] (VObject (top s))) as [raw|] eqn:Ep; [|apply yields_panic].
  eapply yields_bind; [apply yields_object|]. intros body [= ->]. do 2 (eapply yields_step; [eauto with yields|intros ?]).
  eapply yields_bind.
  - apply explore_part; [exact Hfuel|]. unfold top in Ep. destruct (TopLevel s) as [m|] eqn:Em; [|done].
    eapply part_pointer; [by eapply part_top|exact Ep].
  - intros ps Hps. do 7 (eapply yields_step; [eauto with yields|intros ?]). apply yields_ret.
    unfold pristine_resource. cbn [fst CollectionOf r_Properties]. by rewrite Hps.
Qed.

Lemma quiet_extractNameVersion name : quiet (extractNameVersion (St := St) name).
Proof. unfold extractNameVersion. quiet. Qed.

Lemma parseVersionedResource_ok fuel f s : (parse_fuel <= fuel)%nat -> SchemaPool_Get pool f = Some s ->
  yields (fun r => pristine_resource false r = true) (parseVersionedResource (St := St) pool mapper fuel s).
Proof.
  intros Hfuel Hs. unfold parseVersionedResource. eapply yields_step; [apply quiet_extractNameVersion|]. intros [name version].
  do 2 (eapply yields_step; [eauto with yields|intros ?]). eapply yields_bind; [by eapply explore_top|]. intros ps Hps.
  do 4 (eapply yields_step; [eauto with yields|intros ?]). apply yields_ret.
  unfold pristine_resource. cbn [CollectionOf r_Properties]. by rewrite Hps.
Qed.

Lemma pristine_capabilities i u d r : pristine_resource false r = true -> pristine_resource false (with_capabilities i u d r) = true.
Proof. by destruct r. Qed.

Lemma quiet_ExtractResourceVersions obj : quiet (ExtractResourceVersions (St := St) obj).
Proof.
  unfold ExtractResourceVersions. destruct (mget KeyAnyOf obj); [|by apply yields_ret]. eapply yields_step; [eauto with yields|].
  intros l. assert (forall acc, quiet (extract_versions (St := St) l acc)); [|done].
  induction l as [|x l IH]; intros acc; cbn [extract_versions]; [by apply yields_ret|]. do 2 (eapply yields_step; [eauto with yields|intros ?]).
  destruct a0 as [r|]; [|apply yields_panic]. destruct (contains r "idRef"); [apply IH|]. destruct (String.eqb _ ""); [apply yields_panic|apply IH].
Qed.

Lemma quiet_selectResourceVersion name version versions : quiet (selectResourceVersion (S := St) mapper name version versions).
Proof. unfold selectResourceVersion. quiet. Qed.

Lemma ParseResource_ok fuel s : (parse_fuel <= fuel)%nat -> parsed false (ParseResource (St := St) pool mapper fuel s).
Proof.
  intros Hfuel. unfold ParseResource. eapply yields_step; [apply quiet_ExtractResourceVersions|]. intros refs.
  eapply yields_step; [apply quiet_selectResourceVersion|]. intros version. cbv zeta. destruct (String.eqb _ ""); [apply yields_panic|].
  destruct (SchemaPool_Get pool _) as [s'|] eqn:Es; [|apply yields_panic].
  eapply yields_bind; [by eapply parseVersionedResource_ok|]. intros r Hr. destruct (String.eqb _ "Redundancy.json").
  - apply yields_ret. by apply pristine_capabilities.
  - do 3 (eapply yields_step; [eauto with yields|intros ?]). apply yields_ret. by apply pristine_capabilities.
Qed.

Definition parsed_pools (c : gomap Resource * gomap Resource) : Prop :=
  all_in (pristine_resource true) (fst c) /\ all_in (pristine_resource false) (snd c).

Lemma parse_all_ok fuel versionMapping schemas : (parse_fuel <= fuel)%nat ->
  (forall e, e ∈ schemas -> exists f, SchemaPool_Get pool f = Some (snd e)) ->
  forall collections resources, parsed_pools (collections, resources) ->
  yields parsed_pools (parse_all (St := St) pool mapper fuel versionMapping schemas collections resources).
Proof.
  intros Hfuel. induction schemas as [|[k s] schemas IH]; intros Hin collections resources Hc; cbn [parse_all]; [by apply yields_ret|].
  assert (Hrest : forall e, e ∈ schemas -> exists f, SchemaPool_Get pool f = Some (snd e)) by (intros e He; apply Hin; by right).
  destruct (Hin (k, s)) as [f Hs]; [by left|]. simpl in Hs. destruct Hc as [Hc Hr]. destruct (Schema_IsCollection s).
  - destruct (mget (FileName s) (AllowedCollections versionMapping)) as [[]|]; [|by apply IH..].
    eapply yields_bind; [by eapply ParseCollection_ok|]. intros [r name] Hp. apply IH; [done|]. split; [by apply all_in_mput|done].
  - destruct (IsResource s && mmem (FileName s) (vm_Resources versionMapping)); [|by apply IH].
    eapply yields_bind; [by apply ParseResource_ok|]. intros [r name] Hp. apply IH; [done|]. split; [done|by apply all_in_mput].
Qed.

Lemma parseSchemas_ok fuel version : (parse_fuel <= fuel)%nat -> mwf (Pool pool) ->
  yields parsed_pools (parseSchemas (St := St) pool mapper fuel version).
Proof.
  intros Hfuel Hwf. unfold parseSchemas. destruct (VersionMapper_GetMapping mapper version) as [m|]; [|apply yields_panic].
  apply parse_all_ok; [done| |done]. intros [k s] Hin. exists k. by apply mget_elem.
Qed.
End resources.

(* ===================================================================== *)
(** * The preparation                                                    *)
(* ===================================================================== *)

Definition premarked (p : Property) : bool := marked_link p && copyable p.
Definition premarked_resource (r : Resource) : bool :=
  copyable_resource r && forallb (fun e => premarked (snd e)) (r_Properties r) && negb (IsCollection r).
Definition prepared_resource (r : Resource) : bool := copyable_resource r && well_marked r && negb (IsCollection r).
Definition prepared_collection (r : Resource) : bool := copyable_resource r && well_marked r.

Lemma forallb_impl {A} (f g : A -> bool) l : (forall x, f x = true -> g x = true) -> forallb f l = true -> forallb g l = true.
Proof. intros Hfg. rewrite !forallb_forall. auto. Qed.

Lemma pristine_premarked p : pristine p = true -> premarked p = true.
Proof. intros Hp. destruct (pristine_unmarked p Hp) as [Hc Hu]. unfold premarked. by rewrite (unmarked_marked p Hu), Hc. Qed.

Lemma pristine_all_premarked ps : pristine_all ps = true -> forallb (fun e => premarked (snd e)) ps = true.
Proof. unfold pristine_all. intros [_ Hps]%andb_true_iff. eapply forallb_impl; [|exact Hps]. intros e. apply pristine_premarked. Qed.

Lemma premarked_copyable (ps : properties) : forallb (fun e => premarked (snd e)) ps = true -> forallb (fun e => copyable (snd e)) ps = true.
Proof. apply forallb_impl. intros e. unfold premarked. by intros [_ ?]%andb_true_iff. Qed.

Lemma premarked_marked (ps : properties) : forallb (fun e => premarked (snd e)) ps = true -> forallb (fun e => marked_link (snd e)) ps = true.
Proof. apply forallb_impl. intros e. unfold premarked. by intros [? _]%andb_true_iff. Qed.

Lemma pristine_resource_inv b r : pristine_resource b r = true -> CollectionOf r = None /\ pristine_all (r_Properties r) = true /\ IsCollection r = b.
Proof.
  unfold pristine_resource. rewrite !andb_true_iff. intros [[Hc Hp] Hb%Bool.eqb_prop]. by destruct (CollectionOf r).
Qed.

Lemma pristine_collection r : pristine_resource true r = true -> prepared_collection r = true.
Proof.
  intros (Hc & Hp & Hb)%pristine_resource_inv. unfold prepared_collection, copyable_resource, well_marked. rewrite Hc, Hb.
  apply andb_true_iff. split; [by apply premarked_copyable, pristine_all_premarked|].
  unfold pristine_all in Hp. apply andb_true_iff in Hp as [_ Hp]. eapply forallb_impl; [|exact Hp]. intros e He. by apply pristine_unmarked.
Qed.

Lemma pristine_member r : pristine_resource false r = true -> premarked_resource r = true.
Proof.
  intros (Hc & Hp & Hb)%pristine_resource_inv. unfold premarked_resource, copyable_resource. rewrite Hc, Hb.
  pose proof (pristine_all_premarked _ Hp) as Hm. by rewrite Hm, (premarked_copyable _ Hm).
Qed.

Section prepare.
Context {S : Type}.

Lemma quiet_extract_linked ref : quiet (extractLinkedResourceType (S := S) ref).
Proof. unfold extractLinkedResourceType. quiet. Qed.

Definition converted_ok (c : Resource * Resource * Property) : Prop :=
  prepared_collection (fst (fst c)) = true /\ premarked_resource (snd (fst c)) = true /\ premarked (snd c) = true.

Lemma convertArrayToCollection_ok parent p : pristine p = true -> yields converted_ok (convertArrayToCollection (S := S) parent p).
Proof.
  intros Hp. unfold convertArrayToCollection. destruct (pi_arrayRefString (p_info p)); [|apply yields_panic].
  eapply yields_step; [apply quiet_extract_linked|]. intros ty. destruct (ArrayOf p) as [e|] eqn:Ea; [|apply yields_panic].
  eapply yields_step; [quiet|]. intros b. apply yields_ret. unfold converted_ok. cbn [fst snd].
  destruct p as [i ps arr link params target title]. simpl in Ea. subst arr.
  pose proof (pristine_unmarked _ Hp) as [Hcopy Hun]. apply pristine_node in Hp as (_ & _ & _ & Hps & He & _). simpl in He.
  assert (Hm : pristine_all (Properties_of e) = true).
  { destruct e. by apply pristine_node in He as (_ & _ & _ & ? & _). }
  pose proof (pristine_all_premarked _ Hm) as Hpre. split; [done|]. split.
  - unfold premarked_resource, copyable_resource. simpl. by rewrite Hpre, (premarked_copyable _ Hpre).
  - unfold premarked, marked_link, unmarked_below. simpl in Hun. apply andb_true_iff in Hun as [_ Hun]. simpl in *. by rewrite Hun, Hcopy.
Qed.

(** What [detectEmbeddedCollections] finds and leaves *)
Definition found_ok (found : embedded) : Prop := all_in prepared_collection (fst found) /\ all_in premarked_resource (snd found).

Lemma detect_embedded_ok parent ps : forall found, found_ok found -> forallb (fun e => pristine (snd e)) ps = true ->
  yields (fun r => found_ok (fst r) /\ forallb (fun e => premarked (snd e)) (snd r) = true) (detect_embedded (S := S) parent found ps).
Proof.
  induction ps as [|[name p] ps IH]; intros found Hf Hps; [by apply yields_ret|]. cbn [detect_embedded].
  simpl in Hps. apply andb_true_iff in Hps as [Hp Hps].
  eapply yields_bind with (P := fun o => match o with Some c => converted_ok c | None => True end).
  { destruct (is_type PropArray p); [|by apply yields_ret]. destruct (ArrayOf p); [|apply yields_panic].
    destruct (mmem "MemberId" (Properties_of p0)); [|by apply yields_ret].
    eapply yields_bind; [by apply convertArrayToCollection_ok|]. intros c Hc. by apply yields_ret. }
  intros [[[c r] p']|] Hc.
  - destruct Hc as (Hc & Hr & Hp'). cbn [fst snd] in *. destruct Hf as [Hf1 Hf2]. eapply yields_bind; [apply IH; [|exact Hps]; by split; apply all_in_mput|].
    intros [found' ps'] [Hf' Hps']. apply yields_ret. split; [done|]. cbn [snd forallb] in *. by rewrite Hp', Hps'.
  - eapply yields_bind; [by apply IH|]. intros [found' ps'] [Hf' Hps']. apply yields_ret. split; [done|]. cbn [snd forallb] in *.
    by rewrite (pristine_premarked p Hp), Hps'.
Qed.

Lemma detectEmbeddedCollections_ok rs : forall found, found_ok found -> all_in (pristine_resource false) rs ->
  yields (fun r => found_ok (fst r) /\ all_in premarked_resource (snd r)) (detectEmbeddedCollections (S := S) found rs).
Proof.
  unfold all_in. induction rs as [|[k r] rs IH]; intros found Hf Hrs; [by apply yields_ret|]. cbn [detectEmbeddedCollections].
  simpl in Hrs. apply andb_true_iff in Hrs as [Hr Hrs]. apply pristine_resource_inv in Hr as (Hcoll & Hps & Hb).
  eapply yields_bind; [apply detect_embedded_ok; [done|]; unfold pristine_all in Hps; by apply andb_true_iff in Hps as [_ ?]|].
  intros [found' ps'] [Hf' Hps']. cbn [fst snd] in *. eapply yields_bind; [by apply IH|]. intros [found'' rs'] [Hf'' Hrs'].
  apply yields_ret. split; [done|]. cbn [fst snd forallb] in *. rewrite Hrs', andb_true_r. destruct r as [i ps coll].
  unfold premarked_resource, copyable_resource, IsCollection in *. simpl in *. subst coll. by rewrite Hps', (premarked_copyable _ Hps'), Hb.
Qed.

(** ** The marks *)

Lemma copyable_with_info f p : copyable (with_info f p) = copyable p.
Proof. by destruct p. Qed.

Lemma copyable_detect_link name p : copyable p = true -> copyable (detect_link name p) = true.
Proof.
  intros Hc. unfold detect_link. destruct (is_type PropLink p); [by rewrite copyable_with_info|].
  destruct (_ && _); [|done]. destruct p as [i ps arr link params target title]. simpl in *. rewrite !andb_true_iff in *.
  destruct Hc as [[[[[Hps ?] ?] ?] ?] ?]. repeat split; try done. unfold map_values. rewrite forallb_forall in *.
  intros e He%list_elem_of_In. apply list_elem_of_fmap in He as ([k c] & -> & Hin%list_elem_of_In). simpl.
  specialize (Hps (k, c) Hin). simpl in Hps. destruct (is_type PropLink c); [by rewrite copyable_with_info|done].
Qed.

Lemma detectNavigationLinks_ok rs : all_in premarked_resource rs -> all_in prepared_resource (detectNavigationLinks rs).
Proof.
  unfold all_in. rewrite forallb_forall. intros Hrs.
  apply (mapped_entries (fun _ r => resource_with (map_values detect_link (r_Properties r)) r)).
  intros k r Hin%list_elem_of_In. apply Hrs in Hin. unfold premarked_resource in Hin. cbn [snd] in *.
  rewrite !andb_true_iff, negb_true_iff in Hin. destruct Hin as [[Hcopy Hpre] Hb].
  destruct (detected_resource r (premarked_marked _ Hpre) Hb) as [Hwm _]. unfold prepared_resource. rewrite Hwm.
  destruct r as [i ps coll]. unfold copyable_resource, IsCollection in *. simpl in *. destruct coll; [done|]. rewrite Hb, !andb_true_r.
  apply mapped_entries. intros k' p Hp%list_elem_of_In. apply copyable_detect_link.
  rewrite forallb_forall in Hcopy. exact (Hcopy (k', p) Hp).
Qed.

Lemma marked_nav_array name p : marked_property (name, with_info mark_nav_array p) = marked_property (name, p).
Proof. by destruct p. Qed.

Lemma detect_array_ok name p : marked_property (name, p) = true -> copyable p = true ->
  yields (fun q => marked_property (name, q) = true /\ copyable q = true) (detect_array (S := S) name p).
Proof.
  intros Hm Hc. unfold detect_array. destruct (is_type PropArray p); [|by apply yields_ret].
  destruct (ArrayOf p); [|apply yields_panic]. apply yields_ret. destruct (_ && _); [|done]. by rewrite marked_nav_array, copyable_with_info.
Qed.

Lemma map_entries_yields {A B} (P : string -> A -> Prop) (Q : string -> B -> Prop) (f : string -> A -> M S B) l :
  (forall k a, P k a -> yields (Q k) (f k a)) -> Forall (fun e => P (fst e) (snd e)) l ->
  yields (fun l' => Forall (fun e => Q (fst e) (snd e)) l') (map_entries f l).
Proof.
  intros Hf. induction 1 as [|[k a] l Ha _ IH]; [by apply yields_ret|]. cbn [map_entries]. eapply yields_bind; [by apply Hf|].
  intros b Hb. eapply yields_bind; [exact IH|]. intros l' Hl'. apply yields_ret. by constructor.
Qed.

Lemma Forall_forallb {A} (f : A -> bool) l : Forall (fun x => f x = true) l <-> forallb f l = true.
Proof. rewrite forallb_forall, Forall_forall. split; intros Hf x Hx; apply Hf; by apply list_elem_of_In. Qed.

Lemma detectNavigationArrays_ok rs : all_in prepared_resource rs ->
  yields (all_in prepared_resource) (detectNavigationArrays (S := S) rs).
Proof.
  intros Hrs. unfold detectNavigationArrays. eapply yields_mono.
  - apply (map_entries_yields (fun _ r => prepared_resource r = true) (fun _ r => prepared_resource r = true)); [|by apply Forall_forallb].
    intros k r Hr. destruct (String.eqb _ _); [by apply yields_ret|].
    unfold prepared_resource, copyable_resource, well_marked in Hr. rewrite !andb_true_iff, negb_true_iff in Hr.
    destruct Hr as [[Hcopy Hwm] Hb]. rewrite Hb in Hwm. destruct (CollectionOf r) eqn:Ecoll; [done|]. eapply yields_bind.
    + apply (map_entries_yields (fun k p => marked_property (k, p) = true /\ copyable p = true)
        (fun k p => marked_property (k, p) = true /\ copyable p = true)).
      { intros k' p [Hm Hc]. by apply detect_array_ok. }
      rewrite forallb_forall in Hwm, Hcopy. apply Forall_forall. intros [k' p] Hin%list_elem_of_In. split; [by apply Hwm|exact (Hcopy _ Hin)].
    + intros ps' Hps'. apply yields_ret. destruct r as [i ps coll]. unfold prepared_resource, copyable_resource, well_marked, IsCollection in *.
      simpl in *. subst coll. rewrite Hb, andb_true_r. rewrite Forall_forall in Hps'. apply andb_true_iff.
      split; apply forallb_forall; intros [k' p] Hin%list_elem_of_In; by apply (Hps' (k', p)).
  - intros rs' Hrs'. by apply Forall_forallb.
Qed.

(** What the linking expects of its pools, but for the references *)
Definition prepared_pools (c : gomap Resource * gomap Resource) : Prop :=
  all_in prepared_collection (fst c) /\ all_in prepared_resource (snd c).

Lemma prepare_pool_ok collections resources : parsed_pools (collections, resources) ->
  yields prepared_pools (prepare_pool (S := S) collections resources).
Proof.
  intros [Hc Hr]. unfold prepare_pool. eapply yields_bind; [by apply detectEmbeddedCollections_ok|].
  intros [[ec er] rs] [[Hec Her] Hrs]. cbn [fst snd] in *.
  eapply yields_bind; [by apply detectNavigationArrays_ok, detectNavigationLinks_ok, all_in_merge|].
  intros rs' Hrs'. apply yields_ret. split; [|done]. apply all_in_merge; [|done]. eapply forallb_impl; [|exact Hc]. intros e. apply pristine_collection.
Qed.
End prepare.

Lemma prepared_collection_of r : prepared_resource r = true -> prepared_collection r = true.
Proof. unfold prepared_resource, prepared_collection. by intros [? _]%andb_true_iff. Qed.

Lemma prepared_nil r : prepared_collection r = true -> nil_links r = true.
Proof.
  unfold prepared_collection, copyable_resource, nil_links. intros [Hc _]%andb_true_iff. destruct (CollectionOf r); [done|].
  eapply forallb_impl; [|exact Hc]. intros [k p]. simpl. destruct p as [i ps arr [l|] params target title]; simpl.
  - rewrite !andb_false_r, !andb_false_l. done.
  - intros _. by rewrite andb_false_r.
Qed.

Lemma prepared_ready collections resources : prepared_pools (collections, resources) ->
  pool_nil collections resources = true /\ all_in well_marked (allResources collections resources) /\ all_in well_marked resources.
Proof.
  intros [Hc Hr]. cbn [fst snd] in *.
  assert (Hr' : all_in prepared_collection resources) by (eapply forallb_impl; [|exact Hr]; intros e; apply prepared_collection_of).
  pose proof (all_in_allResources _ _ _ Hc Hr') as Hall.
  assert (Hwm : forall m, all_in prepared_collection m -> all_in well_marked m).
  { intros m. apply forallb_impl. intros e. unfold prepared_collection. by intros [_ ?]%andb_true_iff. }
  split; [|split; by apply Hwm]. unfold pool_nil. eapply forallb_impl; [|exact Hall]. intros e. apply prepared_nil.
Qed.
