(* ===== verification/SchemaTree.v ===== *)
(** The guarantees of [CreateTree]: from the schema files to a tree in which
    every URI can be looked up. *)
From S2P Require Import Prelude Values Schema Fields Walk Versions Tree Linking TreeBuilt TreeChecked TreeLinked.
From S2P Require Import Parsing Parsed Preparation.

(* ===================================================================== *)
(** * The files                                                          *)
(* ===================================================================== *)

Section files.
Context `{JsonReferences} {St : Type}.

Definition ok_all {A} (P : A -> Prop) (r : result A) : Prop := match r with Ok a => P a | Err _ => True end.

Lemma yields_bind_ok {A B} (P : A -> Prop) (Q : B -> Prop) (m : M St (result A)) (k : A -> M St (result B)) :
  yields (ok_all P) m -> (forall a, P a -> yields (ok_all Q) (k a)) -> yields (ok_all Q) (bind_ok m k).
Proof. intros Hm Hk. eapply yields_bind; [exact Hm|]. intros [a|e] Ha; [by apply Hk|by apply yields_ret]. Qed.

Lemma top_level_ok fileName body :
  yields (ok_all (fun t => forall m, t = Some m -> exists tokens, pointer_Get tokens (VObject body) = Some (VObject m)))
    (top_level (St := St) fileName body).
Proof.
  unfold top_level. eapply yields_step; [quiet|]. intros [r|]; [|by apply yields_ret].
  destruct (NewJsonReference r) as [ref|]; [|by apply yields_ret]. destruct (HasFragmentOnly ref); [|by apply yields_ret].
  destruct (pointer_Get (ref_Pointer ref) (VObject body)) as [raw|] eqn:Er; [|apply yields_panic].
  eapply yields_bind; [apply yields_object|]. intros m [= ->]. apply yields_ret. intros m' [= <-]. by eexists.
Qed.

Lemma ReadSchema_ok path contents : yields (ok_all top_inside) (ReadSchema (St := St) path contents).
Proof.
  unfold ReadSchema. destruct contents as [raw|]; [|by apply yields_ret]. destruct (Unmarshal_map raw) as [body|]; [|by apply yields_ret].
  eapply yields_bind_ok; [apply top_level_ok|]. intros t Ht. by apply yields_ret.
Qed.

(** A pool from files: a schema per name, whose top level schema is in the
    document *)
Definition pool_wf (sp : SchemaPool) : Prop := mwf (Pool sp) /\ pool_read sp.

Lemma pool_wf_schema name s sp : pool_wf sp -> top_inside s -> pool_wf (with_schema name s sp).
Proof.
  intros [Hwf Hr] Hs. split; [by apply mwf_mput|]. intros f s'. unfold SchemaPool_Get. simpl.
  destruct (decide (name = f)) as [<-|Hne]; [rewrite mget_mput_eq; by intros [= <-]|].
  rewrite mget_mput_ne by done. apply Hr.
Qed.

Lemma read_files_ok dir files : forall sp, pool_wf sp -> yields (ok_all pool_wf) (read_files (St := St) dir sp files).
Proof.
  induction files as [|[name contents] files IH]; intros sp Hsp; [by apply yields_ret|]. cbn [read_files].
  eapply yields_bind_ok; [apply ReadSchema_ok|]. intros s Hs. by apply IH, pool_wf_schema.
Qed.

Lemma ReadDir_ok sp dir files : pool_wf sp -> yields (ok_all pool_wf) (SchemaPool_ReadDir (St := St) sp dir files).
Proof. intros Hsp. destruct files as [files|]; [by apply read_files_ok|by apply yields_ret]. Qed.

Lemma load_pool_ok files config version : yields (ok_all pool_wf) (load_pool (St := St) files config version).
Proof.
  unfold load_pool. eapply yields_bind_ok; [apply ReadDir_ok; by split; [constructor|]|]. intros sp Hsp.
  destruct (String.eqb (OemMappings config) ""); [by apply yields_ret|].
  unfold AddOemExtensions. destruct (sf_mapping files) as [[mapping|]|]; [|by apply yields_ret..].
  eapply yields_bind; [apply ReadDir_ok; exact Hsp|]. intros [sp'|e] Hsp'; by apply yields_ret.
Qed.

Lemma yields_run {A} (Q : A -> Prop) (m : M St A) s a s' : yields Q m -> m s = (Ret a, s') -> s' = s /\ Q a.
Proof. intros Hm E. specialize (Hm s). by rewrite E in Hm. Qed.
End files.

(* ===================================================================== *)
(** * Properties                                                         *)
(* ===================================================================== *)



(** An array of arrays is never parsed.  For inline elements
    [exploreArray] explores the array again, not the schema of the elements:
    when their type is array, exploring recurses on the same object, whatever
    the fuel. *)
Theorem nested_array_diverges `{JsonReferences} `{FloatText} {St} pool mapper fuel s path prop item (st : St)
    (Hitems : mget KeyItems prop = Some (VObject item)) (Href : mget KeyRef item = None)
    (Htype : mget KeyType item = Some (VString "array")) :
  exType (explorer_at pool mapper fuel) s path prop (VString "array") st = (OutOfFuel, st).
Proof.
  induction fuel as [|fuel IH]; [done|]. cbn [explorer_at exType]. unfold exploreType. erewrite bind_step by reflexivity.
  unfold bind at 1. cbn [String.eqb Ascii.eqb Bool.eqb]. unfold exploreArray, bind at 1. rewrite Hitems, Href, Htype.
  unfold bind at 1. by rewrite IH.
Qed.

(* ===================================================================== *)
(** * Example                                                            *)
(* ===================================================================== *)

Module SchemaTreeExample.
(** References of the form [http://redfish.dmtf.org<path>#<pointer>] *)
Definition parse_reference (r : string) : result JsonReference :=
  match split_on "#" r with
  | [url] => Ok (mkJsonReference false (trim_prefix "http://redfish.dmtf.org" url) [])
  | [url; fragment] =>
      match split_slash fragment with
      | "" :: tokens => Ok (mkJsonReference (String.eqb url "") (trim_prefix "http://redfish.dmtf.org" url) tokens)
      | _ => Err (ErrText "JSON pointer must be empty or start with a '/'")
      end
  | _ => Err (ErrText "invalid URL")
  end.
Instance json_references : JsonReferences := { NewJsonReference := parse_reference }.

Definition str (t : string) : value := VString t.
Definition typed (t : string) : value := VObject [("type", str t)].
Definition ref (r : string) : value := VObject [("$ref", str r)].
Definition url (file name : string) : string := "http://redfish.dmtf.org/schemas/v1/" +:+ file +:+ "#/definitions/" +:+ name.
Definition definitions (top : string) (defs : object) : result request_body :=
  Ok (BodyValue (VObject [("$ref", str ("#/definitions/" +:+ top)); ("definitions", VObject defs)])).
Definition idRef : value := ref (url "odata.json" "idRef").
Definition capabilities : object := [("insertable", VBool true); ("updatable", VBool false); ("deletable", VBool true)].
Definition unversioned (name : string) : result request_body :=
  definitions name [(name, VObject (("anyOf", VArray [idRef; ref (url (name +:+ ".v1_0_0.json") name)]) :: capabilities))].
Definition fields (ps : object) : value :=
  VObject [("additionalProperties", VBool false); ("required", VArray [str "Name"]); ("type", str "object"); ("properties", VObject ps)].

(** A service root with a collection of managers, whose fans are an array of
    members *)
Definition schema_files : list (string * result request_body) :=
  [("ServiceRoot.json", unversioned "ServiceRoot");
   ("ServiceRoot.v1_0_0.json", definitions "ServiceRoot" [("ServiceRoot", fields
      [("Name", ref (url "Resource.json" "Name")); ("Managers", ref (url "ManagerCollection.json" "ManagerCollection"))])]);
   ("ManagerCollection.json", definitions "ManagerCollection" [("ManagerCollection",
      VObject (("anyOf", VArray [idRef; fields [("Name", ref (url "Resource.json" "Name"))]]) :: capabilities))]);
   ("Manager.json", unversioned "Manager");
   ("Manager.v1_0_0.json", definitions "Manager" [("Manager", fields
      [("Name", ref (url "Resource.json" "Name"));
       ("Count", VObject [("type", VArray [str "integer"; str "null"]); ("readonly", VBool true)]);
       ("Fans", VObject [("type", str "array"); ("items", ref "#/definitions/Fan")])]);
      ("Fan", fields [("MemberId", typed "string"); ("Reading", typed "number")])]);
   ("Resource.json", Ok (BodyValue (VObject [("definitions", VObject [("Name", typed "string")])])))].

Definition files : SchemaFiles := mkSchemaFiles (Ok schema_files) (Ok (Ok [])) (Ok []).
Definition config : Config := mkConfig "" "/schemas" "" "" "" "2017.3" "" "".
Definition mapping : VersionMapping := mkVersionMapping Version2017_3
  [("ServiceRoot.json", "v1_0_0"); ("Manager.json", "v1_0_0")] [] [("ManagerCollection.json", true)] [].
Definition mapper : VersionMapper := [(Version2017_3, mapping)].

Definition rank (j : Schema * string) : nat :=
  if contains (snd j) "/Fan" then 1 else if contains (snd j) "/Name" then 0
  else if contains (snd j) "ManagerCollection" then 0 else 2.

Definition start : tree_state := mkTreeState [] [] [].
Definition loaded : SchemaPool :=
  match fst (load_pool (St := tree_state) files config Version2017_3 start) with Ret (Ok p) => p | _ => NewSchemaPool VersionUnknown end.
Definition prepared : gomap Resource * gomap Resource :=
  match fst ((parsed <- parseSchemas loaded mapper 160 Version2017_3 ;; prepare_pool (fst parsed) (snd parsed)) start) with
  | Ret p => p | _ => ([], []) end.
Definition root : Resource := match mget "ServiceRoot" (snd prepared) with Some r => r | None => cycle_resource end.

Lemma loaded_wf : pool_wf loaded.
Proof.
  assert (E : load_pool (St := tree_state) files config Version2017_3 start = (Ret (Ok loaded), start)) by (vm_compute; reflexivity).
  by destruct (yields_run _ _ _ _ _ (load_pool_ok files config Version2017_3) E).
Qed.


(** The parsing succeeds, and the fans become a collection. *)
Example parsed_names :
  (map fst (fst prepared), map fst (snd prepared)) = (["ManagerCollection"; "FanCollection"], ["ServiceRoot"; "Manager"; "Fan"]).
Proof. vm_compute. reflexivity. Qed.


(** An array of arrays of strings *)
Definition matrix : object := [("type", str "array"); ("items", VObject [("type", str "array"); ("items", typed "string")])].

Lemma nested_array_diverges_witness :
  exType (explorer_at loaded mapper 1000) (mkSchema "Matrix.json" [] None) [] matrix (VString "array") tt = (OutOfFuel, tt).
Proof.
  by apply (nested_array_diverges loaded mapper 1000 (mkSchema "Matrix.json" [] None) [] matrix
    [("type", str "array"); ("items", typed "string")] tt).
Defined.
End SchemaTreeExample.
