(* ===== verification/Configuration.v ===== *)
(** The configuration of the schema tree ([internal/rfschema/configuration.go])

    A program takes the parameters from its flags or from the environment,
    reads the mappings of the versions, and builds the tree. *)
From S2P Require Import Prelude Values Schema Versions Tree Parsing.

(** What [os.Stat] and [os.LookupEnv] tell *)
Record Surroundings := mkSurroundings {
  env_lookup : string -> option string;
  path_missing : string -> bool;
}.

(** [SetupPFlagConfig]: a configuration with the values of the flags; the
    directories of the schemas and of the mappings are not set. *)
Definition SetupPFlagConfig (version oem oemext : string) : Config :=
  mkConfig "" "" "" "" "" version oem oemext.

Definition ParsePFlagConfig (config : Config) : result unit :=
  if String.eqb (cfg_Version config) "" then Err (ErrText "-version flag is not set")
  else if negb (String.eqb (OemMappings config) "") && String.eqb (OemExtensionDir config) "" then
    Err (ErrText "-oem flag required -oemext to be also set")
  else Ok tt.

Section environment.
Variable world : Surroundings.

Definition env_schemaDir (contribDirPrefix versionStr : string) : string :=
  path_join [contribDirPrefix; "contrib/DMTF/DSP8010-Redfish_Schema/DSP8010_" +:+ versionStr +:+ "/json-schema"].
Definition env_mappingDir (contribDirPrefix : string) : string :=
  path_join [contribDirPrefix; "contrib/Cray/hms-redfish-schema-tools/Mappings"].

Definition SetupEnvConfig : result Config :=
  let contribDirPrefix := default "." (env_lookup world "CONTRIB_DIR_PREFIX") in
  match env_lookup world "SCHEMA_VERSION" with
  | None => Err (ErrText "SCHEMA_VERSION environment variable is not set")
  | Some versionStr =>
      let schemaDir := env_schemaDir contribDirPrefix versionStr in
      let mappingDir := env_mappingDir contribDirPrefix in
      if path_missing world schemaDir then Err (ErrText "schema directory does not exist")
      else if path_missing world mappingDir then Err (ErrText "mapping directory does not exist")
      else
        match env_lookup world "OEM_MAPPINGS", env_lookup world "OEM_EXTENSION_DIR" with
        | Some _, None =>
            Err (ErrText "OEM_MAPPINGS environment variable requires OEM_EXTENSION_DIR to be also set")
        | oemMappings, oemExtensionDir =>
            Ok (mkConfig contribDirPrefix schemaDir mappingDir "" "" versionStr
                  (default "" oemMappings) (default "" oemExtensionDir))
        end
  end.
End environment.

(** [LoadTreeFromConfig]: the tree, and the mapper, which is one for the whole
    program ([GetVersionMapper]).  [mappings] are the files of the directory
    of the mappings, or the error of reading it. *)
Definition LoadTreeFromConfig `{JsonReferences} `{FloatText} (fuel : nat) (mapper : VersionMapper)
    (mappings : result (list (string * result VersionMapping))) (files : SchemaFiles) (config : Config) :
    T (result (VersionMapper * addr)) :=
  match mappings with
  | Err err => ret (Err (ErrText ("Unable to read mapping directory. Reason: " +:+ err_string err)))
  | Ok mappings =>
      match VersionMapper_ReadDir mapper mappings with
      | Err err => ret (Err err)
      | Ok mapper' =>
          match ParseVersion (cfg_Version config) with
          | Err err => ret (Err err)
          | Ok version =>
              tree <-? CreateTree fuel mapper' files config version ;;
              ret (Ok (mapper', tree))
          end
      end
  end.

(* ===================================================================== *)
(** * Theorems                                                           *)
(* ===================================================================== *)

(** A configuration from the environment has what a tree needs: the version
    that was asked for, two directories that exist, and the directory of the
    extensions if there are extensions. *)
Theorem SetupEnvConfig_complete world config :
  SetupEnvConfig world = Ok config ->
  env_lookup world "SCHEMA_VERSION" = Some (cfg_Version config) /\
  path_missing world (SchemaDir config) = false /\ path_missing world (MappingDir config) = false /\
  (env_lookup world "OEM_MAPPINGS" = None \/
   env_lookup world "OEM_EXTENSION_DIR" = Some (OemExtensionDir config)).
Proof.
  unfold SetupEnvConfig. destruct (env_lookup world "SCHEMA_VERSION") as [v|]; [|done].
  destruct (path_missing world (env_schemaDir _ _)) eqn:Hs; [done|].
  destruct (path_missing world (env_mappingDir _)) eqn:Hm; [done|].
  destruct (env_lookup world "OEM_MAPPINGS") as [o|], (env_lookup world "OEM_EXTENSION_DIR") as [e|]; intros [= <-]; auto.
Qed.

Lemma ReadDir_keeps files mapper mapper' version mapping :
  VersionMapper_ReadDir mapper files = Ok mapper' ->
  VersionMapper_GetMapping mapper version = Some mapping -> VersionMapper_GetMapping mapper' version = Some mapping.
Proof.
  revert mapper. induction files as [|[path [m|e]] files IH]; intros mapper; cbn [VersionMapper_ReadDir]; [by intros [= ->]| |done].
  destruct (VersionMapper_AddMapping mapper m) as [mapper1|e] eqn:E; [|done]. intros Hr Hv. apply (IH mapper1 Hr).
  revert E. unfold VersionMapper_AddMapping. destruct (VersionMapper_GetMapping mapper (vm_Version m)); [done|].
  intros [= <-]. by rewrite GetMapping_app, Hv.
Qed.

Lemma ReadDir_first path mapping files mapper mapper' :
  VersionMapper_ReadDir mapper ((path, Ok mapping) :: files) = Ok mapper' ->
  VersionMapper_GetMapping mapper' (vm_Version mapping) = Some mapping.
Proof.
  cbn [VersionMapper_ReadDir]. destruct (VersionMapper_AddMapping mapper mapping) as [mapper1|e] eqn:E; [|done].
  intros Hr. apply (ReadDir_keeps _ _ _ _ _ Hr). rewrite (AddMapping_gets _ _ _ _ E). by rewrite decide_True by done.
Qed.

(** The mapper is filled once: a second tree cannot be loaded from the same
    directory of mappings. *)
Theorem LoadTreeFromConfig_once `{JsonReferences} `{FloatText} fuel mapper mapper' path mapping mappings files config s s' tree :
  LoadTreeFromConfig fuel mapper (Ok ((path, Ok mapping) :: mappings)) files config s = (Ret (Ok (mapper', tree)), s') ->
  LoadTreeFromConfig fuel mapper' (Ok ((path, Ok mapping) :: mappings)) files config s'
  = (Ret (Err (ErrText ("Unable to add mapping file: " +:+ path +:+ " Reason: Version mapping already exists"))), s').
Proof.
  intros Hload. assert (Hm : VersionMapper_GetMapping mapper' (vm_Version mapping) = Some mapping).
  { unfold LoadTreeFromConfig in Hload. destruct (VersionMapper_ReadDir mapper _) as [m|e] eqn:E; [|done].
    destruct (ParseVersion (cfg_Version config)) as [version|e]; [|done]. unfold bind_ok in Hload.
    apply bind_ret_inv in Hload as ([a|e] & s1 & _ & Hk); [|done]. injection Hk as <- _ _. by apply (ReadDir_first _ _ _ _ _ E). }
  unfold LoadTreeFromConfig. cbn [VersionMapper_ReadDir]. unfold VersionMapper_AddMapping. by rewrite Hm.
Qed.
