(* ===== verification/RedisStruct.v ===== *)
(** Storing structures in Redis: the first half of
    [internal/rfdispatcher/dispatcher/redisstruct.go].

    [Interface2Redis] converts a decoded JSON object, guided by the schema,
    into the intermediate data [rdata]; [RedisInsert] writes intermediate data
    below a key, [RedisPatch] updates what is there, and [RedisRemoveResource]
    removes it.  The storage scheme itself is stated once, as the function
    [image] from intermediate data to the keys it occupies.

    The path handed to a callback is an immutable list here.  The Go code
    appends to a slice, which from the fourth level of nesting on may share
    its backing array with a sibling's path. *)
From S2P Require Import Prelude Values Redis Schema.

(** [key + "/" + name] *)
Definition child (key name : string) : string := key +:+ String slash name.

Definition isRedfishValueString (t : PropertyType) : bool :=
  match t with
  | PropEnum | PropString | PropNumber | PropInteger | PropBool => true
  | _ => false
  end.

(* ===================================================================== *)
(** * Intermediate data                                                  *)
(* ===================================================================== *)

(** What [Interface2Redis] produces: nil, the text of a simple value, a
    [redisArray], or the map of an object. *)
Inductive rdata :=
  | DNil
  | DStr (s : string)
  | DArr (isObject : bool) (elements : list rdata)
  | DObj (m : list (string * rdata)).

Definition is_DNil (d : rdata) : bool := match d with DNil => true | _ => false end.
Arguments is_DNil : simpl never.

(** What a callback is shown: the raw value, or the converted one. *)
Inductive cb_value := CbRaw (v : value) | CbResult (d : rdata).

(** [Interface2RedisCB], over the variables [C] its closure captures. *)
Definition Interface2RedisCB (C : Type) : Type :=
  option Property -> list string -> cb_value -> bool -> M C bool.

Definition convert_error (path : list string) : go_error :=
  ErrText ("Unable to convert type for field: " +:+ join "/" path).

Section convert.
Context `{FloatText} {C : Type}.
Variable cb : option (Interface2RedisCB C).

(** [cb == nil || cb(...)] *)
Definition run_cb (p : option Property) (path : list string) (v : cb_value) (unknown : bool) : M C bool :=
  match cb with None => ret true | Some f => f p path v unknown end.

Section loops.
Variable field : list string -> Property -> value -> M C (result (rdata * bool)).

(** The loop of [Interface2Redis] over the fields of an object. *)
Fixpoint Interface2Redis_loop (path : list string) (ps : properties)
    (object : list (string * value)) (acc : gomap rdata) : M C (result (gomap rdata)) :=
  match object with
  | [] => ret (Ok acc)
  | (name, valueRaw) :: rest =>
      let propertyPath := path ++ [name] in
      match mget name ps with
      | None =>
          match cb with
          | None => ret (Err (ErrText ("Unknown property: " +:+ name)))
          | Some f =>
              f None propertyPath (CbRaw valueRaw) true ;;
              Interface2Redis_loop path ps rest acc
          end
      | Some property =>
          r <-? field propertyPath property valueRaw ;;
          let '(resultField, isNull) := r in
          Interface2Redis_loop path ps rest
            (if negb (is_DNil resultField) || isNull then mput name resultField acc else acc)
      end
  end.

(** The loop of [structArray2Redis] over the elements of an array. *)
Fixpoint structArray2Redis_loop (path : list string) (elementProperty : Property)
    (i : nat) (array : list value) : M C (result (list rdata)) :=
  match array with
  | [] => ret (Ok [])
  | elementRaw :: rest =>
      r <-? field (path ++ [format_nat i]) elementProperty elementRaw ;;
      elements <-? structArray2Redis_loop path elementProperty (S i) rest ;;
      ret (Ok (fst r :: elements))
  end.
End loops.

(** The end of [structField2Redis]: the callback decides whether the value
    is kept. *)
Definition structField_finish (path : list string) (property : Property) (converted : rdata) :
    M C (result (rdata * bool)) :=
  keep <- run_cb (Some property) path (CbResult converted) false ;;
  ret (Ok (if keep : bool then converted else DNil, false)).

Fixpoint structField2Redis (path : list string) (property : Property) (valueRaw : value) :
    M C (result (rdata * bool)) :=
  let unable := ret (Err (convert_error path)) in
  match valueRaw, pi_NullAllowed (p_info property) with
  | VNil, true =>
      allowed <- run_cb (Some property) path (CbRaw VNil) false ;;
      ret (Ok (DNil, allowed))
  | _, _ =>
      match p_Type property with
      | PropObject =>
          match valueRaw with
          | VObject obj =>
              data <-? Interface2Redis_loop structField2Redis path (Properties_of property) obj [] ;;
              structField_finish path property (DObj data)
          | _ => unable
          end
      | PropAction => structField_finish path property DNil
      | PropEnum | PropString =>
          match valueRaw with
          | VString s => structField_finish path property (DStr s)
          | _ => unable
          end
      | PropNumber =>
          match valueRaw with
          | VFloat f => structField_finish path property (DStr (format_float f))
          | _ => unable
          end
      | PropInteger =>
          match valueRaw with
          | VFloat f => structField_finish path property (DStr (format_int (float_to_int64 f)))
          | _ => unable
          end
      | PropBool =>
          match valueRaw with
          | VBool b => structField_finish path property (DStr (format_bool b))
          | _ => unable
          end
      | PropArray =>
          match valueRaw with
          | VArray array =>
              match ArrayOf property with
              | None => panic "runtime error: invalid memory address or nil pointer dereference"
              | Some elementProperty =>
                  elements <-? structArray2Redis_loop structField2Redis path elementProperty 0 array ;;
                  structField_finish path property
                    (DArr (negb (isRedfishValueString (p_Type elementProperty))) elements)
              end
          | _ => unable
          end
      | PropLink =>
          match valueRaw with
          | VObject value =>
              if IsNavLink property then structField_finish path property DNil
              else match mget "@odata.id" value with
                   | Some (VString link) =>
                       structField_finish path property (DObj [("@odata.id", DStr link)])
                   | _ => panic "interface conversion: interface {} is not string"
                   end
          | _ => panic "interface conversion: interface {} is not map[string]interface {}"
          end
      | PropUnknown | PropMultiple =>
          panic ("Cannot handle type:" +:+ PropertyType_String (p_Type property))
      end
  end.

(** [structArray2Redis] and [Interface2Redis] themselves *)
Definition structArray2Redis (path : list string) (arrayProperty : Property) (array : list value) :
    M C (result rdata) :=
  match ArrayOf arrayProperty with
  | None => panic "runtime error: invalid memory address or nil pointer dereference"
  | Some elementProperty =>
      elements <-? structArray2Redis_loop structField2Redis path elementProperty 0 array ;;
      ret (Ok (DArr (negb (isRedfishValueString (p_Type elementProperty))) elements))
  end.

Definition Interface2Redis (path : list string) (ps : properties) (obj : object) :
    M C (result (gomap rdata)) :=
  Interface2Redis_loop structField2Redis path ps obj [].
End convert.

(* ===================================================================== *)
(** * Writing                                                            *)
(* ===================================================================== *)

Section write.
Context {S : Type} `{RedisOps S}.

(** How go-redis sends an element of a [redisArray] of simple values. *)
Definition element_arg (d : rdata) : string := match d with DStr s => s | _ => "" end.

(** The elements of an array of objects: each is announced by its index in
    the list at [key] and stored below it. *)
Section contents.
Variable insert : rdata -> string -> M S (result unit).
Fixpoint RedisInsert_objects (key : string) (i : nat) (elements : list rdata) : M S (result unit) :=
  match elements with
  | [] => ret (Ok tt)
  | element :: rest =>
      _ <-? redis_rpush key [format_nat i] ;;
      match element with
      | DObj _ =>
          insert element (child key (format_nat i)) ;;
          RedisInsert_objects key (Datatypes.S i) rest
      | _ => panic "interface conversion: interface {} is not map[string]interface {}"
      end
  end.

(** The fields of an object: each is written, its own error is dropped. *)
Fixpoint RedisInsert_fields (key : string) (data : list (string * rdata)) : M S unit :=
  match data with
  | [] => ret tt
  | (name, propertyRaw) :: rest =>
      insert propertyRaw (child key name) ;; RedisInsert_fields key rest
  end.
End contents.

Fixpoint RedisInsert (valueRaw : rdata) (key : string) : M S (result unit) :=
  match valueRaw with
  | DStr value => redis_set key value
  | DArr true elements => RedisInsert_objects RedisInsert key 0 elements
  | DArr false elements => redis_rpush key (map element_arg elements)
  | DObj data =>
      RedisInsert_fields RedisInsert key data ;;
      must (redis_sadd key (map fst data)) ;;
      ret (Ok tt)
  | DNil => ret (Ok tt)
  end.

(* ===================================================================== *)
(** * Removing                                                           *)
(* ===================================================================== *)

(** The three removal functions call each other; [remove_object] stands for
    [redisRemoveObject] in the other two. *)
Section remove.
Variable remove_object : properties -> string -> M S unit.

Fixpoint redisRemoveArray_elements (ps : properties) (keySpace : string) (elements : list string) : M S unit :=
  match elements with
  | [] => ret tt
  | element :: rest =>
      remove_object ps (child keySpace element) ;;
      redisRemoveArray_elements ps keySpace rest
  end.

Definition redisRemoveArray (arrayProperty : option Property) (keySpace : string) : M S unit :=
  match arrayProperty with
  | None => ret tt
  | Some p =>
      match ArrayOf p with
      | None => panic "runtime error: invalid memory address or nil pointer dereference"
      | Some elementProperty =>
          if isRedfishValueString (p_Type elementProperty) then ret tt
          else
            elements <- must (redis_lrange keySpace) ;;
            redisRemoveArray_elements (Properties_of elementProperty) keySpace elements
      end
  end ;;
  redis_del keySpace ;;
  must (redis_del keySpace).

Definition redisRemoveField (property : option Property) (keySpace : string) : M S unit :=
  keyType <- must (redis_type keySpace) ;;
  if String.eqb keyType "string" then must (redis_del keySpace)
  else if String.eqb keyType "set" then
    match property with
    | Some p =>
        if is_type PropLink p && IsNavLink p then ret tt
        else remove_object (Properties_of p) keySpace
    | None => remove_object [] keySpace
    end
  else if String.eqb keyType "list" then redisRemoveArray property keySpace
  else ret tt.
End remove.

Fixpoint redisRemoveObject (fuel : nat) (ps : properties) (keySpace : string) : M S unit :=
  match fuel with
  | O => out_of_fuel
  | Datatypes.S fuel' =>
      members <- must (redis_smembers keySpace) ;;
      must (redis_del keySpace) ;;
      for_each (fun name =>
        redisRemoveField (redisRemoveObject fuel') (mget name ps) (child keySpace name)) members
  end.

Definition RedisRemoveResource (fuel : nat) (resource : Resource) (uri : string) : M S unit :=
  redisRemoveObject fuel (r_Properties resource) uri.

(* ===================================================================== *)
(** * Updating                                                           *)
(* ===================================================================== *)

(** A field that is null is removed from its object and from Redis. *)
Definition RedisPatch_null (fuel : nat) (key name : string) : M S unit :=
  must (redis_srem key name) ;;
  keyType <- must (redis_type (child key name)) ;;
  if String.eqb keyType "string" then must (redis_del (child key name))
  else if String.eqb keyType "set" then redisRemoveObject fuel [] (child key name)
  else ret tt.

Section patch.
Variable patch : rdata -> string -> M S (result unit).
Variable fuel : nat.
Fixpoint RedisPatch_fields (key : string) (data : list (string * rdata)) : M S unit :=
  match data with
  | [] => ret tt
  | (name, propertyRaw) :: rest =>
      (if is_DNil propertyRaw then RedisPatch_null fuel key name
       else patch propertyRaw (child key name) ;; must (redis_sadd key [name])) ;;
      RedisPatch_fields key rest
  end.
End patch.

Fixpoint RedisPatch (fuel : nat) (valueRaw : rdata) (key : string) : M S (result unit) :=
  match valueRaw with
  | DStr value => redis_set key value
  | DArr _ _ => panic "PATCH operations are unsupported on arrays"
  | DObj data => RedisPatch_fields (RedisPatch fuel) fuel key data ;; ret (Ok tt)
  | DNil => ret (Ok tt)
  end.
End write.

(* ===================================================================== *)
(** * The storage scheme                                                 *)
(* ===================================================================== *)

(** Induction over intermediate data, through the lists. *)
Section rdata_induction.
Variable P : rdata -> Prop.
Hypothesis HNil : P DNil.
Hypothesis HStr : forall s, P (DStr s).
Hypothesis HArr : forall b l, Forall P l -> P (DArr b l).
Hypothesis HObj : forall m, Forall (fun e => P (snd e)) m -> P (DObj m).
Fixpoint rdata_induction (d : rdata) : P d :=
  match d with
  | DNil => HNil
  | DStr s => HStr s
  | DArr b l => HArr b l
      ((fix go l := match l return Forall P l with
        | [] => Forall_nil_2 P
        | x :: l' => Forall_cons_2 P x l' (rdata_induction x) (go l') end) l)
  | DObj m => HObj m
      ((fix go m := match m return Forall (fun e => P (snd e)) m with
        | [] => Forall_nil_2 _
        | x :: m' => Forall_cons_2 _ x m' (rdata_induction (snd x)) (go m') end) m)
  end.
End rdata_induction.

(** The keys that intermediate data occupies below [key]. *)
Section image_parts.
Variable img : rdata -> string -> keys.
Fixpoint fields_image (key : string) (m : list (string * rdata)) : keys :=
  match m with
  | [] => ∅
  | (n, d) :: m' => img d (child key n) ∪ fields_image key m'
  end.
Fixpoint elements_image (key : string) (i : nat) (l : list rdata) : keys :=
  match l with
  | [] => ∅
  | d :: l' => img d (child key (format_nat i)) ∪ elements_image key (S i) l'
  end.
End image_parts.

Definition indices (i n : nat) : list string := map format_nat (seq i n).

Fixpoint image (d : rdata) (key : string) : keys :=
  match d with
  | DNil => ∅
  | DStr s => {[key := RStr s]}
  | DArr _ [] => ∅
  | DArr false l => {[key := RList (map element_arg l)]}
  | DArr true l => <[key := RList (indices 0 (List.length l))]> (elements_image image key 0 l)
  | DObj m => <[key := RSet (list_to_set (map fst m))]> (fields_image image key m)
  end.

(** The data that can be stored: objects have at least one field, no field
    twice and no slash in a field's name; an array of objects holds objects, any other array
    holds simple values. *)
Definition element_ok (isObject : bool) (d : rdata) : bool :=
  match isObject, d with
  | true, DObj _ => true
  | false, (DStr _ | DNil) => true
  | _, _ => false
  end.
Fixpoint storable (d : rdata) : bool :=
  match d with
  | DNil | DStr _ => true
  | DArr b l => forallb (fun d => storable d && element_ok b d) l
  | DObj m =>
      negb (bool_decide (m = []))  && bool_decide (NoDup (map fst m))
      && forallb (fun e => free_of slash (fst e) && storable (snd e)) m
  end.

(** The keys at and below [key]. *)
Definition under (key k : string) : Prop := k = key \/ exists t, k = child key t.

#[export] Instance under_dec key k : Decision (under key k).
Proof.
  destruct (decide (k = key)) as [->|Hk]; [by left; left|].
  destruct (String.prefix (key +:+ String slash "") k) eqn:E.
  - left. right. apply prefix_true in E as [t ->]. exists t. unfold child.
    rewrite str_app_assoc. by autorewrite with str_db.
  - right. intros [->|[t ->]]; [done|]. unfold child in E.
    assert (key +:+ String slash t = (key +:+ String slash "") +:+ t) as Ht
      by (rewrite str_app_assoc; by autorewrite with str_db).
    by rewrite Ht, prefix_app in E.
Defined.

(** Nothing is stored at or below [key]. *)
Definition fresh (ks : keys) (key : string) : Prop := forall k, under key k -> ks !! k = None.

(* ===================================================================== *)
(** * Lemmas on keys                                                     *)
(* ===================================================================== *)

Lemma child_inj key n1 n2 : child key n1 = child key n2 -> n1 = n2.
Proof. unfold child. intros H%str_app_inv_head. by injection H. Qed.

Lemma child_app key n t : child (child key n) t = key +:+ String slash (n +:+ String slash t).
Proof. unfold child. by rewrite str_app_assoc. Qed.

Lemma child_length key n : (String.length key < String.length (child key n))%nat.
Proof. unfold child. rewrite str_length_app. simpl. lia. Qed.

Lemma under_refl key : under key key.
Proof. by left. Qed.

Lemma under_child key n : under key (child key n).
Proof. right. eauto. Qed.

Lemma under_of_child key n k : under (child key n) k -> under key k.
Proof.
  intros [->|[t ->]]; [apply under_child|]. right. rewrite child_app.
  by exists (n +:+ String slash t).
Qed.

Lemma under_length key k : under key k -> (String.length key <= String.length k)%nat.
Proof. intros [->|[t ->]]; [done|]. pose proof (child_length key t). lia. Qed.

Lemma child_not_under key n : ~ under (child key n) key.
Proof. intros H%under_length. pose proof (child_length key n). lia. Qed.

Lemma under_first key n k :
  free_of slash n = true -> under (child key n) k ->
  exists t, k = child key t /\ List.hd "" (split_slash t) = n.
Proof.
  intros Hn [->|[t ->]].
  - exists n. split; [done|]. unfold split_slash. by rewrite split_on_free.
  - exists (n +:+ String slash t). rewrite child_app. split; [done|].
    unfold split_slash. by rewrite split_on_app.
Qed.

Lemma under_siblings key n1 n2 k :
  free_of slash n1 = true -> free_of slash n2 = true ->
  under (child key n1) k -> under (child key n2) k -> n1 = n2.
Proof.
  intros H1 H2 (t1 & -> & <-)%under_first (t2 & Ht & <-)%under_first; [|done..].
  by apply child_inj in Ht as ->.
Qed.

Lemma fresh_child ks key n : fresh ks key -> fresh ks (child key n).
Proof. intros Hf k Hk. apply Hf. by eapply under_of_child. Qed.

Create HintDb keys_db.
#[export] Hint Resolve under_refl under_child under_of_child fresh_child format_nat_slash : keys_db.

(* ===================================================================== *)
(** * Lemmas on the image                                                *)
(* ===================================================================== *)

Lemma fields_image_under key m :
  Forall (fun e => forall k key, is_Some (image (snd e) key !! k) -> under key k) m ->
  forall k, is_Some (fields_image image key m !! k) ->
    exists n, n ∈ map fst m /\ under (child key n) k.
Proof.
  induction 1 as [|[n d] m Hd _ IH]; simpl; intros k Hk.
  - rewrite lookup_empty in Hk. by destruct Hk.
  - rewrite lookup_union_is_Some in Hk. destruct Hk as [Hk|Hk].
    + exists n. split; [left|]. by apply Hd.
    + destruct (IH k Hk) as (n' & ? & ?). exists n'. split; [by right|done].
Qed.

Lemma elements_image_under key l i :
  Forall (fun d => forall k key, is_Some (image d key !! k) -> under key k) l ->
  forall k, is_Some (elements_image image key i l !! k) ->
    exists j, (i <= j)%nat /\ under (child key (format_nat j)) k.
Proof.
  intros Hl. revert i. induction Hl as [|d l Hd _ IH]; simpl; intros i k Hk.
  - rewrite lookup_empty in Hk. by destruct Hk.
  - rewrite lookup_union_is_Some in Hk. destruct Hk as [Hk|Hk].
    + exists i. split; [done|]. by apply Hd.
    + destruct (IH _ k Hk) as (j & ? & ?). exists j. split; [lia|done].
Qed.

Lemma image_under d : forall k key, is_Some (image d key !! k) -> under key k.
Proof.
  induction d as [|s|b l IH|m IH] using rdata_induction; intros k key Hk; simpl in Hk.
  - rewrite lookup_empty in Hk. by destruct Hk.
  - rewrite lookup_singleton_is_Some in Hk. subst. apply under_refl.
  - destruct l as [|d l], b; try (rewrite lookup_empty in Hk; by destruct Hk).
    + rewrite lookup_insert_is_Some' in Hk. destruct Hk as [->|Hk]; [apply under_refl|].
      apply (elements_image_under key (d :: l) 0 IH) in Hk as (j & _ & Hk).
      by eapply under_of_child.
    + rewrite lookup_singleton_is_Some in Hk. subst. apply under_refl.
  - rewrite lookup_insert_is_Some' in Hk. destruct Hk as [->|Hk]; [apply under_refl|].
    apply (fields_image_under key m IH) in Hk as (n & _ & Hk). by eapply under_of_child.
Qed.

Lemma image_not_under d key k : ~ under key k -> image d key !! k = None.
Proof. intros Hk. apply eq_None_not_Some. intros H. apply Hk. by eapply image_under. Qed.

(* ===================================================================== *)
(** * Insertion                                                          *)
(* ===================================================================== *)

Section insert_facts.
Context {S : Type} `{RedisLaws S}.

(** [RedisInsert] writes exactly [image d key] when nothing is there yet. *)
Definition inserts (d : rdata) : Prop := forall key ks,
  fresh ks key ->
  wp ks (RedisInsert (S := S) d key) (returns (fun _ ks' => ks' = image d key ∪ ks)).

Lemma fresh_after_sibling d key n1 n2 ks :
  free_of slash n1 = true -> free_of slash n2 = true -> n1 <> n2 ->
  fresh ks (child key n2) -> fresh (image d (child key n1) ∪ ks) (child key n2).
Proof.
  intros Hn1 Hn2 Hne Hf k Hk. rewrite lookup_union_None. split; [|by apply Hf].
  apply image_not_under. intros Hk1. by destruct Hne; eapply under_siblings.
Qed.

Lemma image_commute d1 d2 key n1 n2 :
  free_of slash n1 = true -> free_of slash n2 = true -> n1 <> n2 ->
  image d1 (child key n1) ##ₘ image d2 (child key n2).
Proof.
  intros Hn1 Hn2 Hne. apply map_disjoint_alt. intros k.
  destruct (image d1 (child key n1) !! k) eqn:E1; [|by left].
  right. apply image_not_under. intros Hk2. destruct Hne.
  eapply under_siblings; [exact Hn1|exact Hn2| |exact Hk2]. apply (image_under d1). by rewrite E1.
Qed.

Lemma fields_image_disjoint d key n m :
  free_of slash n = true -> n ∉ map fst m ->
  forallb (fun e => free_of slash (fst e) && storable (snd e)) m = true ->
  image d (child key n) ##ₘ fields_image image key m.
Proof.
  intros Hn Hnin. induction m as [|[n' d'] m IH]; simpl; [intros _; apply map_disjoint_empty_r|].
  simpl in Hnin. apply not_elem_of_cons in Hnin as [Hne Hnin].
  rewrite !andb_true_iff. intros [[Hn' _] Hm]. apply map_disjoint_union_r. split; [|by apply IH].
  by apply image_commute.
Qed.

Lemma insert_fields m key ks :
  Forall (fun e => storable (snd e) = true -> inserts (snd e)) m ->
  NoDup (map fst m) -> forallb (fun e => free_of slash (fst e) && storable (snd e)) m = true ->
  (forall n, n ∈ map fst m -> fresh ks (child key n)) ->
  wp ks (RedisInsert_fields (S := S) RedisInsert key m)
    (returns (fun _ ks' => ks' = fields_image image key m ∪ ks)).
Proof.
  intros Hm. revert ks. induction Hm as [|[n d] m Hd _ IH]; simpl; intros ks Hnd Hok Hf.
  - apply wp_ret. simpl. by rewrite (left_id_L ∅ (∪)).
  - apply NoDup_cons in Hnd as [Hn Hnd]. rewrite !andb_true_iff in Hok. destruct Hok as [[Hsl Hst] Hok].
    eapply wp_returns_bind; [apply Hd; [done|]; apply Hf; by left|].
    simpl. intros _ ks' ->. eapply wp_mono; [apply IH; [done|done|]|].
    + intros n' Hn'. apply fresh_after_sibling; [done| | |apply Hf; by right].
      * apply list_elem_of_fmap in Hn' as ([n1 d1] & -> & Hin). rewrite forallb_forall in Hok.
        apply list_elem_of_In, Hok in Hin. by apply andb_true_iff in Hin as [? _].
      * by intros ->.
    + intros [[]| | |] ks'; simpl; try done. intros ->. rewrite (assoc_L (∪)). f_equal.
      apply map_union_comm, map_disjoint_sym. by apply fields_image_disjoint.
Qed.

Lemma indices_S i n : indices i (Datatypes.S n) = indices i n ++ [format_nat (i + n)].
Proof. unfold indices. by rewrite seq_S, map_app. Qed.

Lemma elements_image_disjoint d key i j l :
  (i < j)%nat -> image d (child key (format_nat i)) ##ₘ elements_image image key j l.
Proof.
  revert j. induction l as [|d' l IH]; simpl; intros j Hj; [apply map_disjoint_empty_r|].
  apply map_disjoint_union_r. split; [|apply IH; lia].
  apply image_commute; auto with keys_db. intros E%format_nat_inj. lia.
Qed.

(** The list at [key] while the loop is at index [i]. *)
Definition list_so_far (i : nat) : option rval :=
  match i with O => None | _ => Some (RList (indices 0 i)) end.

Lemma insert_objects l key i ks :
  Forall (fun d => storable d = true -> inserts d) l ->
  forallb (fun d => storable d && element_ok true d) l = true ->
  ks !! key = list_so_far i ->
  (forall j, (i <= j)%nat -> fresh ks (child key (format_nat j))) ->
  wp ks (RedisInsert_objects (S := S) RedisInsert key i l)
    (returns (fun _ ks' => ks' = elements_image image key i l ∪
       match l with [] => ks | _ => <[key := RList (indices 0 (i + List.length l))]> ks end)).
Proof.
  intros Hl. revert i ks. induction Hl as [|d l Hd _ IH]; intros i ks Hok Hk Hf; simpl.
  - apply wp_ret. simpl. by rewrite (left_id_L ∅ (∪)).
  - simpl in Hok. rewrite !andb_true_iff in Hok. destruct Hok as [[Hst Hel] Hok].
    destruct d as [| | |m]; try done.
    cbv iota. remember (DObj m) as d eqn:Ed. clear Ed.
    wp_steps. unfold rpush_effect. rewrite Hk.
    set (ks1 := <[key := RList (indices 0 (Datatypes.S i))]> ks).
    assert (Heff : match list_so_far i with
      | Some (RList l0) => (Ok tt, <[key := RList (l0 ++ [format_nat i])]> ks)
      | None => (Ok tt, <[key := RList [format_nat i]]> ks)
      | _ => (Err ErrWrongType, ks) end = (Ok tt, ks1)).
    { destruct i as [|i]; [done|]. unfold list_so_far, ks1. by rewrite (indices_S 0 (Datatypes.S i)). }
    rewrite Heff. cbn [fst snd]. wp_steps.
    assert (Hks1 : forall j, (i <= j)%nat -> fresh ks1 (child key (format_nat j))).
    { intros j Hj k Hu. unfold ks1. rewrite lookup_insert_ne; [by apply (Hf j)|].
      intros <-. by eapply child_not_under. }
    eapply wp_mono; [apply Hd; [done|]; by apply Hks1|].
    intros [r| | |] ks2; simpl; try done. intros ->.
    eapply wp_mono; [apply IH; [done| |]|].
    + rewrite lookup_union, image_not_under by apply child_not_under.
      unfold ks1. by rewrite lookup_insert_eq.
    + intros j Hj. apply fresh_after_sibling; [auto with keys_db..| |apply Hks1; lia].
      intros E%format_nat_inj. lia.
    + intros [r'| | |] ks3; simpl; try done. intros ->.
      assert (Hdis : image d (child key (format_nat i)) ##ₘ
                     elements_image image key (Datatypes.S i) l) by (apply elements_image_disjoint; lia).
      destruct l as [|d' l].
      * simpl. by rewrite (left_id_L ∅ (∪)), (right_id_L ∅ (∪)), Nat.add_1_r.
      * rewrite insert_union_r by (apply image_not_under, child_not_under).
        unfold ks1. rewrite insert_insert_eq, (assoc_L (∪)), (map_union_comm _ _ Hdis).
        simpl List.length. by rewrite !Nat.add_succ_r.
Qed.

(** Insertion writes the image, for all storable data. *)
Lemma insert_writes_image d : storable d = true -> inserts d.
Proof.
  induction d as [|s|b l IH|m IH] using rdata_induction; intros Hst key ks Hf; simpl in Hst; simpl.
  - apply wp_ret. simpl. by rewrite (left_id_L ∅ (∪)).
  - wp_steps. simpl. by rewrite insert_union_singleton_l.
  - destruct b.
    + eapply wp_mono; [apply (insert_objects l key 0 ks IH Hst); [apply (Hf key), under_refl|]|].
      * auto with keys_db.
      * intros [r| | |] ks'; simpl; try done. intros ->. destruct l as [|d l]; [done|].
        rewrite <- insert_union_l, insert_union_r; [done|].
        apply eq_None_not_Some. intros Hk.
        apply (elements_image_under key (d :: l) 0) in Hk as (j & _ & Hk);
          [by apply child_not_under in Hk|]. apply Forall_forall. intros. by eapply image_under.
    + wp_steps. unfold rpush_effect. destruct l as [|d l]; simpl.
      * by rewrite (left_id_L ∅ (∪)).
      * rewrite (Hf key) by apply under_refl. simpl. by rewrite insert_union_singleton_l.
  - rewrite !andb_true_iff in Hst. destruct Hst as [[Hne Hnd] Hok].
    apply bool_decide_eq_true in Hnd.
    eapply wp_returns_bind; [apply (insert_fields m key ks IH Hnd Hok); auto with keys_db|].
    simpl. intros _ ks' ->. wp_steps. unfold sadd_effect.
    assert (Hk : (fields_image image key m ∪ ks) !! key = None).
    { rewrite lookup_union_None. split; [|apply Hf, under_refl].
      apply eq_None_not_Some. intros Hk.
      apply (fields_image_under key m) in Hk as (n & _ & Hk); [by apply child_not_under in Hk|].
      apply Forall_forall. intros. by eapply image_under. }
    rewrite Hk. destruct m as [|e m]; [done|]. simpl. wp_steps. simpl.
    by rewrite <- insert_union_l.
Qed.
End insert_facts.
