(* ===== verification/Dispatcher.v ===== *)
(** The dispatcher's state and its connections to the outside
    ([RedfishDispatcher], [BackendHelper] and [DoFileHandler] of
    [internal/rfdispatcher/dispatcher/rfdispatcher.go] and
    [internal/backend_helpers/interface.go]), and the reading of structures
    from Redis (the [Redis2Interface] half of [redisstruct.go]).

    A backend helper is an interface: a record of the operations the
    dispatcher calls.  The file system and the programs in it are outside the
    program; [World] is what the dispatcher asks of them. *)
From S2P Require Import Prelude Values Redis Schema Walk RedisStruct.

(** ** The outside *)

(** An argument of a program: a text, or the JSON text of a value. *)
Inductive program_arg := ArgText (s : string) | ArgJson (v : value).

Record World (S : Type) := mkWorld {
  (* os.Stat: the permission bits, if the file exists *)
  file_mode : S -> string -> option Z;
  (* ioutil.ReadFile *)
  file_contents : S -> string -> option string;
  (* exec.LookPath *)
  look_path : S -> string -> option string;
  (* exec.Command(script, args...) with an environment, then Output *)
  run_program : string -> list program_arg -> gomap string -> M S (option string);
}.
Arguments file_mode {S}.
Arguments file_contents {S}.
Arguments look_path {S}.
Arguments run_program {S}.

(** The interface [BackendHelper] *)
Record BackendHelper (S : Type) := mkBackendHelper {
  RunPeriodic : M S (result unit);
  SetupBackendHelper : M S (result unit);
  GetEnvForXname : string -> M S (result (gomap string));
  RunBackendHelper : string -> list string -> gomap string -> M S (result string);
}.
Arguments RunPeriodic {S}.
Arguments SetupBackendHelper {S}.
Arguments GetEnvForXname {S}.
Arguments RunBackendHelper {S}.

Inductive DispatchHandlerOp := InputOp | OutputOp | ActionOp.

#[export] Instance DispatchHandlerOp_eq_dec : EqDecision DispatchHandlerOp.
Proof. solve_decision. Defined.

(** [RedfishDispatcher] *)
Record RedfishDispatcher (S : Type) := mkDispatcher {
  scriptDirPrefix : string;
  programName : string;
  schemaTree : Resource;
  messageRegistries : gomap value;
  additionalCollectionCBs : list (CollectionCB S);
  BackendHelpers : list (BackendHelper S);
  world : World S;
}.
Arguments scriptDirPrefix {S}.
Arguments programName {S}.
Arguments schemaTree {S}.
Arguments messageRegistries {S}.
Arguments additionalCollectionCBs {S}.
Arguments BackendHelpers {S}.
Arguments world {S}.

(** [Redis2Interface] *)
Record Redis2Interface (S : Type) := mkRedis2Interface {
  r2s_RFD : RedfishDispatcher S;
  r2s_Resource : option Resource;
  r2s_URI : string;
  r2s_XName : string;
}.
Arguments r2s_RFD {S}.
Arguments r2s_Resource {S}.
Arguments r2s_URI {S}.
Arguments r2s_XName {S}.

Section files.
Context {S : Type} `{RedisOps S} (rfd : RedfishDispatcher S).

(** Ask the outside without changing anything. *)
Definition ask {A} (f : S -> A) : M S A := fun s => (Ret (f s), s).

Definition executeFile (script : string) (args : list program_arg) (env : gomap string) :
    M S (result string) :=
  out <- run_program (world rfd) script args env ;;
  match out with
  | Some stdout => ret (Ok stdout)
  | None => ret (Err (ErrText ("Script execution failed: " +:+ script)))
  end.

(** Some execute bit is set: [fi.Mode().Perm() & 0111 > 0]. *)
Definition executable (mode : Z) : bool := Z.ltb 0 (Z.land mode 73).

(** Step 1 of [DoFileHandler]: the handler that Redis names for the key. *)
Definition DoFileHandler_override (handlerKey uri : string) (args : list program_arg) (env : gomap string) :
    M S (result string) :=
  handlerPath <-? redis_get handlerKey ;;
  fi <- ask (fun s => file_mode (world rfd) s handlerPath) ;;
  match fi with
  | None => ret (Err (ErrText "handler path in Redis does not exist"))
  | Some mode =>
      if executable mode then executeFile handlerPath (args ++ [ArgText uri]) env
      else ret (Err (ErrText "handler path in Redis can not be executed"))
  end.

(** Step 4: the global executor in the PATH, and step 5. *)
Definition DoFileHandler_global (uri : string) (args : list program_arg) (env : gomap string) :
    M S (result string) :=
  rtl <- ask (fun s => look_path (world rfd) s "redfish-translation-layer-executor") ;;
  match rtl with
  | Some rtlExecutor => executeFile rtlExecutor (args ++ [ArgText uri]) env
  | None => ret (Err ErrFileHandlerNoAction)
  end.

Definition DoFileHandler (op : DispatchHandlerOp) (uri : string) (args : list program_arg)
    (env : gomap string) : M S (result string) :=
  let handlerKey := (if decide (op = ActionOp) then uri +:+ "/Target" else uri) +:+ ":handler" in
  handlerExists <-? redis_exists handlerKey ;;
  if handlerExists : bool then DoFileHandler_override handlerKey uri args env
  else
    let file := if decide (op = ActionOp) then path_join [scriptDirPrefix rfd; uri; "Target"]
                else path_join [scriptDirPrefix rfd; uri] in
    fi <- ask (fun s => file_mode (world rfd) s file) ;;
    match fi with
    | None => DoFileHandler_global uri args env
    | Some mode =>
        if executable mode then executeFile file args env
        else
          match op with
          | OutputOp =>
              contents <- ask (fun s => file_contents (world rfd) s file) ;;
              match contents with
              | Some c => ret (Ok c)
              | None => ret (Err (ErrText "Failed to read file"))
              end
          | InputOp | ActionOp => DoFileHandler_global uri args env
          end
    end.
End files.

Section read.
Context {S : Type} `{RedisOps S} `{FloatText} (r2s : Redis2Interface S).

Definition generateOData_fields (names : list string) : string :=
  let propertyNames := sort_strings (base.filter (fun n => contains n "@" = false) names) in
  if Nat.ltb (List.length propertyNames) 25 then join "," propertyNames else "*".

(** [generateOData] *)
Definition generateOData (key : string) : M S (result string) :=
  let trimmedURI := trim_right slash (r2s_URI r2s) in
  let memberName := path_base key in
  if String.eqb memberName "@odata.id" then
    ret (Ok (trim_prefix (r2s_XName r2s) trimmedURI))
  else if String.eqb memberName "@odata.type" then
    match r2s_Resource r2s with
    | Some r => ret (Ok (ri_ODataType (r_info r)))
    | None => panic nil_deref
    end
  else if String.eqb memberName "@odata.context" then
    names <-? redis_smembers trimmedURI ;;
    match r2s_Resource r2s with
    | Some r => ret (Ok (ri_ODataContext (r_info r) +:+ "(" +:+ generateOData_fields names +:+ ")"))
    | None => panic nil_deref
    end
  else ret (Err (ErrText "Unknown field name")).

(** The member [name] of an action *)
Definition buildAction_member (keySpace : string) (payload : object) (name : string) :
    M S (result object) :=
  let key := child keySpace name in
  rType <- redis_type key ;;
  let rType := match rType with Ok t => t | Err _ => "" end in
  if String.eqb rType "list" then
    r <- redis_lrange key ;;
    ret (Ok (mput name (VStrings (match r with Ok l => l | Err _ => [] end)) payload))
  else if String.eqb rType "string" then
    r <- redis_get key ;;
    ret (Ok (mput name (VString (trim_prefix (r2s_XName r2s)
                                   (match r with Ok v => v | Err _ => "" end))) payload))
  else ret (Err (ErrText ("Unhandled datatype for:" +:+ key))).

Definition buildAction (keySpace : string) : M S (result object) :=
  members <- redis_smembers keySpace ;;
  match members with
  | Err _ => ret (Err (ErrText ("Failed to get action members from redis:" +:+ keySpace)))
  | Ok names => fold_ok (buildAction_member keySpace) [] names
  end.

(** The last resort of [getValueForKey]: the backend helpers in turn. *)
Fixpoint getValueForKey_backends (key : string) (helpers : list (BackendHelper S)) :
    M S (result string) :=
  match helpers with
  | [] => ret (Err (ErrText "Unable to find handler for key"))
  | helper :: rest =>
      env <- (if String.eqb (r2s_XName r2s) "" then ret []
              else r <- GetEnvForXname helper (r2s_XName r2s) ;;
                   ret (match r with Ok env => env | Err _ => [] end)) ;;
      r <- RunBackendHelper helper key [] env ;;
      match r with
      | Ok simpleValue => ret (Ok simpleValue)
      | Err e =>
          if decide (e = ErrBackendContinue) then getValueForKey_backends key rest
          else if has_prefix "unknown xname" (err_string e) then ret (Err e)
          else getValueForKey_backends key rest
      end
  end.

Definition newline : ascii := "010"%char.

(** [getValueForKey] *)
Definition getValueForKey (key : string) : M S (result string) :=
  stored <- redis_get key ;;
  match stored with
  | Ok simpleValue => ret (Ok simpleValue)
  | Err _ =>
      odata <- generateOData key ;;
      match odata with
      | Ok simpleValue => ret (Ok simpleValue)
      | Err _ =>
          file <- DoFileHandler (r2s_RFD r2s) OutputOp key [] [] ;;
          match file with
          | Ok buffer => ret (Ok (trim_right newline buffer))
          | Err _ => getValueForKey_backends key (BackendHelpers (r2s_RFD r2s))
          end
      end
  end.

(** The functions that follow and [BuildStruct] call each other; [build]
    stands for [BuildStruct] in them. *)
Section build.
Variable build : properties -> string -> M S (result object).

Fixpoint buildAutoExpandedLink_members (members : properties) (keySpace : string)
    (indexes : list string) : M S (list value) :=
  match indexes with
  | [] => ret []
  | iStr :: rest =>
      member <- build members (child keySpace iStr) ;;
      payload <- buildAutoExpandedLink_members members keySpace rest ;;
      ret (match member with Ok m => VObject m | Err _ => VNil end :: payload)
  end.

Definition buildAutoExpandedLink (property : Property) (keySpace : string) :
    M S (result (list value)) :=
  indexes <- redis_lrange keySpace ;;
  match indexes, Link property with
  | Err _, _ => ret (Err (ErrText ("No redis value for link: " +:+ keySpace)))
  | Ok [], _ => ret (Ok [])
  | Ok indexes, Some resource =>
      match CollectionOf resource with
      | Some member =>
          payload <- buildAutoExpandedLink_members (r_Properties member) keySpace indexes ;;
          ret (Ok payload)
      | None => panic nil_deref
      end
  | Ok _, None => panic nil_deref
  end.

Definition link_object (target : string) : value := VObject [("@odata.id", VString target)].

(** The text stored at [key], or the empty string *)
Definition get_or_empty (key : string) : M S string :=
  r <- redis_get key ;; ret (match r with Ok v => v | Err _ => "" end).

Definition buildLink (property : Property) (keySpace : string) : M S (result value) :=
  if LinkAutoExpand property then
    link <-? buildAutoExpandedLink property keySpace ;;
    ret (Ok (VArray link))
  else
    target <- (if IsNavLink property then ret keySpace
               else get_or_empty (child keySpace "@odata.id")) ;;
    ret (Ok (link_object (trim_prefix (r2s_XName r2s) target))).

Definition buildArray_element (elementProperty : Property) (keySpace : string)
    (array : list value) (element : string) : M S (result (list value)) :=
  if isRedfishValueString (p_Type elementProperty) then ret (Ok (array ++ [VString element]))
  else if is_type PropLink elementProperty then
    target <- get_or_empty (child (child keySpace element) "@odata.id") ;;
    ret (Ok (array ++ [link_object (trim_prefix (r2s_XName r2s) target)]))
  else
    value <-? build (Properties_of elementProperty) (child keySpace element) ;;
    ret (Ok (array ++ [VObject value])).

Definition buildArray (property : Property) (keySpace : string) : M S (result (list value)) :=
  elements <-? redis_lrange keySpace ;;
  match ArrayOf property with
  | Some elementProperty => fold_ok (buildArray_element elementProperty keySpace) [] elements
  | None => match elements with [] => ret (Ok []) | _ => panic nil_deref end
  end.

Definition count_name (name : string) : string := name +:+ "@odata.count".

(** [payload[name] = array] with its count *)
Definition put_array (name : string) (array : list value) (payload : object) : object :=
  mput (count_name name) (VInt (Z.of_nat (List.length array))) (mput name (VArray array) payload).

(** A simple value: the conversion of its text by type. *)
Definition simple_value (t : PropertyType) (simpleValue : string) : result value :=
  match t with
  | PropNumber =>
      if String.eqb simpleValue "" then Ok VNil
      else match parse_float simpleValue with
           | Some f => Ok (VFloat f)
           | None => Err (ErrText "failed to convert string to float")
           end
  | PropInteger =>
      match parse_int simpleValue with
      | Some z => Ok (VInt64 z)
      | None => Err (ErrText "failed to convert string to integer")
      end
  | PropBool =>
      match parse_bool simpleValue with
      | Some b => Ok (VBool b)
      | None => Err (ErrText "failed to convert string to boolean")
      end
  | _ => Ok (VString simpleValue)
  end.

(** One round of the loop of [BuildStruct]: the field [name]. *)
Definition BuildStruct_field (ps : properties) (keySpace : string) (payload : object) (name : string) :
    M S (result object) :=
  let key := child keySpace name in
  match mget name ps with
  | None => ret (Err (ErrText "No Redfish property exists for field"))
  | Some property =>
      match p_Type property with
      | PropAction =>
          action <-? buildAction key ;; ret (Ok (mput name (VObject action) payload))
      | PropObject =>
          obj <-? build (Properties_of property) key ;; ret (Ok (mput name (VObject obj) payload))
      | PropArray =>
          array <-? buildArray property key ;; ret (Ok (put_array name array payload))
      | PropLink =>
          link <-? buildLink property key ;;
          ret (Ok (match link with
                   | VArray array => put_array name array payload
                   | _ => mput name link payload
                   end))
      | PropEnum | PropString | PropNumber | PropInteger | PropBool =>
          r <- getValueForKey key ;;
          match r with
          | Err e =>
              if has_prefix "unknown xname" (err_string e) then ret (Err e)
              else ret (Ok (mput name VNil payload))
          | Ok simpleValue =>
              ret (match simple_value (p_Type property) simpleValue with
                   | Ok v => Ok (mput name v payload)
                   | Err e => Err e
                   end)
          end
      | PropUnknown | PropMultiple => ret (Err (ErrText "unknown property type"))
      end
  end.

(** [BuildStruct]: the members at the exact key, or at the key with the xname
    in front; then the fields one after the other. *)
Definition BuildStruct_body (ps : properties) (baseKeySpace : string) : M S (result object) :=
  members <- redis_smembers baseKeySpace ;;
  match members with
  | Ok (name :: names) => fold_ok (BuildStruct_field ps baseKeySpace) [] (name :: names)
  | _ =>
      let keySpace := if has_prefix (r2s_XName r2s) baseKeySpace then baseKeySpace
                      else r2s_XName r2s +:+ baseKeySpace in
      members <- redis_smembers keySpace ;;
      match members with
      | Ok names => fold_ok (BuildStruct_field ps keySpace) [] names
      | Err _ => ret (Err (ErrText ("No redis value for link: " +:+ keySpace)))
      end
  end.
End build.

(** The recursion follows the schema tree, so its height bounds the depth. *)
Fixpoint BuildStruct_fuel (fuel : nat) (ps : properties) (baseKeySpace : string) : M S (result object) :=
  match fuel with
  | O => out_of_fuel
  | Datatypes.S fuel' => BuildStruct_body (BuildStruct_fuel fuel') ps baseKeySpace
  end.

Definition BuildStruct (ps : properties) (baseKeySpace : string) : M S (result object) :=
  BuildStruct_fuel (Datatypes.S (props_height ps)) ps baseKeySpace.
End read.

(* ===================================================================== *)
(** * BuildStruct terminates                                             *)
(* ===================================================================== *)

Section build_facts.
Context {S : Type} `{RedisOps S} `{FloatText} (r2s : Redis2Interface S).

(** Two candidates for [BuildStruct] agree on the trees lower than [h]. *)
Definition agree_below (h : nat) (f g : properties -> string -> M S (result object)) : Prop :=
  forall ps key s, (props_height ps < h)%nat -> f ps key s = g ps key s.

Lemma agree_below_le h h' f g : (h <= h')%nat -> agree_below h' f g -> agree_below h f g.
Proof. intros ? Ha ps key s ?. apply Ha. lia. Qed.

Lemma members_agree (f g : properties -> string -> M S (result object)) ps keySpace l s :
  (forall key s, f ps key s = g ps key s) ->
  buildAutoExpandedLink_members f ps keySpace l s = buildAutoExpandedLink_members g ps keySpace l s.
Proof.
  intros Ha. revert s. induction l as [|i l IH]; intros s; [done|]. simpl.
  apply bind_ext; [apply Ha|]. intros r s'. apply bind_ext; [apply IH|done].
Qed.

Lemma buildLink_agree f g property keySpace s :
  agree_below (p_height property) f g ->
  buildLink r2s f property keySpace s = buildLink r2s g property keySpace s.
Proof.
  intros Ha. unfold buildLink. destruct (LinkAutoExpand property); [|done].
  apply bind_ok_ext; [|done]. unfold buildAutoExpandedLink. apply bind_ext; [done|].
  intros [[|i l]|e] s'; [done| |done].
  destruct (Link property) as [r|] eqn:El; [|done].
  destruct (CollectionOf r) as [c|] eqn:Ec; [|done].
  apply bind_ext; [|done]. apply members_agree. intros key s1. apply Ha.
  apply Link_height in El. apply CollectionOf_height in Ec.
  pose proof (r_Properties_height c). lia.
Qed.

Lemma buildArray_agree f g property keySpace s :
  agree_below (p_height property) f g ->
  buildArray r2s f property keySpace s = buildArray r2s g property keySpace s.
Proof.
  intros Ha. unfold buildArray. apply bind_ok_ext; [done|]. intros elements s'.
  destruct (ArrayOf property) as [e|] eqn:Ee; [|done].
  apply fold_ok_ext. intros array x s1 _. unfold buildArray_element.
  destruct (isRedfishValueString _); [done|]. destruct (is_type _ _); [done|].
  apply bind_ok_ext; [|done]. apply Ha. apply ArrayOf_height in Ee.
  pose proof (Properties_height e). lia.
Qed.

Lemma BuildStruct_field_agree f g ps keySpace payload name s :
  agree_below (props_height ps) f g ->
  BuildStruct_field r2s f ps keySpace payload name s = BuildStruct_field r2s g ps keySpace payload name s.
Proof.
  intros Ha. unfold BuildStruct_field. destruct (mget name ps) as [p|] eqn:Ep; [|done].
  apply props_height_get in Ep.
  assert (Hp : agree_below (p_height p) f g) by (by eapply agree_below_le).
  destruct (p_Type p); try done; apply bind_ok_ext; try done.
  - apply Hp, Properties_height.
  - by apply buildArray_agree.
  - by apply buildLink_agree.
Qed.

Lemma BuildStruct_body_agree f g ps key s :
  agree_below (props_height ps) f g ->
  BuildStruct_body r2s f ps key s = BuildStruct_body r2s g ps key s.
Proof.
  intros Ha. unfold BuildStruct_body.
  assert (Hfold : forall keySpace names s', fold_ok (BuildStruct_field r2s f ps keySpace) [] names s'
    = fold_ok (BuildStruct_field r2s g ps keySpace) [] names s')
    by (intros; apply fold_ok_ext; intros; by apply BuildStruct_field_agree).
  apply bind_ext; [done|]. intros [[|n ns]|e] s'; [|apply Hfold|];
    (apply bind_ext; [done|]; intros [ns'|e'] s1; [apply Hfold|done]).
Qed.

Lemma BuildStruct_fuel_enough n ps key s :
  (props_height ps < n)%nat ->
  BuildStruct_fuel r2s n ps key s = BuildStruct r2s ps key s.
Proof.
  unfold BuildStruct. remember (props_height ps) as h eqn:Hh.
  revert n ps key s Hh. induction (lt_wf h) as [h _ IH]. intros n ps key s -> Hn.
  destruct n as [|n]; [lia|]. simpl. apply BuildStruct_body_agree. intros ps' key' s' Hlt.
  rewrite (IH _ Hlt n) by lia. symmetry. by apply (IH _ Hlt).
Qed.

(** The recursive equation of the source. *)
Lemma BuildStruct_unfold ps key s :
  BuildStruct r2s ps key s = BuildStruct_body r2s (BuildStruct r2s) ps key s.
Proof.
  unfold BuildStruct at 1. simpl. apply BuildStruct_body_agree. intros ps' key' s' Hlt.
  by apply BuildStruct_fuel_enough.
Qed.
End build_facts.

