(* ===== verification/RoundTrip.v ===== *)
(** Storing an object and reading it back.

    [conforms] is the well-formedness of a JSON value for a schema property,
    [encode] what [structField2Redis] makes of it and [readback] what
    [BuildStruct] must present for it.  The theorems show that the two halves
    of [redisstruct.go] fit together: what [Interface2Redis] and
    [RedisInsert] store, [BuildStruct] reads back, whatever the order in
    which Redis reports the members of a set. *)
From S2P Require Import Prelude Values Redis Schema Walk RedisStruct Dispatcher.
From Stdlib Require Import Permutation.

(** The values the storage scheme presents again. *)
Fixpoint conforms (p : Property) (v : value) : bool :=
  match p_Type p, v with
  | (PropEnum | PropString), VString _ => true
  | PropNumber, VFloat f => float_finite f
  | PropInteger, VFloat f =>
      float_finite f && Z.leb int64_min (float_trunc f) && Z.leb (float_trunc f) int64_max
  | PropBool, VBool _ => true
  | PropObject, VObject obj =>
      negb (bool_decide (obj = [])) && bool_decide (NoDup (map fst obj))
      && forallb (fun e => free_of slash (fst e) && negb (has_suffix "@odata.count" (fst e))
           && match mget (fst e) (Properties_of p) with
              | Some q => conforms q (snd e)
              | None => false
              end) obj
  | PropArray, VArray l =>
      match ArrayOf p with
      | Some e => (isRedfishValueString (p_Type e) || is_type PropObject e) && forallb (conforms e) l
      | None => false
      end
  | PropLink, VObject obj =>
      negb (IsNavLink p) && negb (LinkAutoExpand p)
      && match obj with [(n, VString _)] => String.eqb n "@odata.id" | _ => false end
  | _, _ => false
  end.

Section spec.
Context `{FloatText}.

(** The intermediate data of a value. *)
Fixpoint encode (p : Property) (v : value) : rdata :=
  match v with
  | VString s => DStr s
  | VFloat f => if is_type PropNumber p then DStr (format_float f) else DStr (format_int (float_trunc f))
  | VBool b => DStr (format_bool b)
  | VObject obj =>
      DObj (map (fun e => (fst e, match mget (fst e) (Properties_of p) with
                                  | Some q => encode q (snd e)
                                  | None => match snd e with VString s => DStr s | _ => DNil end
                                  end)) obj)
  | VArray l =>
      match ArrayOf p with
      | Some e => DArr (negb (isRedfishValueString (p_Type e))) (map (encode e) l)
      | None => DNil
      end
  | _ => DNil
  end.

(** An array field is presented with its count. *)
Definition entry_of (name : string) (v : value) : object :=
  match v with
  | VArray l => [(name, v); (count_name name, VInt (Z.of_nat (List.length l)))]
  | _ => [(name, v)]
  end.

(** What the API presents for a stored value: integers as integers, elements
    of simple arrays as texts, links relative to the host. *)
Fixpoint readback (xname : string) (p : Property) (v : value) : value :=
  match p_Type p, v with
  | PropInteger, VFloat f => VInt64 (float_trunc f)
  | PropObject, VObject obj =>
      VObject (flat_map (fun e => entry_of (fst e)
        match mget (fst e) (Properties_of p) with
        | Some q => readback xname q (snd e)
        | None => snd e
        end) obj)
  | PropArray, VArray l =>
      match ArrayOf p with
      | Some e => if isRedfishValueString (p_Type e)
                  then VArray (map (fun v => VString (element_arg (encode e v))) l)
                  else VArray (map (readback xname e) l)
      | None => v
      end
  | PropLink, VObject [(_, VString target)] => link_object (trim_prefix xname target)
  | _, _ => v
  end.
End spec.

(** The region at and below [key] holds exactly the image of [d]. *)
Definition holds (ks : keys) (d : rdata) (key : string) : Prop :=
  forall k, under key k -> ks !! k = image d key !! k.

(* ===================================================================== *)
(** * Equivalence of payloads                                            *)
(* ===================================================================== *)

Lemma object_equiv_intro payload P R :
  Forall2 entry_equiv payload P -> Permutation P R -> object_equiv payload R.
Proof.
  intros HF HP.
  assert (HF' : Forall2 (flip entry_equiv) P payload) by by apply Forall2_flip.
  destruct (Permutation_Forall2 HP HF') as (m & Hm & HF2).
  exists m. split; [done|]. by apply Forall2_flip.
Qed.

Lemma object_equiv_value m1 m2 : object_equiv m1 m2 -> value_equiv (VObject m1) (VObject m2).
Proof. intros (m & HP & HF). by eapply equiv_object. Qed.

Lemma entry_equiv_keys m1 m2 : Forall2 entry_equiv m1 m2 -> mkeys m1 = mkeys m2.
Proof. induction 1 as [|a b ? ? [] ? IH]; simpl; [done|]. by f_equal. Qed.

(* ===================================================================== *)
(** * Regions                                                            *)
(* ===================================================================== *)

Lemma holds_image ks d key : fresh ks key -> holds (image d key ∪ ks) d key.
Proof.
  intros Hf k Hk. rewrite lookup_union, (Hf k Hk).
  by destruct (image d key !! k).
Qed.

Lemma fields_image_at key m n d k :
  NoDup (map fst m) -> Forall (fun e => free_of slash (fst e) = true) m -> (n, d) ∈ m ->
  under (child key n) k -> fields_image image key m !! k = image d (child key n) !! k.
Proof.
  induction m as [|[n' d'] m IH]; simpl; intros Hnd Hsl Hin Hk; [by apply elem_of_nil in Hin|].
  apply NoDup_cons in Hnd as [Hn' Hnd]. apply Forall_cons in Hsl as [Hsl' Hsl]. simpl in Hsl'.
  assert (Hn : free_of slash n = true).
  { apply elem_of_cons in Hin as [[= -> ->]|Hin]; [done|].
    rewrite Forall_forall in Hsl. by apply (Hsl _ Hin). }
  apply elem_of_cons in Hin as [[= -> ->]|Hin].
  - assert (Hnone : fields_image image key m !! k = None).
    { apply eq_None_not_Some. intros Hs.
      apply (fields_image_under key m) in Hs as (n2 & Hin2 & Hk2);
        [|apply Forall_forall; intros; by eapply image_under].
      assert (n2 = n') as ->; [|done].
      apply list_elem_of_fmap in Hin2 as ([] & -> & Hin2). rewrite Forall_forall in Hsl.
      eapply (under_siblings key); [apply (Hsl _ Hin2)|exact Hsl'|exact Hk2|exact Hk]. }
    rewrite lookup_union, Hnone. by destruct (image d' (child key n') !! k).
  - rewrite lookup_union, image_not_under; [by rewrite (left_id_L None _), IH|].
    intros Hk2. assert (n' = n) as -> by (by eapply under_siblings).
    destruct Hn'. apply list_elem_of_fmap. by exists (n, d).
Qed.

Lemma elements_image_at key l i j d k :
  l !! j = Some d -> under (child key (format_nat (i + j))) k ->
  elements_image image key i l !! k = image d (child key (format_nat (i + j))) !! k.
Proof.
  revert i j. induction l as [|d' l IH]; intros i j Hj Hk; [done|].
  simpl. destruct j as [|j]; simpl in Hj.
  - simplify_eq. rewrite Nat.add_0_r in *.
    assert (Hnone : elements_image image key (S i) l !! k = None).
    { apply eq_None_not_Some. intros Hs.
      apply (elements_image_under key l (S i)) in Hs as (j & Hj & Hk2);
        [|apply Forall_forall; intros; by eapply image_under].
      assert (format_nat i = format_nat j) as E%format_nat_inj; [|lia].
      eapply under_siblings; [..|exact Hk|exact Hk2]; auto with keys_db. }
    rewrite lookup_union, Hnone. by destruct (image d (child key (format_nat i)) !! k).
  - replace (i + S j)%nat with (S i + j)%nat in * by lia.
    rewrite lookup_union, image_not_under; [rewrite (left_id_L None _); by apply (IH (S i) j)|].
    intros Hk2. assert (format_nat i = format_nat (S i + j)) as E%format_nat_inj; [|lia].
    eapply under_siblings; [..|exact Hk2|exact Hk]; auto with keys_db.
Qed.

Lemma holds_field ks m key n d :
  holds ks (DObj m) key -> NoDup (map fst m) ->
  Forall (fun e => free_of slash (fst e) = true) m -> (n, d) ∈ m ->
  holds ks d (child key n).
Proof.
  intros Hh Hnd Hsl Hin k Hk. rewrite Hh by (by eapply under_of_child). simpl.
  rewrite lookup_insert_ne; [by apply fields_image_at|]. intros <-. by eapply child_not_under.
Qed.

Lemma holds_element ks l key j d :
  holds ks (DArr true l) key -> l !! j = Some d -> holds ks d (child key (format_nat j)).
Proof.
  intros Hh Hj k Hk. rewrite Hh by (by eapply under_of_child).
  destruct l as [|d' l]; [done|]. simpl.
  rewrite lookup_insert_ne by (intros <-; by eapply child_not_under).
  exact (elements_image_at key (d' :: l) 0 j d k Hj Hk).
Qed.

(* ===================================================================== *)
(** * Conversion                                                         *)
(* ===================================================================== *)

Ltac split_andb :=
  repeat match goal with H : _ && _ = true |- _ => apply andb_true_iff in H as [? ?] end.

Section conversion.
Context `{FloatText} {C : Type}.

Definition converts (p : Property) (v : value) : Prop := forall path (c : C),
  structField2Redis None path p v c = (Ret (Ok (encode p v, false)), c).

Lemma finish_none path p d (c : C) :
  structField_finish (C := C) None path p d c = (Ret (Ok (d, false)), c).
Proof. done. Qed.

(** The data a conforming object is converted to. *)
Definition encode_fields (ps : properties) (obj : object) : gomap rdata :=
  map (fun e => (fst e, match mget (fst e) ps with
                        | Some q => encode q (snd e)
                        | None => match snd e with VString s => DStr s | _ => DNil end
                        end)) obj.

Lemma encode_object p obj : encode p (VObject obj) = DObj (encode_fields (Properties_of p) obj).
Proof. done. Qed.

Lemma encode_fields_keys ps obj : map fst (encode_fields ps obj) = map fst obj.
Proof. unfold encode_fields. by rewrite map_map. Qed.

Definition field_ok (ps : properties) (e : string * value) : bool :=
  free_of slash (fst e) && negb (has_suffix "@odata.count" (fst e))
  && match mget (fst e) ps with Some q => conforms q (snd e) | None => false end.

Definition object_conforms (ps : properties) (obj : object) : bool :=
  negb (bool_decide (obj = [])) && bool_decide (NoDup (map fst obj)) && forallb (field_ok ps) obj.

Lemma conforms_object p obj : p_Type p = PropObject ->
  conforms p (VObject obj) = object_conforms (Properties_of p) obj.
Proof. intros Ht. simpl. by rewrite Ht. Qed.

Lemma conforms_not_nil p v : conforms p v = true -> v <> VNil /\ is_DNil (encode p v) = false.
Proof.
  destruct v; simpl; repeat case_match; done.
Qed.

Lemma convert_fields ps obj path acc (c : C) :
  Forall (fun e => forall p, conforms p (snd e) = true -> converts p (snd e)) obj ->
  forallb (field_ok ps) obj = true -> NoDup (map fst obj) ->
  (forall n, n ∈ map fst obj -> n ∉ mkeys acc) ->
  Interface2Redis_loop None (structField2Redis None) path ps obj acc c
    = (Ret (Ok (acc ++ encode_fields ps obj)), c).
Proof.
  intros Hobj. revert acc c. induction Hobj as [|[n v] obj Hv _ IH]; simpl; intros acc c Hok Hnd Hacc.
  - by rewrite app_nil_r.
  - apply andb_true_iff in Hok as [He Hok]. unfold field_ok in He. simpl in He. split_andb.
    apply NoDup_cons in Hnd as [Hn Hnd].
    destruct (mget n ps) as [p|] eqn:Ep; [|done].
    cbn [snd] in Hv.
    unfold bind_ok. erewrite bind_step by (by apply Hv).
    assert (Hnil : is_DNil (encode p v) = false) by by apply conforms_not_nil.
    cbv beta iota. rewrite Hnil. simpl. rewrite IH.
    + rewrite mput_fresh by (apply Hacc; by left). by rewrite <- app_assoc.
    + done.
    + done.
    + intros n' Hn'. rewrite mkeys_mput. intros [->|Hin]; [done|].
      by eapply Hacc; [right|].
Qed.

Lemma convert_elements e l path i (c : C) :
  Forall (fun v => forall p, conforms p v = true -> converts p v) l ->
  forallb (conforms e) l = true ->
  structArray2Redis_loop (structField2Redis None) path e i l c = (Ret (Ok (map (encode e) l)), c).
Proof.
  intros Hl. revert i c. induction Hl as [|v l Hv _ IH]; simpl; intros i c Hok; [done|].
  apply andb_true_iff in Hok as [He Hok].
  unfold bind_ok. erewrite bind_step by (by apply Hv). simpl.
  by erewrite bind_step by (by apply IH).
Qed.

(** A conforming value is converted, without error, to its encoding. *)
Lemma conforms_converts v : forall p, conforms p v = true -> converts p v.
Proof.
  induction v as [v Hna Hno|l IH|obj IH] using value_induction; intros p Hc path c.
  - destruct v as [| |f| | | | |l|m]; try by (destruct (p_Type p) eqn:Et; simpl in Hc; rewrite Et in Hc).
    + simpl in *. destruct (p_Type p) eqn:Et; try done.
    + simpl in *. unfold is_type. destruct (p_Type p) eqn:Et; try done; simpl.
      split_andb. unfold structField_finish, float_to_int64, run_cb, bind, ret. simpl.
      by repeat match goal with E : _ = true |- _ => rewrite E end.
    + simpl in *. destruct (p_Type p) eqn:Et; try done.
    + by destruct (Hna l).
    + by destruct (Hno m).
  - simpl in *. destruct (p_Type p) eqn:Et; try done.
    destruct (ArrayOf p) as [e|] eqn:Ee; [|done]. split_andb.
    unfold bind_ok. by erewrite bind_step by (by apply convert_elements).
  - destruct (p_Type p) eqn:Et; try by (simpl in Hc; rewrite Et in Hc).
    + rewrite conforms_object in Hc by done. unfold object_conforms in Hc. split_andb.
      simpl. rewrite Et. unfold bind_ok.
      erewrite bind_step by (apply convert_fields; [done|done|by eapply bool_decide_eq_true|];
        intros; apply not_elem_of_nil).
      done.
    + simpl in *. rewrite Et in *. split_andb.
      destruct obj as [|[n v] []]; try done; destruct v; try done.
      match goal with E : (n =? _)%string = true |- _ => apply String.eqb_eq in E as -> end.
      destruct (IsNavLink p); [done|]. simpl. by destruct (mget "@odata.id" (Properties_of p)).
Qed.
End conversion.

(* ===================================================================== *)
(** * A conforming value is storable                                     *)
(* ===================================================================== *)

Section storable_facts.
Context `{FloatText}.

Lemma simple_element_ok e v :
  isRedfishValueString (p_Type e) = true -> conforms e v = true ->
  storable (encode e v) = true /\ element_ok false (encode e v) = true.
Proof. destruct v; simpl; destruct (p_Type e); simpl; repeat case_match; done. Qed.

Lemma field_ok_inv ps n v :
  field_ok ps (n, v) = true ->
  free_of slash n = true /\ has_suffix "@odata.count" n = false /\
  exists p, mget n ps = Some p /\ conforms p v = true.
Proof.
  unfold field_ok. simpl. intros Hf. split_andb. rewrite <- negb_true_iff.
  destruct (mget n ps) as [p|]; [|done]. eauto.
Qed.

Lemma forallb_elem {A} (f : A -> bool) l x : forallb f l = true -> x ∈ l -> f x = true.
Proof. rewrite forallb_forall. intros Hf Hx. by apply Hf, list_elem_of_In. Qed.

Lemma conforms_storable v : forall p, conforms p v = true -> storable (encode p v) = true.
Proof.
  induction v as [v Hna Hno|l IH|obj IH] using value_induction; intros p Hc.
  - destruct v as [| | | | | | |l|m]; [..|by destruct (Hna l)|by destruct (Hno m)];
      simpl in *; repeat case_match; done.
  - simpl in *. destruct (p_Type p); try done. destruct (ArrayOf p) as [e|]; [|done].
    split_andb. simpl. apply forallb_forall. intros d (v & <- & Hin)%in_map_iff.
    apply list_elem_of_In in Hin. rewrite Forall_forall in IH.
    assert (Hv : conforms e v = true) by (by eapply forallb_elem).
    destruct (isRedfishValueString (p_Type e)) eqn:Es.
    + destruct (simple_element_ok e v Es Hv) as [Hst Hel]. rewrite Hst. exact Hel.
    + rewrite (IH v Hin e Hv). simpl in *.
      match goal with E : is_type PropObject e = true |- _ => apply is_type_eq in E end.
      destruct v; simpl in Hv; repeat case_match; done.
  - destruct (p_Type p) eqn:Et; try by (simpl in Hc; rewrite Et in Hc).
    + rewrite conforms_object in Hc by done. unfold object_conforms in Hc. split_andb.
      rewrite encode_object. simpl. rewrite encode_fields_keys.
      rewrite !andb_true_iff. split; [split; [|done]|].
      * by destruct obj.
      * apply forallb_forall. intros d ([n v] & <- & Hin)%in_map_iff. simpl.
        apply list_elem_of_In in Hin. rewrite Forall_forall in IH.
        destruct (field_ok_inv (Properties_of p) n v) as (-> & _ & q & -> & Hv);
          [by eapply forallb_elem|]. by apply (IH (n, v)).
    + simpl in *. rewrite Et in Hc. split_andb. destruct obj as [|[n v] []]; try done; destruct v; try done.
      match goal with E : (n =? _)%string = true |- _ => apply String.eqb_eq in E as -> end.
      simpl. by destruct (mget "@odata.id" (Properties_of p)).
Qed.

Lemma object_conforms_storable ps obj :
  object_conforms ps obj = true -> storable (DObj (encode_fields ps obj)) = true.
Proof.
  intros Hc. rewrite <- (conforms_object (object_of ps)) in Hc by done.
  exact (conforms_storable (VObject obj) (object_of ps) Hc).
Qed.
End storable_facts.

(* ===================================================================== *)
(** * Reading                                                            *)
(* ===================================================================== *)

Section reading.
Context {S : Type} `{RedisLaws S} `{FloatText} (r2s : Redis2Interface S).

Abbreviation xname := (r2s_XName r2s).

(** What [BuildStruct] presents for the fields of an object. *)
Definition readback_fields (ps : properties) (obj : object) : object :=
  flat_map (fun e => entry_of (fst e)
    match mget (fst e) ps with
    | Some q => readback xname q (snd e)
    | None => snd e
    end) obj.

(** The entries for one name. *)
Definition entries (ps : properties) (obj : object) (n : string) : object :=
  match mget n obj, mget n ps with
  | Some v, Some q => entry_of n (readback xname q v)
  | _, _ => []
  end.

(** Reading an object at [key] gives the expected payload, and changes nothing. *)
Definition reads_object (ps : properties) (obj : object) : Prop := forall ks key,
  holds ks (DObj (encode_fields ps obj)) key ->
  wp ks (BuildStruct r2s ps key)
    (returns (fun r ks' => ks' = ks /\ exists m, r = Ok m /\ object_equiv m (readback_fields ps obj))).

(** The post-condition of a loop that only extends the payload. *)
Definition extends (payload : object) (ks : keys) (expected : object) : outcome (result object) -> keys -> Prop :=
  returns (fun r ks' => ks' = ks /\ exists es, r = Ok (payload ++ es) /\ Forall2 entry_equiv es expected).

Lemma entry_equiv_refl m : Forall2 entry_equiv m m.
Proof. induction m; constructor; [split; [done|constructor]|done]. Qed.

Lemma field_simple ks key ps n p t w payload (build : properties -> string -> M S (result object)) :
  mget n ps = Some p -> isRedfishValueString (p_Type p) = true ->
  ks !! child key n = Some (RStr t) -> simple_value (p_Type p) t = Ok w ->
  n ∉ mkeys payload ->
  wp ks (BuildStruct_field r2s build ps key payload n) (extends payload ks [(n, w)]).
Proof.
  intros Hp Ht Hk Hw Hn.
  assert (Hgoal : wp ks
    (r <- getValueForKey r2s (child key n) ;;
     match r with
     | Err e => if has_prefix "unknown xname" (err_string e) then ret (Err e)
                else ret (Ok (mput n VNil payload))
     | Ok simpleValue =>
         ret (match simple_value (p_Type p) simpleValue with
              | Ok v => Ok (mput n v payload)
              | Err e => Err e
              end)
     end) (extends payload ks [(n, w)])).
  { unfold getValueForKey. wp_steps. rewrite Hk. simpl. wp_steps. simpl. wp_steps. rewrite Hw.
    split; [done|]. exists [(n, w)]. rewrite mput_fresh by done. split; [done|apply entry_equiv_refl]. }
  unfold BuildStruct_field. rewrite Hp. by destruct (p_Type p).
Qed.

Lemma count_name_suffix n : has_suffix "@odata.count" (count_name n) = true.
Proof. apply has_suffix_end. Qed.

Lemma put_array_fresh n l payload :
  has_suffix "@odata.count" n = false -> n ∉ mkeys payload -> count_name n ∉ mkeys payload ->
  put_array n l payload = payload ++ entry_of n (VArray l).
Proof.
  intros Hs Hn Hc. unfold put_array. rewrite (mput_fresh n) by done.
  rewrite mput_fresh; [by rewrite <- app_assoc|].
  unfold mkeys. rewrite map_app, elem_of_app. simpl. rewrite list_elem_of_singleton.
  intros [?|E]; [done|]. rewrite <- E, count_name_suffix in Hs. done.
Qed.

(** *** Arrays *)

Lemma buildArray_element_simple build e keySpace acc x :
  isRedfishValueString (p_Type e) = true ->
  buildArray_element r2s build e keySpace acc x = ret (Ok (acc ++ [VString x])).
Proof. intros He. unfold buildArray_element. by rewrite He. Qed.

Lemma buildArray_element_object build e keySpace acc x :
  p_Type e = PropObject ->
  buildArray_element r2s build e keySpace acc x
  = (value <-? build (Properties_of e) (child keySpace x) ;; ret (Ok (acc ++ [VObject value]))).
Proof. intros He. unfold buildArray_element, is_type. by rewrite He. Qed.

Lemma array_simple ks keySpace e l :
  isRedfishValueString (p_Type e) = true ->
  forall acc ks', ks' = ks ->
  wp ks' (fold_ok (buildArray_element r2s (BuildStruct r2s) e keySpace) acc l)
    (returns (fun r ks'' => ks'' = ks /\ r = Ok (acc ++ map VString l))).
Proof.
  intros He. induction l as [|x l IH]; intros acc ks' ->; simpl.
  - apply wp_ret. by rewrite app_nil_r.
  - wp_steps. rewrite buildArray_element_simple by done. wp_steps.
    eapply wp_mono; [by apply IH|]. intros [r| | |] ks'; simpl; try done.
    intros [-> ->]. by rewrite <- app_assoc.
Qed.

Definition object_reads (v : value) : Prop := forall p obj,
  v = VObject obj -> p_Type p = PropObject -> conforms p v = true ->
  reads_object (Properties_of p) obj.

Lemma array_objects ks keySpace e l i :
  p_Type e = PropObject -> Forall object_reads l -> forallb (conforms e) l = true ->
  (forall j v, l !! j = Some v -> holds ks (encode e v) (child keySpace (format_nat (i + j)))) ->
  forall acc ks', ks' = ks ->
  wp ks' (fold_ok (buildArray_element r2s (BuildStruct r2s) e keySpace) acc (indices i (List.length l)))
    (returns (fun r ks'' => ks'' = ks /\ exists vs, r = Ok (acc ++ vs) /\
       Forall2 value_equiv vs (map (readback xname e) l))).
Proof.
  intros He Hl. revert i. induction Hl as [|v l Hv _ IH]; intros i Hok Hh acc ks' ->; simpl.
  - apply wp_ret. split; [done|]. exists []. by rewrite app_nil_r.
  - simpl in Hok. apply andb_true_iff in Hok as [Hcv Hok].
    assert (exists obj, v = VObject obj) as [obj ->].
    { destruct v; simpl in Hcv; rewrite He in Hcv; try done. eauto. }
    wp_steps. rewrite buildArray_element_object by done. wp_steps. specialize (Hh 0%nat _ eq_refl) as Hh0. rewrite Nat.add_0_r in Hh0.
    eapply wp_mono; [by apply (Hv e obj eq_refl He Hcv)|].
    intros [r| | |] ks'; simpl; try done. intros (-> & m & -> & Hm). wp_steps.
    eapply wp_mono; [apply (IH (Datatypes.S i) Hok)|]; [|done|].
    + intros j v' Hj. specialize (Hh (Datatypes.S j) v' Hj). by rewrite Nat.add_succ_r in Hh.
    + intros [r| | |] ks'; simpl; try done. intros (-> & vs & -> & Hvs).
      split; [done|]. exists (VObject m :: vs). rewrite <- app_assoc. split; [done|].
      constructor; [|done]. rewrite He. by apply object_equiv_value.
Qed.
End reading.

(* ===================================================================== *)
(** * Reading a conforming object                                        *)
(* ===================================================================== *)

Section reading_objects.
Context {S : Type} `{RedisLaws S} `{FloatText} (r2s : Redis2Interface S).

(** What is known of a sub-value when its parent is read. *)
Definition value_reads (v : value) : Prop :=
  object_reads r2s v /\ forall l, v = VArray l -> Forall (object_reads r2s) l.

Lemma holds_str ks s key : holds ks (DStr s) key -> ks !! key = Some (RStr s).
Proof. intros Hh. rewrite (Hh key) by apply under_refl. simpl. by rewrite lookup_singleton_eq. Qed.

Lemma holds_arr ks b l key :
  holds ks (DArr b l) key ->
  lrange_reply (ks !! key)
  = Ok (if b then indices 0 (List.length l) else map element_arg l).
Proof.
  intros Hh. rewrite (Hh key) by apply under_refl. destruct l as [|d l], b; simpl; try done.
  - by rewrite lookup_insert_eq.
  - by rewrite lookup_singleton_eq.
Qed.

Lemma conforms_simple p v :
  isRedfishValueString (p_Type p) = true -> conforms p v = true ->
  exists t, encode p v = DStr t /\
    simple_value (p_Type p) t = Ok (readback (r2s_XName r2s) p v) /\
    forall n, entry_of n (readback (r2s_XName r2s) p v) = [(n, readback (r2s_XName r2s) p v)].
Proof.
  destruct v; simpl; unfold is_type; destruct (p_Type p) eqn:Et; simpl; try done; intros _ Hc; eexists;
    (split; [reflexivity|]); try (split; reflexivity).
  - by rewrite parse_format_bool.
  - split_andb. assert (Hf : String.eqb (format_float f) "" = false)
      by by apply String.eqb_neq, format_float_nonempty.
    by rewrite Hf, parse_format_float.
  - split_andb. rewrite parse_format_int; [done|].
    split; by apply Z.leb_le.
Qed.

Lemma simple_field_reads ks key ps n p v payload :
  mget n ps = Some p -> isRedfishValueString (p_Type p) = true -> conforms p v = true ->
  holds ks (encode p v) (child key n) -> n ∉ mkeys payload ->
  wp ks (BuildStruct_field r2s (BuildStruct r2s) ps key payload n)
    (extends payload ks (entry_of n (readback (r2s_XName r2s) p v))).
Proof.
  intros Hp Ht Hc Hh Hn. destruct (conforms_simple p v Ht Hc) as (t & Et & Hs & He).
  rewrite Et in Hh. rewrite He. eapply field_simple; eauto using holds_str.
Qed.

Lemma array_field_reads ks key ps n p l payload :
  mget n ps = Some p -> p_Type p = PropArray -> conforms p (VArray l) = true ->
  holds ks (encode p (VArray l)) (child key n) -> Forall (object_reads r2s) l ->
  has_suffix "@odata.count" n = false -> n ∉ mkeys payload -> count_name n ∉ mkeys payload ->
  wp ks (BuildStruct_field r2s (BuildStruct r2s) ps key payload n)
    (extends payload ks (entry_of n (readback (r2s_XName r2s) p (VArray l)))).
Proof.
  intros Hp Ht Hc Hh Hl Hs Hn Hcn. simpl in Hc, Hh. rewrite Ht in Hc.
  destruct (ArrayOf p) as [e|] eqn:Ee; [|done]. split_andb.
  unfold BuildStruct_field. rewrite Hp, Ht. unfold buildArray. wp_steps.
  erewrite holds_arr by done. cbv beta iota. rewrite Ee.
  simpl readback. rewrite Ht, Ee.
  destruct (isRedfishValueString (p_Type e)) eqn:Es; simpl negb; cbv iota.
  - eapply wp_mono; [by apply array_simple|].
    intros [r| | |] ks'; simpl; try done. intros (-> & ->). wp_steps. split; [done|].
    rewrite put_array_fresh by done. rewrite !map_map.
    eexists. split; [reflexivity|]. apply entry_equiv_refl.
  - assert (p_Type e = PropObject) as Heo by by eapply is_type_eq.
    rewrite length_map. eapply wp_mono; [apply (array_objects r2s ks (child key n) e l 0)|]; try done.
    + intros j v Hj. eapply holds_element; [done|]. change (map (encode e) l) with (encode e <$> l). rewrite list_lookup_fmap. by setoid_rewrite Hj.
    + intros [r| | |] ks'; simpl; try done. intros (-> & vs & -> & Hvs). wp_steps. split; [done|].
      rewrite put_array_fresh by done. eexists. split; [reflexivity|]. simpl.
      rewrite (Forall2_length _ _ _ Hvs).
      constructor; [|apply entry_equiv_refl]. split; [done|]. by constructor.
Qed.

Lemma link_field_reads ks key ps n p target payload :
  mget n ps = Some p -> p_Type p = PropLink -> IsNavLink p = false -> LinkAutoExpand p = false ->
  holds ks (encode p (VObject [("@odata.id", VString target)])) (child key n) ->
  n ∉ mkeys payload ->
  wp ks (BuildStruct_field r2s (BuildStruct r2s) ps key payload n)
    (extends payload ks [(n, link_object (trim_prefix (r2s_XName r2s) target))]).
Proof.
  intros Hp Ht Hnav Hexp Hh Hn.
  assert (He : holds ks (DStr target) (child (child key n) "@odata.id")).
  { eapply holds_field; [exact Hh|repeat constructor; set_solver|by repeat constructor|].
    simpl. destruct (mget "@odata.id" (Properties_of p)); left. }
  unfold BuildStruct_field. rewrite Hp, Ht. unfold buildLink. rewrite Hexp, Hnav. unfold get_or_empty.
  wp_steps. rewrite (holds_str _ _ _ He). simpl get_reply. wp_steps.
  unfold link_object at 1. cbv iota. split; [done|]. rewrite mput_fresh by done.
  eexists. split; [reflexivity|]. apply entry_equiv_refl.
Qed.

(** Every conforming field extends the payload with its entries. *)
Lemma field_reads ks key ps n p v payload :
  mget n ps = Some p -> conforms p v = true -> holds ks (encode p v) (child key n) ->
  value_reads v -> has_suffix "@odata.count" n = false ->
  n ∉ mkeys payload -> count_name n ∉ mkeys payload ->
  wp ks (BuildStruct_field r2s (BuildStruct r2s) ps key payload n)
    (extends payload ks (entry_of n (readback (r2s_XName r2s) p v))).
Proof.
  intros Hp Hc Hh [Hobj Harr] Hs Hn Hcn.
  destruct (isRedfishValueString (p_Type p)) eqn:Ht; [by eapply simple_field_reads|].
  destruct v as [| | | | | | |l|obj]; try by (simpl in Hc; destruct (p_Type p)).
  - assert (p_Type p = PropArray) by (simpl in Hc; by destruct (p_Type p)).
    eapply array_field_reads; eauto.
  - destruct (p_Type p) eqn:Et; try by (simpl in Hc; rewrite Et in Hc).
    + specialize (Hobj p obj eq_refl Et Hc). unfold BuildStruct_field. rewrite Hp, Et. wp_steps.
      eapply wp_mono; [by apply Hobj|]. intros [r| | |] ks'; simpl; try done.
      intros (-> & m & -> & Hm). wp_steps. split; [done|]. rewrite mput_fresh by done.
      eexists. split; [reflexivity|]. rewrite Et. repeat constructor. by apply object_equiv_value.
    + simpl in Hc. rewrite Et in Hc. split_andb.
      destruct obj as [|[k v] []]; try done; destruct v; try done.
      match goal with E : (k =? _)%string = true |- _ => apply String.eqb_eq in E as -> end.
      match goal with E : negb (IsNavLink p) = true |- _ => apply negb_true_iff in E end.
      match goal with E : negb (LinkAutoExpand p) = true |- _ => apply negb_true_iff in E end.
      simpl readback. rewrite Et. by apply (link_field_reads ks key ps n p).
Qed.
End reading_objects.

(** ** The loop over the members of a set *)

Lemma count_name_inj n1 n2 : count_name n1 = count_name n2 -> n1 = n2.
Proof. apply str_app_inv_tail. Qed.

Lemma entry_of_keys n v x : x ∈ mkeys (entry_of n v) -> x = n \/ x = count_name n.
Proof. destruct v; simpl; set_solver. Qed.

(** A set of names each of which is read as some entries of its own. *)
Section reading_loop.
Context {S : Type} `{RedisLaws S} `{FloatText} (r2s : Redis2Interface S).
Variables (ps : properties) (all : list string) (E : string -> object) (ks : keys) (key : string).
Hypothesis Hsuffix : forall n, n ∈ all -> has_suffix "@odata.count" n = false.
Hypothesis Hkeys : forall n x, x ∈ mkeys (E n) -> x = n \/ x = count_name n.
Hypothesis Hread : forall n payload, n ∈ all -> n ∉ mkeys payload -> count_name n ∉ mkeys payload ->
  wp ks (BuildStruct_field r2s (BuildStruct r2s) ps key payload n) (extends payload ks (E n)).

(** The names the payload may hold: of the fields already read. *)
Definition only_names (payload : object) (rest : list string) : Prop :=
  forall x, x ∈ mkeys payload -> exists n, n ∈ all /\ n ∉ rest /\ (x = n \/ x = count_name n).

Lemma only_names_fresh payload n rest :
  only_names payload (n :: rest) -> n ∈ all -> n ∉ mkeys payload /\ count_name n ∉ mkeys payload.
Proof.
  intros Ho Hn.
  assert (Hs : forall n, n ∈ all -> forall x, n <> count_name x).
  { intros n1 Hn1 x ->. specialize (Hsuffix _ Hn1). by rewrite count_name_suffix in Hsuffix. }
  split; intros (n' & Hn' & Hr & [Ex|Ex])%Ho.
  - subst. destruct Hr. by left.
  - by apply (Hs n Hn n').
  - symmetry in Ex. by apply (Hs n' Hn' n).
  - apply count_name_inj in Ex as ->. destruct Hr. by left.
Qed.

Lemma only_names_step payload es n rest :
  NoDup (n :: rest) -> n ∈ all -> Forall2 entry_equiv es (E n) ->
  only_names payload (n :: rest) -> only_names (payload ++ es) rest.
Proof.
  intros [Hr _]%NoDup_cons Hn Hes Ho x. unfold mkeys. rewrite map_app, elem_of_app. intros [Hx|Hx].
  - destruct (Ho x Hx) as (n' & ? & Hn' & ?). exists n'. split; [done|]. split; [|done].
    intros ?. apply Hn'. by right.
  - exists n. split; [done|]. split; [done|]. apply Hkeys.
    rewrite <- (entry_equiv_keys _ _ Hes). exact Hx.
Qed.

Lemma loop_reads names : forall payload,
  NoDup names -> (forall n, n ∈ names -> n ∈ all) -> only_names payload names ->
  wp ks (fold_ok (BuildStruct_field r2s (BuildStruct r2s) ps key) payload names)
    (extends payload ks (flat_map E names)).
Proof.
  induction names as [|n names IH]; intros payload Hnd Hin Ho; simpl.
  - apply wp_ret. split; [done|]. exists []. by rewrite app_nil_r.
  - assert (Hn : n ∈ all) by (apply Hin; left).
    destruct (only_names_fresh payload n names Ho Hn) as [Hf Hcf].
    wp_steps. eapply wp_mono; [by apply Hread|].
    intros [r| | |] ks'; simpl; try done. intros (-> & es & -> & Hes).
    eapply wp_mono; [apply IH|].
    + by apply NoDup_cons in Hnd as [_ ?].
    + intros n' ?. apply Hin. by right.
    + by eapply only_names_step.
    + intros [r| | |] ks'; simpl; try done. intros (-> & es' & -> & Hes'). split; [done|].
      exists (es ++ es'). rewrite <- app_assoc. split; [done|]. by apply Forall2_app.
Qed.

(** A non-empty set is presented as the entries of its members. *)
Lemma set_reads : ks !! key = Some (RSet (list_to_set all)) -> NoDup all -> all <> [] ->
  wp ks (BuildStruct r2s ps key)
    (returns (fun r ks' => ks' = ks /\ exists m, r = Ok m /\ object_equiv m (flat_map E all))).
Proof.
  intros Hk Hnd Hne s Hs. rewrite BuildStruct_unfold. revert s Hs.
  change (wp ks (BuildStruct_body r2s (BuildStruct r2s) ps key)
    (returns (fun r ks' => ks' = ks /\ exists m, r = Ok m /\ object_equiv m (flat_map E all)))).
  unfold BuildStruct_body. wp_steps.
  match goal with Hr : smembers_reply _ _ |- _ => rewrite Hk in Hr; inversion Hr as [|X l Hl| | |]; subst end.
  rewrite elements_list_to_set in Hl by done.
  wp_steps. destruct l as [|n l]; [by apply Permutation_nil_l in Hl|].
  eapply wp_mono; [apply loop_reads|].
  - by rewrite Hl.
  - intros n'. by rewrite Hl.
  - intros x Hx. by apply elem_of_nil in Hx.
  - intros [r| | |] ks'; simpl; try done. intros (-> & es & -> & Hes). split; [done|].
    exists es. split; [done|]. eapply object_equiv_intro; [exact Hes|].
    change (E n ++ flat_map E l) with (flat_map E (n :: l)). by rewrite Hl.
Qed.
End reading_loop.

Section reading_fields.
Context {S : Type} `{RedisLaws S} `{FloatText} (r2s : Redis2Interface S).
Variables (ps : properties) (obj : object).
Hypothesis Hobj : object_conforms ps obj = true.

Lemma conforming_names : NoDup (mkeys obj).
Proof. unfold object_conforms in Hobj. split_andb. by eapply bool_decide_eq_true. Qed.

Lemma conforming_nonempty : mkeys obj <> [].
Proof. unfold object_conforms in Hobj. split_andb. by destruct obj. Qed.

Lemma conforming_field n :
  n ∈ mkeys obj -> exists v p, (n, v) ∈ obj /\ mget n obj = Some v /\ mget n ps = Some p /\
    conforms p v = true /\ has_suffix "@odata.count" n = false /\ free_of slash n = true.
Proof.
  intros Hn. destruct (mget n obj) as [v|] eqn:Ev; [|by apply mget_None in Ev].
  pose proof (mget_Some_elem _ _ _ Ev) as Hin. unfold object_conforms in Hobj. split_andb.
  destruct (field_ok_inv ps n v) as (? & ? & p & ? & ?); [by eapply forallb_elem|].
  by exists v, p.
Qed.

Lemma conforming_free : Forall (fun e => free_of slash (fst e) = true) (encode_fields ps obj).
Proof.
  apply Forall_forall. intros [n d] Hin. simpl.
  destruct (conforming_field n) as (? & ? & _ & _ & _ & _ & _ & ?); [|done].
  unfold mkeys. rewrite <- (encode_fields_keys ps). apply list_elem_of_fmap. by exists (n, d).
Qed.

Lemma encode_field_elem n v p :
  (n, v) ∈ obj -> mget n ps = Some p -> (n, encode p v) ∈ encode_fields ps obj.
Proof.
  intros Hin Hp. unfold encode_fields. apply list_elem_of_fmap. exists (n, v).
  split; [|done]. simpl. by rewrite Hp.
Qed.

Lemma entries_keys n x : x ∈ mkeys (entries r2s ps obj n) -> x = n \/ x = count_name n.
Proof.
  unfold entries. destruct (mget n obj); [|by intros ?%elem_of_nil].
  destruct (mget n ps); [apply entry_of_keys|by intros ?%elem_of_nil].
Qed.

(** One field of a stored object, wherever the others are. *)
Lemma entry_reads ks key n payload :
  (forall d, (n, d) ∈ encode_fields ps obj -> holds ks d (child key n)) ->
  Forall (fun e => value_reads r2s (snd e)) obj -> n ∈ mkeys obj ->
  n ∉ mkeys payload -> count_name n ∉ mkeys payload ->
  wp ks (BuildStruct_field r2s (BuildStruct r2s) ps key payload n) (extends payload ks (entries r2s ps obj n)).
Proof.
  intros Hh Hv Hn Hf Hcf. destruct (conforming_field n Hn) as (v & p & Hel & Ev & Ep & Hc & Hs & _).
  unfold entries. rewrite Ev, Ep. eapply field_reads; try done.
  - by apply Hh, encode_field_elem.
  - rewrite Forall_forall in Hv. by apply (Hv (n, v)).
Qed.

Lemma entries_readback : flat_map (entries r2s ps obj) (mkeys obj) = readback_fields r2s ps obj.
Proof.
  assert (Hg : forall l, (forall e, e ∈ l -> e ∈ obj) ->
    flat_map (entries r2s ps obj) (mkeys l) = readback_fields r2s ps l).
  { induction l as [|[n v] l IH]; intros Hl; [done|]. simpl. rewrite IH; [|intros; apply Hl; by right].
    f_equal. assert (Hin : (n, v) ∈ obj) by (apply Hl; left).
    assert (Hn : n ∈ mkeys obj) by (apply list_elem_of_fmap; by exists (n, v)).
    destruct (conforming_field n Hn) as (v' & p & _ & _ & Ep & _).
    unfold entries. rewrite (mget_elem n v) by (done || apply conforming_names). by rewrite Ep. }
  by apply Hg.
Qed.

Lemma object_reads_back : Forall (fun e => value_reads r2s (snd e)) obj -> reads_object r2s ps obj.
Proof.
  intros Hv ks key Hh. rewrite <- entries_readback. apply set_reads.
  - intros n Hn. by destruct (conforming_field n Hn) as (? & ? & _ & _ & _ & _ & ? & _).
  - apply entries_keys.
  - intros n payload Hn Hf Hcf. apply entry_reads; try done. intros d Hd.
    eapply holds_field; [done| |by apply conforming_free|done].
    rewrite encode_fields_keys. apply conforming_names.
  - rewrite (Hh key) by apply under_refl. simpl. rewrite lookup_insert_eq.
    unfold mkeys. by rewrite encode_fields_keys.
  - apply conforming_names.
  - apply conforming_nonempty.
Qed.
End reading_fields.

Section conforming_reads.
Context {S : Type} `{RedisLaws S} `{FloatText} (r2s : Redis2Interface S).

Lemma every_value_reads v : value_reads r2s v.
Proof.
  induction v as [v Hna Hno|l IH|m IH] using value_induction.
  - split; [intros p obj -> ; by destruct (Hno obj)|intros l ->; by destruct (Hna l)].
  - split; [by intros p obj|]. intros l' [= <-]. eapply Forall_impl; [exact IH|]. by intros v [? _].
  - split; [|done]. intros p obj [= <-] Ht Hc. rewrite conforms_object in Hc by done.
    by apply object_reads_back.
Qed.

Lemma conforming_object_reads ps obj : object_conforms ps obj = true -> reads_object r2s ps obj.
Proof.
  intros Hc. apply object_reads_back; [done|]. apply Forall_forall. intros e _. apply every_value_reads.
Qed.
End conforming_reads.

(* ===================================================================== *)
(** * The round trip                                                     *)
(* ===================================================================== *)

Section round_trip.
Context {S : Type} `{RedisLaws S} `{FloatText}.

Lemma Interface2Redis_conforming ps obj path (c : S) :
  object_conforms ps obj = true ->
  Interface2Redis None path ps obj c = (Ret (Ok (encode_fields ps obj)), c).
Proof.
  intros Hc. unfold Interface2Redis. unfold object_conforms in Hc. split_andb.
  apply (convert_fields ps obj path []); [|done|by eapply bool_decide_eq_true|intros; apply not_elem_of_nil].
  apply Forall_forall. intros e _ p. apply conforms_converts.
Qed.

(** Insertion of an object reports no error. *)
Lemma insert_object_ok m key ks :
  storable (DObj m) = true -> fresh ks key ->
  wp ks (RedisInsert (S := S) (DObj m) key)
    (returns (fun r ks' => r = Ok tt /\ ks' = image (DObj m) key ∪ ks)).
Proof.
  intros Hst Hf s Hs. pose proof (insert_writes_image (DObj m) Hst key ks Hf s Hs) as Hw.
  revert Hw. simpl. unfold bind, must. destruct (RedisInsert_fields _ _ _ s) as [[[]| | |] s1]; simpl; try done.
  unfold bind. destruct (redis_sadd _ _ s1) as [[[[]|e]| | |] s2]; simpl; done.
Qed.
End round_trip.

(** C3: what is written is what is read.  For a non-empty request object
    whose fields conform to the schema, at a key below which nothing is
    stored, the conversion of Interface2Redis, then RedisInsert, then
    BuildStruct succeed; the keyspace gains exactly the image of the object
    under the storage scheme; and the payload presented is, up to the order
    of entries and whatever the order in which Redis reports set members,
    the object itself with integers as integers, simple array elements as
    texts, arrays with their counts and links relative to the host. *)
Theorem store_then_read S `{RedisLaws S} `{FloatText} (r2s : Redis2Interface S) ps obj path key ks
  (Hc : object_conforms ps obj = true) (Hf : fresh ks key) :
  wp ks (data <-? Interface2Redis None path ps obj ;;
         _ <-? RedisInsert (DObj data) key ;;
         BuildStruct r2s ps key)
    (returns (fun r ks' => ks' = image (DObj (encode_fields ps obj)) key ∪ ks /\
       exists payload, r = Ok payload /\ object_equiv payload (readback_fields r2s ps obj))).
Proof.
  apply wp_bind_ok. eapply wp_eq; [intros s; by apply Interface2Redis_conforming|].
  cbv beta iota. unfold after. apply wp_bind_ok.
  eapply wp_mono; [apply insert_object_ok; [by apply object_conforms_storable|exact Hf]|].
  intros [r| | |] ks'; simpl; try done. intros [-> ->].
  eapply wp_mono; [apply conforming_object_reads; [exact Hc|]|].
  - exact (holds_image ks (DObj (encode_fields ps obj)) key Hf).
  - done.
Qed.

(** ** A concrete resource *)

Module RoundTripExample.
Definition led : properties :=
  [("Name", leaf (plain_info PropString)); ("Speed", leaf (plain_info PropInteger)); ("Lit", leaf (plain_info PropBool));
   ("Volts", leaf (plain_info PropNumber));
   ("Tags", array_of (leaf (plain_info PropString)));
   ("Slots", array_of (object_of [("Id", leaf (plain_info PropString))]));
   ("Oem", object_of [("Kind", leaf (plain_info PropEnum))])].
Definition request : object :=
  [("Name", VString "blue"); ("Speed", VFloat (float_of_Z 1500)); ("Lit", VBool true);
   ("Volts", VFloat (float_of_Z 12));
   ("Tags", VArray [VString "a"; VString "b"]);
   ("Slots", VArray [VObject [("Id", VString "s0")]; VObject [("Id", VString "s1")]]);
   ("Oem", VObject [("Kind", VString "x")])].
Definition rfd : RedfishDispatcher memstore :=
  mkDispatcher memstore "" "" (mkResource (plain_resource_info "ServiceRoot" false) [] None) [] [] []
    (mkWorld memstore (fun _ _ => None) (fun _ _ => None) (fun _ _ => None) (fun _ _ _ => ret None)).
Definition r2s : Redis2Interface memstore := mkRedis2Interface memstore rfd None "/redfish/v1/Led" "".
Definition store0 : memstore := {["other" := RStr "x"]}.

Lemma store0_fresh : fresh store0 "/redfish/v1/Led".
Proof.
  intros k [->|[t ->]]; [done|]. unfold store0. apply lookup_singleton_ne. unfold child.
  autorewrite with str_db. discriminate.
Qed.

Lemma store_then_read_witness :
  wp (S := memstore) store0
    (data <-? Interface2Redis None [] led request ;;
     _ <-? RedisInsert (DObj data) "/redfish/v1/Led" ;;
     BuildStruct r2s led "/redfish/v1/Led")
    (returns (fun r ks' => ks' = image (DObj (encode_fields led request)) "/redfish/v1/Led" ∪ store0 /\
       exists payload, r = Ok payload /\ object_equiv payload (readback_fields r2s led request))).
Proof.
  apply (store_then_read memstore r2s led request [] "/redfish/v1/Led" store0);
    [vm_compute; reflexivity|exact store0_fresh].
Defined.

(** The payload the example produces. *)
Example read_example :
  option_map (mget "Slots@odata.count")
    match fst ((data <-? Interface2Redis None [] led request ;;
           _ <-? RedisInsert (DObj data) "/redfish/v1/Led" ;;
           BuildStruct r2s led "/redfish/v1/Led") store0) with
    | Ret (Ok payload) => Some payload
    | _ => None
    end = Some (Some (VInt 2)).
Proof. vm_compute. reflexivity. Qed.
End RoundTripExample.
