(* ===== verification/Removal.v ===== *)
(** Removing what was stored.

    [redisRemoveObject] follows what it finds in Redis, not the schema, so
    its depth is bounded by the keyspace: every key it visits is longer than
    the one before.  It only deletes, and only at and below its key; and it
    deletes everything that the insertion of a conforming object wrote. *)
From S2P Require Import Prelude Values Redis Schema Walk RedisStruct Dispatcher RoundTrip.

(** The length of the longest key *)
Definition longest_key (ks : keys) : nat :=
  list_max (map (fun e => String.length (fst e)) (map_to_list ks)).

(** [ks'] is [ks] less some of the keys at and below [key]. *)
Definition pruned (key : string) (ks ks' : keys) : Prop :=
  ks' ⊆ ks /\ forall k, ~ under key k -> ks' !! k = ks !! k.

Definition prunes {A} (key : string) (ks : keys) (o : outcome A) (ks' : keys) : Prop :=
  o <> OutOfFuel /\ pruned key ks ks'.

(* ===================================================================== *)
(** * Pruning                                                            *)
(* ===================================================================== *)

Lemma longest_key_bound ks k : is_Some (ks !! k) -> (String.length k <= longest_key ks)%nat.
Proof.
  intros [v Hv]. apply (list_max_elem (fun e => String.length (fst e)) (k, v)).
  by apply elem_of_map_to_list.
Qed.

Lemma pruned_refl key ks : pruned key ks ks.
Proof. by split. Qed.

Lemma pruned_trans key ks1 ks2 ks3 : pruned key ks1 ks2 -> pruned key ks2 ks3 -> pruned key ks1 ks3.
Proof. intros [? H12] [? H23]. split; [by etrans|]. intros k Hk. by rewrite H23, H12. Qed.

Lemma pruned_child key n ks ks' : pruned (child key n) ks ks' -> pruned key ks ks'.
Proof. intros [? Hf]. split; [done|]. intros k Hk. apply Hf. intros ?. by eapply Hk, under_of_child. Qed.

Lemma pruned_delete key ks : pruned key ks (delete key ks).
Proof.
  split; [apply delete_subseteq|]. intros k Hk. apply lookup_delete_ne. intros ->. apply Hk, under_refl.
Qed.

Lemma pruned_is_Some key ks ks' k : pruned key ks ks' -> is_Some (ks' !! k) -> is_Some (ks !! k).
Proof. intros [Hs _] [v Hv]. exists v. by eapply lookup_weaken. Qed.

Create HintDb pruned_db.
#[export] Hint Resolve pruned_refl pruned_child pruned_delete : pruned_db.


Section prune.
Context {S : Type} `{RedisLaws S}.

(** Sequencing: what the rest prunes from where the first part stopped. *)
Lemma prunes_bind {A B} key ks (m : M S A) (k : A -> M S B) :
  wp ks m (prunes key ks) ->
  (forall a ks1, pruned key ks ks1 -> wp ks1 (k a) (prunes key ks1)) ->
  wp ks (bind m k) (prunes key ks).
Proof.
  intros Hm Hk. apply wp_bind. eapply wp_mono; [exact Hm|].
  intros [a|?|?|] ks1 [Hne Hp]; simpl; try (by split).
  eapply wp_mono; [by apply Hk|]. intros o ks2 [? ?]. split; [done|]. by eapply pruned_trans.
Qed.

Lemma prunes_for_each {A} key ks (f : A -> M S unit) l :
  (forall x ks1, x ∈ l -> pruned key ks ks1 -> wp ks1 (f x) (prunes key ks1)) ->
  wp ks (for_each f l) (prunes key ks).
Proof.
  revert ks. induction l as [|x l IH]; intros ks Hf; simpl.
  - apply wp_ret. by split; [|apply pruned_refl].
  - apply prunes_bind; [apply Hf; [left|apply pruned_refl]|]. intros _ ks1 Hp. apply IH.
    intros x' ks2 Hx Hp'. apply Hf; [by right|]. by eapply pruned_trans.
Qed.

Lemma prunes_must {A} key ks (m : M S (result A)) :
  wp ks m (prunes key ks) -> wp ks (must m) (prunes key ks).
Proof.
  intros Hm. apply prunes_bind; [exact Hm|]. intros [a|e] ks1 _; [apply wp_ret|apply wp_panic];
    by split; [|apply pruned_refl].
Qed.

Lemma prunes_del key ks : wp ks (redis_del key) (prunes key ks).
Proof. apply wp_del. split; [done|apply pruned_delete]. Qed.

(** The bound on the depth at [key]. *)
Definition deep_enough (fuel : nat) (ks : keys) (key : string) : Prop :=
  (1 <= fuel)%nat /\ (longest_key ks + 1 < fuel + String.length key)%nat.

Lemma longest_key_pruned key ks ks' : pruned key ks ks' -> (longest_key ks' <= longest_key ks)%nat.
Proof.
  intros Hp. apply list_max_le, List.Forall_forall. intros len Hin%list_elem_of_In.
  apply list_elem_of_fmap in Hin as ([k v] & -> & Hin%elem_of_map_to_list). simpl.
  apply longest_key_bound. eapply pruned_is_Some; [exact Hp|eauto].
Qed.

Definition removes_below (remove : properties -> string -> M S unit) (fuel : nat) : Prop :=
  forall ks ps key, deep_enough fuel ks key -> wp ks (remove ps key) (prunes key ks).

Lemma prunes_sub {A} key n ks (m : M S A) :
  wp ks m (prunes (child key n) ks) -> wp ks m (prunes key ks).
Proof. intros Hm. eapply wp_mono; [exact Hm|]. intros o ks' [? ?]. split; eauto with pruned_db. Qed.

Lemma prunes_array remove fuel ks p key :
  removes_below remove fuel -> is_Some (ks !! key) -> deep_enough (Datatypes.S fuel) ks key ->
  (1 <= fuel)%nat -> wp ks (redisRemoveArray remove p key) (prunes key ks).
Proof.
  intros Hr Hk [_ Hd] Hf.
  assert (Hel : forall ps l ks1, pruned key ks ks1 ->
    wp ks1 (redisRemoveArray_elements remove ps key l) (prunes key ks1)).
  { intros ps l. induction l as [|x l IH]; intros ks1 Hp; simpl.
    - apply wp_ret. by split; [|apply pruned_refl].
    - apply prunes_bind.
      + apply (prunes_sub key x), Hr. split; [done|]. pose proof (child_length key x).
        pose proof (longest_key_pruned _ _ _ Hp). lia.
      + intros _ ks2 Hp2. apply IH. by eapply pruned_trans. }
  unfold redisRemoveArray. apply prunes_bind.
  - destruct p as [p|]; [|apply wp_ret; by split; [|apply pruned_refl]].
    destruct (ArrayOf p) as [e|]; [|apply wp_panic; by split; [|apply pruned_refl]].
    destruct (isRedfishValueString _); [apply wp_ret; by split; [|apply pruned_refl]|].
    apply prunes_bind; [apply prunes_must, wp_lrange; by split; [|apply pruned_refl]|].
    intros l ks1 Hp. by apply Hel.
  - intros _ ks1 _. apply prunes_bind; [apply prunes_del|]. intros _ ks2 _.
    apply prunes_must, prunes_del.
Qed.

Lemma prunes_field remove fuel ks p key :
  removes_below remove fuel -> deep_enough (Datatypes.S fuel) ks key -> (1 <= fuel)%nat ->
  (deep_enough fuel ks key) ->
  wp ks (redisRemoveField remove p key) (prunes key ks).
Proof.
  intros Hr Hd Hf Hd'. unfold redisRemoveField.
  apply wp_bind. wp_steps.
  assert (Hret : wp ks (ret tt) (prunes (A := unit) key ks)) by (apply wp_ret; by split; [|apply pruned_refl]).
  destruct (_ =? "string")%string; [apply prunes_must, prunes_del|].
  destruct (_ =? "set")%string.
  - destruct p as [p|]; [destruct (_ && _); [exact Hret|]|]; by apply Hr.
  - destruct (_ =? "list")%string eqn:El; [|exact Hret].
    eapply prunes_array; try done. destruct (ks !! key); [by eexists|done].
Qed.

Lemma redisRemoveObject_prunes fuel : removes_below (redisRemoveObject (S := S) fuel) fuel.
Proof.
  induction fuel as [|fuel IH]; intros ks ps key [Hf Hd]; [lia|]. simpl.
  apply wp_bind. wp_step. wp_steps.
  assert (Hret : forall A (a : A), prunes key ks (Ret a) ks) by (intros; split; [done|apply pruned_refl]).
  assert (Hpan : forall A msg, prunes (A := A) key ks (Panic msg) ks) by (intros; split; [done|apply pruned_refl]).
  match goal with Hr : smembers_reply _ _ |- _ => inversion Hr as [Hk|X l Hl Hk| | |] end; subst;
    wp_steps; try apply Hpan.
  - simpl. wp_steps. split; [done|apply pruned_delete].
  - assert (Hlen : (String.length key <= longest_key ks)%nat) by (apply longest_key_bound; by rewrite <- Hk).
    eapply wp_mono; [apply (prunes_for_each key)|].
    + intros x ks1 _ Hp. apply (prunes_sub key x).
      pose proof (child_length key x). pose proof (longest_key_pruned _ _ _ Hp).
      pose proof (longest_key_pruned _ _ _ (pruned_delete key ks)).
      eapply prunes_field; [exact IH|split; lia|lia|split; lia].
    + intros o ks' [? Hp]. split; [done|]. eapply pruned_trans; [apply pruned_delete|done].
Qed.
End prune.

(* ===================================================================== *)
(** * Removing all of what was stored                                    *)
(* ===================================================================== *)

(** The schema and the stored data agree on what has to be followed: no
    navigation link holds data, and an array of objects is one in the schema. *)
Fixpoint removable (p : option Property) (d : rdata) : bool :=
  match d with
  | DNil | DStr _ => true
  | DArr isObject l =>
      match p with
      | Some p =>
          match ArrayOf p with
          | Some e =>
              Bool.eqb isObject (negb (isRedfishValueString (p_Type e)))
              && negb (is_type PropLink e)
              && forallb (removable (Some e)) l
          | None => false
          end
      | None => false
      end
  | DObj m =>
      negb (match p with Some p => is_type PropLink p && IsNavLink p | None => false end)
      && forallb (fun e => removable
           (mget (fst e) (match p with Some p => Properties_of p | None => [] end)) (snd e)) m
  end.

(** The depth of the objects in the data *)
Fixpoint rdata_height (d : rdata) : nat :=
  match d with
  | DNil | DStr _ => 0
  | DArr _ l => list_max (map rdata_height l)
  | DObj m => Datatypes.S (list_max (map (fun e => rdata_height (snd e)) m))
  end.

Lemma height_element (l : list rdata) d : d ∈ l -> (rdata_height d <= list_max (map rdata_height l))%nat.
Proof. apply list_max_elem. Qed.

(** Everything at and below [key] is gone, and nothing else. *)
Definition cleared (key : string) (ks : keys) (o : outcome unit) (ks' : keys) : Prop :=
  o = Ret tt /\ pruned key ks ks' /\ forall k, under key k -> ks' !! k = None.

Lemma lookup_is_none (ks : keys) k : (is_Some (ks !! k) -> False) -> ks !! k = None.
Proof. intros Hk. by apply eq_None_not_Some. Qed.

Lemma holds_pruned_sibling ks ks1 key n1 n2 d :
  free_of slash n1 = true -> free_of slash n2 = true -> n1 <> n2 ->
  pruned (child key n1) ks ks1 -> holds ks d (child key n2) -> holds ks1 d (child key n2).
Proof.
  intros H1 H2 Hne [_ Hf] Hh k Hk. rewrite Hf; [by apply Hh|].
  intros Hk1. by destruct Hne; eapply under_siblings.
Qed.

Section clear.
Context {S : Type} `{RedisLaws S}.

(** The regions of [names] hold their data, and there is nothing else below [key]. *)
Definition remaining (data : list (string * rdata)) (names : list string) (key : string) (ks : keys) : Prop :=
  (forall n d, n ∈ names -> (n, d) ∈ data -> holds ks d (child key n)) /\
  (forall k, under key k -> is_Some (ks !! k) ->
     k = key \/ exists n, n ∈ names /\ under (child key n) k).

Lemma remaining_step data n names key ks ks1 :
  NoDup (n :: names) -> Forall (fun n => free_of slash n = true) (n :: names) ->
  remaining data (n :: names) key ks -> pruned (child key n) ks ks1 ->
  (forall k, under (child key n) k -> ks1 !! k = None) -> remaining data names key ks1.
Proof.
  intros [Hn _]%NoDup_cons [Hsl Hsls]%Forall_cons [Hh Hall] Hp Hgone. rewrite Forall_forall in Hsls. split.
  - intros n' d Hn' Hd. eapply holds_pruned_sibling; [exact Hsl|by apply Hsls| |exact Hp|].
    + by intros ->.
    + apply Hh; [by right|done].
  - intros k Hk Hs. destruct (Hall k Hk) as [->|(n' & Hn' & Hu)]; [by eapply pruned_is_Some|by left|].
    right. apply elem_of_cons in Hn' as [->|Hn']; [|by exists n'].
    rewrite Hgone in Hs by done. by destruct Hs.
Qed.

Lemma clear_loop data names key ks (f : string -> M S unit) :
  (forall n ks1, n ∈ names -> exists d, (n, d) ∈ data /\
     (holds ks1 d (child key n) -> wp ks1 (f n) (cleared (child key n) ks1))) ->
  NoDup names -> Forall (fun n => free_of slash n = true) names ->
  remaining data names key ks ->
  wp ks (for_each f names) (fun o ks' => o = Ret tt /\ pruned key ks ks' /\ remaining data [] key ks').
Proof.
  revert ks. induction names as [|n names IH]; intros ks Hf Hnd Hsl Hr; simpl.
  - apply wp_ret. split; [done|]. split; [apply pruned_refl|done].
  - destruct (Hf n ks) as (d & Hd & Hclear); [left|].
    apply wp_bind. eapply wp_mono; [apply Hclear, (proj1 Hr); [left|done]|].
    intros o ks1 (-> & Hp & Hgone). simpl.
    eapply wp_mono; [apply IH|].
    + intros n' ks2 Hn'. apply Hf. by right.
    + by apply NoDup_cons in Hnd as [_ ?].
    + by apply Forall_cons in Hsl as [_ ?].
    + by eapply remaining_step.
    + intros o ks2 (-> & Hp2 & Hr2). split; [done|]. split; [|done].
      eapply pruned_trans; [by eapply pruned_child|done].
Qed.

Lemma remaining_nil data key ks k : remaining data [] key ks -> under key k -> k <> key -> ks !! k = None.
Proof.
  intros [_ Hr] Hk Hne. apply lookup_is_none. intros Hs.
  destruct (Hr k Hk Hs) as [->|(n & Hn & _)]; [done|by apply elem_of_nil in Hn].
Qed.

Lemma elements_for_each remove ps key l :
  redisRemoveArray_elements (S := S) remove ps key l = for_each (fun x => remove ps (child key x)) l.
Proof. induction l as [|x l IH]; [done|]. simpl. by rewrite IH. Qed.

(** [redisRemoveField] removes all that is stored for a field. *)
Definition clears (d : rdata) : Prop := forall p key ks fuel,
  storable d = true -> removable p d = true -> holds ks d key -> (rdata_height d <= fuel)%nat ->
  wp ks (redisRemoveField (redisRemoveObject (S := S) fuel) p key) (cleared key ks).

Lemma holds_only_str s key ks : holds ks (DStr s) key ->
  ks !! key = Some (RStr s) /\ forall k, under key k -> k <> key -> ks !! k = None.
Proof.
  intros Hh. split; [by apply holds_str|]. intros k Hk Hne. rewrite Hh by done. simpl.
  by apply lookup_singleton_ne.
Qed.

Lemma fields_remaining m key ks :
  NoDup (map fst m) -> Forall (fun e => free_of slash (fst e) = true) m -> holds ks (DObj m) key ->
  remaining m (map fst m) key ks.
Proof.
  intros Hnd Hsl Hh. split; [intros n d _ Hd; by eapply holds_field|].
  intros k Hk. rewrite Hh by done. simpl. rewrite lookup_insert_is_Some'.
  intros [->|(n & Hn & Hu)%fields_image_under]; [by left|right; by exists n|].
  apply Forall_forall. intros. by eapply image_under.
Qed.

Lemma remaining_perm data names names' key ks :
  names' ≡ₚ names -> remaining data names key ks -> remaining data names' key ks.
Proof.
  intros HP [Hh Hall]. split.
  - intros n d. rewrite HP. apply Hh.
  - intros k Hk Hs. destruct (Hall k Hk Hs) as [?|(n & ? & ?)]; [by left|right; exists n; by rewrite HP].
Qed.

Lemma remaining_delete data names key ks :
  remaining data names key ks -> remaining data names key (delete key ks).
Proof.
  intros [Hh Hall]. split.
  - intros n d Hn Hd k Hk. rewrite lookup_delete_ne by (intros <-; by eapply child_not_under).
    by apply (Hh n d).
  - intros k Hk Hs. apply Hall; [done|]. destruct Hs as [v Hv]. exists v. by eapply lookup_weaken, delete_subseteq.
Qed.

Lemma storable_object m : storable (DObj m) = true ->
  m <> [] /\ NoDup (map fst m) /\ Forall (fun e => free_of slash (fst e) = true) m /\
  Forall (fun e => storable (snd e) = true) m.
Proof.
  simpl. rewrite !andb_true_iff, negb_true_iff, bool_decide_eq_false, bool_decide_eq_true.
  intros [[Hne Hnd] Hall]. rewrite forallb_forall in Hall.
  repeat split; try done; apply Forall_forall; intros e He%list_elem_of_In;
    by apply Hall, andb_true_iff in He as [? ?].
Qed.

Lemma clear_object m ps key ks fuel :
  Forall (fun e => clears (snd e)) m -> storable (DObj m) = true ->
  forallb (fun e => removable (mget (fst e) ps) (snd e)) m = true ->
  holds ks (DObj m) key -> (rdata_height (DObj m) <= fuel)%nat ->
  wp ks (redisRemoveObject (S := S) fuel ps key) (cleared key ks).
Proof.
  intros Hc Hst Hrem Hh Hfuel. destruct (storable_object m Hst) as (Hne & Hnd & Hsl & Hsts).
  destruct fuel as [|fuel]; [simpl in Hfuel; lia|]. simpl in Hfuel. simpl.
  apply wp_bind. wp_step. wp_steps.
  assert (Hk : ks !! key = Some (RSet (list_to_set (map fst m)))).
  { rewrite (Hh key) by apply under_refl. simpl. by rewrite lookup_insert_eq. }
  match goal with Hr : smembers_reply _ _ |- _ => rewrite Hk in Hr; inversion Hr as [|X l Hl| | |]; subst end.
  rewrite elements_list_to_set in Hl by done. wp_steps.
  eapply wp_mono; [apply (clear_loop m)|].
  - intros n ks1 Hn. rewrite Hl in Hn. apply list_elem_of_fmap in Hn as ([n' d] & -> & Hin).
    exists d. split; [done|]. intros Hd. rewrite Forall_forall in Hc, Hsts.
    apply (Hc _ Hin); [by apply (Hsts _ Hin)| |done|].
    + by eapply (forallb_elem _ _ _ Hrem).
    + etrans; [|apply le_S_n, Hfuel].
      pose proof (height_element (map snd m) d) as Hm. rewrite map_map in Hm. apply Hm.
      apply list_elem_of_fmap. by exists (n', d).
  - by rewrite Hl.
  - rewrite Hl. by apply Forall_fmap.
  - eapply remaining_perm; [exact Hl|]. by apply remaining_delete, fields_remaining.
  - intros o ks' (-> & Hp & Hr). split; [done|]. split.
    + eapply pruned_trans; [apply pruned_delete|done].
    + intros k Hk'. destruct (decide (k = key)) as [->|Hkk]; [|by eapply remaining_nil].
      apply lookup_is_none. intros Hs. eapply pruned_is_Some in Hs; [|done].
      rewrite lookup_delete_eq in Hs. by destruct Hs.
Qed.

(** The elements with their indices *)
Definition numbered (l : list rdata) : list (string * rdata) := zip (indices 0 (List.length l)) l.

Lemma numbered_lookup l n d : (n, d) ∈ numbered l -> exists j, n = format_nat j /\ l !! j = Some d.
Proof.
  unfold numbered, indices. intros (j & Hj)%list_elem_of_lookup. apply lookup_zip_Some in Hj as [Hn Hd].
  exists j. split; [|done]. change (map format_nat (seq 0 (List.length l))) with (format_nat <$> seq 0 (List.length l)) in Hn.
  rewrite list_lookup_fmap, fmap_Some in Hn. destruct Hn as (i & Hi & ->). by apply lookup_seq in Hi as [-> _].
Qed.

Lemma numbered_index l n : n ∈ indices 0 (List.length l) -> exists d, (n, d) ∈ numbered l /\ d ∈ l.
Proof.
  unfold numbered. intros (j & Hj)%list_elem_of_lookup.
  assert (exists d, l !! j = Some d) as [d Hd].
  { apply lookup_lt_is_Some. apply lookup_lt_Some in Hj. unfold indices in Hj.
    by rewrite length_map, length_seq in Hj. }
  exists d. split; [|by eapply list_elem_of_lookup_2]. apply list_elem_of_lookup. exists j. apply lookup_zip_Some. eauto.
Qed.

Lemma indices_NoDup n : NoDup (indices 0 n).
Proof. apply NoDup_fmap_2; [intros ? ?; apply format_nat_inj|apply NoDup_seq]. Qed.

Lemma indices_free n : Forall (fun n => free_of slash n = true) (indices 0 n).
Proof. apply Forall_forall. intros x (j & -> & _)%list_elem_of_fmap. apply format_nat_slash. Qed.

Lemma elements_remaining l key ks :
  holds ks (DArr true l) key -> remaining (numbered l) (indices 0 (List.length l)) key ks.
Proof.
  intros Hh. split.
  - intros n d _ (j & -> & Hj)%numbered_lookup. by eapply holds_element.
  - intros k Hk. rewrite Hh by done. destruct l as [|d l]; [intros Hs; simpl in Hs; rewrite lookup_empty in Hs; by destruct Hs|].
    remember (d :: l) as l' eqn:El. assert (image (DArr true l') key
      = <[key := RList (indices 0 (List.length l'))]> (elements_image image key 0 l')) as -> by by rewrite El.
    rewrite lookup_insert_is_Some'. intros [->|Hs]; [by left|right].
    assert (Hj : forall i l, is_Some (elements_image image key i l !! k) ->
      exists j, (i <= j < i + List.length l)%nat /\ under (child key (format_nat j)) k).
    { clear. intros i l. revert i. induction l as [|d l IH]; intros i Hs; simpl in Hs.
      - rewrite lookup_empty in Hs. by destruct Hs.
      - rewrite lookup_union_is_Some in Hs. destruct Hs as [Hs%image_under|Hs].
        + exists i. simpl. split; [lia|done].
        + destruct (IH _ Hs) as (j & ? & ?). exists j. simpl. split; [lia|done]. }
    destruct (Hj 0%nat l' Hs) as (j & Hlt & Hu). exists (format_nat j). split; [|done].
    apply list_elem_of_fmap. exists j. split; [done|]. apply elem_of_seq. lia.
Qed.

Lemma nothing_stored key ks : (forall k, under key k -> ks !! k = None) -> cleared key ks (Ret tt) ks.
Proof. intros Hk. split; [done|]. split; [apply pruned_refl|done]. Qed.

Lemma cleared_delete key ks ks1 :
  pruned key ks ks1 -> (forall k, under key k -> k <> key -> ks1 !! k = None) ->
  cleared key ks (Ret tt) (delete key (delete key ks1)).
Proof.
  intros Hp Hk. rewrite delete_delete_eq. split; [done|]. split.
  - eapply pruned_trans; [exact Hp|apply pruned_delete].
  - intros k Hu. destruct (decide (k = key)) as [->|Hne]; [by rewrite lookup_delete_eq|].
    rewrite lookup_delete_ne by done. by apply Hk.
Qed.

Lemma field_is_object (remove : properties -> string -> M S unit) e key ks X Q :
  ks !! key = Some (RSet X) -> is_type PropLink e = false ->
  wp ks (redisRemoveField remove (Some e) key) Q -> wp ks (remove (Properties_of e) key) Q.
Proof.
  intros Hk He Hwp s Hs. specialize (Hwp s Hs). unfold redisRemoveField, must, bind in Hwp.
  rewrite law_type, Hs, Hk in Hwp. simpl in Hwp. by rewrite He in Hwp.
Qed.

Lemma clear_elements l e key ks fuel :
  Forall clears l -> storable (DArr true l) = true -> is_type PropLink e = false ->
  forallb (removable (Some e)) l = true -> holds ks (DArr true l) key ->
  (list_max (map rdata_height l) <= fuel)%nat ->
  wp ks (redisRemoveArray_elements (redisRemoveObject (S := S) fuel) (Properties_of e) key (indices 0 (List.length l)))
    (fun o ks' => o = Ret tt /\ pruned key ks ks' /\ remaining (numbered l) [] key ks').
Proof.
  intros Hc Hst He Hrem Hh Hfuel. rewrite elements_for_each. simpl in Hst.
  apply clear_loop; [|apply indices_NoDup|apply indices_free|by apply elements_remaining].
  intros n ks1 (d & Hd & Hin)%numbered_index. exists d. split; [done|]. intros Hdh.
  pose proof (forallb_elem _ _ _ Hst Hin) as Hst'. simpl in Hst'. apply andb_true_iff in Hst' as [Hst' Hel].
  pose proof (forallb_elem _ _ _ Hrem Hin) as Hrem'. destruct d as [| | |m]; try done.
  pose proof (height_element l _ Hin) as Hm.
  eapply (field_is_object _ e); [|done|].
  - rewrite (Hdh (child key n)) by apply under_refl. simpl. by rewrite lookup_insert_eq.
  - rewrite Forall_forall in Hc. apply (Hc _ Hin); try done. lia.
Qed.

Lemma clear_array p b l key ks fuel :
  Forall clears l -> storable (DArr b l) = true -> removable (Some p) (DArr b l) = true -> l <> [] ->
  holds ks (DArr b l) key -> (rdata_height (DArr b l) <= fuel)%nat ->
  wp ks (redisRemoveArray (redisRemoveObject (S := S) fuel) (Some p) key) (cleared key ks).
Proof.
  intros Hc Hst Hrem Hne Hh Hfuel. unfold redisRemoveArray. simpl in Hrem.
  destruct (ArrayOf p) as [e|]; [|done]. split_andb.
  match goal with E : Bool.eqb _ _ = true |- _ => apply Bool.eqb_prop in E as -> end.
  match goal with E : negb _ = true |- _ => apply negb_true_iff in E end.
  destruct (isRedfishValueString (p_Type e)) eqn:Es; simpl negb in *.
  - wp_steps. apply cleared_delete; [apply pruned_refl|]. intros k Hk Hne'. rewrite Hh by done.
    destruct l; [done|]. simpl. by apply lookup_singleton_ne.
  - wp_steps. erewrite holds_arr by done. cbv beta iota. wp_steps.
    eapply wp_mono; [by apply clear_elements|]. intros o ks1 (-> & Hp & Hr). simpl. wp_steps.
    apply cleared_delete; [done|]. intros k Hk Hne'. by eapply remaining_nil.
Qed.

(** Whatever is stored for a field is removed with it. *)
Lemma field_clears d : clears d.
Proof.
  induction d as [|s|b l IH|m IH] using rdata_induction; intros p key ks fuel Hst Hrem Hh Hfuel;
    unfold redisRemoveField; wp_steps; rewrite (Hh key) by apply under_refl.
  - simpl image. rewrite lookup_empty. simpl. wp_steps. apply nothing_stored. intros k Hk. by rewrite Hh.
  - simpl image. rewrite lookup_singleton_eq. simpl. wp_steps.
    destruct (holds_only_str _ _ _ Hh) as [_ Hk]. rewrite <- delete_delete_eq.
    by apply cleared_delete; [apply pruned_refl|].
  - destruct l as [|d l].
    + assert (Hn : image (DArr b []) key = ∅) by by destruct b.
      rewrite Hn, lookup_empty. simpl. wp_steps. apply nothing_stored. intros k Hk.
      rewrite Hh by done. by destruct b.
    + destruct p as [p|]; [|done].
      destruct b; simpl image; rewrite ?lookup_insert_eq, ?lookup_singleton_eq; simpl;
        by eapply clear_array.
  - pose proof Hrem as Hrem'. simpl in Hrem'. apply andb_true_iff in Hrem' as [Hnav Hrem'].
    apply negb_true_iff in Hnav. simpl image. rewrite lookup_insert_eq. simpl.
    destruct p as [p|]; [rewrite Hnav|]; by eapply clear_object.
Qed.
End clear.

(** *** Conforming values *)

Section conforming.
Context `{FloatText}.

Lemma conforms_removable v : forall p, conforms p v = true -> removable (Some p) (encode p v) = true.
Proof.
  induction v as [v Hna Hno|l IH|obj IH] using value_induction; intros p Hc.
  - destruct v; try by (simpl in *; repeat case_match).
    + by destruct (Hna l).
    + by destruct (Hno m).
  - simpl in *. destruct (p_Type p); try done. destruct (ArrayOf p) as [e|] eqn:Ee; [|done].
    split_andb. simpl. rewrite Ee, eqb_reflx. simpl. apply andb_true_iff. split.
    + unfold is_type in *. by destruct (p_Type e).
    + apply forallb_forall. intros d (v & <- & Hin)%in_map_iff. apply list_elem_of_In in Hin.
      rewrite Forall_forall in IH. apply (IH v Hin). by eapply forallb_elem.
  - destruct (p_Type p) eqn:Et; try by (simpl in Hc; rewrite Et in Hc).
    + rewrite conforms_object in Hc by done. unfold object_conforms in Hc. split_andb.
      rewrite encode_object. simpl. unfold is_type. rewrite Et. simpl.
      apply forallb_forall. intros d ([n v] & <- & Hin)%in_map_iff. simpl.
      apply list_elem_of_In in Hin. rewrite Forall_forall in IH.
      destruct (field_ok_inv (Properties_of p) n v) as (_ & _ & q & -> & Hv);
        [by eapply forallb_elem|]. by apply (IH (n, v)).
    + simpl in *. rewrite Et in Hc. split_andb. destruct obj as [|[n v] []]; try done; destruct v; try done.
      match goal with E : negb (IsNavLink p) = true |- _ => apply negb_true_iff in E as -> end.
      rewrite andb_false_r. simpl. by destruct (mget n (Properties_of p)).
Qed.

Lemma object_conforms_removable ps obj :
  object_conforms ps obj = true ->
  forallb (fun e => removable (mget (fst e) ps) (snd e)) (encode_fields ps obj) = true.
Proof.
  intros Hc. rewrite <- (conforms_object (object_of ps)) in Hc by done.
  pose proof (conforms_removable (VObject obj) (object_of ps) Hc) as Hr.
  rewrite encode_object in Hr. simpl in Hr. exact Hr.
Qed.
End conforming.

(* ===================================================================== *)
(** * The theorems                                                       *)
(* ===================================================================== *)

(** C12: deleting a resource terminates and is confined.  On every keyspace,
    with a recursion bound two more than the length of the longest key,
    RedisRemoveResource ends; whether it returns or panics half way, it has
    only deleted keys, and only at or below the URI. *)
Theorem RedisRemoveResource_confined S `{RedisLaws S} resource uri ks fuel
  (Hfuel : (longest_key ks + 2 <= fuel)%nat) :
  wp ks (RedisRemoveResource (S := S) fuel resource uri)
    (fun o ks' => o <> OutOfFuel /\ ks' ⊆ ks /\ forall k, ~ under uri k -> ks' !! k = ks !! k).
Proof. apply redisRemoveObject_prunes. split; lia. Qed.

(** C8: creation then deletion leaves no trace.  For a request object that
    conforms to the resource's schema, at a key below which nothing is
    stored, inserting it and then removing the resource gives back exactly
    the keyspace before, with any recursion bound not below the depth of the
    object. *)
Theorem create_then_delete S `{RedisLaws S} `{FloatText} resource obj key ks fuel
  (Hc : object_conforms (r_Properties resource) obj = true) (Hf : fresh ks key)
  (Hfuel : (rdata_height (DObj (encode_fields (r_Properties resource) obj)) <= fuel)%nat) :
  wp ks (RedisInsert (S := S) (DObj (encode_fields (r_Properties resource) obj)) key ;;
         RedisRemoveResource fuel resource key)
    (returns (fun _ ks' => ks' = ks)).
Proof.
  apply object_conforms_removable in Hc as Hrem. apply object_conforms_storable in Hc as Hst.
  apply wp_bind. eapply wp_mono; [by apply insert_object_ok|]. intros [r| | |] ks1; simpl; try done.
  intros [_ ->]. eapply wp_mono; [eapply clear_object; [..|exact Hfuel]|]; 
    [|done|done|exact (holds_image ks (DObj (encode_fields (r_Properties resource) obj)) key Hf)|].
  - apply Forall_forall. intros e _. apply field_clears.
  - intros o ks2 (-> & [Hsub Hp] & Hgone). simpl. apply map_eq. intros k.
    destruct (decide (under key k)) as [Hu|Hu].
    + by rewrite Hgone, Hf.
    + pose proof (image_not_under (DObj (encode_fields (r_Properties resource) obj)) key k Hu) as Hn.
      simpl in Hn. rewrite Hp, lookup_union, Hn by done. by destruct (ks !! k).
Qed.

(** ** A concrete resource *)

Module RemovalExample.
Import RoundTripExample.
Definition ledResource : Resource := mkResource (plain_resource_info "Led" false) led None.

Lemma RedisRemoveResource_confined_witness :
  (longest_key store0 + 2 <= 7)%nat /\
  wp (S := memstore) store0 (RedisRemoveResource 7 ledResource "other")
    (fun o ks' => o <> OutOfFuel /\ ks' ⊆ store0 /\ forall k, ~ under "other" k -> ks' !! k = store0 !! k).
Proof.
  split; [vm_compute; lia|]. apply (RedisRemoveResource_confined memstore ledResource "other" store0 7).
  vm_compute. lia.
Defined.

Lemma create_then_delete_witness :
  wp (S := memstore) store0
    (RedisInsert (DObj (encode_fields (r_Properties ledResource) request)) "/redfish/v1/Led" ;;
     RedisRemoveResource 3 ledResource "/redfish/v1/Led")
    (returns (fun _ ks' => ks' = store0)).
Proof.
  apply (create_then_delete memstore ledResource request "/redfish/v1/Led" store0 3);
    [vm_compute; reflexivity|apply store0_fresh|vm_compute; lia].
Defined.
End RemovalExample.
