(* ===== verification/Messages.v ===== *)
(** Redfish messages: the message registries loaded at start, the instances
    of their messages ([rfmessages.go]) and the annotation of a payload with
    them ([AddPropertyMessage] of [rfdispatcher.go]). *)
From S2P Require Import Prelude Values Schema Walk Dispatcher.

(** ** The keys *)

Definition KnownRegistryKeys : list string :=
  ["@Redfish.Copyright"; "@odata.type"; "Id"; "Name"; "Language"; "Description";
   "RegistryPrefix"; "RegistryVersion"; "OwningEntity"; "Messages"].
Definition SupportedRegistryIDs : list string := ["Base.1.4.0"; "CrayTelemetry.1.0.0"].

Definition mentions (l : list string) (s : string) : bool := existsb (String.eqb s) l.

(** ** Loading *)

Section load.
Context {S : Type}.

(** One file: its text as [ioutil.ReadFile] and [json.Unmarshal] give it. *)
Definition InitMessageRegistries_file (registries : gomap value) (file : option request_body) :
    M S (gomap value) :=
  match file with
  | None => panic "open: no such file or directory"
  | Some text =>
      match Unmarshal_map text with
      | None => panic "invalid character in JSON"
      | Some registry =>
          if match mget "Id" registry with
             | Some (VString regID) => mentions SupportedRegistryIDs regID
             | _ => false
             end
          then key <- assert_string (mget "RegistryPrefix" registry) ;;
               ret (mput key (VObject registry) registries)
          else ret registries
      end
  end.

Fixpoint InitMessageRegistries_loop (registries : gomap value) (files : list (option request_body)) :
    M S (gomap value) :=
  match files with
  | [] => ret registries
  | file :: rest =>
      registries' <- InitMessageRegistries_file registries file ;;
      InitMessageRegistries_loop registries' rest
  end.

(** The files matched in the registry directories are given. *)
Definition InitMessageRegistries (files : list (option request_body)) : M S (gomap value) :=
  match files with
  | [] => fatal "Failed to find any JSON files in supplied directories"
  | _ => InitMessageRegistries_loop [] files
  end.

(** The check of the keys of a registry, whose only effect is a log entry:
    whether a key counts as known. *)
Definition registry_key_present (regKey : string) : bool :=
  existsb (fun knownKey => negb (String.eqb regKey knownKey)) KnownRegistryKeys.
End load.

(** ** Instances of messages *)

Section message.
Context {S : Type} (rfd : RedfishDispatcher S).

(** The loop over the arguments: [msg] so far, its text and its arguments. *)
Fixpoint GetRedfishMessage_args (regMsg : object) (i : nat) (args : list value) (msg : object) :
    M S (result object) :=
  match args with
  | [] => ret (Ok msg)
  | arg :: rest =>
      let argPattern := "%" +:+ format_nat (i + 1) in
      let continue (s_val : string) :=
        message <- assert_string (mget "Message" msg) ;;
        messageArgs <- assert_array (mget "MessageArgs" msg) ;;
        GetRedfishMessage_args regMsg (Datatypes.S i) rest
          (mput "MessageArgs" (VArray (messageArgs ++ [VString s_val]))
            (mput "Message" (VString (replace_all argPattern s_val message)) msg)) in
      let typed (expected text : string) (e : go_error) :=
        types <- assert_array (mget "ParamTypes" regMsg) ;;
        t <- index_list types i ;;
        match t with
        | VString t => if String.eqb t expected then continue text else ret (Err e)
        | _ => ret (Err e)
        end in
      match arg with
      | VInt z => typed "number" (format_int z) (ErrText "Int provided for non-number ParamType")
      | VString s => typed "string" s (ErrText "String provided for non-string ParamType")
      | _ => ret (Err (ErrText "Unsupported data type"))
      end
  end.

Definition GetRedfishMessage (registryPrefix messageID : string) (args : list value) :
    M S (result object) :=
  match mget registryPrefix (messageRegistries rfd) with
  | Some (VObject messageRegistry) =>
      msgs <- assert_object (mget "Messages" messageRegistry) ;;
      match mget messageID msgs with
      | Some (VObject regMsg) =>
          version <- assert_string (mget "RegistryVersion" messageRegistry) ;;
          let verDigits := split_on "." version in
          major <- index_list verDigits 0 ;;
          minor <- index_list verDigits 1 ;;
          let msg :=
            [("Message", or_nil (mget "Message" regMsg));
             ("MessageId", VString (join "." [registryPrefix; major; minor; messageID]));
             ("Resolution", or_nil (mget "Resolution" regMsg));
             ("Severity", or_nil (mget "Severity" regMsg))] in
          numArgs <- assert_float (mget "NumberOfArgs" regMsg) ;;
          let given := float_of_Z (Z.of_nat (List.length args)) in
          if float_lt given numArgs then ret (Err (ErrText "Not enough arguments provided"))
          else if float_lt numArgs given then
            ret (Err (ErrText "Too many arguments arguments provided"))
          else GetRedfishMessage_args regMsg 0 args
                 (if float_lt (float_of_Z 0) numArgs then mput "MessageArgs" (VArray []) msg else msg)
      | _ => ret (Err (ErrText "MessageID not found"))
      end
  | _ => ret (Err (ErrText ("Registry not found:" +:+ registryPrefix)))
  end.

(** The JSON text of a message, or an error *)
Definition GetRedfishMessageString (registryPrefix messageID : string) (args : list value) :
    M S (result body) :=
  msg <-? GetRedfishMessage registryPrefix messageID args ;;
  ret (match Marshal (VObject msg) with
       | Some b => Ok b
       | None => Err (ErrText "Error: Failed to convert Message to JSON")
       end).

(** [msg, _ := GetRedfishMessageString(...)], then [[]byte(msg)]: on an
    error the text is empty, but not nil. *)
Definition message_body (registryPrefix messageID : string) (args : list value) : M S body :=
  r <- GetRedfishMessageString registryPrefix messageID args ;;
  ret (match r with Ok b => b | Err _ => TextBody "" end).

(** ** Annotations *)

Definition annotation_name (fieldName : string) : string := fieldName +:+ "@Message.ExtendedInfo".

(** The walk of [AddPropertyMessage] to the object that holds the field, and
    the addition of the message there. *)
Fixpoint annotate (msg : object) (path : list string) (current : object) : M S (result object) :=
  match path with
  | [] => ret (Err (ErrText "Path must contain at least one element"))
  | [fieldName] =>
      let annotation := annotation_name fieldName in
      msgArray <- match mget annotation current with
                  | None => ret []
                  | Some v => assert_array (Some v)
                  end ;;
      ret (Ok (mput annotation (VArray (msgArray ++ [VObject msg])) current))
  | token :: rest =>
      match mget token current with
      | None => ret (Err (ErrText ("Path token not present in object: " +:+ token)))
      | Some next =>
          next <- assert_object (Some next) ;;
          next' <-? annotate msg rest next ;;
          ret (Ok (mput token (VObject next') current))
      end
  end.

(** [AddPropertyMessage] on the object [obj], with its new value. *)
Definition AddPropertyMessage (obj : object) (path : list string)
    (registryPrefix messageID : string) (args : list value) : M S (result object) :=
  match path with
  | [] => ret (Err (ErrText "Path must contain at least one element"))
  | _ =>
      msg <-? GetRedfishMessage registryPrefix messageID args ;;
      annotate msg path obj
  end.
End message.

(* ===================================================================== *)
(** * What a message is                                                  *)
(* ===================================================================== *)

(** The text and the declared type of an argument *)
Definition arg_text (v : value) : string :=
  match v with VInt z => format_int z | VString s => s | _ => "" end.
Definition arg_type (v : value) : option string :=
  match v with VInt _ => Some "number" | VString _ => Some "string" | _ => None end.

(** The text of a message with its placeholders replaced, from the [i]th on. *)
Fixpoint expand (i : nat) (args : list value) (text : string) : string :=
  match args with
  | [] => text
  | arg :: rest =>
      expand (Datatypes.S i) rest (replace_all ("%" +:+ format_nat (i + 1)) (arg_text arg) text)
  end.

(** An entry of a registry for [n] arguments of the given types. *)
Record message_entry (regMsg : object) (text : string) (types : list string) : Prop := {
  me_text : mget "Message" regMsg = Some (VString text);
  me_number : mget "NumberOfArgs" regMsg = Some (VFloat (float_of_Z (Z.of_nat (List.length types))));
  me_types : mget "ParamTypes" regMsg = Some (VArray (map VString types));
}.

Section message_facts.
Context {S : Type}.

Lemma GetRedfishMessage_args_spec regMsg types args : forall i msg text done (s : S),
  mget "ParamTypes" regMsg = Some (VArray (map VString types)) ->
  Forall2 (fun a t => arg_type a = Some t) args (drop i types) ->
  mget "Message" msg = Some (VString text) ->
  (args <> [] -> mget "MessageArgs" msg = Some (VArray done)) ->
  exists msg', GetRedfishMessage_args regMsg i args msg s = (Ret (Ok msg'), s) /\
    mget "Message" msg' = Some (VString (expand i args text)) /\
    (args <> [] -> mget "MessageArgs" msg' = Some (VArray (done ++ map (fun a => VString (arg_text a)) args))) /\
    (forall k, k <> "Message" -> (args <> [] -> k <> "MessageArgs") -> mget k msg' = mget k msg).
Proof.
  induction args as [|a args IH]; intros i msg text done s Hty HF Hmsg Hargs.
  - exists msg. by repeat split.
  - specialize (Hargs ltac:(done)). inversion HF as [|? t ? ts Hat HF' Ea Et]. subst.
    assert (Hti : map VString types !! i = Some (VString t)).
    { change (map VString types) with (VString <$> types). rewrite list_lookup_fmap.
      pose proof (lookup_drop types i 0) as Hd. rewrite <- Et, Nat.add_0_r in Hd. simpl in Hd. by rewrite <- Hd. }
    set (msg1 := mput "MessageArgs" (VArray (done ++ [VString (arg_text a)]))
      (mput "Message" (VString (replace_all ("%" +:+ format_nat (i + 1)) (arg_text a) text)) msg)).
    assert (Hstep : GetRedfishMessage_args regMsg i (a :: args) msg s
                  = GetRedfishMessage_args regMsg (Datatypes.S i) args msg1 s).
    { destruct a; simpl in Hat; simplify_eq; simpl; unfold bind;
        rewrite Hty; simpl; unfold index_list; rewrite Hti; simpl; by rewrite Hmsg, Hargs. }
    rewrite Hstep.
    destruct (IH (Datatypes.S i) msg1 (replace_all ("%" +:+ format_nat (i + 1)) (arg_text a) text)
      (done ++ [VString (arg_text a)]) s) as (msg' & E & Hm & Ha & Ho).
    + done.
    + replace (Datatypes.S i) with (i + 1)%nat by lia. rewrite <- drop_drop, <- Et. exact HF'.
    + unfold msg1. by rewrite mget_mput_ne, mget_mput_eq.
    + intros _. unfold msg1. by rewrite mget_mput_eq.
    + exists msg'. split; [exact E|]. split; [exact Hm|]. split.
      * intros _. destruct args as [|a' args]; [|rewrite Ha by done; by rewrite <- app_assoc].
        simpl in E. injection E as <-. unfold msg1. by rewrite mget_mput_eq.
      * intros k Hk Hk'. rewrite Ho by auto. unfold msg1. rewrite !mget_mput_ne; auto.
Qed.
End message_facts.

(** Small counts compare as floats the way they compare as integers. *)
Lemma small_counts (n m : nat) : (n <= 9)%nat -> (m <= 9)%nat ->
  float_lt (float_of_Z (Z.of_nat n)) (float_of_Z (Z.of_nat m)) = Nat.ltb n m.
Proof.
  intros Hn Hm. do 10 (destruct n as [|n]; [do 10 (destruct m as [|m]; [reflexivity|]); lia|]). lia.
Qed.

(** The instance of a message.  For a message of a loaded registry
    declared with at most nine typed arguments, and at most nine given, the
    call never panics and changes nothing: it reports too few or too many
    arguments, and otherwise, when the types agree, gives the message with
    its placeholders replaced in order, the argument texts, and the
    identifier made of the registry's prefix, the first two parts of its
    version and the message's name. *)
Theorem GetRedfishMessage_spec S (rfd : RedfishDispatcher S) prefix messageID args registry msgs regMsg
    version major minor rest text types (s : S)
  (Hreg : mget prefix (messageRegistries rfd) = Some (VObject registry))
  (Hmsgs : mget "Messages" registry = Some (VObject msgs))
  (Hver : mget "RegistryVersion" registry = Some (VString version))
  (Hdig : split_on "." version = major :: minor :: rest)
  (Hmsg : mget messageID msgs = Some (VObject regMsg))
  (He : message_entry regMsg text types)
  (Hn : (List.length types <= 9)%nat) (Hm : (List.length args <= 9)%nat)
  (Hty : List.length args = List.length types -> Forall2 (fun a t => arg_type a = Some t) args types) :
  if Nat.ltb (List.length args) (List.length types) then
    GetRedfishMessage rfd prefix messageID args s = (Ret (Err (ErrText "Not enough arguments provided")), s)
  else if Nat.ltb (List.length types) (List.length args) then
    GetRedfishMessage rfd prefix messageID args s
      = (Ret (Err (ErrText "Too many arguments arguments provided")), s)
  else
    exists msg, GetRedfishMessage rfd prefix messageID args s = (Ret (Ok msg), s) /\
      mget "Message" msg = Some (VString (expand 0 args text)) /\
      mget "MessageId" msg = Some (VString (join "." [prefix; major; minor; messageID])) /\
      (args <> [] -> mget "MessageArgs" msg = Some (VArray (map (fun a => VString (arg_text a)) args))) /\
      mget "Severity" msg = Some (or_nil (mget "Severity" regMsg)) /\
      mget "Resolution" msg = Some (or_nil (mget "Resolution" regMsg)).
Proof.
  unfold GetRedfishMessage, bind. rewrite Hreg, Hmsgs. simpl. rewrite Hmsg, Hver. simpl.
  rewrite Hdig. simpl. destruct He as [Htext Hnum Htypes]. rewrite Hnum. simpl.
  change (SpecFloat.S754_zero false) with (float_of_Z (Z.of_nat 0)). rewrite !small_counts by lia.
  destruct (Nat.ltb_spec (List.length args) (List.length types)); [done|].
  destruct (Nat.ltb_spec (List.length types) (List.length args)); [done|].
  match goal with |- context [GetRedfishMessage_args regMsg 0 args ?m s] => set (msg0 := m) end.
  destruct (GetRedfishMessage_args_spec regMsg types args 0 msg0 text [] s) as (msg & E & H1 & H2 & H3).
  - done.
  - apply Hty. lia.
  - unfold msg0. rewrite Htext. by destruct (0 <? List.length types)%nat.
  - intros Hne. unfold msg0. destruct (Nat.ltb_spec 0 (List.length types)); [done|].
    destruct args; [done|simpl in *; lia].
  - exists msg. split; [exact E|]. split; [exact H1|].
    rewrite (H3 "MessageId"), (H3 "Severity"), (H3 "Resolution") by done. unfold msg0.
    by destruct (0 <? List.length types)%nat.
Qed.

(** ** A registry *)

Module MessagesExample.
Definition regMsg : object :=
  [("Message", VString "The property %1 is not writable in %2."); ("NumberOfArgs", VFloat (float_of_Z 2));
   ("ParamTypes", VArray [VString "string"; VString "number"]); ("Severity", VString "Warning")].
Definition registry : object :=
  [("Id", VString "Base.1.4.0"); ("RegistryPrefix", VString "Base"); ("RegistryVersion", VString "1.4.0");
   ("Messages", VObject [("PropertyNotWritable", VObject regMsg)])].
Definition rfd : RedfishDispatcher unit :=
  mkDispatcher unit "" "" (mkResource (plain_resource_info "ServiceRoot" false) [] None)
    [("Base", VObject registry)] [] []
    (mkWorld unit (fun _ _ => None) (fun _ _ => None) (fun _ _ => None) (fun _ _ _ => ret None)).

Lemma GetRedfishMessage_spec_witness :
  exists msg, GetRedfishMessage rfd "Base" "PropertyNotWritable" [VString "Id"; VInt 7] tt = (Ret (Ok msg), tt) /\
    mget "Message" msg = Some (VString (expand 0 [VString "Id"; VInt 7] "The property %1 is not writable in %2.")) /\
    mget "MessageId" msg = Some (VString "Base.1.4.PropertyNotWritable") /\
    ([VString "Id"; VInt 7] <> [] -> mget "MessageArgs" msg = Some (VArray [VString "Id"; VString "7"])) /\
    mget "Severity" msg = Some (VString "Warning") /\ mget "Resolution" msg = Some VNil.
Proof.
  apply (GetRedfishMessage_spec unit rfd "Base" "PropertyNotWritable" [VString "Id"; VInt 7] registry
    [("PropertyNotWritable", VObject regMsg)] regMsg "1.4.0" "1" "4" ["0"]
    "The property %1 is not writable in %2." ["string"; "number"] tt);
    try reflexivity; try (simpl; lia); [by split|].
  intros _. repeat constructor.
Defined.

Example expand_example :
  expand 0 [VString "Id"; VInt 7] "The property %1 is not writable in %2." = "The property Id is not writable in 7.".
Proof. reflexivity. Qed.
End MessagesExample.
