(* ===== verification/Actions.v ===== *)
(** The rest of the dispatcher ([rfdispatcher.go]): the start and the
    periodic run of the backend helpers, the resolution of a URI with the
    members that Redis knows, the exchange with a backend process through
    Redis, and the handling of an action. *)
From S2P Require Import Prelude Values Redis Schema Walk RedisStruct Dispatcher RoundTrip Messages.

(* ===================================================================== *)
(** * Backend helpers                                                    *)
(* ===================================================================== *)

Inductive backend_kind := JAWS | GCloud | RFSimulator | Mock | SNMPSwitch.

Definition backend_of_name (backendHelperName : string) : option backend_kind :=
  if String.eqb backendHelperName "JAWS" then Some JAWS
  else if String.eqb backendHelperName "GCloud" then Some GCloud
  else if String.eqb backendHelperName "RFSimulator" then Some RFSimulator
  else if String.eqb backendHelperName "Mock" then Some Mock
  else if String.eqb backendHelperName "SNMPSwitch" then Some SNMPSwitch
  else None.

Section backends.
Context {S : Type}.

(** The part of [NewDispatcher] that chooses and sets up the helpers: the
    certificate service first, then the one BACKEND_HELPER names. *)
Definition NewDispatcher_helpers (certificateService : BackendHelper S)
    (device : backend_kind -> BackendHelper S) (BACKEND_HELPER : option string) :
    M S (list (BackendHelper S)) :=
  helpers <- match BACKEND_HELPER with
             | None => ret [certificateService]
             | Some backendHelperName =>
                 match backend_of_name backendHelperName with
                 | Some kind => ret [certificateService; device kind]
                 | None => panic "Unknown backend helper provided via BACKEND_HELPER env variable"
                 end
             end ;;
  for_each (fun helper =>
    r <- SetupBackendHelper helper ;;
    match r with
    | Ok tt => ret tt
    | Err _ => panic "Backend helper setup function did not complete without error!"
    end) helpers ;;
  ret helpers.

(** [RunPeriodic] of the dispatcher: the error of a helper is only logged. *)
Definition RunPeriodic_all (rfd : RedfishDispatcher S) : M S unit :=
  for_each (fun helper => RunPeriodic helper ;; ret tt) (BackendHelpers rfd).

Definition RegisterCollectionCB (rfd : RedfishDispatcher S) (cb : CollectionCB S) : RedfishDispatcher S :=
  mkDispatcher S (scriptDirPrefix rfd) (programName rfd) (schemaTree rfd) (messageRegistries rfd)
    (additionalCollectionCBs rfd ++ [cb]) (BackendHelpers rfd) (world rfd).
End backends.

(* ===================================================================== *)
(** * Resources                                                          *)
(* ===================================================================== *)

Section resources.
Context {S : Type} `{RedisOps S} (rfd : RedfishDispatcher S).

(** The registered callbacks, in order, until one answers yes. *)
Fixpoint run_additional_cbs (cbs : list (CollectionCB S)) (collection : Resource)
    (collectionPath instance : string) : M S bool :=
  match cbs with
  | [] => ret false
  | cb :: rest =>
      yes <- cb collection collectionPath instance ;;
      if yes : bool then ret true else run_additional_cbs rest collection collectionPath instance
  end.

Definition GetResource_cb (xname : string) : CollectionCB S :=
  fun collection baseCollectionPath instance =>
    let collectionPath := xname +:+ baseCollectionPath in
    if mmem instance (r_Properties collection) then ret false
    else
      exist <- must (redis_exists (collectionPath +:+ String slash instance)) ;;
      if exist : bool then ret true
      else run_additional_cbs (additionalCollectionCBs rfd) collection collectionPath instance.

Definition GetResource (uri xname : string) : M S (option Resource * option Property) :=
  WalkTree (schemaTree rfd) (GetResource_cb xname) uri.
End resources.

(* ===================================================================== *)
(** * Actions                                                            *)
(* ===================================================================== *)

(** What the exchange with a backend process needs from outside: a fresh
    identifier, the text go-redis stores for a value in a hash (if it can),
    and the wait on the subscription, during which the backend works on the
    same Redis: true when the message came before the timeout. *)
Record IPC (S : Type) := mkIPC {
  new_uuid : M S string;
  hash_field : value -> option string;
  await_message : string -> M S bool;
}.
Arguments new_uuid {S}.
Arguments hash_field {S}.
Arguments await_message {S}.

(** [fmt.Sprintf("%v", v)]; a map is printed in the order of its keys. *)
Fixpoint insert_entry (e : string * string) (l : list (string * string)) : list (string * string) :=
  match l with
  | [] => [e]
  | e' :: l' => if String.leb (fst e) (fst e') then e :: l else e' :: insert_entry e l'
  end.
Section sprint.
Context `{FloatText}.
Fixpoint Sprint (v : value) : string :=
  match v with
  | VNil => "<nil>"
  | VBool b => format_bool b
  | VFloat f => format_float f
  | VInt z | VInt64 z => format_int z
  | VString s => s
  | VStrings l => "[" +:+ join " " l +:+ "]"
  | VArray l => "[" +:+ join " " (map Sprint l) +:+ "]"
  | VObject m =>
      "map[" +:+ join " " (map (fun e => fst e +:+ ":" +:+ snd e)
        (foldr insert_entry [] (map (fun e => (fst e, Sprint (snd e))) m))) +:+ "]"
  end.
End sprint.

Section actions.
Context {S : Type} `{RedisOps S} `{FloatText} (rfd : RedfishDispatcher S) (ipc : IPC S).

(** The hash of a request; an unsupported value is an error of go-redis. *)
Fixpoint hash_fields (request : object) : result (gmap string string) :=
  match request with
  | [] => Ok ∅
  | (k, v) :: rest =>
      match hash_field ipc v with
      | None => Err (ErrText "redis: can't marshal (implement encoding.BinaryMarshaler)")
      | Some t => match hash_fields rest with Ok h => Ok (<[k := t]> h) | Err e => Err e end
      end
  end.

(** The part of [PerformIPC] after the target key was taken, and its
    deferred clean-up. *)
Definition PerformIPC_await (requestKey responseKey : string) : M S (result (gmap string string)) :=
  received <- await_message ipc ("__keyspace@0__:" +:+ responseKey) ;;
  response <- (if received : bool then redis_hgetall responseKey
               else ret (Err (ErrText "IPC operation timed out"))) ;;
  must (redis_del requestKey) ;;
  must (redis_del responseKey) ;;
  ret response.

Definition ipc_keyspace (id : string) : string := "Cray:" +:+ programName rfd +:+ ":IPC:" +:+ id.

Definition PerformIPC (targetkey : string) (request : object) : M S (result (gmap string string)) :=
  id <- new_uuid ipc ;;
  let requestKey := ipc_keyspace id +:+ ":Request" in
  let responseKey := ipc_keyspace id +:+ ":Response" in
  match hash_fields (mput "ResponseKey" (VString responseKey) request) with
  | Err e => ret (Err e)
  | Ok fields =>
      _ <-? redis_hmset requestKey fields ;;
      keyWasSet <- must (redis_renamenx requestKey targetkey) ;;
      if keyWasSet : bool then PerformIPC_await requestKey responseKey
      else ret (Err (ErrText "Backend is currently performing an action"))
  end.

(** The environment text of a parameter *)
Definition action_parameter (v : value) : string :=
  match v with
  | VString s => s
  | VObject m => match mget "@odata.id" m with Some (VString odataID) => odataID | _ => Sprint v end
  | _ => Sprint v
  end.

(** The backend helpers in turn; [err] is the error of the previous one. *)
Fixpoint HandleAction_backends (postBodyMap : object) (uri host : string) (responseBody : body)
    (err : option go_error) (helpers : list (BackendHelper S)) : M S (result body) :=
  match helpers with
  | [] => ret (match err with None => Ok responseBody | Some e => Err e end)
  | helper :: rest =>
      if String.eqb host "" then panic "BackendHelper is set but there is no host set"
      else
        env <- GetEnvForXname helper host ;;
        match env with
        | Err _ => panic "Failed to get ENV for host"
        | Ok env =>
            let env := fold_left (fun env e => mput (fst e) (action_parameter (snd e)) env) postBodyMap env in
            r <- RunBackendHelper helper uri [] env ;;
            match r with
            | Ok _ => ret (Ok NoBody)
            | Err e =>
                if decide (e = ErrBackendContinue)
                then HandleAction_backends postBodyMap uri host responseBody (Some e) rest
                else ret (Err e)
            end
        end
  end.

(** What [DoFileHandler] returns next to an error: nil when a program
    failed, otherwise an empty text. *)
Definition failed_output (e : go_error) : body :=
  if has_prefix "Script execution failed: " (err_string e) then NoBody else TextBody "".

Definition HandleAction (uri : string) (requestBody : request_body) (host : string) : M S (result body) :=
  _ <-? redis_smembers uri ;;
  match Unmarshal_map requestBody with
  | None => ret (Err (ErrText "malformed JSON"))
  | Some [] => ret (Ok NoBody)
  | Some postBodyMap =>
      let args := flat_map (fun e => [ArgText (fst e); ArgJson (snd e)]) postBodyMap in
      file <- DoFileHandler rfd ActionOp uri args [] ;;
      match file with
      | Ok stdout => ret (Ok (TextBody stdout))
      | Err e =>
          let targetKey := uri +:+ "/Target" in
          ipcExists <- redis_exists (targetKey +:+ ":ipc") ;;
          match ipcExists with
          | Err _ => panic "Unable to check ipcKey existence"
          | Ok true =>
              response <-? PerformIPC targetKey postBodyMap ;;
              ret (Ok (JsonBody (VObject (map (fun kv => (fst kv, VString (snd kv))) (map_to_list response)))))
          | Ok false =>
              HandleAction_backends postBodyMap uri host (failed_output e) None (BackendHelpers rfd)
          end
      end
  end.
End actions.

(* ===================================================================== *)
(** * Properties                                                         *)
(* ===================================================================== *)

Section resource_facts.
Context {S : Type} `{RedisLaws S} (rfd : RedfishDispatcher S).

(** Membership of a collection: a key in Redis, or the word of a callback;
    never a name the collection uses for a property. *)
Definition is_member (tests : list (Resource -> string -> string -> bool)) (ks : keys) (xname : string)
    (collection : Resource) (path instance : string) : bool :=
  negb (mmem instance (r_Properties collection))
  && (bool_decide (is_Some (ks !! (xname +:+ path +:+ String slash instance)))
      || existsb (fun test => test collection (xname +:+ path) instance) tests).

Lemma run_additional_cbs_answers tests cbs collection path instance (s : S) :
  Forall2 (fun test cb => answers_member test cb s) tests cbs ->
  run_additional_cbs cbs collection path instance s
    = (Ret (existsb (fun test => test collection path instance) tests), s).
Proof.
  induction 1 as [|test cb tests cbs Hcb _ IH]; [done|]. simpl. unfold bind.
  rewrite Hcb. by destruct (test collection path instance).
Qed.

Lemma GetResource_cb_answers tests xname (s : S) :
  Forall2 (fun test cb => answers_member test cb s) tests (additionalCollectionCBs rfd) ->
  answers_member (is_member tests (keyspace s) xname) (GetResource_cb rfd xname) s.
Proof.
  intros Ht c path inst. unfold GetResource_cb, is_member. destruct (mmem inst _); [done|].
  unfold must, bind. rewrite law_exists, str_app_assoc. simpl.
  destruct (bool_decide _); [done|]. by apply run_additional_cbs_answers.
Qed.
End resource_facts.

(** C13: a URI is resolved with the members Redis knows.  On a linked schema
    tree, with additional callbacks that only test, GetResource changes
    nothing, never panics, and returns the resource and property the URI
    denotes when the members of a collection are the instances, other than
    names of its properties, whose key below the host's prefix exists or
    that a callback accepts; (nil, nil) when it denotes nothing. *)
Theorem GetResource_refines S `{RedisLaws S} (rfd : RedfishDispatcher S) tests uri xname (s : S)
  (Hlinked : r_linked (schemaTree rfd) = true)
  (Hcbs : Forall2 (fun test cb => answers_member test cb s) tests (additionalCollectionCBs rfd)) :
  (exists c, denotes (is_member tests (keyspace s) xname) (schemaTree rfd) uri c /\
     GetResource rfd uri xname s = (Ret (cursor_pair c), s) /\
     forall c', denotes (is_member tests (keyspace s) xname) (schemaTree rfd) uri c' ->
       cursor_pair c' = cursor_pair c) \/
  ((~ exists c, denotes (is_member tests (keyspace s) xname) (schemaTree rfd) uri c) /\
     GetResource rfd uri xname s = (Ret (None, None), s)).
Proof. apply WalkTree_agrees; [by apply GetResource_cb_answers|done]. Qed.

(** A busy backend is not disturbed.  When the target key exists, the
    exchange reports that the backend is busy and leaves the target as it
    is; the request hash, however, stays in Redis, since the clean-up is
    only deferred after the check. *)
Theorem PerformIPC_busy S `{RedisLaws S} `{FloatText} (rfd : RedfishDispatcher S) (ipc : IPC S)
    targetkey request fields id ks v
  (Hid : forall s, new_uuid ipc s = (Ret id, s))
  (Hfields : hash_fields ipc (mput "ResponseKey" (VString (ipc_keyspace rfd id +:+ ":Response")) request) = Ok fields)
  (Hfresh : ks !! (ipc_keyspace rfd id +:+ ":Request") = None)
  (Htarget : ks !! targetkey = Some v) :
  wp ks (PerformIPC rfd ipc targetkey request)
    (returns (fun r ks' => r = Err (ErrText "Backend is currently performing an action") /\
       ks' = <[ipc_keyspace rfd id +:+ ":Request" := RHash fields]> ks)).
Proof.
  assert (Hne : fields <> ∅).
  { intros ->. destruct (mput "ResponseKey" _ request) as [|[k u] m] eqn:Em.
    - destruct request as [|[k u] m]; simpl in Em; [done|by case_match].
    - simpl in Hfields. destruct (hash_field ipc u); [|done].
      destruct (hash_fields ipc m); [|done]. injection Hfields as Hf. by apply insert_non_empty in Hf. }
  unfold PerformIPC. apply wp_bind. eapply wp_eq; [exact Hid|]. unfold after at 1.
  rewrite Hfields. wp_steps. unfold hmset_effect. rewrite decide_False, Hfresh by done. simpl.
  wp_steps. unfold renamenx_effect. rewrite lookup_insert_eq, lookup_insert_ne, Htarget by congruence.
  simpl. wp_steps. done.
Qed.

(** ** Examples *)

Module ActionsExample.
Import RoundTripExample WalkExample.
Definition rfd : RedfishDispatcher memstore :=
  mkDispatcher memstore "/" "rts" root [] [] [] (world RoundTripExample.rfd).
Definition store : memstore :=
  {["/redfish/v1/Managers/BMC" := RSet {["Id"]}; "busy/Target" := RStr "x"]}.
Definition ipc : IPC memstore :=
  mkIPC memstore (ret "42") (fun v => match v with VString s => Some s | _ => None end) (fun _ => ret true).

Example GetResource_example :
  GetResource rfd "/redfish/v1/Managers/BMC" "" store = (Ret (Some manager, None), store).
Proof. vm_compute. reflexivity. Qed.

Lemma GetResource_refines_witness :
  (exists c, denotes (is_member [] (keyspace store) "") root "/redfish/v1/Managers/BMC" c /\
     GetResource rfd "/redfish/v1/Managers/BMC" "" store = (Ret (cursor_pair c), store) /\
     forall c', denotes (is_member [] (keyspace store) "") root "/redfish/v1/Managers/BMC" c' ->
       cursor_pair c' = cursor_pair c) \/
  ((~ exists c, denotes (is_member [] (keyspace store) "") root "/redfish/v1/Managers/BMC" c) /\
     GetResource rfd "/redfish/v1/Managers/BMC" "" store = (Ret (None, None), store)).
Proof. apply (GetResource_refines memstore rfd [] "/redfish/v1/Managers/BMC" "" store); [reflexivity|constructor]. Defined.

Definition request_fields : gmap string string :=
  <["ResetType" := "On"]> (<["ResponseKey" := "Cray:rts:IPC:42:Response"]> ∅).

Lemma PerformIPC_busy_witness :
  wp store (PerformIPC rfd ipc "busy/Target" [("ResetType", VString "On")])
    (returns (fun r ks' => r = Err (ErrText "Backend is currently performing an action") /\
       ks' = <["Cray:rts:IPC:42:Request" := RHash request_fields]> store)).
Proof.
  apply (PerformIPC_busy memstore rfd ipc "busy/Target" [("ResetType", VString "On")] request_fields "42" store (RStr "x"));
    [by intros|reflexivity|reflexivity|reflexivity].
Defined.
End ActionsExample.
