(* ===== verification/Validator.v ===== *)
(** The validation of a request against the schema
    ([cmd/rfdispatcher/rfvalidator.go]).

    [checkResource] reports what is wrong with an object; [valid] says
    declaratively when a value is right for a property.  The report is clean
    exactly on the valid objects, and a clean object of known fields is
    converted for storage without error or panic. *)
From S2P Require Import Prelude Values Schema Walk RedisStruct.

(* ===================================================================== *)
(** * Reports                                                            *)
(* ===================================================================== *)

(** The sets of names of an [ObjectReport]. *)
Inductive report_set :=
  | Missing | Added | InvalidNames | MissingRequired | MissingRequiredOnCreate
  | InvalidEnum | InvalidString | InvalidNumber | InvalidInteger | InvalidBool
  | InvalidLink | InvalidObject | InvalidArray.

#[export] Instance report_set_eq_dec : EqDecision report_set.
Proof. solve_decision. Defined.

Inductive ObjectReport :=
  | mkObjectReport
      (sets : report_set -> gomap bool)
      (Properties : list (string * ObjectReport))
      (Arrays : list (string * ArrayReport))
with ArrayReport :=
  | mkArrayReport
      (InvalidElements : list (nat * bool))
      (Properties : list (nat * ObjectReport)).

Definition or_sets (or : ObjectReport) : report_set -> gomap bool :=
  match or with mkObjectReport s _ _ => s end.
Definition or_Properties (or : ObjectReport) : list (string * ObjectReport) :=
  match or with mkObjectReport _ ps _ => ps end.
Definition or_Arrays (or : ObjectReport) : list (string * ArrayReport) :=
  match or with mkObjectReport _ _ l => l end.

Definition NewObjectReport : ObjectReport := mkObjectReport (fun _ => []) [] [].
Definition NewArrayReport : ArrayReport := mkArrayReport [] [].

(** [op.Set[name] = b], [op.Properties[name] = r], [op.Arrays[name] = a] *)
Definition mark (set : report_set) (name : string) (b : bool) (op : ObjectReport) : ObjectReport :=
  mkObjectReport (fun k => if decide (k = set) then mput name b (or_sets op k) else or_sets op k)
    (or_Properties op) (or_Arrays op).
Definition set_property (name : string) (r : ObjectReport) (op : ObjectReport) : ObjectReport :=
  mkObjectReport (or_sets op) (mput name r (or_Properties op)) (or_Arrays op).
Definition set_array (name : string) (a : ArrayReport) (op : ObjectReport) : ObjectReport :=
  mkObjectReport (or_sets op) (or_Properties op) (mput name a (or_Arrays op)).

Definition getMissingRequired (or : ObjectReport) : list string :=
  sort_strings (map fst (List.filter snd (or_sets or MissingRequired))).
Definition getMissingRequiredOnCreate (or : ObjectReport) : list string :=
  sort_strings (mkeys (or_sets or MissingRequiredOnCreate)).

(* ===================================================================== *)
(** * Checks of simple values                                            *)
(* ===================================================================== *)

Section simple.
Context `{TextParsers}.

Definition checkEnum (payloadEnumRaw : value) (i : property_info) : bool :=
  match payloadEnumRaw with
  | VString payloadEnum => existsb (fun enum => String.eqb payloadEnum (em_Name enum)) (pi_EnumMembers i)
  | _ => false
  end.

(** A limit that is not set holds of everything. *)
Definition if_set {A} (limit : option A) (ok : A -> bool) : bool :=
  match limit with Some a => ok a | None => true end.

Definition checkString (payloadStringRaw : value) (i : property_info) : bool :=
  match payloadStringRaw with
  | VString payloadString =>
      let len := Z.of_nat (String.length payloadString) in
      if_set (pi_StringFormat i) (fun f => bool_decide (f = FormatUnknown) || StringFormat_Validate f payloadString)
      && if_set (pi_StringMinLength i) (fun l => negb (Z.ltb len l))
      && if_set (pi_StringMaxLength i) (fun l => negb (Z.ltb l len))
      && if_set (pi_StringPattern i) (fun r => regexp_match r payloadString)
  | _ => false
  end.

Definition checkNumber (payloadNumberRaw : value) (i : property_info) : bool :=
  match payloadNumberRaw with
  | VFloat payloadNumber =>
      if_set (pi_NumberMinimum i) (fun l => negb (float_lt payloadNumber l))
      && if_set (pi_NumberMaximum i) (fun l => negb (float_lt l payloadNumber))
  | _ => false
  end.

Definition checkBool (payloadBoolRaw : value) : bool :=
  match payloadBoolRaw with VBool _ => true | _ => false end.

Definition checkLink (payloadLinkRaw : value) : bool :=
  match payloadLinkRaw with
  | VObject [(n, VString link)] => String.eqb n "@odata.id" && StringFormat_Validate FormatURI link
  | _ => false
  end.
End simple.

(* ===================================================================== *)
(** * Checks of structures                                               *)
(* ===================================================================== *)

(** What checking one field adds to the report of its object. *)
Inductive field_report :=
  | FObject (r : ObjectReport)
  | FArray (a : ArrayReport)
  | FMark (set : report_set) (invalid : bool)
  | FNothing.
Definition record_field (name : string) (f : field_report) (op : ObjectReport) : ObjectReport :=
  match f with
  | FObject r => set_property name r op
  | FArray a => set_array name a op
  | FMark set b => mark set name b op
  | FNothing => op
  end.

(** What checking one element adds to the report of its array. *)
Inductive element_report :=
  | EObject (r : ObjectReport)
  | EMark (invalid : bool)
  | ENothing.
Definition record_element (i : nat) (e : element_report) (ar : ArrayReport) : ArrayReport :=
  match ar, e with
  | mkArrayReport inv ps, EObject r => mkArrayReport inv (ps ++ [(i, r)])
  | mkArrayReport inv ps, EMark b => mkArrayReport (inv ++ [(i, b)]) ps
  | _, ENothing => ar
  end.

Definition cannot_handle (t : PropertyType) : string := "Cannot handle type:" +:+ PropertyType_String t.

(** [AdditionalProperties] of an object defaults to false. *)
Definition additional (i : property_info) : bool :=
  match pi_AdditionalProperties i with Some b => b | None => false end.

Section structures.
Context `{TextParsers} {S : Type}.

(** The names that the schema does not have. *)
Fixpoint checkNames (payload : object) (ps : properties) (additionalProperties : bool)
    (patternProperties : list PatternProperties) (op : ObjectReport) : ObjectReport :=
  match payload with
  | [] => op
  | (name, _) :: rest =>
      let op' :=
        if mmem name ps then op
        else
          let op1 := mark Added name true op in
          if negb additionalProperties
             && existsb (fun pattern => negb (regexp_match (pp_Pattern pattern) name)) patternProperties
          then mark InvalidNames name true op1
          else op1 in
      checkNames rest ps additionalProperties patternProperties op'
  end.

Section fields.
Variable field : Property -> value -> M S field_report.

Fixpoint checkFields (payload : object) (ps : list (string * Property)) (op : ObjectReport) :
    M S ObjectReport :=
  match ps with
  | [] => ret op
  | (name, property) :: rest =>
      match mget name payload with
      | None => checkFields payload rest (mark Missing name true op)
      | Some payloadRaw =>
          r <- field property payloadRaw ;;
          checkFields payload rest (record_field name r op)
      end
  end.

(** [checkProperties], with [field] for the checks of the fields. *)
Definition checkProperties (payload : object) (ps : list (string * Property)) (additionalProperties : bool)
    (patternProperties : list PatternProperties) : M S ObjectReport :=
  checkFields payload ps (checkNames payload ps additionalProperties patternProperties NewObjectReport).
End fields.

Section elements.
Variable element : value -> M S element_report.
Fixpoint checkElements (i : nat) (payloadArray : list value) (ar : ArrayReport) : M S ArrayReport :=
  match payloadArray with
  | [] => ret ar
  | payloadElementRaw :: rest =>
      r <- element payloadElementRaw ;;
      checkElements (Datatypes.S i) rest (record_element i r ar)
  end.
End elements.

(** The switch of [checkProperties] over the type of a property; the body of
    [checkArray] is the local [checkArray]. *)
Fixpoint checkField (property : Property) (payloadRaw : value) {struct property} : M S field_report :=
  match property with
  | mkProperty i ps arr _ _ _ _ =>
      let checkArray (payloadArray : list value) : M S ArrayReport :=
        match arr with
        | None => match payloadArray with [] => ret NewArrayReport | _ => panic nil_deref end
        | Some (mkProperty ei eps _ elink _ _ _) =>
            checkElements (fun payloadElementRaw =>
              match pi_Type ei with
              | PropObject =>
                  match payloadElementRaw with
                  | VObject payloadElement =>
                      r <- checkProperties checkField payloadElement eps (additional ei) (pi_PatternProperties ei) ;;
                      ret (EObject r)
                  | _ => ret (EMark true)
                  end
              | PropAction => ret ENothing
              | PropEnum => ret (EMark (negb (checkEnum payloadElementRaw ei)))
              | PropString => ret (EMark (negb (checkString payloadElementRaw ei)))
              | PropNumber => ret (EMark (negb (checkNumber payloadElementRaw ei)))
              | PropBool => ret (EMark (negb (checkBool payloadElementRaw)))
              | PropArray => panic "Nested arrays are not supported"
              | PropLink =>
                  if pi_IsNavLink ei && pi_LinkAutoExpand ei then
                    match payloadElementRaw, elink with
                    | VObject elementProperties, Some (mkResource ri rps _) =>
                        r <- checkProperties checkField elementProperties rps
                               (ri_AdditionalProperties ri) (ri_PatternProperties ri) ;;
                        ret (EObject r)
                    | VObject _, None => panic nil_deref
                    | _, _ => panic "interface conversion: interface {} is not map[string]interface {}"
                    end
                  else ret (EMark (negb (checkLink payloadElementRaw)))
              | t => panic (cannot_handle t)
              end) 0 payloadArray NewArrayReport
        end in
      let checkArrayField :=
        match payloadRaw with
        | VArray payloadArray => a <- checkArray payloadArray ;; ret (FArray a)
        | _ => ret (FMark InvalidArray true)
        end in
      match pi_Type i with
      | PropObject =>
          match payloadRaw with
          | VObject payloadProperty =>
              r <- checkProperties checkField payloadProperty ps (additional i) (pi_PatternProperties i) ;;
              ret (FObject r)
          | _ => ret (FMark InvalidObject true)
          end
      | PropAction => ret FNothing
      | PropEnum => ret (FMark InvalidEnum (negb (checkEnum payloadRaw i)))
      | PropString => ret (FMark InvalidString (negb (checkString payloadRaw i)))
      | PropInteger | PropNumber => ret (FMark InvalidNumber (negb (checkNumber payloadRaw i)))
      | PropBool => ret (FMark InvalidBool (negb (checkBool payloadRaw)))
      | PropArray => checkArrayField
      | PropLink =>
          if pi_IsNavLink i && pi_LinkAutoExpand i then checkArrayField
          else ret (FMark InvalidLink (negb (checkLink payloadRaw)))
      | t => panic (cannot_handle t)
      end
  end.

Definition checkObject (payload : object) (schemaObject : Property) : M S ObjectReport :=
  checkProperties checkField payload (Properties_of schemaObject) (additional (p_info schemaObject))
    (pi_PatternProperties (p_info schemaObject)).

(** The loop body of [checkArray], and [checkArray] itself: what
    [checkField] does for them. *)
Definition checkElement (elementProperty : Property) (payloadElementRaw : value) : M S element_report :=
  match p_Type elementProperty with
  | PropObject =>
      match payloadElementRaw with
      | VObject payloadElement => r <- checkObject payloadElement elementProperty ;; ret (EObject r)
      | _ => ret (EMark true)
      end
  | PropAction => ret ENothing
  | PropEnum => ret (EMark (negb (checkEnum payloadElementRaw (p_info elementProperty))))
  | PropString => ret (EMark (negb (checkString payloadElementRaw (p_info elementProperty))))
  | PropNumber => ret (EMark (negb (checkNumber payloadElementRaw (p_info elementProperty))))
  | PropBool => ret (EMark (negb (checkBool payloadElementRaw)))
  | PropArray => panic "Nested arrays are not supported"
  | PropLink =>
      if IsNavLink elementProperty && LinkAutoExpand elementProperty then
        match payloadElementRaw, Link elementProperty with
        | VObject elementProperties, Some collection =>
            r <- checkProperties checkField elementProperties (r_Properties collection)
                   (ri_AdditionalProperties (r_info collection)) (ri_PatternProperties (r_info collection)) ;;
            ret (EObject r)
        | VObject _, None => panic nil_deref
        | _, _ => panic "interface conversion: interface {} is not map[string]interface {}"
        end
      else ret (EMark (negb (checkLink payloadElementRaw)))
  | t => panic (cannot_handle t)
  end.

Definition checkArray (payloadArray : list value) (arrayProperty : Property) : M S ArrayReport :=
  match ArrayOf arrayProperty with
  | None => match payloadArray with [] => ret NewArrayReport | _ => panic nil_deref end
  | Some elementProperty => checkElements (checkElement elementProperty) 0 payloadArray NewArrayReport
  end.

(** The names of a list that the object lacks go into a set. *)
Definition mark_missing (set : report_set) (names : list string) (obj : object) (op : ObjectReport) : ObjectReport :=
  fold_left (fun op name => if mmem name obj then op else mark set name true op) names op.

Definition checkResource (resource : Resource) (obj : object) : M S ObjectReport :=
  objectReport <- checkProperties checkField obj (r_Properties resource)
    (ri_AdditionalProperties (r_info resource)) (ri_PatternProperties (r_info resource)) ;;
  ret (mark_missing MissingRequiredOnCreate (ri_RequiredOnCreate (r_info resource)) obj
        (mark_missing MissingRequired (ri_RequiredProperties (r_info resource)) obj objectReport)).
End structures.

(* ===================================================================== *)
(** * What is valid                                                      *)
(* ===================================================================== *)

(** The sets whose marks tell of something wrong, and those of a field. *)
Definition field_sets : list report_set :=
  [InvalidEnum; InvalidString; InvalidNumber; InvalidBool; InvalidLink; InvalidObject; InvalidArray].
Definition wrong_sets : list report_set := InvalidNames :: MissingRequired :: InvalidInteger :: field_sets.

(** The sets that only [checkResource] marks. *)
Definition required_sets : list report_set := [MissingRequired; MissingRequiredOnCreate].

Definition no_mark {A} (m : list (A * bool)) : bool := forallb (fun e => negb (snd e)) m.

(** Nothing wrong is reported, at any depth. *)
Fixpoint clean (r : ObjectReport) : bool :=
  match r with
  | mkObjectReport sets ps arrays =>
      forallb (fun k => no_mark (sets k)) wrong_sets
      && forallb (fun e => clean (snd e)) ps && forallb (fun e => clean_array (snd e)) arrays
  end
with clean_array (a : ArrayReport) : bool :=
  match a with
  | mkArrayReport inv ps => no_mark inv && forallb (fun e => clean (snd e)) ps
  end.

Arguments clean : simpl never.
Arguments clean_array : simpl never.

Section valid.
Context `{TextParsers}.

(** The constraints of a string and of a number. *)
Definition string_ok (i : property_info) (s : string) : Prop :=
  (forall f, pi_StringFormat i = Some f -> f = FormatUnknown \/ StringFormat_Validate f s = true) /\
  (forall l, pi_StringMinLength i = Some l -> l <= Z.of_nat (String.length s)) /\
  (forall l, pi_StringMaxLength i = Some l -> Z.of_nat (String.length s) <= l) /\
  (forall r, pi_StringPattern i = Some r -> regexp_match r s = true).
Definition number_ok (i : property_info) (f : float64) : Prop :=
  (forall l, pi_NumberMinimum i = Some l -> float_lt f l = false) /\
  (forall l, pi_NumberMaximum i = Some l -> float_lt l f = false).

(** The names that are not in the schema: allowed, or matched by all patterns. *)
Definition names_ok (names : list string) (ps : properties) (add : bool) (pats : list PatternProperties) : Prop :=
  forall n, n ∈ names -> n ∉ mkeys ps -> add = true \/ forall pat, pat ∈ pats -> regexp_match (pp_Pattern pat) n = true.

Inductive valid : Property -> value -> Prop :=
  | valid_object p m :
      p_Type p = PropObject ->
      names_ok (mkeys m) (Properties_of p) (additional (p_info p)) (pi_PatternProperties (p_info p)) ->
      (forall n q v, (n, q) ∈ Properties_of p -> mget n m = Some v -> valid q v) ->
      valid p (VObject m)
  | valid_action p v : p_Type p = PropAction -> valid p v
  | valid_enum p s :
      p_Type p = PropEnum -> s ∈ map em_Name (pi_EnumMembers (p_info p)) -> valid p (VString s)
  | valid_string p s : p_Type p = PropString -> string_ok (p_info p) s -> valid p (VString s)
  | valid_number p f :
      p_Type p = PropNumber \/ p_Type p = PropInteger -> number_ok (p_info p) f -> valid p (VFloat f)
  | valid_bool p b : p_Type p = PropBool -> valid p (VBool b)
  | valid_array p e l :
      p_Type p = PropArray -> ArrayOf p = Some e -> Forall (valid e) l -> valid p (VArray l)
  | valid_link p target :
      p_Type p = PropLink -> parse_request_uri target = true ->
      valid p (VObject [("@odata.id", VString target)]).

Definition valid_resource (r : Resource) (obj : object) : Prop :=
  names_ok (mkeys obj) (r_Properties r) (ri_AdditionalProperties (r_info r)) (ri_PatternProperties (r_info r)) /\
  (forall n q v, (n, q) ∈ r_Properties r -> mget n obj = Some v -> valid q v) /\
  (forall n, n ∈ ri_RequiredProperties (r_info r) -> n ∈ mkeys obj).
End valid.

(** The schemas the validator handles: every property has one known type and
    no name twice, no link is embedded, and the elements of an array are of a
    type its switch lists, which integers and arrays are not. *)
Definition element_type (t : PropertyType) : bool :=
  match t with
  | PropObject | PropAction | PropEnum | PropString | PropNumber | PropBool | PropLink => true
  | _ => false
  end.
Fixpoint checkable (p : Property) : bool :=
  match p with
  | mkProperty i ps arr _ _ _ _ =>
      bool_decide (NoDup (map fst ps)) && forallb (fun e => checkable (snd e)) ps
      && match pi_Type i with
         | PropUnknown | PropMultiple => false
         | PropLink => negb (pi_IsNavLink i && pi_LinkAutoExpand i)
         | PropArray => match arr with Some e => element_type (p_Type e) && checkable e | None => false end
         | _ => true
         end
  end.

(* ===================================================================== *)
(** * The simple checks decide the constraints                           *)
(* ===================================================================== *)

Section simple_facts.
Context `{TextParsers}.

Lemma if_set_spec {A} (o : option A) f : if_set o f = true <-> forall a, o = Some a -> f a = true.
Proof. destruct o; simpl; naive_solver. Qed.

Lemma checkEnum_spec p v : p_Type p = PropEnum -> checkEnum v (p_info p) = true <-> valid p v.
Proof.
  intros Ht. split.
  - destruct v; try done. simpl. rewrite existsb_exists. intros (em & Hin & E%String.eqb_eq).
    apply valid_enum; [done|]. subst. apply list_elem_of_fmap. exists em. by rewrite list_elem_of_In.
  - inversion 1; subst; try congruence; [|by destruct_or?; congruence]. simpl.
    match goal with E : _ ∈ map _ _ |- _ => apply list_elem_of_fmap in E as (em & -> & Hin) end.
    apply existsb_exists. exists em. rewrite String.eqb_refl. by rewrite <- list_elem_of_In.
Qed.

Lemma checkString_spec p v : p_Type p = PropString -> checkString v (p_info p) = true <-> valid p v.
Proof.
  intros Ht. assert (Hs : forall s, checkString (VString s) (p_info p) = true <-> string_ok (p_info p) s).
  { intros s. unfold string_ok, checkString. rewrite !andb_true_iff, !if_set_spec.
    setoid_rewrite orb_true_iff. setoid_rewrite bool_decide_eq_true.
    setoid_rewrite negb_true_iff. setoid_rewrite Z.ltb_ge. tauto. }
  split.
  - destruct v; try done. intros Hc%Hs. by apply valid_string.
  - inversion 1; subst; try congruence; [by apply Hs|]. destruct_or?; congruence.
Qed.

Lemma checkNumber_spec p v :
  p_Type p = PropNumber \/ p_Type p = PropInteger -> checkNumber v (p_info p) = true <-> valid p v.
Proof.
  intros Ht. assert (Hf : forall f, checkNumber (VFloat f) (p_info p) = true <-> number_ok (p_info p) f).
  { intros f. unfold number_ok, checkNumber. rewrite !andb_true_iff, !if_set_spec.
    by setoid_rewrite negb_true_iff. }
  split.
  - destruct v; try done. intros Hc%Hf. by apply valid_number.
  - inversion 1; subst; try (by destruct_or?; congruence). by apply Hf.
Qed.

Lemma checkBool_spec p v : p_Type p = PropBool -> checkBool v = true <-> valid p v.
Proof.
  intros Ht. split; [destruct v; try done; intros _; by apply valid_bool|].
  inversion 1; subst; try done; destruct_or?; congruence.
Qed.

Lemma checkLink_spec p v : p_Type p = PropLink -> checkLink v = true <-> valid p v.
Proof.
  intros Ht. split.
  - destruct v as [| | | | | | | |[|[n [| | | | |link| | |]] []]]; try done. simpl.
    rewrite andb_true_iff. intros [->%String.eqb_eq Hl]. by apply valid_link.
  - inversion 1; subst; try congruence; [destruct_or?; congruence|]. simpl. done.
Qed.
End simple_facts.

(* ===================================================================== *)
(** * Reports of parts                                                   *)
(* ===================================================================== *)

(** A set that is not of a list. *)
Ltac not_in_sets :=
  let Hin := fresh in unfold wrong_sets, field_sets, required_sets; intros Hin;
  repeat (apply elem_of_cons in Hin as [?|Hin]; [done|]); by apply elem_of_nil in Hin.

Lemma clean_split sets ps arrays :
  clean (mkObjectReport sets ps arrays) = true <->
  (forall k, k ∈ wrong_sets -> no_mark (sets k) = true) /\
  forallb (fun e => clean (snd e)) ps = true /\ forallb (fun e => clean_array (snd e)) arrays = true.
Proof.
  unfold clean; fold clean; fold clean_array.
  rewrite !andb_true_iff, (forallb_forall _ wrong_sets). setoid_rewrite list_elem_of_In. tauto.
Qed.

Lemma no_mark_put n b (m : gomap bool) : n ∉ mkeys m -> no_mark (mput n b m) = no_mark m && negb b.
Proof.
  intros Hn. unfold no_mark. rewrite mput_fresh, forallb_app by done. simpl. by rewrite andb_true_r.
Qed.

Lemma no_mark_true n (m : gomap bool) : no_mark (mput n true m) = false.
Proof.
  unfold no_mark. induction m as [|[k b] m IH]; [done|]. simpl.
  destruct (String.eqb n k); simpl; [done|]. by rewrite IH, andb_false_r.
Qed.

(** Nothing is recorded yet under the name [n]. *)
Definition unrecorded (n : string) (op : ObjectReport) : Prop :=
  (forall k, k ∈ field_sets -> n ∉ mkeys (or_sets op k)) /\
  n ∉ mkeys (or_Properties op) /\ n ∉ mkeys (or_Arrays op).

Lemma clean_mark_field k n b op :
  k ∈ field_sets -> unrecorded n op -> clean (mark k n b op) = true <-> clean op = true /\ b = false.
Proof.
  intros Hk [Hu _]. destruct op as [sets ps arrays]. unfold mark. rewrite !clean_split.
  simpl in *. specialize (Hu k Hk).
  assert (Hkw : k ∈ wrong_sets) by (unfold wrong_sets; by do 3 right).
  split.
  - intros (Hs & Hr). pose proof (Hs k Hkw) as Hb. rewrite decide_True, no_mark_put in Hb by done.
    apply andb_true_iff in Hb as [Hb1 Hb2%negb_true_iff]. split; [|done]. split; [|done].
    intros k' Hk'. specialize (Hs k' Hk'). case_decide; [by subst|done].
  - intros [(Hs & Hr) ->]. split; [|done]. intros k' Hk'. case_decide as E; [|by apply Hs].
    subst. rewrite no_mark_put by done. by rewrite Hs.
Qed.

Lemma clean_mark_harmless k n b op : k ∉ wrong_sets -> clean (mark k n b op) = true <-> clean op = true.
Proof.
  intros Hk. destruct op as [sets ps arrays]. unfold mark. rewrite !clean_split. simpl.
  split; intros (Hs & Hr); (split; [|done]); intros k' Hk'; specialize (Hs k' Hk'); case_decide; by subst.
Qed.

Lemma clean_mark_wrong k n op : k ∈ wrong_sets -> clean (mark k n true op) = false.
Proof.
  intros Hk. apply not_true_iff_false. destruct op as [sets ps arrays]. unfold mark. rewrite clean_split.
  intros (Hs & _). specialize (Hs k Hk). simpl in Hs. by rewrite decide_True, no_mark_true in Hs.
Qed.

Definition clean_field (f : field_report) : bool :=
  match f with FObject r => clean r | FArray a => clean_array a | FMark _ b => negb b | FNothing => true end.
Definition proper_field (f : field_report) : Prop :=
  match f with FMark k _ => k ∈ field_sets | _ => True end.

Lemma clean_record_field n f op :
  proper_field f -> unrecorded n op ->
  clean (record_field n f op) = true <-> clean op = true /\ clean_field f = true.
Proof.
  intros Hf Hu. destruct f as [r|a|k b|]; simpl in *.
  - destruct Hu as (_ & Hp & _). destruct op as [sets ps arrays]. unfold set_property.
    rewrite !clean_split. simpl in *. rewrite mput_fresh, forallb_app by done. simpl.
    rewrite !andb_true_iff. tauto.
  - destruct Hu as (_ & _ & Ha). destruct op as [sets ps arrays]. unfold set_array.
    rewrite !clean_split. simpl in *. rewrite mput_fresh, forallb_app by done. simpl.
    rewrite !andb_true_iff. tauto.
  - rewrite clean_mark_field by done. by rewrite negb_true_iff.
  - tauto.
Qed.

Lemma unrecorded_record n n' f op :
  n <> n' -> proper_field f -> unrecorded n op -> unrecorded n (record_field n' f op).
Proof.
  intros Hne Hf (Hs & Hp & Ha). unfold unrecorded.
  destruct f as [r|a|k b|]; simpl; [..|done]; (split; [|split]); try done; try (rewrite mkeys_mput; tauto).
  intros k' Hk'. simpl. case_decide; [subst; rewrite mkeys_mput|]; naive_solver.
Qed.

Lemma unrecorded_mark n n' k b op : k ∉ field_sets -> unrecorded n op -> unrecorded n (mark k n' b op).
Proof.
  intros Hk (Hs & Hp & Ha). split; [|done]. intros k' Hk'. simpl. case_decide; [by subst|by apply Hs].
Qed.

Section structure_facts.
Context `{TextParsers} {S : Type}.

Lemma checkNames_spec payload ps add pats op :
  (clean (checkNames payload ps add pats op) = true <->
     clean op = true /\ names_ok (mkeys payload) ps add pats) /\
  (forall n, unrecorded n op -> unrecorded n (checkNames payload ps add pats op)).
Proof.
  revert op. induction payload as [|[name v] payload IH]; intros op; simpl.
  { split; [|done]. unfold names_ok. split; [|tauto]. intros ?. split; [done|]. by intros ? ?%elem_of_nil. }
  set (op' := if mmem name ps then op else _). destruct (IH op') as [IHc IHu].
  assert (Hop : clean op' = true <-> clean op = true /\
    (name ∉ mkeys ps -> add = true \/ forall pat, pat ∈ pats -> regexp_match (pp_Pattern pat) name = true)).
  { unfold op', mmem. destruct (mget name ps) as [q|] eqn:Eq.
    - split; [|tauto]. intros ?. split; [done|]. intros Hn%mget_None. congruence.
    - apply mget_None in Eq. destruct add; simpl.
      { rewrite clean_mark_harmless by not_in_sets. naive_solver. }
      destruct (existsb _ pats) eqn:Ex.
      + rewrite clean_mark_wrong by left. split; [done|]. intros [_ Hn].
        destruct (Hn Eq) as [?|Hall]; [done|]. apply existsb_exists in Ex as (pat & Hin & Hm).
        by rewrite Hall in Hm by by apply list_elem_of_In.
      + rewrite clean_mark_harmless by not_in_sets.
        split; [|tauto]. intros ?. split; [done|]. intros _. right. intros pat Hpat.
        destruct (regexp_match _ _) eqn:Em; [done|]. rewrite <- Ex. apply existsb_exists.
        exists pat. by rewrite Em, <- list_elem_of_In. }
  split.
  - rewrite IHc, Hop. unfold names_ok. setoid_rewrite elem_of_cons. naive_solver.
  - intros n Hn. apply IHu. unfold op'. destruct (mmem name ps); [done|].
    destruct (_ && _); repeat apply unrecorded_mark; try done; not_in_sets.
Qed.

(** [field] reports on [q] what [valid] says. *)
Definition reports (field : Property -> value -> M S field_report) (q : Property) : Prop :=
  forall v s, exists f, field q v s = (Ret f, s) /\ proper_field f /\ (clean_field f = true <-> valid q v).

Definition same_required (op op' : ObjectReport) : Prop :=
  forall k, k ∈ required_sets -> or_sets op' k = or_sets op k.

Lemma same_required_mark set n b op : set ∉ required_sets -> same_required op (mark set n b op).
Proof. intros Hs k Hk. simpl. by rewrite decide_False by (by intros ->). Qed.

Lemma same_required_record n f op : proper_field f -> same_required op (record_field n f op).
Proof.
  destruct f; simpl; try done. intros Hf. apply same_required_mark. unfold required_sets.
  intros Hr. repeat (apply elem_of_cons in Hr as [->|Hr]; [revert Hf; not_in_sets|]).
  by apply elem_of_nil in Hr.
Qed.

Lemma same_required_names payload ps add pats op : same_required op (checkNames payload ps add pats op).
Proof.
  revert op. induction payload as [|[n v] payload IH]; intros op; [done|]. simpl. intros k Hk.
  rewrite (IH _ k Hk). destruct (mmem n ps); [done|].
  destruct (_ && _); repeat (rewrite same_required_mark; [|not_in_sets|done]); done.
Qed.

Lemma checkFields_spec field payload ps op (s : S) :
  NoDup (map fst ps) -> (forall n q, (n, q) ∈ ps -> reports field q) ->
  (forall n, n ∈ map fst ps -> unrecorded n op) ->
  exists op', checkFields field payload ps op s = (Ret op', s) /\ same_required op op' /\
    (clean op' = true <-> clean op = true /\
      forall n q v, (n, q) ∈ ps -> mget n payload = Some v -> valid q v).
Proof.
  revert op. induction ps as [|[n q] ps IH]; intros op Hnd Hq Hu; simpl.
  { exists op. split; [done|]. split; [done|]. split; [|tauto]. intros ?. split; [done|]. by intros ? ? ? ?%elem_of_nil. }
  apply NoDup_cons in Hnd as [Hn Hnd].
  assert (Hrest : forall n q, (n, q) ∈ ps -> reports field q) by (intros; apply (Hq n0); by right).
  destruct (mget n payload) as [v|] eqn:Ev.
  - destruct (Hq n q ltac:(left) v s) as (f & Ef & Hf & Hv). erewrite bind_step by exact Ef.
    destruct (IH (record_field n f op)) as (op' & E & Hreq & Hc); [done|done| |].
    { intros n' Hn'. apply unrecorded_record; [by intros ->|done|apply Hu; by right]. }
    exists op'. split; [done|]. split; [intros k Hk; by rewrite Hreq, same_required_record|].
    rewrite Hc, clean_record_field by (done || (apply Hu; left)).
    rewrite Hv. setoid_rewrite elem_of_cons. split.
    + intros [[? ?] Hall]. split; [done|]. intros n' q' v' [[= -> ->]|?] Hg; [by simplify_eq|eauto].
    + intros [? Hall]. split; [split; [done|]|]; eauto.
  - destruct (IH (mark Missing n true op)) as (op' & E & Hreq & Hc); [done|done| |].
    { intros n' Hn'. apply unrecorded_mark; [not_in_sets|apply Hu; by right]. }
    exists op'. split; [done|].
    split; [intros k Hk; rewrite Hreq, same_required_mark; [done|not_in_sets|done|done]|].
    rewrite Hc, clean_mark_harmless by not_in_sets.
    setoid_rewrite elem_of_cons. split.
    + intros [? Hall]. split; [done|]. intros n' q' v' [[= -> ->]|?] Hg; [by simplify_eq|eauto].
    + intros [? Hall]. split; [done|]. eauto.
Qed.

Lemma checkProperties_spec field payload ps add pats (s : S) :
  NoDup (map fst ps) -> (forall n q, (n, q) ∈ ps -> reports field q) ->
  exists op, checkProperties field payload ps add pats s = (Ret op, s) /\ same_required NewObjectReport op /\
    (clean op = true <-> names_ok (mkeys payload) ps add pats /\
      forall n q v, (n, q) ∈ ps -> mget n payload = Some v -> valid q v).
Proof.
  intros Hnd Hq. unfold checkProperties.
  destruct (checkNames_spec payload ps add pats NewObjectReport) as [Hc Hu].
  destruct (checkFields_spec field payload ps (checkNames payload ps add pats NewObjectReport) s)
    as (op & E & Hreq & Hop); [done|done| |].
  { intros n _. apply Hu. split; [|split]; intros; apply not_elem_of_nil. }
  exists op. split; [done|].
  split; [intros k Hk; by rewrite Hreq, same_required_names|].
  rewrite Hop, Hc. split; [tauto|]. intros [? ?]. split; [split|]; done.
Qed.

(** *** Elements *)

Definition clean_element (e : element_report) : bool :=
  match e with EObject r => clean r | EMark b => negb b | ENothing => true end.

Lemma clean_record_element i e ar :
  clean_array (record_element i e ar) = clean_array ar && clean_element e.
Proof.
  destruct ar as [inv ps], e as [r|b|]; unfold clean_array; fold clean; simpl; rewrite ?andb_true_r; [..|done];
    unfold no_mark; rewrite forallb_app; simpl; rewrite andb_true_r; [by rewrite andb_assoc|].
  by rewrite <- !andb_assoc, (andb_comm (negb b)).
Qed.

Lemma checkElements_spec element (P : value -> Prop) l i ar (s : S) :
  (forall v s, exists e, element v s = (Ret e, s) /\ (clean_element e = true <-> P v)) ->
  exists ar', checkElements element i l ar s = (Ret ar', s) /\
    (clean_array ar' = true <-> clean_array ar = true /\ Forall P l).
Proof.
  intros Hel. revert i ar. induction l as [|v l IH]; intros i ar; simpl.
  - exists ar. split; [done|]. split; [|tauto]. intros ?. split; [done|constructor].
  - destruct (Hel v s) as (e & Ee & He). erewrite bind_step by exact Ee.
    destruct (IH (Datatypes.S i) (record_element i e ar)) as (ar' & E & Hc). exists ar'. split; [done|].
    rewrite Hc, clean_record_element, andb_true_iff, He, Forall_cons. tauto.
Qed.
End structure_facts.

Section main_facts.
Context `{TextParsers} {S : Type}.

Lemma valid_object_inv p v :
  p_Type p = PropObject -> valid p v <->
  exists m, v = VObject m /\
    names_ok (mkeys m) (Properties_of p) (additional (p_info p)) (pi_PatternProperties (p_info p)) /\
    forall n q v, (n, q) ∈ Properties_of p -> mget n m = Some v -> valid q v.
Proof.
  intros Ht. split.
  - inversion 1; subst; try congruence; [eauto|destruct_or?; congruence].
  - intros (m & -> & ? & ?). by apply valid_object.
Qed.

Lemma valid_array_inv p e v :
  p_Type p = PropArray -> ArrayOf p = Some e -> valid p v <-> exists l, v = VArray l /\ Forall (valid e) l.
Proof.
  intros Ht He. split.
  - inversion 1; subst; try congruence; [destruct_or?; congruence|]. simplify_eq. eauto.
  - intros (l & -> & ?). by eapply valid_array.
Qed.

Lemma checkable_fields p n q :
  checkable p = true -> (n, q) ∈ Properties_of p -> checkable q = true /\ (p_height q < p_height p)%nat.
Proof.
  intros Hc Hq. split.
  - destruct p as [i ps arr l pa t1 t2]. cbn in Hc, Hq. rewrite !andb_true_iff in Hc. destruct Hc as [[_ Hc] _].
    by apply (forallb_forall (fun e => checkable (snd e)) ps) with (x := (n, q)); [|apply list_elem_of_In].
  - pose proof (Properties_height p).
    pose proof (list_max_elem (fun e => p_height (snd e)) (n, q) (Properties_of p) Hq).
    unfold props_height in *. simpl in *. lia.
Qed.

Lemma checkable_NoDup p : checkable p = true -> NoDup (map fst (Properties_of p)).
Proof.
  destruct p as [i ps arr l pa t1 t2]. cbn. rewrite !andb_true_iff. intros [[Hnd _] _].
  by eapply bool_decide_eq_true.
Qed.

(** Checking the members of an object. *)
Lemma object_checked p m (s : S) :
  checkable p = true -> p_Type p = PropObject ->
  (forall q, (p_height q < p_height p)%nat -> checkable q = true -> reports (S := S) checkField q) ->
  exists op, checkProperties checkField m (Properties_of p) (additional (p_info p))
      (pi_PatternProperties (p_info p)) s = (Ret op, s) /\
    (clean op = true <-> valid p (VObject m)).
Proof.
  intros Hc Ht IH.
  destruct (checkProperties_spec checkField m (Properties_of p) (additional (p_info p))
    (pi_PatternProperties (p_info p)) s) as (op & E & _ & Hop).
  - by apply checkable_NoDup.
  - intros n q Hq. destruct (checkable_fields p n q Hc Hq). by apply IH.
  - exists op. split; [done|]. rewrite Hop, valid_object_inv by done.
    split; [intros [? ?]; eauto|]. intros (m' & [= <-] & ? & ?). done.
Qed.

(** A simple value is marked invalid or not. *)
Lemma mark_reports k b p v :
  k ∈ field_sets -> (b = true <-> valid p v) ->
  forall s : S, exists f, ret (FMark k (negb b)) s = (Ret f, s) /\ proper_field f /\ (clean_field f = true <-> valid p v).
Proof. intros Hk Hb s. exists (FMark k (negb b)). simpl. by rewrite negb_involutive. Qed.

Lemma element_mark b p v :
  (b = true <-> valid p v) ->
  forall s : S, exists e, ret (EMark (negb b)) s = (Ret e, s) /\ (clean_element e = true <-> valid p v).
Proof. intros Hb s. exists (EMark (negb b)). simpl. by rewrite negb_involutive. Qed.

Ltac in_sets := unfold field_sets; repeat (apply elem_of_cons; first [by left|right]).

(** [checkField] in terms of the named functions. *)
Lemma checkField_unfold p v :
  checkField (S := S) p v =
  let checkArrayField :=
    match v with VArray l => a <- checkArray l p ;; ret (FArray a) | _ => ret (FMark InvalidArray true) end in
  match p_Type p with
  | PropObject =>
      match v with VObject m => r <- checkObject m p ;; ret (FObject r) | _ => ret (FMark InvalidObject true) end
  | PropAction => ret FNothing
  | PropEnum => ret (FMark InvalidEnum (negb (checkEnum v (p_info p))))
  | PropString => ret (FMark InvalidString (negb (checkString v (p_info p))))
  | PropInteger | PropNumber => ret (FMark InvalidNumber (negb (checkNumber v (p_info p))))
  | PropBool => ret (FMark InvalidBool (negb (checkBool v)))
  | PropArray => checkArrayField
  | PropLink =>
      if IsNavLink p && LinkAutoExpand p then checkArrayField
      else ret (FMark InvalidLink (negb (checkLink v)))
  | t => panic (cannot_handle t)
  end.
Proof. by destruct p as [i ps [[ei eps earr [[]|] epa et1 et2]|] link pa t1 t2]. Qed.

Lemma valid_object_only p v : p_Type p = PropObject -> (forall m, v <> VObject m) -> ~ valid p v.
Proof. intros Ht Hv (m & -> & _)%valid_object_inv; [|done]. by eapply Hv. Qed.

(** The elements of an array of a listed type are reported on. *)
Lemma checkElement_reports e :
  checkable e = true -> element_type (p_Type e) = true ->
  (forall q, (p_height q < p_height e)%nat -> checkable q = true -> reports (S := S) checkField q) ->
  forall v (s : S), exists r, checkElement e v s = (Ret r, s) /\ (clean_element r = true <-> valid e v).
Proof.
  intros Hc Het IH v s. unfold checkElement. destruct (p_Type e) eqn:Et; try done.
  - destruct v as [| | | | | | | |m];
      try (exists (EMark true); split; [done|]; split; [done|by intros ?%valid_object_only]).
    destruct (object_checked e m s Hc Et IH) as (op & E & Hop).
    exists (EObject op). unfold checkObject. by erewrite bind_step by exact E.
  - exists ENothing. split; [done|]. split; [|done]. intros _. by apply valid_action.
  - apply element_mark. by apply checkEnum_spec.
  - apply element_mark. by apply checkString_spec.
  - apply element_mark. apply checkNumber_spec. by left.
  - apply element_mark. by apply checkBool_spec.
  - assert (IsNavLink e && LinkAutoExpand e = false) as ->.
    { destruct e as [i ps arr l pa t1 t2]. cbn in Hc. unfold p_Type in Et. simpl in Et. rewrite Et in Hc.
      apply andb_true_iff in Hc as [_ Hc%negb_true_iff]. done. }
    apply element_mark. by apply checkLink_spec.
Qed.

Lemma checkField_reports p : checkable p = true -> reports (S := S) checkField p.
Proof.
  remember (p_height p) as h eqn:Hh. revert p Hh. induction (lt_wf h) as [h _ IH].
  intros p -> Hc v s. rewrite checkField_unfold. cbv zeta.
  assert (IH' : forall q, (p_height q < p_height p)%nat -> checkable q = true ->
    reports (S := S) checkField q) by eauto. clear IH.
  destruct (p_Type p) eqn:Et; try by (destruct p; unfold p_Type in Et; cbn in Hc, Et; rewrite Et, andb_false_r in Hc).
  - destruct v as [| | | | | | | |m];
      try (exists (FMark InvalidObject true); split; [done|]; split; [in_sets|];
           split; [done|by intros ?%valid_object_only]).
    destruct (object_checked p m s Hc Et IH') as (op & E & Hop).
    exists (FObject op). unfold checkObject. by erewrite bind_step by exact E.
  - exists FNothing. split; [done|]. split; [done|]. split; [|done]. intros _. by apply valid_action.
  - apply mark_reports; [in_sets|by apply checkEnum_spec].
  - apply mark_reports; [in_sets|by apply checkString_spec].
  - apply mark_reports; [in_sets|apply checkNumber_spec; by left].
  - apply mark_reports; [in_sets|apply checkNumber_spec; by right].
  - apply mark_reports; [in_sets|by apply checkBool_spec].
  - assert (exists e, ArrayOf p = Some e /\ element_type (p_Type e) = true /\ checkable e = true)
      as (e & Ee & Het & Hce).
    { destruct p as [i ps [e|] l pa t1 t2]; unfold p_Type in Et; cbn in Hc, Et; rewrite Et in Hc;
        rewrite !andb_true_iff in Hc; [|by destruct Hc]. exists e. naive_solver. }
    destruct v as [| | | | | | |l|];
      try (exists (FMark InvalidArray true); split; [done|]; split; [in_sets|];
           split; [done|by intros (? & ? & _)%(valid_array_inv p e)]).
    unfold checkArray. rewrite Ee. pose proof (ArrayOf_height p e Ee).
    destruct (checkElements_spec (checkElement e) (valid e) l 0 NewArrayReport s) as (ar & E & Har).
    { intros v s'. apply checkElement_reports; [done|done|]. intros q ?. apply IH'. lia. }
    exists (FArray ar). erewrite bind_step by exact E. split; [done|]. split; [done|]. simpl.
    rewrite Har, (valid_array_inv p e) by done. split; [intros [_ ?]; eauto|].
    intros (l' & [= <-] & ?). done.
  - assert (IsNavLink p && LinkAutoExpand p = false) as ->.
    { destruct p as [i ps arr l pa t1 t2]. unfold p_Type in Et. cbn in Hc, Et. rewrite Et in Hc.
      apply andb_true_iff in Hc as [_ Hc%negb_true_iff]. done. }
    apply mark_reports; [in_sets|by apply checkLink_spec].
Qed.

Lemma clean_mark_missing k names obj op :
  k ∈ wrong_sets -> clean (mark_missing k names obj op) = true <->
  clean op = true /\ forall n, n ∈ names -> n ∈ mkeys obj.
Proof.
  intros Hk. unfold mark_missing. revert op. induction names as [|n names IH]; intros op; simpl.
  { split; [|tauto]. intros ?. split; [done|]. by intros ? ?%elem_of_nil. }
  rewrite IH. setoid_rewrite elem_of_cons. unfold mmem. destruct (mget n obj) as [v|] eqn:Ev.
  - assert (n ∈ mkeys obj) by (apply list_elem_of_fmap; exists (n, v); split; [done|by apply mget_Some_elem]).
    naive_solver.
  - rewrite clean_mark_wrong by done. apply mget_None in Ev. naive_solver.
Qed.

Lemma clean_mark_missing_harmless k names obj op :
  k ∉ wrong_sets -> clean (mark_missing k names obj op) = clean op.
Proof.
  intros Hk. unfold mark_missing. revert op. induction names as [|n names IH]; intros op; [done|]. simpl.
  rewrite IH. destruct (mmem n obj); [done|]. apply eq_true_iff_eq. by apply clean_mark_harmless.
Qed.
End main_facts.

(** *** Conversion of what is valid *)

(** Every field of a value is declared, at every depth, and no map lists a
    name twice. *)
Fixpoint known (p : Property) (v : value) : bool :=
  match p_Type p, v with
  | PropObject, VObject obj =>
      bool_decide (NoDup (map fst obj))
      && forallb (fun e => match mget (fst e) (Properties_of p) with
                           | Some q => known q (snd e) | None => false end) obj
  | PropArray, VArray l => match ArrayOf p with Some e => forallb (known e) l | None => true end
  | _, _ => true
  end.
Definition known_fields (ps : properties) (obj : object) : bool :=
  bool_decide (NoDup (map fst obj))
  && forallb (fun e => match mget (fst e) ps with Some q => known q (snd e) | None => false end) obj.

Section convert_facts.
Context `{TextParsers} `{FloatText} {C : Type}.

(** The conversion of [v] for [p] succeeds. *)
Definition convertible (p : Property) (v : value) : Prop := forall path (c : C),
  exists r, structField2Redis None path p v c = (Ret (Ok r), c).

Lemma fields_convertible ps obj path acc (c : C) :
  (forall n v q, (n, v) ∈ obj -> mget n ps = Some q -> convertible q v) ->
  (forall n, n ∈ mkeys obj -> is_Some (mget n ps)) ->
  exists data, Interface2Redis_loop None (structField2Redis None) path ps obj acc c = (Ret (Ok data), c).
Proof.
  revert acc. induction obj as [|[n v] obj IH]; intros acc Hf Hk; simpl; [by eexists|].
  destruct (Hk n ltac:(left)) as [q Hq]. rewrite Hq.
  destruct (Hf n v q ltac:(left) Hq (path ++ [n]) c) as [[d isNull] E].
  unfold bind_ok. erewrite bind_step by exact E. apply IH.
  - intros n' v' q' Hin. apply Hf. by right.
  - intros n' Hn'. apply Hk. by right.
Qed.

Lemma elements_convertible e l path i (c : C) :
  (forall v, v ∈ l -> convertible e v) ->
  exists ds, structArray2Redis_loop (structField2Redis None) path e i l c = (Ret (Ok ds), c).
Proof.
  revert i. induction l as [|v l IH]; intros i Hl; simpl; [by eexists|].
  destruct (Hl v ltac:(left) (path ++ [format_nat i]) c) as [r E].
  destruct (IH (Datatypes.S i)) as [ds E']; [intros; apply Hl; by right|].
  unfold bind_ok. erewrite bind_step by exact E. simpl. erewrite bind_step by exact E'. by eexists.
Qed.

Lemma valid_convertible v : forall p, valid p v -> known p v = true -> convertible p v.
Proof.
  assert (Haction : forall p v, p_Type p = PropAction -> convertible p v).
  { intros p w Ht path c. destruct (pi_NullAllowed (p_info p)) eqn:Hn; destruct w; simpl; rewrite ?Hn, ?Ht; by eexists. }
  induction v as [v Hna Hno|l IH|obj IH] using value_induction; intros p Hv Hk.
  - inversion Hv; subst; try (by destruct (Hna _ eq_refl)); try (by destruct (Hno _ eq_refl)); try (by apply Haction);
      intros path c; simpl; destruct_or?;
      match goal with E : p_Type _ = _ |- _ => rewrite E end; by eexists.
  - inversion Hv; subst; [by apply Haction|]. intros path c. simpl in *.
    match goal with E : p_Type _ = PropArray |- _ => rewrite E in * end.
    match goal with E : ArrayOf _ = Some _ |- _ => rewrite E in * end.
    destruct (elements_convertible e l path 0 c) as [ds E].
    + intros v Hin. rewrite Forall_forall in IH.
      match goal with E : Forall (valid e) l |- _ => rewrite Forall_forall in E; specialize (E v Hin) end.
      apply (IH v Hin); [done|]. rewrite forallb_forall in Hk. by apply Hk, list_elem_of_In.
    + unfold bind_ok. erewrite bind_step by exact E. by eexists.
  - inversion Hv as [? ? Ht Hn Hf|? ? Ht| | | | | |? target Ht Hu]; subst; [|by apply Haction|].
    + intros path c. simpl in *. rewrite Ht in *. apply andb_true_iff in Hk as [Hnd Hk].
      apply bool_decide_eq_true in Hnd. rewrite forallb_forall in Hk.
      destruct (fields_convertible (Properties_of p) obj path [] c) as [data E].
      * intros n v q Hin Hq. rewrite Forall_forall in IH. apply (IH (n, v) Hin).
        -- apply (Hf n); [by apply mget_Some_elem|by apply mget_elem].
        -- apply list_elem_of_In in Hin. specialize (Hk _ Hin). simpl in Hk. by rewrite Hq in Hk.
      * intros n Hin. apply list_elem_of_fmap in Hin as ([n' v] & -> & Hin).
        apply list_elem_of_In in Hin. specialize (Hk _ Hin). simpl in *. by destruct (mget n' _).
      * unfold bind_ok. erewrite bind_step by exact E. by eexists.
    + intros path c. simpl. rewrite Ht. destruct (IsNavLink p); by eexists.
Qed.
End convert_facts.

(* ===================================================================== *)
(** * Properties                                                         *)
(* ===================================================================== *)

Definition checkable_resource (r : Resource) : bool :=
  bool_decide (NoDup (map fst (r_Properties r))) && forallb (fun e => checkable (snd e)) (r_Properties r).

Section resource_facts.
Context `{TextParsers} {S : Type}.

Lemma mark_missing_sets k k' names obj op n :
  n ∈ mkeys (or_sets (mark_missing k names obj op) k') <->
  n ∈ mkeys (or_sets op k') \/ (k = k' /\ n ∈ names /\ n ∉ mkeys obj).
Proof.
  unfold mark_missing. revert op. induction names as [|x names IH]; intros op; simpl.
  { split; [by left|]. intros [?|(_ & ?%elem_of_nil & _)]; done. }
  rewrite IH, elem_of_cons. unfold mmem. destruct (mget x obj) as [v|] eqn:Ev.
  - assert (x ∈ mkeys obj) by (apply list_elem_of_fmap; exists (x, v); split; [done|by apply mget_Some_elem]).
    naive_solver.
  - apply mget_None in Ev. simpl. case_decide as E; [subst; rewrite mkeys_mput; naive_solver|]. naive_solver.
Qed.

Lemma checkResource_reports r obj (s : S) :
  checkable_resource r = true ->
  exists report, checkResource r obj s = (Ret report, s) /\
    (clean report = true <-> valid_resource r obj) /\
    (forall n, n ∈ mkeys (or_sets report MissingRequired) <->
       n ∈ ri_RequiredProperties (r_info r) /\ n ∉ mkeys obj) /\
    (forall n, n ∈ mkeys (or_sets report MissingRequiredOnCreate) <->
       n ∈ ri_RequiredOnCreate (r_info r) /\ n ∉ mkeys obj).
Proof.
  intros Hc. unfold checkable_resource in Hc. apply andb_true_iff in Hc as [Hnd%bool_decide_eq_true Hc].
  rewrite forallb_forall in Hc.
  destruct (checkProperties_spec (S := S) checkField obj (r_Properties r)
    (ri_AdditionalProperties (r_info r)) (ri_PatternProperties (r_info r)) s) as (op & E & Hreq & Hop).
  - done.
  - intros n q Hq. apply checkField_reports. by apply (Hc (n, q)), list_elem_of_In.
  - unfold checkResource. erewrite bind_step by exact E. eexists. split; [reflexivity|].
    assert (Hempty : forall k, k ∈ required_sets -> forall n, n ∉ mkeys (or_sets op k)).
    { intros k Hk n. rewrite (Hreq k Hk). apply not_elem_of_nil. }
    split; [|split].
    + rewrite clean_mark_missing_harmless by not_in_sets. rewrite clean_mark_missing by (right; left).
      unfold valid_resource. rewrite Hop. tauto.
    + intros n. rewrite !mark_missing_sets. pose proof (Hempty MissingRequired ltac:(left) n). naive_solver.
    + intros n. rewrite !mark_missing_sets.
      pose proof (Hempty MissingRequiredOnCreate ltac:(right; left) n). naive_solver.
Qed.
End resource_facts.


(** C27: what passes validation can be stored.  An object with a clean report
    and only declared fields is converted by Interface2Redis without an
    error and without a panic. *)
Theorem clean_converts S `{TextParsers} `{FloatText} r obj report path (s : S)
  (Hc : checkable_resource r = true) (Hk : known_fields (r_Properties r) obj = true)
  (Hcheck : checkResource r obj s = (Ret report, s)) (Hclean : clean report = true) :
  exists data, Interface2Redis None path (r_Properties r) obj s = (Ret (Ok data), s).
Proof.
  destruct (checkResource_reports r obj s Hc) as (report' & E & Hv & _). rewrite E in Hcheck.
  injection Hcheck as ->. apply Hv in Hclean as (_ & Hf & _).
  unfold known_fields in Hk. apply andb_true_iff in Hk as [Hnd%bool_decide_eq_true Hk].
  rewrite forallb_forall in Hk. apply fields_convertible.
  - intros n v q Hin Hq. apply valid_convertible.
    + apply (Hf n); [by apply mget_Some_elem|by apply mget_elem].
    + apply list_elem_of_In in Hin. specialize (Hk _ Hin). simpl in Hk. by rewrite Hq in Hk.
  - intros n Hin. apply list_elem_of_fmap in Hin as ([n' v] & -> & Hin).
    apply list_elem_of_In in Hin. specialize (Hk _ Hin). simpl in *. by destruct (mget n' _).
Qed.

(** An array of integers cannot be validated.  Whatever its first
    element, a non-empty array whose elements the schema declares as integers
    makes the validator panic, as its switch over element types lists numbers
    but not integers. *)
Theorem integer_array_panics S `{TextParsers} p e v l (s : S)
  (Ha : p_Type p = PropArray) (He : ArrayOf p = Some e) (Hi : p_Type e = PropInteger) :
  checkField p (VArray (v :: l)) s = (Panic "Cannot handle type:Integer", s).
Proof.
  rewrite checkField_unfold. cbv zeta. rewrite Ha. unfold checkArray. rewrite He. simpl.
  unfold checkElement. by rewrite Hi.
Qed.

(** ** A concrete schema *)

Module ValidatorExample.
#[local] Instance parsers : TextParsers := {|
  parse_rfc3339 s := has_suffix "Z" s;
  parse_request_uri s := has_prefix "/" s;
  regexp_match p s := has_prefix p s;
|}.
Definition fan : Resource :=
  mkResource (plain_resource_info "Fan" false)
    [("Id", leaf (plain_info PropString)); ("Speed", leaf (plain_info PropNumber));
     ("Tags", array_of (leaf (plain_info PropString)));
     ("Oem", object_of [("Lit", leaf (plain_info PropBool))])] None.
Definition good : object :=
  [("Id", VString "f0"); ("Speed", VFloat (float_of_Z 3)); ("Tags", VArray [VString "a"]);
   ("Oem", VObject [("Lit", VBool true)])].
Definition counts : Property := array_of (leaf (plain_info PropInteger)).

Example good_is_clean : exists report, checkResource fan good tt = (Ret report, tt) /\ clean report = true.
Proof. eexists. split; [reflexivity|]. reflexivity. Qed.
Example bad_is_not :
  exists report, checkResource fan [("Oem", VObject [("Lit", VString "x")])] tt = (Ret report, tt) /\
    clean report = false.
Proof. eexists. split; reflexivity. Qed.


Lemma clean_converts_witness :
  exists data, Interface2Redis None [] (r_Properties fan) good tt = (Ret (Ok data), tt).
Proof.
  eapply (clean_converts unit fan good _ [] tt); [reflexivity|reflexivity|reflexivity|reflexivity].
Defined.

Lemma integer_array_panics_witness :
  checkField counts (VArray [VFloat (float_of_Z 1)]) tt = (Panic "Cannot handle type:Integer", tt).
Proof.
  apply (integer_array_panics unit counts (leaf (plain_info PropInteger)) (VFloat (float_of_Z 1)) [] tt);
    reflexivity.
Defined.
End ValidatorExample.
