(* ===== verification/Privileges.v ===== *)
(** Privileges: the registry that says what an operation requires
    ([accountservice/PrivilegeRegistry.go]) and the roles that satisfy it
    ([Role.HasPrivilege] of [AccountService.go]). *)
From S2P Require Import Prelude.

(** One alternative: all of its privileges are required together. *)
Record OperationPrivilege := mkOperationPrivilege { Privilege : list string }.

Record TargetPrivilegeMap := mkTargetPrivilegeMap {
  Targets : list string;
  tm_OperationMap : gomap (list OperationPrivilege);
}.

Record Mapping := mkMapping {
  Entity : string;
  OperationMap : gomap (list OperationPrivilege);
  PropertyOverrides : list TargetPrivilegeMap;
  ResourceURIOverrides : list TargetPrivilegeMap;
  SubordinateOverrides : list TargetPrivilegeMap;
}.

(** What the code uses of a [PrivilegeRegistry]. *)
Record PrivilegeRegistry := mkPrivilegeRegistry {
  Mappings : list Mapping;
  entityMappings : gomap Mapping;
}.

(** [NewPrivilegeRegistry] from the decoded file: a later mapping of an
    entity replaces an earlier one. *)
Definition NewPrivilegeRegistry (contents : option (list Mapping)) : result PrivilegeRegistry :=
  match contents with
  | None => Err (ErrText "unable to read the privilege registry")
  | Some mappings =>
      Ok (mkPrivilegeRegistry mappings
            (fold_left (fun m mapping => mput (Entity mapping) mapping m) mappings []))
  end.

Definition GetMapping (pr : PrivilegeRegistry) (name : string) : option Mapping :=
  mget name (entityMappings pr).

Definition targets (o : TargetPrivilegeMap) (name : string) : bool :=
  existsb (String.eqb name) (Targets o).

(** The loop over the property overrides: one without the operation is
    passed over. *)
Fixpoint property_override (overrides : list TargetPrivilegeMap) (httpOp property : string) :
    option (list OperationPrivilege) :=
  match overrides with
  | [] => None
  | o :: rest =>
      if targets o property then
        match mget httpOp (tm_OperationMap o) with
        | Some result => Some result
        | None => property_override rest httpOp property
        end
      else property_override rest httpOp property
  end.

(** The loop over the subordinate overrides: the first that names the owner
    decides; without the operation the result is nil. *)
Fixpoint subordinate_override (overrides : list TargetPrivilegeMap) (httpOp owningEntity : string) :
    option (list OperationPrivilege) :=
  match overrides with
  | [] => None
  | o :: rest =>
      if targets o owningEntity then
        Some (match mget httpOp (tm_OperationMap o) with Some result => result | None => [] end)
      else subordinate_override rest httpOp owningEntity
  end.

Section required.
Context {S : Type}.

Definition RequiredPrivileges (pr : PrivilegeRegistry) (httpOp owningEntity entity property : string) :
    M S (list OperationPrivilege) :=
  match mget entity (entityMappings pr) with
  | None => panic ("Entity does not exist in Privilege Registry: " +:+ entity)
  | Some mapping =>
      match property_override (PropertyOverrides mapping) httpOp property with
      | Some result => ret result
      | None =>
          match subordinate_override (SubordinateOverrides mapping) httpOp owningEntity with
          | Some result => ret result
          | None =>
              match mget httpOp (OperationMap mapping) with
              | Some privileges => ret privileges
              | None => fatal "Operation map does contain http operation"
              end
          end
      end
  end.
End required.

(** ** Roles *)

Record Role := mkRole { AssignedPrivileges : list string; role_Id : string }.

(** The inner loops of [HasPrivilege]: every required privilege is found. *)
Definition satisfies (r : Role) (op : OperationPrivilege) : bool :=
  fold_left (fun allowed requiredPriv =>
    let found := existsb (String.eqb requiredPriv) (AssignedPrivileges r) in allowed && found)
    (Privilege op) true.

Fixpoint HasPrivilege (r : Role) (required : list OperationPrivilege) : bool :=
  match required with
  | [] => false
  | op :: rest => if satisfies r op then true else HasPrivilege r rest
  end.

(* ===================================================================== *)
(** * Lemmas                                                             *)
(* ===================================================================== *)

Lemma satisfies_spec r op :
  satisfies r op = true <-> forall p, p ∈ Privilege op -> p ∈ AssignedPrivileges r.
Proof.
  unfold satisfies. assert (Hb : forall l b, fold_left (fun allowed requiredPriv =>
    allowed && existsb (String.eqb requiredPriv) (AssignedPrivileges r)) l b = true <->
    b = true /\ forall p, p ∈ l -> p ∈ AssignedPrivileges r).
  { induction l as [|p l IH]; intros b; simpl.
    - split; [|tauto]. intros ?. split; [done|]. by intros ? ?%elem_of_nil.
    - rewrite IH, andb_true_iff, existsb_exists. setoid_rewrite elem_of_cons. split.
      + intros [[? (q & Hq & <-%String.eqb_eq)] Hall]. split; [done|]. intros p' [->|?]; [|auto].
        by apply list_elem_of_In.
      + intros [? Hall]. split; [split; [done|]|auto]. exists p. rewrite String.eqb_refl.
        split; [|done]. apply list_elem_of_In, Hall. by left. }
  rewrite Hb. tauto.
Qed.

Lemma HasPrivilege_iff r required :
  HasPrivilege r required = true <->
  exists op, op ∈ required /\ forall p, p ∈ Privilege op -> p ∈ AssignedPrivileges r.
Proof.
  induction required as [|op rest IH]; simpl.
  - split; [done|]. by intros (? & ?%elem_of_nil & _).
  - destruct (satisfies r op) eqn:E.
    + split; [|done]. intros _. exists op. split; [left|]. by apply satisfies_spec.
    + rewrite IH. setoid_rewrite elem_of_cons. split; [naive_solver|].
      intros (op' & [->|?] & Hall); [|eauto]. apply satisfies_spec in Hall. congruence.
Qed.

(** ** Where the required privileges come from *)

(** The override of a property, the first one that has the operation. *)
Inductive overridden (httpOp property : string) : list TargetPrivilegeMap -> list OperationPrivilege -> Prop :=
  | overridden_here o rest result :
      property ∈ Targets o -> mget httpOp (tm_OperationMap o) = Some result ->
      overridden httpOp property (o :: rest) result
  | overridden_later o rest result :
      ~ (property ∈ Targets o /\ is_Some (mget httpOp (tm_OperationMap o))) ->
      overridden httpOp property rest result ->
      overridden httpOp property (o :: rest) result.

Lemma targets_spec o name : targets o name = true <-> name ∈ Targets o.
Proof.
  unfold targets. rewrite existsb_exists. setoid_rewrite String.eqb_eq.
  setoid_rewrite <- list_elem_of_In. naive_solver.
Qed.

Lemma property_override_spec overrides httpOp property result :
  property_override overrides httpOp property = Some result <-> overridden httpOp property overrides result.
Proof.
  split.
  - induction overrides as [|o rest IH]; simpl; [done|].
    destruct (targets o property) eqn:Et.
    + destruct (mget httpOp (tm_OperationMap o)) eqn:Em.
      * intros [= ->]. constructor; [by apply targets_spec|done].
      * intros ?. apply overridden_later; [|auto]. rewrite Em. by intros [_ []].
    + intros ?. apply overridden_later; [|auto]. rewrite <- targets_spec, Et. by intros [].
  - induction 1 as [o rest result Ht Hm|o rest result Hn _ IH]; simpl.
    + apply targets_spec in Ht as ->. by rewrite Hm.
    + destruct (targets o property) eqn:Et; [|done]. destruct (mget _ _) eqn:Em; [|done].
      destruct Hn. split; [by apply targets_spec|by eexists].
Qed.

(** ** Properties *)

(** What an operation on a property requires.  For an entity of the
    registry the required privileges are those of the first override that
    names the property and has the operation; without one, and without an
    override for the owning entity, those of the operation itself, and the
    process ends when the operation is missing; an unknown entity panics. *)
Theorem RequiredPrivileges_spec S pr httpOp owningEntity entity property (s : S) :
  match mget entity (entityMappings pr) with
  | None => exists msg, RequiredPrivileges pr httpOp owningEntity entity property s = (Panic msg, s)
  | Some mapping =>
      (forall result, overridden httpOp property (PropertyOverrides mapping) result ->
         RequiredPrivileges pr httpOp owningEntity entity property s = (Ret result, s)) /\
      ((~ exists result, overridden httpOp property (PropertyOverrides mapping) result) ->
       (forall o, o ∈ SubordinateOverrides mapping -> owningEntity ∉ Targets o) ->
       RequiredPrivileges pr httpOp owningEntity entity property s =
         match mget httpOp (OperationMap mapping) with
         | Some privileges => (Ret privileges, s)
         | None => (Fatal "Operation map does contain http operation", s)
         end)
  end.
Proof.
  unfold RequiredPrivileges. destruct (mget entity _) as [mapping|]; [|by eexists]. split.
  - intros result Ho%property_override_spec. by rewrite Ho.
  - intros Hno Hsub. destruct (property_override _ _ _) as [result|] eqn:Eo.
    { destruct Hno. exists result. by apply property_override_spec. }
    assert (subordinate_override (SubordinateOverrides mapping) httpOp owningEntity = None) as ->.
    { clear Eo. induction (SubordinateOverrides mapping) as [|o rest IH]; [done|]. simpl.
      destruct (targets o owningEntity) eqn:Et; [|apply IH; intros; apply Hsub; by right].
      apply targets_spec in Et. destruct (Hsub o); [left|done]. }
    by destruct (mget httpOp _).
Qed.

(** A role is allowed exactly when it has, together, all the privileges
    of one of the alternatives; no alternative allows nothing. *)
Theorem HasPrivilege_spec r required :
  HasPrivilege r required = true <->
  exists op, op ∈ required /\ forall p, p ∈ Privilege op -> p ∈ AssignedPrivileges r.
Proof. apply HasPrivilege_iff. Qed.
