(* ===== verification/Accounts.v ===== *)
(** The account service ([accountservice/AccountService.go]): accounts and
    roles kept in memory and loaded from Redis, authentication, and the
    lockout of accounts after failed logins.

    An account is reached through pointers (from the collection and from
    the requests in progress), so accounts live in a heap and a pointer is
    an index into it.  The state of the program is the memory of this
    service next to the rest of the world [S], which holds Redis.  A time is
    a number of nanoseconds since the zero [time.Time]. *)
From S2P Require Import Prelude Values Redis Schema Walk RedisStruct Dispatcher Messages Actions Privileges.

(* ===================================================================== *)
(** * Data                                                               *)
(* ===================================================================== *)

Record ManagerAccount := mkManagerAccount {
  ma_Id : string;
  UserName : string;
  RoleId : string;
  Locked : bool;
  Enabled : bool;
  passwordHash : string;
  failedLoginAttempts : Z;
  lastFailedLogin : Z;
  lockOutStart : Z;
}.

(** [NewManagerAccount] *)
Definition NewManagerAccount : ManagerAccount := mkManagerAccount "" "" "" false false "" 0 0 0.

Definition set_Locked (b : bool) (ma : ManagerAccount) : ManagerAccount :=
  mkManagerAccount (ma_Id ma) (UserName ma) (RoleId ma) b (Enabled ma) (passwordHash ma)
    (failedLoginAttempts ma) (lastFailedLogin ma) (lockOutStart ma).
Definition set_passwordHash (h : string) (ma : ManagerAccount) : ManagerAccount :=
  mkManagerAccount (ma_Id ma) (UserName ma) (RoleId ma) (Locked ma) (Enabled ma) h
    (failedLoginAttempts ma) (lastFailedLogin ma) (lockOutStart ma).
Definition set_attempts (n last : Z) (ma : ManagerAccount) : ManagerAccount :=
  mkManagerAccount (ma_Id ma) (UserName ma) (RoleId ma) (Locked ma) (Enabled ma) (passwordHash ma)
    n last (lockOutStart ma).
Definition set_lockOutStart (t : Z) (ma : ManagerAccount) : ManagerAccount :=
  mkManagerAccount (ma_Id ma) (UserName ma) (RoleId ma) (Locked ma) (Enabled ma) (passwordHash ma)
    (failedLoginAttempts ma) (lastFailedLogin ma) t.

(** The plain fields of [AccountService] *)
Record AccountService := mkAccountService {
  AccountLockoutCounterResetAfter : Z;
  AccountLockoutDuration : Z;
  AccountLockoutThreshold : Z;
  MinPasswordLength : Z;
  MaxPasswordLength : Z;
  ServiceEnabled : bool;
}.

(** The memory of the service: its fields, the accounts that exist, the
    members of the two collections. *)
Record Memory := mkMemory {
  mem_service : AccountService;
  mem_heap : list ManagerAccount;
  mem_Accounts : gomap nat;
  mem_Roles : gomap Role;
}.

(** ** Time *)

Definition second : Z := 10 ^ 9.

(** [time.Duration(x) * time.Second] *)
Definition seconds (x : Z) : Z := wrap64 (x * second).

(** [time.Since(t)] at the time [now]: the difference saturates. *)
Definition since (now t : Z) : Z := Z.max int64_min (Z.min int64_max (now - t)).

(** ** Hexadecimal text *)

Definition hex_digit (n : N) : ascii := if N.ltb n 10 then ascii_of_N (48 + n) else ascii_of_N (87 + n).
Definition hex_value (a : ascii) : option N :=
  let n := N_of_ascii a in
  if (N.leb 48 n && N.leb n 57)%N then Some (n - 48)%N
  else if (N.leb 97 n && N.leb n 102)%N then Some (n - 87)%N
  else if (N.leb 65 n && N.leb n 70)%N then Some (n - 55)%N
  else None.
(** [hex.EncodeToString], [hex.DecodeString] *)
Fixpoint EncodeToString (src : string) : string :=
  match src with
  | EmptyString => EmptyString
  | String a s =>
      String (hex_digit (N.div (N_of_ascii a) 16)) (String (hex_digit (N.modulo (N_of_ascii a) 16)) (EncodeToString s))
  end.
Fixpoint DecodeString (s : string) : option string :=
  match s with
  | EmptyString => Some EmptyString
  | String a (String b s') =>
      match hex_value a, hex_value b, DecodeString s' with
      | Some h, Some l, Some r => Some (String (ascii_of_N (16 * h + l)) r)
      | _, _, _ => None
      end
  | _ => None
  end.

(* ===================================================================== *)
(** * The service                                                        *)
(* ===================================================================== *)

Section service.
Context {S : Type} `{RedisOps S} `{FloatText}.
Variable rfd : RedfishDispatcher (Memory * S).

(** [time.Now()], and the two functions of bcrypt. *)
Variable time_now : M (Memory * S) Z.
Variable CompareHashAndPassword : string -> string -> bool.

(** ** Memory *)

Definition get_mem : M (Memory * S) Memory := fun s => (Ret (fst s), s).
Definition put_mem (m : Memory) : M (Memory * S) unit := fun s => (Ret tt, (m, snd s)).
Definition mem_field {A} (f : Memory -> A) : M (Memory * S) A := m <- get_mem ;; ret (f m).

Definition with_service (as_ : AccountService) (m : Memory) : Memory :=
  mkMemory as_ (mem_heap m) (mem_Accounts m) (mem_Roles m).
Definition with_heap (h : list ManagerAccount) (m : Memory) : Memory :=
  mkMemory (mem_service m) h (mem_Accounts m) (mem_Roles m).
Definition with_Accounts (l : gomap nat) (m : Memory) : Memory :=
  mkMemory (mem_service m) (mem_heap m) l (mem_Roles m).
Definition with_Roles (l : gomap Role) (m : Memory) : Memory :=
  mkMemory (mem_service m) (mem_heap m) (mem_Accounts m) l.

(** Read and write through a pointer. *)
Definition load (a : nat) : M (Memory * S) ManagerAccount :=
  m <- get_mem ;;
  match mem_heap m !! a with Some ma => ret ma | None => panic nil_deref end.
Definition store (a : nat) (ma : ManagerAccount) : M (Memory * S) unit :=
  m <- get_mem ;; put_mem (with_heap (<[a := ma]> (mem_heap m)) m).
Definition alloc (ma : ManagerAccount) : M (Memory * S) nat :=
  m <- get_mem ;;
  put_mem (with_heap (mem_heap m ++ [ma]) m) ;;
  ret (List.length (mem_heap m)).

(** ** Loading *)

Definition assert_int64 {T} (v : option value) : M T Z :=
  match v with Some (VInt64 z) => ret z | _ => panic (not_a "int64") end.
Definition assert_bool {T} (v : option value) : M T bool :=
  match v with Some (VBool b) => ret b | _ => panic (not_a "bool") end.

(** The structure of the resource at [uri]; [fail] is how a missing
    resource, or a property, ends. *)
Definition resource_at (fail : string -> M (Memory * S) object) (uri : string) : M (Memory * S) object :=
  rp <- GetResource rfd uri "" ;;
  match rp with
  | (None, _) => fail "resource is nil"
  | (_, Some _) => fail "URI returned a property"
  | (Some resource, None) =>
      raw <- BuildStruct (mkRedis2Interface (Memory * S) rfd (Some resource) uri "") (r_Properties resource) uri ;;
      match raw with Ok raw => ret raw | Err e => panic (err_string e) end
  end.

(** [initFromStruct] of an account *)
Definition account_initFromStruct (ma : ManagerAccount) (raw : object) (hash : string) :
    M (Memory * S) ManagerAccount :=
  id <- assert_string (mget "Id" raw) ;;
  user <- assert_string (mget "UserName" raw) ;;
  role <- assert_string (mget "RoleId" raw) ;;
  locked <- assert_bool (mget "Locked" raw) ;;
  enabled <- assert_bool (mget "Enabled" raw) ;;
  ret (mkManagerAccount id user role locked enabled hash
         (failedLoginAttempts ma) (lastFailedLogin ma) (lockOutStart ma)).

(** [NewManagerAccount(as).initFromRedis(uri)] *)
Definition account_initFromRedis (uri : string) : M (Memory * S) ManagerAccount :=
  raw <- resource_at fatal uri ;;
  passwordHashRaw <- redis_get (uri +:+ "/Password:hash") ;;
  match passwordHashRaw with
  | Err _ => fatal "Unable to retrieve password hash"
  | Ok text =>
      match DecodeString text with
      | None => panic "encoding/hex: invalid byte"
      | Some hash => account_initFromStruct NewManagerAccount raw hash
      end
  end.

(** A member of the collection: new, or an account of which only the
    password is taken over. *)
Definition accounts_initFromRedis_member (memberRaw : value) : M (Memory * S) unit :=
  member <- assert_object (Some memberRaw) ;;
  accountURI <- assert_string (mget "@odata.id" member) ;;
  newAccount <- account_initFromRedis accountURI ;;
  members <- mem_field mem_Accounts ;;
  match mget (UserName newAccount) members with
  | None =>
      a <- alloc newAccount ;;
      m <- get_mem ;;
      put_mem (with_Accounts (mput (UserName newAccount) a (mem_Accounts m)) m)
  | Some a =>
      account <- load a ;;
      store a (set_passwordHash (passwordHash newAccount) account)
  end.

Definition accounts_uri : string := "/redfish/v1/AccountService/Accounts".

Definition accounts_initFromRedis : M (Memory * S) unit :=
  raw <- resource_at panic accounts_uri ;;
  match mget "Members" raw with
  | None | Some VNil => fatal "Account Collection is empty. Did the backend helpers not create an account? "
  | Some v =>
      members <- assert_array (Some v) ;;
      for_each accounts_initFromRedis_member members
  end.

Fixpoint assert_strings (l : list value) : M (Memory * S) (list string) :=
  match l with
  | [] => ret []
  | v :: rest => s <- assert_string (Some v) ;; r <- assert_strings rest ;; ret (s :: r)
  end.

(** [NewRole(as).initFromRedis(uri)] *)
Definition role_initFromRedis (uri : string) : M (Memory * S) Role :=
  raw <- resource_at fatal uri ;;
  privileges <- assert_array (mget "AssignedPrivileges" raw) ;;
  assigned <- assert_strings privileges ;;
  id <- assert_string (mget "RoleId" raw) ;;
  ret (mkRole assigned id).

Definition roles_initFromRedis_member (memberRaw : value) : M (Memory * S) unit :=
  member <- assert_object (Some memberRaw) ;;
  roleURI <- assert_string (mget "@odata.id" member) ;;
  role <- role_initFromRedis roleURI ;;
  m <- get_mem ;;
  put_mem (with_Roles (mput (role_Id role) role (mem_Roles m)) m).

Definition roles_initFromRedis : M (Memory * S) unit :=
  raw <- resource_at panic "/redfish/v1/AccountService/Roles" ;;
  members <- assert_array (mget "Members" raw) ;;
  for_each roles_initFromRedis_member members.

(** [InitFromRedis] of the service; the two collections start empty. *)
Definition InitFromRedis : M (Memory * S) unit :=
  raw <- resource_at panic "/redfish/v1/AccountService" ;;
  duration <- assert_int64 (mget "AccountLockoutDuration" raw) ;;
  reset <- assert_int64 (mget "AccountLockoutCounterResetAfter" raw) ;;
  threshold <- assert_int64 (mget "AccountLockoutThreshold" raw) ;;
  min <- assert_int64 (mget "MinPasswordLength" raw) ;;
  max <- assert_int64 (mget "MaxPasswordLength" raw) ;;
  enabled <- assert_bool (mget "ServiceEnabled" raw) ;;
  m <- get_mem ;;
  put_mem (mkMemory (mkAccountService reset duration threshold min max enabled) (mem_heap m) [] []) ;;
  accounts_initFromRedis ;;
  roles_initFromRedis.

(** ** Lockout *)

Definition isAccountLockoutEnabled (as_ : AccountService) : bool :=
  negb (Z.eqb (AccountLockoutThreshold as_) 0) && negb (Z.eqb (AccountLockoutDuration as_) 0).

(** [setLockOut]; no field of the update is null, so nothing is removed. *)
Definition setLockOut (a : nat) (value : bool) : M (Memory * S) (result unit) :=
  ma <- load a ;;
  store a (set_Locked value ma) ;;
  RedisPatch 0 (DObj [("Locked", DStr (format_bool value))])
    ("/redfish/v1/AccountService/Accounts/" +:+ ma_Id ma).

Definition failedLogin (a : nat) : M (Memory * S) (result unit) :=
  as_ <- mem_field mem_service ;;
  if negb (isAccountLockoutEnabled as_) then ret (Ok tt)
  else
    ma <- load a ;;
    now <- time_now ;;
    let attempts := wrap64 (failedLoginAttempts ma + 1) in
    store a (set_attempts attempts now ma) ;;
    if Z.ltb (AccountLockoutThreshold as_) attempts then
      start <- time_now ;;
      ma <- load a ;;
      store a (set_lockOutStart start ma) ;;
      setLockOut a true
    else ret (Ok tt).

Definition Authenticate (a : nat) (password : string) : M (Memory * S) (result unit) :=
  ma <- load a ;;
  if Locked ma then ret (Err (ErrText "Login by locked account"))
  else if CompareHashAndPassword (passwordHash ma) password then ret (Ok tt)
  else
    _ <-? failedLogin a ;;
    ret (Err (ErrText "Invalid password")).

(** The pointer to the account of a user name: the first in the order of
    the map. *)
Fixpoint find_username (members : gomap nat) (username : string) : M (Memory * S) (option nat) :=
  match members with
  | [] => ret None
  | (_, a) :: rest =>
      ma <- load a ;;
      if String.eqb (UserName ma) username then ret (Some a) else find_username rest username
  end.

Definition AuthenticateAccount (username password : string) : M (Memory * S) (result nat) :=
  members <- mem_field mem_Accounts ;;
  found <- find_username members username ;;
  match found with
  | None => ret (Err (ErrText "Account with provided user name does not exist"))
  | Some a => _ <-? Authenticate a password ;; ret (Ok a)
  end.

(** [updatePeriodic] of an account: the counter, then the lock. *)
Definition account_updatePeriodic (a : nat) : M (Memory * S) (result unit) :=
  as_ <- mem_field mem_service ;;
  ma <- load a ;;
  (if negb (Z.eqb (failedLoginAttempts ma) 0) then
     now <- time_now ;;
     if Z.ltb (seconds (AccountLockoutCounterResetAfter as_)) (since now (lastFailedLogin ma))
     then store a (set_attempts 0 (lastFailedLogin ma) ma) else ret tt
   else ret tt) ;;
  ma <- load a ;;
  if Locked ma then
    now <- time_now ;;
    if Z.ltb (seconds (AccountLockoutDuration as_)) (since now (lockOutStart ma))
    then setLockOut a false
    else ret (Ok tt)
  else ret (Ok tt).

(** The two periodic tasks of [RunPeriodic]: every second, every 30 s. *)
Definition updatePeriodic : M (Memory * S) unit :=
  members <- mem_field mem_Accounts ;;
  for_each (fun e => account_updatePeriodic (snd e) ;; ret tt) members.
Definition updateAccountsPeriodic : M (Memory * S) unit := accounts_initFromRedis.

Inductive periodic_event := EverySecond | EveryHalfMinute.
Definition RunPeriodic_event (e : periodic_event) : M (Memory * S) unit :=
  match e with EverySecond => updatePeriodic | EveryHalfMinute => updateAccountsPeriodic end.

(** ** Authorization *)

Definition GetRole (ma : ManagerAccount) : M (Memory * S) Role :=
  roles <- mem_field mem_Roles ;;
  match mget (RoleId ma) roles with Some role => ret role | None => panic "Role does not exist" end.

Definition OperationAllowed (a : nat) (privileges : list OperationPrivilege) : M (Memory * S) bool :=
  ma <- load a ;;
  if negb (Enabled ma) then ret false
  else if Locked ma then ret false
  else role <- GetRole ma ;; ret (HasPrivilege role privileges).
End service.

(* ===================================================================== *)
(** * Lemmas                                                             *)
(* ===================================================================== *)

Lemma hex_value_digit n : (n < 16)%N -> hex_value (hex_digit n) = Some n.
Proof.
  intros Hn. assert (Hall : forallb (fun n => bool_decide (hex_value (hex_digit (N.of_nat n)) = Some (N.of_nat n)))
    (seq 0 16) = true) by reflexivity.
  rewrite forallb_forall in Hall. specialize (Hall (N.to_nat n)). rewrite N2Nat.id in Hall.
  apply (bool_decide_eq_true_1 _), Hall, in_seq. lia.
Qed.

(** The text form of a password hash: decoding gives back the bytes. *)
Lemma hex_round_trip src : DecodeString (EncodeToString src) = Some src.
Proof.
  induction src as [|a src IH]; [done|]. simpl. pose proof (N_ascii_bounded a).
  rewrite !hex_value_digit by (apply N.mod_lt || apply N.Div0.div_lt_upper_bound; lia).
  rewrite IH. rewrite <- N.div_mod by lia. by rewrite ascii_N_embedding.
Qed.

Lemma seconds_in_range x : 0 <= x -> x * second <= int64_max -> seconds x = x * second.
Proof.
  unfold seconds, wrap64, int64_max, second. intros Hx Hm.
  rewrite Z.mod_small; lia.
Qed.

Section account_facts.
Context {S : Type} `{RedisLaws S} `{FloatText}.
Variable time_now : M (Memory * S) Z.
Variable Compare : string -> string -> bool.

(** The clock answers, and changes nothing. *)
Definition clock : Prop := forall s, exists t, time_now s = (Ret t, s).
Hypothesis Hclock : clock.

Lemma wpm_now x ks (Q : outcome Z -> Memory -> keys -> Prop) :
  (forall t, Q (Ret t) x ks) -> wpm x ks time_now Q.
Proof. intros HQ s <-. destruct (Hclock (x, s)) as [t ->]. apply HQ. Qed.

Lemma wpm_load x ks a ma (Q : outcome ManagerAccount -> Memory -> keys -> Prop) :
  mem_heap x !! a = Some ma -> Q (Ret ma) x ks -> wpm x ks (load (S := S) a) Q.
Proof.
  intros Ha HQ. apply (wpm_mem x ks _ ma x); [|done].
  intros s. unfold load, get_mem, bind. simpl. by rewrite Ha.
Qed.

Lemma wpm_store x ks a ma (Q : outcome unit -> Memory -> keys -> Prop) :
  Q (Ret tt) (with_heap (<[a := ma]> (mem_heap x)) x) ks -> wpm x ks (store (S := S) a ma) Q.
Proof. intros HQ. eapply wpm_mem; [|exact HQ]. done. Qed.

Lemma wpm_field {A} x ks (f : Memory -> A) (Q : outcome A -> Memory -> keys -> Prop) :
  Q (Ret (f x)) x ks -> wpm x ks (mem_field (S := S) f) Q.
Proof. intros HQ. eapply wpm_mem; [|exact HQ]. done. Qed.

Definition account_key (ma : ManagerAccount) : string := "/redfish/v1/AccountService/Accounts/" +:+ ma_Id ma.

(** The set of the account's fields can be extended. *)
Definition account_ready (ks : keys) (key : string) : Prop :=
  ks !! key = None \/ exists X, ks !! key = Some (RSet X).

(** Redis after the lock was set to [b]. *)
Definition lock_written (b : bool) (key : string) (ks : keys) : keys :=
  snd (sadd_effect key ["Locked"] (<[child key "Locked" := RStr (format_bool b)]> ks)).

Lemma child_ne key n : child key n <> key.
Proof. intros E. pose proof (child_length key n). rewrite E in *. lia. Qed.

Lemma wpm_setLockOut x ks a ma b (Q : outcome (result unit) -> Memory -> keys -> Prop) :
  mem_heap x !! a = Some ma -> account_ready ks (account_key ma) ->
  Q (Ret (Ok tt)) (with_heap (<[a := set_Locked b ma]> (mem_heap x)) x) (lock_written b (account_key ma) ks) ->
  wpm x ks (setLockOut (S := S) a b) Q.
Proof.
  intros Ha Hr HQ. unfold setLockOut. apply wpm_bind. eapply wpm_load; [done|].
  unfold afterm at 1. apply wpm_bind, wpm_store. unfold afterm at 1.
  change (wpm (with_heap (<[a := set_Locked b ma]> (mem_heap x)) x) ks
    (((redis_set (child (account_key ma) "Locked") (format_bool b) ;;
      must (redis_sadd (account_key ma) ["Locked"])) ;; ret tt) ;; ret (Ok tt)) Q).
  wpm_steps.
  assert (Hok : fst (sadd_effect (account_key ma) ["Locked"]
      (<[child (account_key ma) "Locked" := RStr (format_bool b)]> ks)) = Ok tt).
  { unfold sadd_effect. rewrite lookup_insert_ne by apply child_ne.
    by destruct Hr as [->|[X ->]]. }
  rewrite Hok. wpm_steps. exact HQ.
Qed.

Lemma account_ready_written b key ks : account_ready ks key -> account_ready (lock_written b key ks) key.
Proof.
  intros Hr. right. unfold lock_written, sadd_effect. rewrite lookup_insert_ne by apply child_ne.
  destruct Hr as [->|[X ->]]; simpl; rewrite lookup_insert_eq; eauto.
Qed.

(** The account after a failed login at the time [t]; [t'] is the time read
    again when the account is locked. *)
Definition after_failure (threshold t t' : Z) (ma : ManagerAccount) : ManagerAccount :=
  let ma1 := set_attempts (wrap64 (failedLoginAttempts ma + 1)) t ma in
  if Z.ltb threshold (wrap64 (failedLoginAttempts ma + 1)) then set_Locked true (set_lockOutStart t' ma1) else ma1.

Lemma lookup_store {A} (l : list A) a v v' : l !! a = Some v -> <[a := v']> l !! a = Some v'.
Proof. intros Hl. apply list_lookup_insert_eq. by eapply lookup_lt_Some. Qed.

Lemma wpm_wrong_password x ks a ma pw (Q : outcome (result unit) -> Memory -> keys -> Prop) :
  mem_heap x !! a = Some ma -> Locked ma = false -> Compare (passwordHash ma) pw = false ->
  isAccountLockoutEnabled (mem_service x) = true -> account_ready ks (account_key ma) ->
  (forall t t' ks', account_ready ks' (account_key ma) ->
    Q (Ret (Err (ErrText "Invalid password")))
      (with_heap (<[a := after_failure (AccountLockoutThreshold (mem_service x)) t t' ma]> (mem_heap x)) x) ks') ->
  wpm x ks (Authenticate time_now Compare a pw) Q.
Proof.
  intros Ha Hl Hc He Hr HQ. unfold Authenticate. apply wpm_bind. eapply wpm_load; [done|].
  unfold afterm at 1. rewrite Hl, Hc. apply wpm_bind. unfold failedLogin.
  apply wpm_bind, wpm_field. unfold afterm at 1. rewrite He. simpl negb. cbv iota.
  apply wpm_bind. eapply wpm_load; [done|]. unfold afterm at 1.
  apply wpm_bind, wpm_now. intros t. unfold afterm at 1. cbv zeta.
  apply wpm_bind, wpm_store. unfold afterm at 1.
  set (ma1 := set_attempts _ t ma). pose proof (lookup_store _ _ _ ma1 Ha) as Ha1.
  destruct (Z.ltb _ _) eqn:Elt.
  - apply wpm_bind, wpm_now. intros t'. unfold afterm at 1.
    apply wpm_bind. eapply wpm_load; [exact Ha1|]. unfold afterm at 1.
    apply wpm_bind, wpm_store. unfold afterm at 1.
    pose proof (lookup_store _ _ _ (set_lockOutStart t' ma1) Ha1) as Ha2.
    eapply wpm_setLockOut; [exact Ha2|exact Hr|]. wpm_steps.
    pose proof (HQ t t' _ (account_ready_written true (account_key ma) ks Hr)) as HQ'.
    unfold after_failure in HQ'. rewrite Elt in HQ'. simpl in HQ' |- *.
    by rewrite !list_insert_insert_eq.
  - wpm_steps. pose proof (HQ t t ks Hr) as HQ'. unfold after_failure in HQ'. by rewrite Elt in HQ'.
Qed.

(** A locked account is refused, whatever the password. *)
Lemma wpm_locked x ks a ma pw (Q : outcome (result unit) -> Memory -> keys -> Prop) :
  mem_heap x !! a = Some ma -> Locked ma = true ->
  Q (Ret (Err (ErrText "Login by locked account"))) x ks -> wpm x ks (Authenticate time_now Compare a pw) Q.
Proof.
  intros Ha Hl HQ. unfold Authenticate. apply wpm_bind. eapply wpm_load; [done|].
  unfold afterm at 1. rewrite Hl. by wpm_steps.
Qed.

(** The account [a] after [k] failures in a row, from [ma]. *)
Definition failed_times (threshold : Z) (a : nat) (ma : ManagerAccount) (k : Z) (x : Memory) (ks : keys) : Prop :=
  exists ma', mem_heap x !! a = Some ma' /\ ma_Id ma' = ma_Id ma /\ passwordHash ma' = passwordHash ma /\
    Locked ma' = bool_decide (threshold < k) /\ failedLoginAttempts ma' = Z.min k (threshold + 1) /\
    isAccountLockoutEnabled (mem_service x) = true /\ AccountLockoutThreshold (mem_service x) = threshold /\
    account_ready ks (account_key ma).

Lemma wrap64_id z : in_int64 z -> wrap64 z = z.
Proof. unfold in_int64, wrap64, int64_min, int64_max. intros ?. rewrite Z.mod_small; lia. Qed.

Lemma failures_lock threshold a ma pws x ks k :
  1 <= threshold -> threshold + 1 <= int64_max -> 0 <= k ->
  (forall pw, pw ∈ pws -> Compare (passwordHash ma) pw = false) ->
  failed_times threshold a ma k x ks ->
  wpm x ks (for_each (fun pw => Authenticate time_now Compare a pw ;; ret tt) pws)
    (fun o x' ks' => o = Ret tt /\ failed_times threshold a ma (k + Z.of_nat (List.length pws)) x' ks').
Proof.
  intros Ht Hm. revert x ks k. induction pws as [|pw pws IH]; intros x ks k Hk Hpw Hf; simpl.
  { apply wpm_ret. by rewrite Z.add_0_r. }
  assert (Hnext : forall x' ks', failed_times threshold a ma (k + 1) x' ks' ->
    wpm x' ks' (for_each (fun pw => Authenticate time_now Compare a pw ;; ret tt) pws)
      (fun o x' ks' => o = Ret tt /\ failed_times threshold a ma (k + Z.of_nat (Datatypes.S (List.length pws))) x' ks')).
  { intros x' ks' Hf'. eapply wpm_mono; [apply (IH x' ks' (k + 1)); [lia|intros; apply Hpw; by right|done]|].
    intros o x2 ks2 [-> H2]. split; [done|]. replace (k + Z.of_nat (Datatypes.S (List.length pws)))
      with (k + 1 + Z.of_nat (List.length pws)) by lia. done. }
  apply wpm_bind. destruct Hf as (ma' & Ha & Hid & Hh & Hl & Hn & He & Hth & Hr).
  assert (Hkey : account_key ma' = account_key ma) by (unfold account_key; by rewrite Hid).
  destruct (decide (threshold < k)) as [Hlt|Hge].
  - rewrite bool_decide_true in Hl by done. apply wpm_bind. eapply wpm_locked; [done..|]. wpm_steps.
    apply Hnext. exists ma'. rewrite bool_decide_true by lia. repeat split; try done. lia.
  - rewrite bool_decide_false in Hl by done. apply wpm_bind.
    eapply wpm_wrong_password; [exact Ha|exact Hl|rewrite Hh; apply Hpw; by left|done|by rewrite Hkey|].
    intros t t' ks' Hr'. wpm_steps. apply Hnext.
    assert (Hw : wrap64 (failedLoginAttempts ma' + 1) = k + 1).
    { rewrite Hn, Z.min_l by lia. apply wrap64_id. unfold in_int64, int64_min, int64_max in *. lia. }
    eexists. split; [by eapply lookup_store|]. unfold after_failure. rewrite Hw, Hth.
    destruct (Z.ltb_spec threshold (k + 1)); simpl; rewrite ?Hw.
    + rewrite bool_decide_true by lia. repeat split; try done; [lia|by rewrite <- Hkey].
    + rewrite bool_decide_false by lia. repeat split; try done; [lia|by rewrite <- Hkey].
Qed.

(** One run of the periodic update on a locked account, at the time [now]. *)
Lemma wpm_periodic_locked now x ks a ma :
  (forall s, time_now s = (Ret now, s)) ->
  mem_heap x !! a = Some ma -> Locked ma = true -> account_ready ks (account_key ma) ->
  wpm x ks (account_updatePeriodic time_now a)
    (fun o x' ks' => o = Ret (Ok tt) /\ exists ma', mem_heap x' !! a = Some ma' /\
       Locked ma' = negb (Z.ltb (seconds (AccountLockoutDuration (mem_service x))) (since now (lockOutStart ma))) /\
       ks' = if Locked ma' then ks else lock_written false (account_key ma) ks).
Proof.
  intros Hnow Ha Hl Hr. unfold account_updatePeriodic.
  apply wpm_bind, wpm_field. unfold afterm at 1. apply wpm_bind. eapply wpm_load; [done|]. unfold afterm at 1.
  apply wpm_bind.
  assert (Hrest : forall x1 ma1, mem_service x1 = mem_service x -> mem_heap x1 !! a = Some ma1 ->
    Locked ma1 = true -> lockOutStart ma1 = lockOutStart ma -> ma_Id ma1 = ma_Id ma ->
    wpm x1 ks (ma <- load a ;; if Locked ma then now <- time_now ;;
        if Z.ltb (seconds (AccountLockoutDuration (mem_service x))) (since now (lockOutStart ma))
        then setLockOut a false else ret (Ok tt) else ret (Ok tt))
    (fun o x' ks' => o = Ret (Ok tt) /\ exists ma', mem_heap x' !! a = Some ma' /\
       Locked ma' = negb (Z.ltb (seconds (AccountLockoutDuration (mem_service x))) (since now (lockOutStart ma))) /\
       ks' = if Locked ma' then ks else lock_written false (account_key ma) ks)).
  { intros x1 ma1 _ Ha1 Hl1 Hs1 Hid. apply wpm_bind. eapply wpm_load; [done|]. unfold afterm at 1. rewrite Hl1.
    assert (Hkey : account_key ma1 = account_key ma) by (unfold account_key; by rewrite Hid).
    apply wpm_bind. eapply wpm_mem; [intros s; apply Hnow|]. unfold afterm at 1. rewrite Hs1.
    destruct (Z.ltb _ _) eqn:Elt.
    - eapply wpm_setLockOut; [done|by rewrite Hkey|]. split; [done|].
      eexists. split; [by eapply lookup_store|]. split; [done|]. simpl. by rewrite Hkey.
    - wpm_steps. split; [done|]. exists ma1. by rewrite Hl1. }
  destruct (negb (Z.eqb (failedLoginAttempts ma) 0)).
  - apply wpm_bind. eapply wpm_mem; [intros s; apply Hnow|]. unfold afterm at 1.
    destruct (Z.ltb (seconds (AccountLockoutCounterResetAfter (mem_service x))) _).
    + apply wpm_store. unfold afterm at 1. eapply Hrest; [done|by eapply lookup_store|done..].
    + apply wpm_ret. unfold afterm at 1. by eapply Hrest.
  - apply wpm_ret. unfold afterm at 1. by eapply Hrest.
Qed.
End account_facts.

(* ===================================================================== *)
(** * Properties                                                         *)
(* ===================================================================== *)

(** C24: the lockout.  Starting from an unlocked account with no failed login
    on record, under a service with a positive threshold and a duration, any
    sequence of login attempts with wrong passwords, with no periodic update
    in between, ends without panic with the account locked exactly when there
    were more attempts than the threshold, and with the failures counted up
    to the one that locked it; attempts on the locked account count no more.
    The times of the attempts play no role. *)
Theorem lockout_after_threshold S `{RedisLaws S} (time_now : M (Memory * S) Z) Compare a ma pws x ks
  (Hclock : clock time_now)
  (Ha : mem_heap x !! a = Some ma) (Hl : Locked ma = false) (Hn : failedLoginAttempts ma = 0)
  (Hth : 1 <= AccountLockoutThreshold (mem_service x) < int64_max)
  (Hd : AccountLockoutDuration (mem_service x) <> 0)
  (Hr : account_ready ks (account_key ma))
  (Hpw : forall pw, pw ∈ pws -> Compare (passwordHash ma) pw = false) :
  wpm x ks (for_each (fun pw => Authenticate time_now Compare a pw ;; ret tt) pws)
    (fun o x' ks' => o = Ret tt /\ exists ma', mem_heap x' !! a = Some ma' /\
       Locked ma' = bool_decide (AccountLockoutThreshold (mem_service x) < Z.of_nat (List.length pws)) /\
       failedLoginAttempts ma' = Z.min (Z.of_nat (List.length pws)) (AccountLockoutThreshold (mem_service x) + 1)).
Proof.
  eapply wpm_mono.
  - apply (failures_lock time_now Compare Hclock (AccountLockoutThreshold (mem_service x)) a ma pws x ks 0);
      [lia|lia|lia|done|]. exists ma. rewrite bool_decide_false by lia. repeat split; try done; [lia|].
    unfold isAccountLockoutEnabled. rewrite andb_true_iff, !negb_true_iff, !Z.eqb_neq. lia.
  - intros o x' ks' (-> & ma' & ? & _ & _ & ? & ? & _). split; [done|]. by exists ma'.
Qed.

(** The end of a lockout.  When the lockout duration in nanoseconds and
    the time since the lock fit in 64 bits, the periodic update unlocks a
    locked account exactly when more than the duration has passed, and
    records that in Redis; otherwise it leaves it locked and Redis alone. *)
Theorem lockout_released S `{RedisLaws S} (time_now : M (Memory * S) Z) now a ma x ks
  (Hnow : forall s, time_now s = (Ret now, s))
  (Ha : mem_heap x !! a = Some ma) (Hl : Locked ma = true) (Hr : account_ready ks (account_key ma))
  (Hd : 0 <= AccountLockoutDuration (mem_service x))
  (Hm : AccountLockoutDuration (mem_service x) * second <= int64_max)
  (Hs : in_int64 (now - lockOutStart ma)) :
  wpm x ks (account_updatePeriodic time_now a)
    (fun o x' ks' => o = Ret (Ok tt) /\ exists ma', mem_heap x' !! a = Some ma' /\
       Locked ma' = negb (Z.ltb (AccountLockoutDuration (mem_service x) * second) (now - lockOutStart ma)) /\
       ks' = if Locked ma' then ks else lock_written false (account_key ma) ks).
Proof.
  eapply wpm_mono; [by apply (wpm_periodic_locked time_now now x ks a ma)|].
  intros o x' ks'. rewrite seconds_in_range by done. unfold since, in_int64 in *.
  by rewrite Z.min_r, Z.max_r by lia.
Qed.

(** A lockout that ends at once.  A configured duration of 2^63 ns or
    more, but less than 2^64 (from 9223372037 s to 18446744073 s), wraps to a
    negative one: the first periodic update unlocks the account even if no
    time has passed since it was locked. *)
Theorem lockout_duration_wraps S `{RedisLaws S} (time_now : M (Memory * S) Z) now a ma x ks
  (Hnow : forall s, time_now s = (Ret now, s))
  (Ha : mem_heap x !! a = Some ma) (Hl : Locked ma = true) (Hr : account_ready ks (account_key ma))
  (Hd : 2 ^ 63 <= AccountLockoutDuration (mem_service x) * second < 2 ^ 64)
  (Hs : lockOutStart ma <= now) :
  wpm x ks (account_updatePeriodic time_now a)
    (fun o x' ks' => exists ma', mem_heap x' !! a = Some ma' /\ Locked ma' = false).
Proof.
  eapply wpm_mono; [by apply (wpm_periodic_locked time_now now x ks a ma)|].
  intros o x' ks' (_ & ma' & Ha' & Hlock & _). exists ma'. split; [done|]. rewrite Hlock.
  apply negb_false_iff, Z.ltb_lt. unfold seconds, wrap64, since, int64_min, int64_max.
  set (d := AccountLockoutDuration (mem_service x) * second) in *.
  assert (Hmod : (d + 2 ^ 63) mod 2 ^ 64 = d - 2 ^ 63).
  { symmetry. apply Z.mod_unique with (q := 1); lia. }
  rewrite Hmod. lia.
Qed.

(** ** A service with one account *)

Module AccountsExample.
Definition admin : ManagerAccount := mkManagerAccount "1" "admin" "Administrator" false true "secret" 0 0 0.
Definition locked_admin : ManagerAccount := mkManagerAccount "1" "admin" "Administrator" true true "secret" 4 0 0.
Definition memory (duration : Z) (ma : ManagerAccount) : Memory :=
  mkMemory (mkAccountService 60 duration 3 8 64 true) [ma] [("admin", 0%nat)] [].
Definition noon : M (Memory * memstore) Z := ret (100 * second).
Definition wrong (hash pw : string) : bool := String.eqb hash pw.

Lemma noon_clock : clock noon.
Proof. intros s. by eexists. Qed.

Lemma lockout_after_threshold_witness :
  wpm (memory 30 admin) ∅ (for_each (fun pw => Authenticate noon wrong 0 pw ;; ret tt) ["a"; "b"; "c"; "d"; "e"])
    (fun o x' ks' => o = Ret tt /\ exists ma', mem_heap x' !! 0%nat = Some ma' /\
       Locked ma' = bool_decide (3 < 5) /\ failedLoginAttempts ma' = Z.min 5 4).
Proof.
  apply (lockout_after_threshold memstore noon wrong 0 admin ["a"; "b"; "c"; "d"; "e"] (memory 30 admin) ∅);
    [exact noon_clock|reflexivity|reflexivity|reflexivity|split; [vm_compute; discriminate|vm_compute; reflexivity]|vm_compute; discriminate|by left|].
  intros pw Hpw. repeat (apply elem_of_cons in Hpw as [->|Hpw]; [reflexivity|]). by apply elem_of_nil in Hpw.
Defined.

Lemma lockout_released_witness :
  wpm (memory 30 locked_admin) ∅ (account_updatePeriodic noon 0)
    (fun o x' ks' => o = Ret (Ok tt) /\ exists ma', mem_heap x' !! 0%nat = Some ma' /\
       Locked ma' = negb (Z.ltb (30 * second) (100 * second - 0)) /\
       ks' = if Locked ma' then ∅ else lock_written false (account_key locked_admin) ∅).
Proof.
  apply (lockout_released memstore noon (100 * second) 0 locked_admin (memory 30 locked_admin) ∅);
    [done|reflexivity|reflexivity|by left|vm_compute; discriminate|vm_compute; discriminate|split; vm_compute; discriminate].
Defined.

Lemma lockout_duration_wraps_witness :
  wpm (memory 9223372037 locked_admin) ∅ (account_updatePeriodic noon 0)
    (fun o x' ks' => exists ma', mem_heap x' !! 0%nat = Some ma' /\ Locked ma' = false).
Proof.
  apply (lockout_duration_wraps memstore noon (100 * second) 0 locked_admin (memory 9223372037 locked_admin) ∅);
    [done|reflexivity|reflexivity|by left|split; vm_compute; [discriminate|reflexivity]|vm_compute; discriminate].
Defined.
End AccountsExample.
