(* ===== verification/AccountHooks.v ===== *)
(** Hooks of requests ([internal/rfdispatcher/hooks]) and those of the
    account service ([accountservice/AccountServiceHooks.go] and
    [map2struct] of [AccountService.go]).

    A hook receives the context map and the request or response map of its
    request and may change both; it returns them with its reply. *)
From S2P Require Import Prelude Values Redis Schema Walk RedisStruct Dispatcher Messages Actions Privileges Accounts.

(* ===================================================================== *)
(** * Hooks                                                              *)
(* ===================================================================== *)

Record Event := mkEvent {
  ev_HTTPOperation : string;
  ev_URI : string;
  ev_Resource : option Resource;
  ev_Property : option Property;
}.

(** What the hooks of one request share. *)
Inductive ctx_value := CtxBytes (s : string) | CtxAccount (a : nat) | CtxBool (b : bool).
Abbreviation hook_ctx := (gomap ctx_value).

Record hook_reply := mkReply {
  hr_body : body;
  hr_status : Z;
  hr_err : option go_error;
  hr_ctx : hook_ctx;
  hr_payload : object;
}.

Definition HookCB (S : Type) : Type := Event -> hook_ctx -> object -> M S hook_reply.

(** A hook with its URI pattern, as the test of a URI. *)
Record HookIn (S : Type) := mkHookIn {
  URIRegex : string -> bool;
  BeforeCB : option (HookCB S);
  AfterCB : option (HookCB S);
}.
Arguments URIRegex {S}.
Arguments BeforeCB {S}.
Arguments AfterCB {S}.

(** [return nil, 0, nil] and [return nil, 0, err] *)
Definition reply_ok {S} (ctx : hook_ctx) (payload : object) : M S hook_reply :=
  ret (mkReply NoBody 0 None ctx payload).
Definition reply_err {S} (e : go_error) (ctx : hook_ctx) (payload : object) : M S hook_reply :=
  ret (mkReply NoBody 0 (Some e) ctx payload).

(* ===================================================================== *)
(** * map2struct                                                         *)
(* ===================================================================== *)

(** The kinds of values and struct fields that reflection tells apart. *)
Inductive kind := KInt64 | KBool | KString | KOther.

#[export] Instance kind_eq_dec : EqDecision kind.
Proof. solve_decision. Defined.

(** The kind of a value, when it is one of the simple ones. *)
Definition simple_kind (v : value) : option kind :=
  match v with
  | VInt64 _ => Some KInt64
  | VBool _ => Some KBool
  | VString _ => Some KString
  | _ => None
  end.

Section map2struct.
Context {A : Type}.
(** The fields of the structure: kind, and whether exported. *)
Variable field : string -> option (kind * bool).
Variable set : string -> value -> A -> A.

Fixpoint map2struct (entries : object) : M A (result unit) :=
  match entries with
  | [] => ret (Ok tt)
  | (name, v) :: rest =>
      match field name, simple_kind v with
      | Some (k, exported), Some k' =>
          if decide (k = k') then
            if exported : bool then (fun out => (Ret tt, set name v out)) ;; map2struct rest
            else panic "reflect: reflect.Value.Set using value obtained using unexported field"
          else ret (Err (ErrText "Map and field types do not match"))
      | _, _ => map2struct rest
      end
  end.
End map2struct.

Definition account_field (name : string) : option (kind * bool) :=
  if mentions ["Id"; "UserName"; "RoleId"] name then Some (KString, true)
  else if mentions ["Locked"; "Enabled"] name then Some (KBool, true)
  else if String.eqb name "failedLoginAttempts" then Some (KInt64, false)
  else if mentions ["passwordHash"; "failedLoginMux"; "lastFailedLogin"; "lockOutStart"; "as"] name
  then Some (KOther, false)
  else None.
Definition account_set (name : string) (v : value) (ma : ManagerAccount) : ManagerAccount :=
  let s := match v with VString s => s | _ => "" end in
  let b := match v with VBool b => b | _ => false end in
  let pick {A} (n : string) (new old : A) : A := if String.eqb n name then new else old in
  mkManagerAccount (pick "Id" s (ma_Id ma)) (pick "UserName" s (UserName ma)) (pick "RoleId" s (RoleId ma))
    (pick "Locked" b (Locked ma)) (pick "Enabled" b (Enabled ma))
    (passwordHash ma) (failedLoginAttempts ma) (lastFailedLogin ma) (lockOutStart ma).

Definition service_field (name : string) : option (kind * bool) :=
  if mentions ["AccountLockoutCounterResetAfter"; "AccountLockoutDuration"; "AccountLockoutThreshold";
               "MinPasswordLength"; "MaxPasswordLength"] name then Some (KInt64, true)
  else if String.eqb name "ServiceEnabled" then Some (KBool, true)
  else if mentions ["Accounts"; "Roles"] name then Some (KOther, true)
  else if mentions ["rfd"; "schema"] name then Some (KOther, false)
  else None.
Definition service_set (name : string) (v : value) (as_ : AccountService) : AccountService :=
  let z := match v with VInt64 z => z | _ => 0 end in
  let b := match v with VBool b => b | _ => false end in
  let pick {A} (n : string) (new old : A) : A := if String.eqb n name then new else old in
  mkAccountService (pick "AccountLockoutCounterResetAfter" z (AccountLockoutCounterResetAfter as_))
    (pick "AccountLockoutDuration" z (AccountLockoutDuration as_))
    (pick "AccountLockoutThreshold" z (AccountLockoutThreshold as_))
    (pick "MinPasswordLength" z (MinPasswordLength as_)) (pick "MaxPasswordLength" z (MaxPasswordLength as_))
    (pick "ServiceEnabled" b (ServiceEnabled as_)).

(* ===================================================================== *)
(** * The hooks of the account service                                   *)
(* ===================================================================== *)

Section account_hooks.
Context {S : Type} `{RedisOps S}.

(** [bcrypt.GenerateFromPassword], with its random salt *)
Variable GenerateFromPassword : string -> M (Memory * S) (result string).

(** Run an action on an account in place, or on the service. *)
Definition on_account {A} (a : nat) (m : M ManagerAccount A) : M (Memory * S) A := fun s =>
  match mem_heap (fst s) !! a with
  | None => (Panic nil_deref, s)
  | Some ma => let '(o, ma') := m ma in (o, (with_heap (<[a := ma']> (mem_heap (fst s))) (fst s), snd s))
  end.
Definition on_service {A} (m : M AccountService A) : M (Memory * S) A := fun s =>
  let '(o, as') := m (mem_service (fst s)) in (o, (with_service as' (fst s), snd s)).

(** [AccountService.Update] *)
Definition Update : HookCB (Memory * S) := fun _ ctx response =>
  err <- on_service (map2struct service_field service_set response) ;;
  match err with Ok tt => reply_ok ctx response | Err e => reply_err e ctx response end.

(** The reply to a password outside of the limits *)
Definition password_message (text id resolution : string) : body :=
  JsonBody (VObject [("Message", VString text); ("MessageId", VString id);
                     ("Resolution", VString resolution); ("Severity", VString "Critical")]).

Definition StatusBadRequest : Z := 400.

(** The check of a new password and its hash: a reply that ends the hook,
    or the hash. *)
Definition check_password (password : string) (ctx : hook_ctx) (request : object) :
    M (Memory * S) (hook_reply + string) :=
  as_ <- mem_field mem_service ;;
  let passwordLen := Z.of_nat (String.length password) in
  if Z.ltb passwordLen (MinPasswordLength as_) then
    ret (inl (mkReply (password_message "Supplied password is shorter then the minimum password length"
      "CustomHTTP.1.0.PasswordTooShort" "Supply a longer password") StatusBadRequest
      (Some (ErrText "Supplied password is too short")) ctx request))
  else if Z.ltb (MaxPasswordLength as_) passwordLen then
    ret (inl (mkReply (password_message "Supplied password is longer then the maximum password length"
      "CustomHTTP.1.0.PasswordTooLong" "Supply a shorter password") StatusBadRequest
      (Some (ErrText "Supplied password is too long")) ctx request))
  else
    hash <- GenerateFromPassword password ;;
    ret (match hash with
         | Ok h => inr h
         | Err e => inl (mkReply NoBody 0 (Some e) ctx request)
         end).

Definition put_default (name : string) (v : value) (request : object) : object :=
  if mmem name request then request else mput name v request.

Definition AddAccountBefore : HookCB (Memory * S) := fun _ ctx request =>
  match mget "Password" request with
  | None => reply_err (ErrText "Password field not present in request") ctx request
  | Some passwordRaw =>
      password <- assert_string (Some passwordRaw) ;;
      checked <- check_password password ctx request ;;
      match checked with
      | inl reply => ret reply
      | inr hash =>
          reply_ok (mput "Password:hash" (CtxBytes hash) ctx)
            (put_default "Enabled" (VBool true) (put_default "Locked" (VBool false) (mdel "Password" request)))
      end
  end.

Definition AddAccountAfter : HookCB (Memory * S) := fun event ctx response =>
  match mget "Password:hash" ctx with
  | None => reply_err (ErrText "Password hash missing from context") ctx response
  | Some (CtxBytes hash) =>
      account <- account_initFromStruct NewManagerAccount response hash ;;
      members <- mem_field mem_Accounts ;;
      if mmem (UserName account) members then
        reply_err (ErrText "Account already exists in collection") ctx response
      else
        a <- alloc account ;;
        m <- get_mem ;;
        put_mem (with_Accounts (mput (ma_Id account) a (mem_Accounts m)) m) ;;
        err <- redis_set (ev_URI event +:+ "/" +:+ ma_Id account +:+ "/Password:hash") (EncodeToString hash) ;;
        match err with Ok tt => reply_ok ctx response | Err e => reply_err e ctx response end
  | Some _ => panic (not_a "[]uint8")
  end.

(** The user name of a request is dropped when it is taken. *)
Definition UpdateBefore_username (ctx : hook_ctx) (request : object) : M (Memory * S) hook_reply :=
  match mget "UserName" request with
  | None => reply_ok ctx request
  | Some usernameRaw =>
      username <- assert_string (Some usernameRaw) ;;
      members <- mem_field mem_Accounts ;;
      if mmem username members
      then reply_ok (mput "DuplicateUserName" (CtxBool true) ctx) (mdel "UserName" request)
      else reply_ok ctx request
  end.

Definition UpdateBefore : HookCB (Memory * S) := fun _ ctx request =>
  match mget "Password" request with
  | None => UpdateBefore_username ctx request
  | Some passwordRaw =>
      password <- assert_string (Some passwordRaw) ;;
      checked <- check_password password ctx request ;;
      match checked with
      | inl reply => ret reply
      | inr hash => UpdateBefore_username (mput "Password:hash" (CtxBytes hash) ctx) (mdel "Password" request)
      end
  end.

Definition last_token (uri : string) : string := List.last (split_slash uri) "".

Definition UpdateAccountBefore : HookCB (Memory * S) := fun event ctx request =>
  let id := last_token (ev_URI event) in
  members <- mem_field mem_Accounts ;;
  match mget id members with
  | None => reply_err (ErrText ("Account does not exist with id: " +:+ id)) ctx request
  | Some a => UpdateBefore event (mput "Account" (CtxAccount a) ctx) request
  end.

Definition UpdateAfter (a : nat) : HookCB (Memory * S) := fun event ctx response =>
  err <- on_account a (map2struct account_field account_set response) ;;
  match err with
  | Err e => reply_err e ctx response
  | Ok tt =>
      match mget "Password:hash" ctx with
      | None => reply_ok ctx response
      | Some (CtxBytes hash) =>
          ma <- load a ;;
          store a (set_passwordHash hash ma) ;;
          err <- redis_set (ev_URI event +:+ "/" +:+ ma_Id ma +:+ "/Password:hash") (EncodeToString hash) ;;
          match err with Ok tt => reply_ok ctx response | Err e => reply_err e ctx response end
      | Some _ => panic (not_a "[]uint8")
      end
  end.

Definition UpdateAccountAfter : HookCB (Memory * S) := fun event ctx response =>
  match mget "Account" ctx with
  | Some (CtxAccount a) => UpdateAfter a event ctx response
  | _ => panic (not_a "*ManagerAccount")
  end.

Definition RemoveAccount : HookCB (Memory * S) := fun event ctx response =>
  match mget "Id" response with
  | None => reply_err (ErrText "Id is not present") ctx response
  | Some idRaw =>
      id <- assert_string (Some idRaw) ;;
      m <- get_mem ;;
      if mmem id (mem_Accounts m) then
        put_mem (with_Accounts (mdel id (mem_Accounts m)) m) ;;
        err <- redis_del (ev_URI event +:+ "/Password:hash") ;;
        match err with Ok tt => reply_ok ctx response | Err e => reply_err e ctx response end
      else reply_err (ErrText "Account does not exist is collection") ctx response
  end.
End account_hooks.

(* ===================================================================== *)
(** * Lemmas                                                             *)
(* ===================================================================== *)

Section hook_facts.
Context {S : Type} `{RedisLaws S}.

Lemma put_default_get name v request n :
  mget n (put_default name v request)
  = if mmem name request then mget n request else if String.eqb n name then Some v else mget n request.
Proof.
  unfold put_default, mmem. destruct (mget name request) eqn:E; [done|].
  destruct (String.eqb_spec n name) as [->|Hne]; [apply mget_mput_eq|by apply mget_mput_ne].
Qed.

Lemma put_default_keep name v request n :
  is_Some (mget n request) \/ n <> name -> mget n (put_default name v request) = mget n request.
Proof.
  rewrite put_default_get. unfold mmem. destruct (mget name request) eqn:E; [done|].
  intros [[w Hw]|Hne]; destruct (String.eqb_spec n name) as [->|]; congruence.
Qed.

Lemma put_default_value name v request :
  mget name (put_default name v request) = Some (from_option id v (mget name request)).
Proof.
  rewrite put_default_get. unfold mmem. rewrite String.eqb_refl. by destruct (mget name request) eqn:E.
Qed.

(** A structure that took over the simple fields of a map. *)
Definition text_or (v : option value) (old : string) : string := match v with Some (VString s) => s | _ => old end.
Definition bool_or (v : option value) (old : bool) : bool := match v with Some (VBool b) => b | _ => old end.
Definition taken_over (response : object) (ma ma' : ManagerAccount) : Prop :=
  ma' = mkManagerAccount (text_or (mget "Id" response) (ma_Id ma)) (text_or (mget "UserName" response) (UserName ma))
    (text_or (mget "RoleId" response) (RoleId ma)) (bool_or (mget "Locked" response) (Locked ma))
    (bool_or (mget "Enabled" response) (Enabled ma)) (passwordHash ma)
    (failedLoginAttempts ma) (lastFailedLogin ma) (lockOutStart ma).

(** Taking over one entry. *)
Definition take_entry (n : string) (v : value) (ma : ManagerAccount) : ManagerAccount :=
  mkManagerAccount (if String.eqb "Id" n then text_or (Some v) (ma_Id ma) else ma_Id ma)
    (if String.eqb "UserName" n then text_or (Some v) (UserName ma) else UserName ma)
    (if String.eqb "RoleId" n then text_or (Some v) (RoleId ma) else RoleId ma)
    (if String.eqb "Locked" n then bool_or (Some v) (Locked ma) else Locked ma)
    (if String.eqb "Enabled" n then bool_or (Some v) (Enabled ma) else Enabled ma)
    (passwordHash ma) (failedLoginAttempts ma) (lastFailedLogin ma) (lockOutStart ma).

Lemma text_cons k n v (rest : object) old :
  mget n rest = None ->
  text_or (mget k ((n, v) :: rest)) old = text_or (mget k rest) (if String.eqb k n then text_or (Some v) old else old).
Proof. intros Hn. simpl. destruct (String.eqb_spec k n) as [->|]; [by rewrite Hn|done]. Qed.

Lemma bool_cons k n v (rest : object) old :
  mget n rest = None ->
  bool_or (mget k ((n, v) :: rest)) old = bool_or (mget k rest) (if String.eqb k n then bool_or (Some v) old else old).
Proof. intros Hn. simpl. destruct (String.eqb_spec k n) as [->|]; [by rewrite Hn|done]. Qed.

Lemma taken_over_cons n v rest ma ma' :
  mget n rest = None -> taken_over rest (take_entry n v ma) ma' -> taken_over ((n, v) :: rest) ma ma'.
Proof. unfold taken_over. intros Hn ->. by rewrite !text_cons, !bool_cons by done. Qed.

(** The names, one after the other *)
Ltac by_name n :=
  repeat match goal with
  | H : context [String.eqb n ?k] |- _ => destruct (String.eqb_spec n k) as [->|?]; simpl in H; simplify_eq
  end.

Lemma take_entry_other n v ma : account_field n = None \/ simple_kind v = None -> take_entry n v ma = ma.
Proof.
  unfold take_entry. intros [Hf|Hk].
  - unfold account_field, mentions in Hf. simpl in Hf. by_name n.
    rewrite !(proj2 (String.eqb_neq _ n)) by done. by destruct ma.
  - assert (forall s, text_or (Some v) s = s) as Ht by by destruct v.
    assert (forall b, bool_or (Some v) b = b) as Hb by by destruct v.
    rewrite !Ht, !Hb. destruct ma. simpl.
    repeat match goal with |- context [if ?b then _ else _] => destruct b end; reflexivity.
Qed.

Lemma take_entry_set n v k ma :
  account_field n = Some (k, true) -> simple_kind v = Some k -> account_set n v ma = take_entry n v ma.
Proof.
  intros Hf Hk. unfold account_field, mentions in Hf. simpl in Hf. unfold account_set, take_entry.
  by_name n; by destruct v.
Qed.

Lemma map2struct_account response : forall ma ma',
  mwf response -> map2struct account_field account_set response ma = (Ret (Ok tt), ma') ->
  taken_over response ma ma'.
Proof.
  induction response as [|[n v] rest IH]; intros ma ma' Hnd Hm.
  { injection Hm as <-. unfold taken_over. simpl. by destruct ma. }
  unfold mwf in Hnd. simpl in Hnd. apply NoDup_cons in Hnd as [Hn%mget_None Hnd].
  apply taken_over_cons; [done|]. simpl in Hm.
  destruct (account_field n) as [[k exported]|] eqn:Ef.
  - destruct (simple_kind v) as [k'|] eqn:Ek.
    + destruct (decide (k = k')) as [<-|]; [|done]. destruct exported; [|done].
      erewrite <- take_entry_set by done. by apply IH.
    + rewrite take_entry_other by by right. by apply IH.
  - rewrite take_entry_other by by left. by apply IH.
Qed.

(** Values of the kinds of the fields they go to *)
Definition fits (response : object) : Prop :=
  forall n v k exported k', mget n response = Some v -> account_field n = Some (k, exported) ->
    simple_kind v = Some k' -> k = k' /\ exported = true.

Lemma map2struct_fits response : forall ma, mwf response -> fits response ->
  exists ma', map2struct account_field account_set response ma = (Ret (Ok tt), ma').
Proof.
  induction response as [|[n v] rest IH]; intros ma Hnd Hf; [by eexists|].
  unfold mwf in Hnd. simpl in Hnd. apply NoDup_cons in Hnd as [Hn%mget_None Hnd].
  assert (Hrest : fits rest).
  { intros m w k e k' Hm. apply Hf. simpl. destruct (String.eqb_spec m n) as [->|]; congruence. }
  simpl. destruct (account_field n) as [[k e]|] eqn:Ea; [|by apply IH].
  destruct (simple_kind v) as [k'|] eqn:Ev; [|by apply IH].
  destruct (Hf n v k e k') as [-> ->]; [simpl; by rewrite String.eqb_refl|done|done|].
  rewrite decide_True by done. by apply IH.
Qed.

Lemma wpm_on_account {A} x ks a ma (m : M ManagerAccount A) (Q : outcome A -> Memory -> keys -> Prop) :
  mem_heap x !! a = Some ma ->
  Q (fst (m ma)) (with_heap (<[a := snd (m ma)]> (mem_heap x)) x) ks ->
  wpm x ks (on_account (S := S) a m) Q.
Proof.
  intros Ha HQ s <-. unfold on_account. cbn [fst snd]. rewrite Ha. by destruct (m ma).
Qed.

Lemma wpm_get_mem x ks (Q : outcome Memory -> Memory -> keys -> Prop) :
  Q (Ret x) x ks -> wpm x ks (get_mem (S := S)) Q.
Proof. intros HQ. eapply wpm_mem; [|exact HQ]. done. Qed.

Lemma wpm_put_mem x x' ks (Q : outcome unit -> Memory -> keys -> Prop) :
  Q (Ret tt) x' ks -> wpm x ks (put_mem (S := S) x') Q.
Proof. intros HQ. eapply wpm_mem; [|exact HQ]. done. Qed.

Lemma wpm_alloc x ks ma (Q : outcome nat -> Memory -> keys -> Prop) :
  Q (Ret (List.length (mem_heap x))) (with_heap (mem_heap x ++ [ma]) x) ks -> wpm x ks (alloc (S := S) ma) Q.
Proof. intros HQ. eapply wpm_mem; [|exact HQ]. done. Qed.

Definition within (as_ : AccountService) (password : string) : Prop :=
  MinPasswordLength as_ <= Z.of_nat (String.length password) <= MaxPasswordLength as_.

(** The two ways the check of a password ends *)
Lemma wpm_check_password gen x ks pw h ctx request
    (Q : outcome (hook_reply + string) -> Memory -> keys -> Prop) :
  (forall s, gen pw s = (Ret (Ok h), s)) ->
  (within (mem_service x) pw -> Q (Ret (inr h)) x ks) ->
  (forall b e, ~ within (mem_service x) pw ->
     Q (Ret (inl (mkReply b StatusBadRequest (Some (ErrText e)) ctx request))) x ks) ->
  wpm x ks (check_password gen pw ctx request) Q.
Proof.
  intros Hg Hin Hout. unfold check_password. apply wpm_bind, wpm_field. unfold afterm at 1.
  cbv zeta. unfold within in *.
  destruct (Z.ltb_spec (Z.of_nat (String.length pw)) (MinPasswordLength (mem_service x))).
  { apply wpm_ret, Hout. lia. }
  destruct (Z.ltb_spec (MaxPasswordLength (mem_service x)) (Z.of_nat (String.length pw))).
  { apply wpm_ret, Hout. lia. }
  apply wpm_bind. eapply wpm_mem; [intros s; apply Hg|]. unfold afterm at 1. apply wpm_ret, Hin. lia.
Qed.
End hook_facts.

(* ===================================================================== *)
(** * Properties                                                         *)
(* ===================================================================== *)

(** The password of a new account.  The hook before the creation replies
    400 exactly when the length of the password is outside of the limits of
    the service, and then leaves the request as it is; otherwise the password
    itself is gone from the request, its hash is in the context, the lock and
    the enabling have a value (the one of the request, if there is one), and
    every other property is as it was.  Neither the memory of the service nor
    Redis changes. *)
Theorem AddAccountBefore_spec S `{RedisLaws S} (gen : string -> M (Memory * S) (result string)) x ks event ctx request pw h
  (Hg : forall s, gen pw s = (Ret (Ok h), s)) (Hpw : mget "Password" request = Some (VString pw)) :
  wpm x ks (AddAccountBefore gen event ctx request) (fun o x' ks' => x' = x /\ ks' = ks /\ exists r, o = Ret r /\
    (within (mem_service x) pw -> hr_err r = None /\ mget "Password:hash" (hr_ctx r) = Some (CtxBytes h) /\
       mget "Password" (hr_payload r) = None /\
       mget "Locked" (hr_payload r) = Some (from_option id (VBool false) (mget "Locked" request)) /\
       mget "Enabled" (hr_payload r) = Some (from_option id (VBool true) (mget "Enabled" request)) /\
       forall n, n <> "Password" -> n <> "Locked" -> n <> "Enabled" ->
         mget n (hr_payload r) = mget n request) /\
    (~ within (mem_service x) pw -> hr_err r <> None /\ hr_status r = StatusBadRequest /\ hr_payload r = request)).
Proof.
  unfold AddAccountBefore. rewrite Hpw. simpl assert_string. apply wpm_bind, wpm_ret. unfold afterm at 1.
  apply wpm_bind. eapply wpm_check_password; [done|intros Hin|intros b e Hout]; unfold afterm at 1; apply wpm_ret.
  - split; [done|]. split; [done|]. eexists. split; [done|]. split; [|by intros ?]. intros _. simpl.
    split; [done|]. split; [apply mget_mput_eq|].
    set (base := mdel "Password" request).
    assert (Hb : forall n, n <> "Password" -> mget n base = mget n request) by (intros; by apply mget_mdel_ne).
    repeat split.
    + rewrite !put_default_keep by by right. apply mget_mdel_eq.
    + rewrite put_default_keep by by right. by rewrite put_default_value, Hb.
    + by rewrite put_default_value, put_default_keep, Hb by (by right || done).
    + intros n ???. by rewrite !put_default_keep, Hb by (by right || done).
  - split; [done|]. split; [done|]. eexists. split; [done|]. split; [done|]. by intros _.
Qed.

(** The end of the creation of an account.  The hook after the creation,
    run with the stored object and the hash the first hook left, adds an
    account with the values of the object and that hash under its identifier,
    and writes the hash below the resource of the account, in the form from
    which [account_initFromRedis] gets the same hash back. *)
Theorem AddAccountAfter_spec S `{RedisLaws S} x ks event ctx response h id user role locked enabled
  (Hh : mget "Password:hash" ctx = Some (CtxBytes h))
  (Hid : mget "Id" response = Some (VString id)) (Huser : mget "UserName" response = Some (VString user))
  (Hrole : mget "RoleId" response = Some (VString role)) (Hlock : mget "Locked" response = Some (VBool locked))
  (Hen : mget "Enabled" response = Some (VBool enabled)) (Hnew : mget user (mem_Accounts x) = None) :
  wpm x ks (AddAccountAfter (S := S) event ctx response) (fun o x' ks' =>
    o = Ret (mkReply NoBody 0 None ctx response) /\
    (exists a, mget id (mem_Accounts x') = Some a /\
       mem_heap x' !! a = Some (mkManagerAccount id user role locked enabled h 0 0 0)) /\
    (forall n, n <> id -> mget n (mem_Accounts x') = mget n (mem_Accounts x)) /\
    exists text, DecodeString text = Some h /\
      ks' = <[child (child (ev_URI event) id) "Password:hash" := RStr text]> ks).
Proof.
  unfold AddAccountAfter. rewrite Hh. unfold account_initFromStruct. rewrite Hid, Huser, Hrole, Hlock, Hen.
  unfold assert_string, assert_bool. wpm_steps.
  apply wpm_field. unfold afterm at 1. unfold mmem. simpl UserName. rewrite Hnew.
  apply wpm_bind, wpm_alloc. unfold afterm at 1. apply wpm_bind, wpm_get_mem. unfold afterm at 1.
  apply wpm_bind, wpm_put_mem. unfold afterm at 1. simpl ma_Id.
  change (ev_URI event +:+ "/" +:+ id +:+ "/Password:hash")
    with (ev_URI event +:+ "/" +:+ (id +:+ "/Password:hash")).
  wpm_steps. cbn [fst snd set_effect]. apply wpm_ret. split; [done|]. split.
  { eexists. split; [apply mget_mput_eq|]. simpl. by rewrite lookup_app_r, Nat.sub_diag by lia. }
  split; [intros n Hn; by apply mget_mput_ne|].
  exists (EncodeToString h). split; [apply hex_round_trip|].
  f_equal. unfold child. by rewrite !str_app_assoc.
Qed.

(** C40: a password set by an update of an account.  The hook after the update
    takes over the simple fields of the stored object and the hash of the new
    password, and writes that hash to Redis; but below the identifier of the
    account once more, so that the key of the account's resource, from which
    [account_initFromRedis] reads the hash again in the periodic update, is
    the one from before. *)
Theorem password_update_lost S `{RedisLaws S} x ks event ctx response h a ma
  (Hwf : mwf response) (Hfits : fits response) (Ha : mem_heap x !! a = Some ma)
  (Hctx : mget "Account" ctx = Some (CtxAccount a)) (Hh : mget "Password:hash" ctx = Some (CtxBytes h)) :
  wpm x ks (UpdateAccountAfter (S := S) event ctx response) (fun o x' ks' =>
    o = Ret (mkReply NoBody 0 None ctx response) /\
    (exists ma', taken_over response ma ma' /\ mem_heap x' !! a = Some (set_passwordHash h ma') /\
       ks' = <[child (child (ev_URI event) (ma_Id ma')) "Password:hash" := RStr (EncodeToString h)]> ks) /\
    ks' !! child (ev_URI event) "Password:hash" = ks !! child (ev_URI event) "Password:hash").
Proof.
  unfold UpdateAccountAfter. rewrite Hctx. unfold UpdateAfter.
  destruct (map2struct_fits response ma) as [ma' Hm]; [done..|].
  pose proof (map2struct_account response ma ma' Hwf Hm) as Ht.
  apply wpm_bind. eapply wpm_on_account; [exact Ha|]. rewrite Hm. cbn [fst snd]. unfold afterm at 1.
  rewrite Hh. apply wpm_bind. eapply wpm_load; [by eapply lookup_store|]. unfold afterm at 1.
  apply wpm_bind, wpm_store. unfold afterm at 1.
  change (ev_URI event +:+ "/" +:+ ma_Id ma' +:+ "/Password:hash")
    with (ev_URI event +:+ "/" +:+ (ma_Id ma' +:+ "/Password:hash")).
  wpm_steps. cbn [fst snd set_effect]. apply wpm_ret. split; [done|].
  assert (Hkey : ev_URI event +:+ "/" +:+ (ma_Id ma' +:+ "/Password:hash")
    = child (child (ev_URI event) (ma_Id ma')) "Password:hash") by (unfold child; by rewrite !str_app_assoc).
  rewrite Hkey. split.
  - exists ma'. split; [done|]. split; [|done]. simpl. rewrite list_insert_insert_eq.
    by eapply lookup_store.
  - apply lookup_insert_ne. intros Heq%(f_equal String.length). unfold child in Heq.
    rewrite !str_length_app in Heq. simpl in Heq. lia.
Qed.

(** ** A new operator, and a new password of the administrator *)

Module AccountHooksExample.
Import AccountsExample.
Definition gen : string -> M (Memory * memstore) (result string) := fun pw => ret (Ok pw).
Definition event (uri : string) : Event := mkEvent "POST" uri None None.
Definition request : object := [("UserName", VString "op"); ("Password", VString "0123456789"); ("Locked", VBool true)].
Definition stored : object :=
  [("Id", VString "2"); ("UserName", VString "op"); ("RoleId", VString "Operator"); ("Locked", VBool true);
   ("Enabled", VBool true)].

Lemma AddAccountBefore_spec_witness :
  wpm (memory 30 admin) ∅ (AddAccountBefore gen (event accounts_uri) [] request) (fun o x' ks' =>
    x' = memory 30 admin /\ ks' = ∅ /\ exists r, o = Ret r /\
    (within (mem_service (memory 30 admin)) "0123456789" -> hr_err r = None /\
       mget "Password:hash" (hr_ctx r) = Some (CtxBytes "0123456789") /\
       mget "Password" (hr_payload r) = None /\
       mget "Locked" (hr_payload r) = Some (from_option id (VBool false) (mget "Locked" request)) /\
       mget "Enabled" (hr_payload r) = Some (from_option id (VBool true) (mget "Enabled" request)) /\
       forall n, n <> "Password" -> n <> "Locked" -> n <> "Enabled" ->
         mget n (hr_payload r) = mget n request) /\
    (~ within (mem_service (memory 30 admin)) "0123456789" ->
       hr_err r <> None /\ hr_status r = StatusBadRequest /\ hr_payload r = request)).
Proof. by apply (AddAccountBefore_spec memstore gen (memory 30 admin) ∅ _ [] request "0123456789"). Defined.

Lemma AddAccountAfter_spec_witness :
  let ctx := [("Password:hash", CtxBytes "hash")] in
  wpm (memory 30 admin) ∅ (AddAccountAfter (S := memstore) (event accounts_uri) ctx stored) (fun o x' ks' =>
    o = Ret (mkReply NoBody 0 None ctx stored) /\
    (exists a, mget "2" (mem_Accounts x') = Some a /\
       mem_heap x' !! a = Some (mkManagerAccount "2" "op" "Operator" true true "hash" 0 0 0)) /\
    (forall n, n <> "2" -> mget n (mem_Accounts x') = mget n (mem_Accounts (memory 30 admin))) /\
    exists text, DecodeString text = Some "hash" /\
      ks' = <[child (child accounts_uri "2") "Password:hash" := RStr text]> ∅).
Proof. intros ctx. by apply (AddAccountAfter_spec memstore (memory 30 admin) ∅ (event accounts_uri) ctx stored "hash"). Defined.

Definition admin_uri : string := "/redfish/v1/AccountService/Accounts/1".
Definition admin_stored : object := [("Id", VString "1"); ("UserName", VString "root"); ("Description", VString "d")].

Lemma admin_fits : fits admin_stored.
Proof.
  intros n v k e k' Hm Hf Hk. simpl in Hm.
  repeat match type of Hm with context [String.eqb n ?m] =>
    destruct (String.eqb_spec n m) as [->|]; [injection Hm as <-; injection Hk as <-; vm_compute in Hf; by simplify_eq|]
  end. done.
Qed.

Lemma password_update_lost_witness :
  let ctx := [("Account", CtxAccount 0); ("Password:hash", CtxBytes "hash")] in
  wpm (memory 30 admin) ∅ (UpdateAccountAfter (S := memstore) (event admin_uri) ctx admin_stored) (fun o x' ks' =>
    o = Ret (mkReply NoBody 0 None ctx admin_stored) /\
    (exists ma', taken_over admin_stored admin ma' /\ mem_heap x' !! 0%nat = Some (set_passwordHash "hash" ma') /\
       ks' = <[child (child admin_uri (ma_Id ma')) "Password:hash" := RStr (EncodeToString "hash")]> ∅) /\
    ks' !! child admin_uri "Password:hash" = (∅ : keys) !! child admin_uri "Password:hash").
Proof.
  intros ctx. apply (password_update_lost memstore (memory 30 admin) ∅ (event admin_uri) ctx admin_stored "hash" 0 admin);
    [|exact admin_fits|reflexivity|reflexivity|reflexivity].
  unfold mwf. simpl. repeat constructor; set_solver.
Defined.
End AccountHooksExample.
