(* ===== verification/JsonSchemas.v ===== *)
(** The schema files the program serves
    ([internal/rfdispatcher/jsonschemas/jsonschema.go]): the collection of
    the files, a resource per file, and the files themselves.

    The pool of schemas is part of the schema tree, which does not change
    once it is loaded; the section variable [pool] holds the decoded body of
    each schema under the name of its file. *)
From S2P Require Import Prelude Ordering Values Redis Schema Walk RedisStruct Dispatcher Messages Privileges Accounts AccountHooks.
From Stdlib Require Import Sorting.Sorted.

(** ** Matching of URIs and names *)

Definition in_range (lo hi : ascii) (a : ascii) : bool :=
  (N.leb (N_of_ascii lo) (N_of_ascii a) && N.leb (N_of_ascii a) (N_of_ascii hi))%N.
(** The classes [[A-Za-z]] and [[A-Za-z0-9]] *)
Definition is_alpha (a : ascii) : bool := in_range "A" "Z" a || in_range "a" "z" a.
Definition is_alnum (a : ascii) : bool := is_alpha a || in_range "0" "9" a.

(** The longest prefix of bytes that satisfy [P]:
    [regexp.MustCompile(`^([A-Za-z0-9]+)`).FindString] for [is_alnum]. *)
Fixpoint take_while (P : ascii -> bool) (s : string) : string :=
  match s with
  | EmptyString => EmptyString
  | String a s' => if P a then String a (take_while P s') else EmptyString
  end.

(** The pattern [^prefix[class]+$] *)
Definition below (prefix : string) (P : ascii -> bool) (uri : string) : bool :=
  has_prefix prefix uri
  && (let rest := str_drop (String.length prefix) uri in
      negb (String.eqb rest "") && str_forallb P rest).

(** An answer to an HTTP request: the status, the headers, the body. *)
Record http_response := mkResponse {
  resp_status : Z;
  resp_headers : gomap string;
  resp_body : body;
}.

Definition StatusOK : Z := 200.
Definition StatusCreated : Z := 201.
Definition StatusNoContent : Z := 204.
Definition StatusUnauthorized : Z := 401.
Definition StatusNotFound : Z := 404.
Definition StatusMethodNotAllowed : Z := 405.
Definition StatusConflict : Z := 409.
Definition StatusInternalServerError : Z := 500.

Definition Files_prefix : string := "/redfish/v1/JsonSchemas/Files/".

(** The JSON forms of [Location] and [JsonSchemaFile]; of a location, empty
    fields are left out. *)
Record Location := mkLocation {
  ArchiveFile : string; ArchiveUri : string; Language : string; PublicationUri : string; Uri : string;
}.
Definition Location_json (l : Location) : value :=
  VObject (map (fun e => (fst e, VString (snd e)))
    (List.filter (fun e => negb (String.eqb (snd e) ""))
      [("ArchiveFile", ArchiveFile l); ("ArchiveUri", ArchiveUri l); ("Language", Language l);
       ("PublicationUri", PublicationUri l); ("Uri", Uri l)])).

Record JsonSchemaFile := mkJsonSchemaFile {
  ODataID : string; ODataType : string; ODataContext : string;
  Languages : list string; Locations : list Location; jf_Schema : string;
}.
Definition JsonSchemaFile_json (f : JsonSchemaFile) : value :=
  VObject [("@odata.id", VString (ODataID f)); ("@odata.type", VString (ODataType f));
           ("@odata.context", VString (ODataContext f));
           ("Languages", VArray (map VString (Languages f)));
           ("Location", VArray (map Location_json (Locations f)));
           ("Schema", VString (jf_Schema f))].

Section json_schemas.
Context {S : Type}.
Variable pool : gomap object.

Definition Exists (name : string) : bool := mmem name pool.

Definition HandleCollection : HookCB S := fun _ ctx response =>
  let links := sort_strings (map (fun name => "/redfish/v1/JSONSchemas/" +:+ trim_suffix ".json" name) (mkeys pool)) in
  let members := map (fun link => VObject [("@odata.id", VString link)]) links in
  reply_ok ctx
    (mput "Members@odata.count" (VInt (Z.of_nat (List.length members))) (mput "Members" (VArray members) response)).

Definition HandleResource : HookCB S := fun event ctx response =>
  let id := last_token (ev_URI event) in
  let schemaFileName := id +:+ ".json" in
  let schemaName := take_while is_alnum id in
  let schemaODataType := "#" +:+ id +:+ "." +:+ schemaName in
  match mget schemaFileName pool with
  | None => reply_err (ErrText ("Json Schema does not exist: " +:+ id)) ctx response
  | Some schema =>
      match ev_Resource event with
      | None => panic nil_deref
      | Some resource =>
          publication <- match mget "$id" schema with
                         | None => ret ""
                         | Some idRaw => assert_string (Some idRaw)
                         end ;;
          let location := mkLocation "" "" "" publication (Files_prefix +:+ schemaFileName) in
          let file := mkJsonSchemaFile (ev_URI event) (ri_ODataType (r_info resource))
            (ri_ODataContext (r_info resource) +:+ "(" +:+ join "," ["Languages"; "Location"; "Schema"] +:+ ")")
            ["en-US"] [location] schemaODataType in
          match Marshal (JsonSchemaFile_json file) with
          | None => reply_err (ErrText "json: unsupported value") ctx response
          | Some responseBody =>
              ret (mkReply responseBody StatusOK (Some (ErrText "Overriding GET request")) ctx response)
          end
      end
  end.

(** A handler of the HTTP server of its own; no account is involved. *)
Definition ServeSchemaFile (path : string) : http_response :=
  if negb (has_prefix Files_prefix path) then mkResponse StatusNotFound [] NoBody
  else
    match mget (last_token path) pool with
    | None => mkResponse StatusNotFound [] NoBody
    | Some schema =>
        match Marshal (VObject schema) with
        | None => mkResponse StatusInternalServerError [] NoBody
        | Some responseBody => mkResponse StatusOK [("Content-Type", "application/json")] responseBody
        end
    end.

(** The callback that makes each schema an instance of the collection *)
Definition JsonSchema_cb : CollectionCB S := fun collection collectionPath instance =>
  if negb (String.eqb (r_Name collection) "JsonSchemaFileCollection")
     && negb (String.eqb collectionPath "/redfish/v1/JsonSchemas")
  then ret false
  else ret (Exists (instance +:+ ".json")).
End json_schemas.

(** The patterns of the two hooks *)
Definition JsonSchemas_uri : string := "/redfish/v1/JsonSchemas".
Definition is_schema_id (a : ascii) : bool := is_alnum a || Ascii.eqb a "." || Ascii.eqb a "_".
Definition collection_pattern (uri : string) : bool := String.eqb uri JsonSchemas_uri.
Definition resource_pattern (uri : string) : bool := below (JsonSchemas_uri +:+ "/") is_schema_id uri.

(* ===================================================================== *)
(** * Lemmas                                                             *)
(* ===================================================================== *)

(** The last segment of a path *)
Lemma last_token_child path name : free_of slash name = true -> last_token (child path name) = name.
Proof.
  intros Hn. unfold last_token, child, split_slash. rewrite split_on_cut, (split_on_free slash name) by done.
  by rewrite List.last_last.
Qed.

Lemma below_spec prefix P uri :
  below prefix P uri = true <-> exists t, uri = prefix +:+ t /\ t <> "" /\ str_forallb P t = true.
Proof.
  unfold below, has_prefix. rewrite !andb_true_iff, negb_true_iff, String.eqb_neq, prefix_true. split.
  - intros ([t ->] & Hne & Hall). rewrite str_drop_app in *. by exists t.
  - intros (t & -> & Hne & Hall). rewrite str_drop_app. split; [by exists t|done].
Qed.

(** What a schema identifier cannot hold *)
Lemma schema_id_slash id : str_forallb is_schema_id id = true -> free_of slash id = true.
Proof.
  apply str_forallb_impl. intros a Ha. apply negb_true_iff, Ascii.eqb_neq. intros ->. by vm_compute in Ha.
Qed.

(** ** The order of [sort.Strings] changes nothing else *)

(** A file resource always has a JSON form. *)
Lemma forallb_map_true {A B} (f : B -> bool) (g : A -> B) l : (forall x, f (g x) = true) -> forallb f (map g l) = true.
Proof. intros Hf. apply forallb_forall. by intros y (x & <- & _)%in_map_iff. Qed.

Lemma Marshal_file f : Marshal (JsonSchemaFile_json f) = Some (JsonBody (JsonSchemaFile_json f)).
Proof.
  assert (Hm : marshalable (JsonSchemaFile_json f) = true); [|unfold Marshal; by rewrite Hm].
  simpl. rewrite !forallb_map_true; [done| |done]. intros l. by apply forallb_map_true.
Qed.

(* ===================================================================== *)
(** * Properties                                                         *)
(* ===================================================================== *)

(** The members of the collection of schemas are one link per schema, in
    ascending order, with their count; but none of them is a URI that the
    hook for the schemas' resources takes over, as they are spelled with
    another name of the collection ([JSONSchemas]) than the one that is
    served ([JsonSchemas]). *)
Theorem HandleCollection_unserved S (pool : gomap object) event ctx response (s : S) :
  exists links r, HandleCollection pool event ctx response s = (Ret r, s) /\
    Sorted (fun a b => String.leb a b = true) links /\ List.length links = List.length pool /\
    mget "Members" (hr_payload r) = Some (VArray (map (fun l => VObject [("@odata.id", VString l)]) links)) /\
    mget "Members@odata.count" (hr_payload r) = Some (VInt (Z.of_nat (List.length pool))) /\
    Forall (fun l => resource_pattern l = false) links.
Proof.
  set (f := fun name => "/redfish/v1/JSONSchemas/" +:+ trim_suffix ".json" name).
  exists (sort_strings (map f (mkeys pool))). unfold HandleCollection. fold f. eexists. split; [done|].
  split; [apply sort_strings_sorted|].
  assert (Hlen : List.length (sort_strings (map f (mkeys pool))) = List.length pool).
  { rewrite (Permutation_length (sort_strings_perm _)), length_map. apply length_map. }
  split; [done|]. cbn [hr_payload].
  split; [rewrite mget_mput_ne by done; apply mget_mput_eq|]. split.
  - rewrite mget_mput_eq, length_map. by rewrite Hlen.
  - rewrite sort_strings_perm. apply Forall_forall. intros l (name & -> & _)%list_elem_of_fmap. done.
Qed.

(** A schema is served.  For the URI of a schema of the pool (whose
    identifier, if it has one, is a text) the hook before the request
    answers 200 with a resource that carries the URI and a location; the file
    handler, asked for that location, answers 200 with the schema itself. *)
Theorem schema_file_served S (pool : gomap object) id schema event ctx response resource (s : S)
  (Hpool : mget (id +:+ ".json") pool = Some schema) (Hid : str_forallb is_schema_id id = true)
  (Huri : ev_URI event = child JsonSchemas_uri id) (Hres : ev_Resource event = Some resource)
  (Htext : forall v, mget "$id" schema = Some v -> exists t, v = VString t)
  (Hm : marshalable (VObject schema) = true) :
  exists r m location l,
    HandleResource pool event ctx response s = (Ret r, s) /\ hr_status r = StatusOK /\
    hr_err r <> None /\ hr_body r = JsonBody (VObject m) /\
    mget "@odata.id" m = Some (VString (ev_URI event)) /\
    mget "Location" m = Some (VArray [VObject location]) /\ mget "Uri" location = Some (VString l) /\
    ServeSchemaFile pool l = mkResponse StatusOK [("Content-Type", "application/json")] (JsonBody (VObject schema)).
Proof.
  assert (Hserve : ServeSchemaFile pool (Files_prefix +:+ (id +:+ ".json"))
    = mkResponse StatusOK [("Content-Type", "application/json")] (JsonBody (VObject schema))).
  { unfold ServeSchemaFile, has_prefix. rewrite prefix_app. simpl negb. cbv iota.
    change (Files_prefix +:+ (id +:+ ".json")) with (child "/redfish/v1/JsonSchemas/Files" (id +:+ ".json")).
    rewrite last_token_child; [|unfold free_of; rewrite str_forallb_app; apply andb_true_iff; split; [by apply schema_id_slash|done]].
    rewrite Hpool. unfold Marshal. by rewrite Hm. }
  unfold HandleResource. rewrite Huri, last_token_child, Hpool, Hres by by apply schema_id_slash.
  assert (exists t, (match mget "$id" schema with None => ret "" | Some idRaw => assert_string (Some idRaw) end) s
    = (Ret t, s)) as [t Ht].
  { destruct (mget "$id" schema) as [v|]; [|by eexists]. destruct (Htext v) as [t ->]; [done|]. by exists t. }
  eexists _, _, _, (Files_prefix +:+ (id +:+ ".json")). split; [erewrite bind_step by exact Ht; cbv zeta; rewrite Marshal_file; reflexivity|].
  split; [done|]. split; [done|]. split; [done|]. split; [done|]. split; [done|].
  split; [|exact Hserve]. simpl. by destruct (String.eqb t "").
Qed.

Module JsonSchemasExample.
Definition schema : object := [("$id", VString "http://redfish.dmtf.org/schemas/v1/Chassis.v1_0_0.json"); ("title", VString "Chassis")].
Definition pool : gomap object := [("Chassis.v1_0_0.json", schema)].
Definition resource : Resource := mkResource (plain_resource_info "JsonSchemaFile" false) [] None.
Definition event : Event := mkEvent "GET" (child JsonSchemas_uri "Chassis.v1_0_0") (Some resource) None.

Lemma schema_file_served_witness :
  exists r m location l,
    HandleResource pool event [] [] tt = (Ret r, tt) /\ hr_status r = StatusOK /\
    hr_err r <> None /\ hr_body r = JsonBody (VObject m) /\
    mget "@odata.id" m = Some (VString (ev_URI event)) /\
    mget "Location" m = Some (VArray [VObject location]) /\ mget "Uri" location = Some (VString l) /\
    ServeSchemaFile pool l = mkResponse StatusOK [("Content-Type", "application/json")] (JsonBody (VObject schema)).
Proof.
  apply (schema_file_served unit pool "Chassis.v1_0_0" schema event [] [] resource tt); try reflexivity.
  intros v Hv. injection Hv as <-. by eexists.
Defined.
End JsonSchemasExample.
