(* ===== verification/Server.v ===== *)
(** The HTTP server ([cmd/rfdispatcher/rfserver.go]): the hooks, the handlers
    of the five methods, and the handler of a request.

    The state of a handler is the memory of the account service next to the
    state of the outside (with Redis).  A handler runs to its end before the
    next one starts; the server runs them concurrently, without a lock. *)
From S2P Require Import Prelude Values Redis Schema Walk RedisStruct Dispatcher.
From S2P Require Import Messages Actions Validator Privileges Accounts AccountHooks JsonSchemas.

(* ===================================================================== *)
(** * The server and its requests                                        *)
(* ===================================================================== *)

Definition MethodGet : string := "GET".
Definition MethodPost : string := "POST".
Definition MethodPatch : string := "PATCH".
Definition MethodDelete : string := "DELETE".
Definition MethodPut : string := "PUT".

(** [redfishServer]; the account service is in the state. *)
Record redfishServer (S : Type) := mkServer {
  rs_rfd : RedfishDispatcher (Memory * S);
  privilegeRegistry : PrivilegeRegistry;
  beforeHookIns : gomap (list (HookIn (Memory * S)));
  afterHookIns : gomap (list (HookIn (Memory * S)));
}.
Arguments rs_rfd {S}.
Arguments privilegeRegistry {S}.
Arguments beforeHookIns {S}.
Arguments afterHookIns {S}.

Record httpRequest := mkHttpRequest {
  httpOperation : string;
  account : nat;
  uri : string;
  resource : option Resource;
  property : option Property;
  xname : string;
  requestBody : request_body;
}.

(** What the handler of a request reads from [http.Request]. *)
Record http_Request := mkRequest {
  r_Method : string;
  r_Host : string;
  r_Path : string;
  r_BasicAuth : option (string * string);
  r_Body : request_body;
}.

Definition reply (b : body) (status : Z) : http_response := mkResponse status [] b.
(** A text that ends a line *)
Definition line (s : string) : body := TextBody (s +:+ String newline "").
Definition not_allowed : http_response :=
  reply (line "Message: CustomHTTP->StatusMethodNotAllowed") StatusMethodNotAllowed.

(** ** Hooks *)

Section hooks.
Context {S : Type}.

Definition hooks_of (m : gomap (list (HookIn (Memory * S)))) (method : string) : list (HookIn (Memory * S)) :=
  match mget method m with Some l => l | None => [] end.

Definition addHookIn (rs : redfishServer S) (method : string) (hook : HookIn (Memory * S)) : redfishServer S :=
  let add (cb : option (HookCB (Memory * S))) m :=
    match cb with Some _ => mput method (hooks_of m method ++ [hook]) m | None => m end in
  mkServer S (rs_rfd rs) (privilegeRegistry rs)
    (add (BeforeCB hook) (beforeHookIns rs)) (add (AfterCB hook) (afterHookIns rs)).

Definition findBeforeHookIns (rs : redfishServer S) (method uri : string) : list (HookIn (Memory * S)) :=
  List.filter (fun hook => URIRegex hook uri) (hooks_of (beforeHookIns rs) method).
Definition findAfterHookIns (rs : redfishServer S) (method uri : string) : list (HookIn (Memory * S)) :=
  List.filter (fun hook => URIRegex hook uri) (hooks_of (afterHookIns rs) method).
End hooks.

(** What the hooks of a request leave: an answer, if one of them ended the
    request, the context, and the map they were given. *)
Record hooks_run := mkRun {
  run_body : body;
  run_status : Z;
  run_ctx : hook_ctx;
  run_payload : object;
}.

(** The names of a request that cannot be updated, and the number of its
    fields: the variables of the callback of PATCH. *)
Record patch_fields := mkPatchFields {
  fieldCount : Z;
  readonlyFields : list (list string);
  unknownFields : list (list string);
  insufficientPrivilegeFields : list (list string);
}.
Definition no_fields : patch_fields := mkPatchFields 0 [] [] [].
Definition add_count (f : patch_fields) : patch_fields :=
  mkPatchFields (fieldCount f + 1) (readonlyFields f) (unknownFields f) (insufficientPrivilegeFields f).
Definition add_readonly (path : list string) (f : patch_fields) : patch_fields :=
  mkPatchFields (fieldCount f) (readonlyFields f ++ [path]) (unknownFields f) (insufficientPrivilegeFields f).
Definition add_unknown (path : list string) (f : patch_fields) : patch_fields :=
  mkPatchFields (fieldCount f) (readonlyFields f) (unknownFields f ++ [path]) (insufficientPrivilegeFields f).
Definition add_insufficient (path : list string) (f : patch_fields) : patch_fields :=
  mkPatchFields (fieldCount f) (readonlyFields f) (unknownFields f) (insufficientPrivilegeFields f ++ [path]).

(** The names of annotations: an identifier, one of [@odata.], [@Redfish.]
    and [@Message.], and a term of at least two bytes. *)
Definition word_start (a : ascii) : bool := is_alpha a || Ascii.eqb a "_".
Definition word_byte (a : ascii) : bool := is_alnum a || Ascii.eqb a "_".
Definition annotation_term (s : string) : bool :=
  match s with
  | String a s' => word_start a && negb (String.eqb s' "") && str_forallb (fun b => word_byte b || Ascii.eqb b ".") s'
  | EmptyString => false
  end.
Definition odataMatcher (fieldName : string) : bool :=
  match split_on "@" fieldName with
  | [String a name; annotation] =>
      word_start a && str_forallb word_byte name
      && existsb (fun p => has_prefix p annotation && annotation_term (str_drop (String.length p) annotation))
           ["odata."; "Redfish."; "Message."]
  | _ => false
  end.

(** The status of an update *)
Definition patch_status (f : patch_fields) : Z :=
  let some {A} (l : list A) := negb (Nat.eqb (List.length l) 0) in
  if (Z.eqb (fieldCount f) 1 && some (readonlyFields f)) || some (unknownFields f)
  then StatusBadRequest else StatusOK.

(** The JSON value of a response map, which is nil when it could not be
    built, and what hooks see of it *)
Definition payload_value (p : option object) : value := match p with Some m => VObject m | None => VNil end.
Definition payload_map (p : option object) : object := match p with Some m => m | None => [] end.

(** A panic of [m] is recovered by [handler]. *)
Definition recovering {S A} (m : M S A) (handler : M S A) : M S A := fun s =>
  match m s with
  | (Panic _, s') => handler s'
  | r => r
  end.

(* ===================================================================== *)
(** * The handlers                                                       *)
(* ===================================================================== *)

Section server.
Context {S : Type} `{RedisOps S} `{FloatText} `{TextParsers}.
Variable rs : redfishServer S.
(** What an action needs from outside, and the bound on the nesting of what
    is removed from Redis *)
Variable ipc : IPC (Memory * S).
Variable fuel : nat.
Variable time_now : M (Memory * S) Z.
Variable CompareHashAndPassword : string -> string -> bool.

(** ** Answers shared by the handlers *)

Definition message_reply (messageID : string) (args : list value) (status : Z) : M (Memory * S) http_response :=
  b <- message_body (rs_rfd rs) "Base" messageID args ;; ret (reply b status).

Definition resourceMissing (uri : string) : M (Memory * S) http_response :=
  message_reply "ResourceMissingAtURI" [VString uri] StatusNotFound.
Definition internalServerError : M (Memory * S) http_response :=
  message_reply "InternalError" [] StatusInternalServerError.

(** ** Running hooks *)

Fixpoint run_hooks (callback : HookIn (Memory * S) -> option (HookCB (Memory * S)))
    (hooks : list (HookIn (Memory * S))) (event : Event) (ctx : hook_ctx) (payload : object) :
    M (Memory * S) hooks_run :=
  match hooks with
  | [] => ret (mkRun NoBody 0 ctx payload)
  | hook :: rest =>
      match callback hook with
      | None => panic nil_deref
      | Some cb =>
          r <- cb event ctx payload ;;
          match hr_err r with
          | None => run_hooks callback rest event (hr_ctx r) (hr_payload r)
          | Some _ =>
              if body_nil (hr_body r) then
                e <- internalServerError ;;
                ret (mkRun (resp_body e) (resp_status e) (hr_ctx r) (hr_payload r))
              else ret (mkRun (hr_body r) (hr_status r) (hr_ctx r) (hr_payload r))
          end
      end
  end.

Definition runBeforeHookIns (method : string) (event : Event) (ctx : hook_ctx) (request : object) :
    M (Memory * S) hooks_run :=
  run_hooks BeforeCB (findBeforeHookIns rs method (ev_URI event)) event ctx request.
Definition runAfterHookIns (method : string) (event : Event) (ctx : hook_ctx) (request : object) :
    M (Memory * S) hooks_run :=
  run_hooks AfterCB (findAfterHookIns rs method (ev_URI event)) event ctx request.

(** The answer of the hooks, or what follows. *)
Definition unless_answered (r : hooks_run) (next : hook_ctx -> object -> M (Memory * S) http_response) :
    M (Memory * S) http_response :=
  if body_nil (run_body r) then next (run_ctx r) (run_payload r)
  else ret (reply (run_body r) (run_status r)).

Definition event_of (r : httpRequest) : Event := mkEvent (httpOperation r) (uri r) (resource r) (property r).

(** The privileges of the account, for the method and the resource *)
Definition operation_allowed (r : httpRequest) (resource : Resource) (property : string) : M (Memory * S) bool :=
  privileges <- RequiredPrivileges (privilegeRegistry rs) (httpOperation r) "" (r_Name resource) property ;;
  OperationAllowed (account r) privileges.

Definition if_allowed (r : httpRequest) (resource : Resource) (next : M (Memory * S) http_response) :
    M (Memory * S) http_response :=
  allowed <- operation_allowed r resource "" ;;
  if allowed : bool then next else message_reply "InsufficientPrivilege" [] StatusUnauthorized.

(** ** GET *)

Definition handleGetRequest (r : httpRequest) (r2s : Redis2Interface (Memory * S)) : M (Memory * S) http_response :=
  match resource r, property r with
  | None, _ | _, Some _ => resourceMissing (uri r)
  | Some resource, None =>
      if_allowed r resource
        (before <- runBeforeHookIns MethodGet (event_of r) [] [] ;;
         unless_answered before (fun ctx _ =>
           built <- BuildStruct r2s (r_Properties resource) (trim_suffix "/" (uri r)) ;;
           match built with
           | Err _ => ret (reply NoBody StatusInternalServerError)
           | Ok responsePayload =>
               after <- runAfterHookIns MethodGet (event_of r) ctx responsePayload ;;
               unless_answered after (fun _ responsePayload =>
                 ret (match Marshal (VObject responsePayload) with
                      | Some jsonPayload => reply jsonPayload StatusOK
                      | None => reply NoBody StatusInternalServerError
                      end))
           end))
  end.

(** The state of a resource as the body of an answer; a structure that
    cannot be built is a nil map. *)
Definition build_or_nil (r2s : Redis2Interface (Memory * S)) (resource : Resource) (uri : string) :
    M (Memory * S) (option object) :=
  built <- BuildStruct r2s (r_Properties resource) uri ;;
  ret (match built with Ok m => Some m | Err _ => None end).

(** ** Creation *)

(** One message per missing property *)
Fixpoint missing_messages (messageID : string) (names : list string) : M (Memory * S) (list value) :=
  match names with
  | [] => ret []
  | missing :: rest =>
      msg <- must (GetRedfishMessage (rs_rfd rs) "Base" messageID [VString missing]) ;;
      messages <- missing_messages messageID rest ;;
      ret (VObject msg :: messages)
  end.
Definition missing_reply (messageID : string) (names : list string) : M (Memory * S) http_response :=
  messages <- missing_messages messageID names ;;
  match Marshal (VArray messages) with
  | Some payload => ret (reply payload StatusBadRequest)
  | None => panic "json: unsupported value"
  end.

(** The two checks of a report; the second lists the names of the first. *)
Definition if_complete (report : ObjectReport) (next : M (Memory * S) http_response) : M (Memory * S) http_response :=
  match or_sets report MissingRequired, or_sets report MissingRequiredOnCreate with
  | _ :: _, _ => missing_reply "PropertyMissing" (mkeys (or_sets report MissingRequired))
  | [], _ :: _ => missing_reply "CreateFailedMissingReqProperties" (mkeys (or_sets report MissingRequired))
  | [], [] => next
  end.

(** The identifier of a new resource *)
Definition posted_id (postBodyMap : object) : M (Memory * S) string :=
  id <- match mget "Id" postBodyMap with None => ret "" | Some idRaw => assert_string (Some idRaw) end ;;
  id <- match mget "MemberId" postBodyMap with None => ret id | Some idRaw => assert_string (Some idRaw) end ;;
  if String.eqb id "" then panic "Resource ID not present" else ret id.

Definition generated_odata (data : gomap rdata) : gomap rdata :=
  mput "@odata.context" DNil (mput "@odata.type" DNil (mput "@odata.id" DNil data)).

(** The largest of the indexes in use, at least [offset] *)
Fixpoint largest_index (offset : Z) (indexesInUse : list string) : M (Memory * S) Z :=
  match indexesInUse with
  | [] => ret offset
  | iRaw :: rest =>
      match parse_int iRaw with
      | None => panic "strconv.ParseInt: invalid syntax"
      | Some i => largest_index (if Z.ltb offset i then i else offset) rest
      end
  end.

Definition Members_key (collectionURI : string) : string := child collectionURI "Members".

(** The link to a new resource in its collection *)
Definition link_member (collectionURI resourceURI : string) : M (Memory * S) unit :=
  indexesInUse <- must (redis_lrange (Members_key collectionURI)) ;;
  largest <- largest_index 0 indexesInUse ;;
  let offset := format_int (wrap64 (largest + 1)) in
  must (redis_rpush (Members_key collectionURI) [offset]) ;;
  RedisInsert (DObj [("@odata.id", DStr resourceURI)]) (child (Members_key collectionURI) offset) ;;
  ret tt.

(** What a creation stores *)
Definition store_resource (resource : Resource) (collectionURI id : string) (postBodyMap : object) :
    M (Memory * S) unit :=
  data <- must (Interface2Redis None [] (r_Properties resource) postBodyMap) ;;
  must (RedisInsert (DObj (generated_odata data)) (child collectionURI id)) ;;
  link_member collectionURI (child collectionURI id).

(** The end of a creation, with the answer *)
Definition created (r : httpRequest) (resource : Resource) (resourceURI : string) (ctx : hook_ctx) :
    M (Memory * S) http_response :=
  let r2s := mkRedis2Interface (Memory * S) (rs_rfd rs) (Some resource) resourceURI (xname r) in
  responsePayload <- build_or_nil r2s resource resourceURI ;;
  match Marshal (payload_value responsePayload) with
  | None => ret (reply NoBody StatusInternalServerError)
  | Some jsonPayload =>
      after <- runAfterHookIns MethodPost (event_of r) ctx (payload_map responsePayload) ;;
      unless_answered after (fun _ _ => ret (mkResponse StatusCreated [("Location", resourceURI)] jsonPayload))
  end.

Definition handleResourceCreation (r : httpRequest) (collection : Resource) : M (Memory * S) http_response :=
  if negb (ri_Insertable (r_info collection))
  then ret (reply (line "Message: CustomHTTP->ResourceNotInsertable") StatusBadRequest)
  else
    match Unmarshal_map (requestBody r) with
    | None => message_reply "MalformedJSON" [] StatusBadRequest
    | Some [] => message_reply "EmptyJSON" [] StatusBadRequest
    | Some postBodyMap =>
        match CollectionOf collection with
        | None => panic nil_deref
        | Some resource =>
            report <- checkResource resource postBodyMap ;;
            if_complete report (
              id <- posted_id postBodyMap ;;
              if mmem id (r_Properties collection)
              then ret (reply (line "Message: CustomHTTP->ResourceNameIsInvalid") StatusBadRequest)
              else
                exists_ <- must (redis_exists (child (uri r) id)) ;;
                if exists_ : bool
                then ret (reply (line "Message: CustomHTTP->ResourceAlreadyExists") StatusConflict)
                else
                  before <- runBeforeHookIns MethodPost (event_of r) [] postBodyMap ;;
                  unless_answered before (fun ctx postBodyMap =>
                    store_resource resource (uri r) id postBodyMap ;;
                    created r resource (child (uri r) id) ctx))
        end
    end.

Definition handlePostRequest (r : httpRequest) : M (Memory * S) http_response :=
  match resource r with
  | None => resourceMissing (uri r)
  | Some res =>
      if_allowed r res
        (match property r with
         | Some p =>
             if is_type PropAction p then
               response <- HandleAction (rs_rfd rs) ipc (xname r +:+ uri r) (requestBody r) (xname r) ;;
               match response with
               | Err _ => internalServerError
               | Ok b =>
                   ret (if body_nil b then reply NoBody StatusNoContent
                        else mkResponse StatusOK [("Content-Type", "application/json")] b)
               end
             else if IsCollection res then handleResourceCreation r res else ret not_allowed
         | None => if IsCollection res then handleResourceCreation r res else ret not_allowed
         end)
  end.

(** ** DELETE *)

(** The index of the link to a resource *)
Fixpoint link_index (collectionURI uri : string) (indexesInUse : list string) : M (Memory * S) string :=
  match indexesInUse with
  | [] => ret ""
  | index :: rest =>
      link <- get_or_empty (child (child (Members_key collectionURI) index) "@odata.id") ;;
      if String.eqb link uri then ret index else link_index collectionURI uri rest
  end.

Definition unlink_member (collectionURI uri : string) : M (Memory * S) unit :=
  indexesInUse <- must (redis_lrange (Members_key collectionURI)) ;;
  indexToRemove <- link_index collectionURI uri indexesInUse ;;
  if String.eqb indexToRemove "" then panic ("Link Index not found for: " +:+ uri)
  else
    redis_lrem (Members_key collectionURI) indexToRemove ;;
    redis_del (child (Members_key collectionURI) indexToRemove) ;;
    redis_del (child (child (Members_key collectionURI) indexToRemove) "@odata.id") ;;
    ret tt.

(** All but the last segment of a path *)
Definition parent_uri (uri : string) : string := join "/" (removelast (split_slash uri)).

Definition remove_resource (resource : Resource) (uri : string) : M (Memory * S) unit :=
  RedisRemoveResource fuel resource uri ;;
  unlink_member (parent_uri uri) uri.

Definition handleDeleteRequest (r : httpRequest) (r2s : Redis2Interface (Memory * S)) : M (Memory * S) http_response :=
  match resource r with
  | None => resourceMissing (uri r)
  | Some resource =>
      if_allowed r resource
        (if IsCollection resource then ret not_allowed
         else if negb (ri_Deletable (r_info resource)) then ret not_allowed
         else
           responsePayload <- build_or_nil r2s resource (uri r) ;;
           match Marshal (payload_value responsePayload) with
           | None => ret (reply NoBody StatusInternalServerError)
           | Some jsonPayload =>
               before <- runBeforeHookIns MethodDelete (event_of r) [] [] ;;
               unless_answered before (fun ctx _ =>
                 remove_resource resource (uri r) ;;
                 after <- runAfterHookIns MethodDelete (event_of r) ctx (payload_map responsePayload) ;;
                 unless_answered after (fun _ _ => ret (reply jsonPayload StatusOK)))
           end)
  end.

(** ** PATCH *)

(** Change the variables of the callback. *)
Definition note (f : patch_fields -> patch_fields) : M (patch_fields * (Memory * S)) unit := fun s =>
  (Ret tt, (f (fst s), snd s)).

(** The callback: whether a field may be updated *)
Definition patch_cb (r : httpRequest) (resource : Resource) : Interface2RedisCB (patch_fields * (Memory * S)) :=
  fun property path _ unknown =>
    let fieldName := List.last path "" in
    if odataMatcher fieldName then ret false
    else
      note add_count ;;
      if unknown : bool then note (add_unknown path) ;; ret false
      else
        match property with
        | None => panic nil_deref
        | Some p =>
            if pi_ReadOnly (p_info p) then note (add_readonly path) ;; ret false
            else if Nat.eqb (List.length path) 1 then
              allowed <- on_snd (operation_allowed r resource fieldName) ;;
              if allowed : bool then ret true
              else note (add_insufficient path) ;; ret false
            else ret true
        end.

(** Run with fresh variables of the callback, and return them. *)
Definition with_fields {A} (m : M (patch_fields * (Memory * S)) A) : M (Memory * S) (A * patch_fields) := fun s =>
  let '(o, (f, s')) := m (no_fields, s) in
  (match o with Ret a => Ret (a, f) | Panic msg => Panic msg | Fatal msg => Fatal msg | OutOfFuel => OutOfFuel end, s').

(** Messages at the given paths of the response; an error is dropped, a nil
    map cannot be written to. *)
Definition add_message (messageID : string) (payload : option object) (path : list string) :
    M (Memory * S) (option object) :=
  let args := [VString (List.last path "")] in
  match payload with
  | Some obj =>
      r <- AddPropertyMessage (rs_rfd rs) obj path "Base" messageID args ;;
      ret (Some (match r with Ok obj' => obj' | Err _ => obj end))
  | None =>
      msg <- GetRedfishMessage (rs_rfd rs) "Base" messageID args ;;
      match msg, path with
      | Ok _, [_] => panic "assignment to entry in nil map"
      | _, _ => ret None
      end
  end.
Fixpoint add_messages (messageID : string) (payload : option object) (paths : list (list string)) :
    M (Memory * S) (option object) :=
  match paths with
  | [] => ret payload
  | path :: rest => payload <- add_message messageID payload path ;; add_messages messageID payload rest
  end.

(** What an update changes *)
Definition patch_resource (r : httpRequest) (resource : Resource) (postBodyMap : object) :
    M (Memory * S) patch_fields :=
  converted <- with_fields (Interface2Redis (Some (patch_cb r resource)) [] (r_Properties resource) postBodyMap) ;;
  let '(redisData, fields) := converted in
  match redisData with
  | Err e => panic (err_string e)
  | Ok redisData => must (RedisPatch fuel (DObj redisData) (uri r)) ;; ret fields
  end.

Definition handlePatchRequest (r : httpRequest) (r2s : Redis2Interface (Memory * S)) : M (Memory * S) http_response :=
  match resource r with
  | None => resourceMissing (uri r)
  | Some resource =>
      match Unmarshal_map (requestBody r) with
      | None => message_reply "MalformedJSON" [] StatusBadRequest
      | Some postBodyMap =>
          if IsCollection resource then ret not_allowed
          else if negb (ri_Updatable (r_info resource)) then ret not_allowed
          else
            before <- runBeforeHookIns MethodPatch (event_of r) [] postBodyMap ;;
            unless_answered before (fun ctx postBodyMap =>
              fields <- patch_resource r resource postBodyMap ;;
              responsePayload <- build_or_nil r2s resource (uri r) ;;
              responsePayload <- add_messages "PropertyNotWritable" responsePayload (readonlyFields fields) ;;
              responsePayload <- add_messages "PropertyUnknown" responsePayload (unknownFields fields) ;;
              responsePayload <- add_messages "InsufficientPrivilege" responsePayload (insufficientPrivilegeFields fields) ;;
              match Marshal (payload_value responsePayload) with
              | None => ret (reply NoBody StatusInternalServerError)
              | Some jsonPayload =>
                  after <- runAfterHookIns MethodPatch (event_of r) ctx (payload_map responsePayload) ;;
                  unless_answered after (fun _ _ => ret (reply jsonPayload (patch_status fields)))
              end)
      end
  end.

(** ** PUT *)

(** What a replacement changes *)
Definition replace_resource (resource : Resource) (uri : string) (postBodyMap : object) : M (Memory * S) unit :=
  RedisRemoveResource fuel resource uri ;;
  data <- must (Interface2Redis None [] (r_Properties resource) postBodyMap) ;;
  must (RedisInsert (DObj data) uri).

Definition handlePutRequest (r : httpRequest) (r2s : Redis2Interface (Memory * S)) : M (Memory * S) http_response :=
  match resource r with
  | None => resourceMissing (uri r)
  | Some resource =>
      if_allowed r resource
        (if IsCollection resource
         then ret (reply (TextBody "Message: CustomHTTP->ResourceIsCollection") StatusMethodNotAllowed)
         else
           match Unmarshal_map (requestBody r) with
           | None => message_reply "MalformedJSON" [] StatusBadRequest
           | Some [] => message_reply "EmptyJSON" [] StatusBadRequest
           | Some postBodyMap =>
               report <- checkResource resource postBodyMap ;;
               if_complete report (
                 before <- runBeforeHookIns MethodPut (event_of r) [] postBodyMap ;;
                 unless_answered before (fun ctx postBodyMap =>
                   replace_resource resource (uri r) postBodyMap ;;
                   responsePayload <- build_or_nil r2s resource (uri r) ;;
                   match Marshal (payload_value responsePayload) with
                   | None => ret (reply NoBody StatusInternalServerError)
                   | Some jsonPayload =>
                       after <- runAfterHookIns MethodPut (event_of r) ctx (payload_map responsePayload) ;;
                       unless_answered after (fun _ _ => ret (reply jsonPayload StatusOK))
                   end))
           end)
  end.

(** ** The handler of a request *)

(** The name of the host, without its port and the suffix of the service *)
Definition xname_of (host : string) : string := trim_suffix "-rts" (List.hd "" (split_on ":" host)).

Definition respond (response : http_response) : http_response :=
  mkResponse (resp_status response)
    (fold_left (fun h e => mput (fst e) (snd e) h) (resp_headers response)
      (if body_nil (resp_body response) then [] else [("Content-Type", "application/json")]))
    (resp_body response).

Definition dispatch (method : string) (request : httpRequest) (r2s : Redis2Interface (Memory * S)) :
    M (Memory * S) http_response :=
  if String.eqb method MethodPost then handlePostRequest request
  else if String.eqb method MethodGet then handleGetRequest request r2s
  else if String.eqb method MethodPatch then handlePatchRequest request r2s
  else if String.eqb method MethodDelete then handleDeleteRequest request r2s
  else if String.eqb method MethodPut then handlePutRequest request r2s
  else ret not_allowed.

Definition handleRequest (r : http_Request) : M (Memory * S) http_response :=
  recovering
    (let xname := xname_of (r_Host r) in
     resource_property <- GetResource (rs_rfd rs) (r_Path r) xname ;;
     let '(resource, property) := resource_property in
     let '(username, password) := match r_BasicAuth r with Some a => a | None => ("", "") end in
     authenticated <- AuthenticateAccount time_now CompareHashAndPassword username password ;;
     match authenticated with
     | Err _ => ret (reply NoBody StatusUnauthorized)
     | Ok account =>
         let request := mkHttpRequest (r_Method r) account (r_Path r) resource property xname (r_Body r) in
         let r2s := mkRedis2Interface (Memory * S) (rs_rfd rs) resource (r_Path r) xname in
         response <- dispatch (r_Method r) request r2s ;;
         ret (respond response)
     end)
    (e <- internalServerError ;; ret (respond e)).
End server.

(** ** The hooks of the program *)

Section program_hooks.
Context {S : Type} `{RedisOps S}.
Variable GenerateFromPassword : string -> M (Memory * S) (result string).

Definition Accounts_collection : string := "/redfish/v1/AccountService/Accounts".
Definition account_pattern (uri : string) : bool := below (Accounts_collection +:+ "/") is_alnum uri.

Definition initAccountService (rs : redfishServer S) : redfishServer S :=
  let service := fun uri => String.eqb uri "/redfish/v1/AccountService" in
  let rs := addHookIn rs MethodPost (mkHookIn _ (fun uri => String.eqb uri Accounts_collection)
              (Some (AddAccountBefore GenerateFromPassword)) (Some AddAccountAfter)) in
  let rs := addHookIn rs MethodPatch (mkHookIn _ service None (Some Update)) in
  let rs := addHookIn rs MethodPatch (mkHookIn _ account_pattern
              (Some (UpdateAccountBefore GenerateFromPassword)) (Some UpdateAccountAfter)) in
  let rs := addHookIn rs MethodPut (mkHookIn _ service None (Some Update)) in
  let rs := addHookIn rs MethodPut (mkHookIn _ account_pattern
              (Some (UpdateAccountBefore GenerateFromPassword)) (Some UpdateAccountAfter)) in
  addHookIn rs MethodDelete (mkHookIn _ account_pattern None (Some RemoveAccount)).

Definition initJSONSchemaService (pool : gomap object) (rs : redfishServer S) : redfishServer S :=
  let rs := mkServer S (RegisterCollectionCB (rs_rfd rs) (JsonSchema_cb pool)) (privilegeRegistry rs)
              (beforeHookIns rs) (afterHookIns rs) in
  let rs := addHookIn rs MethodGet (mkHookIn _ collection_pattern None (Some (HandleCollection pool))) in
  addHookIn rs MethodGet (mkHookIn _ resource_pattern (Some (HandleResource pool)) None).

(** The server with all of its hooks *)
Definition newRedfishServer (rfd : RedfishDispatcher (Memory * S)) (pr : PrivilegeRegistry) (pool : gomap object) :
    redfishServer S :=
  initJSONSchemaService pool (initAccountService (mkServer S rfd pr [] [])).
End program_hooks.

(* ===================================================================== *)
(** * Lemmas                                                             *)
(* ===================================================================== *)

(** ** Actions that only read *)

Definition keeps {S A} (m : M S A) : Prop := forall s, snd (m s) = s.

Lemma keeps_ret {S A} (a : A) : keeps (S := S) (ret a).
Proof. done. Qed.
Lemma keeps_panic {S A} msg : keeps (S := S) (A := A) (panic msg).
Proof. done. Qed.
Lemma keeps_fatal {S A} msg : keeps (S := S) (A := A) (fatal msg).
Proof. done. Qed.
Lemma keeps_bind {S A B} (m : M S A) (k : A -> M S B) : keeps m -> (forall a, keeps (k a)) -> keeps (bind m k).
Proof.
  intros Hm Hk s. unfold bind. specialize (Hm s). destruct (m s) as [[a|?|?|] s']; simpl in *; subst; [apply Hk|done..].
Qed.
Lemma keeps_bind_ok {S A B} (m : M S (result A)) (k : A -> M S (result B)) :
  keeps m -> (forall a, keeps (k a)) -> keeps (bind_ok m k).
Proof. intros Hm Hk. apply keeps_bind; [done|]. intros [a|e]; [apply Hk|apply keeps_ret]. Qed.

Create HintDb keeps_db.
#[export] Hint Resolve keeps_ret keeps_panic keeps_fatal keeps_bind keeps_bind_ok : keeps_db.
(** Follow the structure of an action. *)
Ltac keeps := repeat first
  [ progress intros | apply keeps_ret | apply keeps_panic | apply keeps_fatal | assumption
  | apply keeps_bind_ok | apply keeps_bind | solve [eauto with keeps_db] | case_match ].

Section keeps.
Context {S : Type}.

Lemma keeps_assert_string (v : option value) : keeps (S := S) (assert_string v).
Proof. unfold assert_string. keeps. Qed.
Lemma keeps_assert_object (v : option value) : keeps (S := S) (assert_object v).
Proof. unfold assert_object. keeps. Qed.
Lemma keeps_assert_array (v : option value) : keeps (S := S) (assert_array v).
Proof. unfold assert_array. keeps. Qed.
Lemma keeps_assert_float (v : option value) : keeps (S := S) (assert_float v).
Proof. unfold assert_float. keeps. Qed.
Lemma keeps_index {A} (l : list A) i : keeps (S := S) (index_list l i).
Proof. unfold index_list. keeps. Qed.
End keeps.
#[export] Hint Resolve keeps_assert_string keeps_assert_object keeps_assert_array keeps_assert_float keeps_index : keeps_db.

Section keeps_message.
Context {S : Type} (rfd : RedfishDispatcher S).

Lemma keeps_message_args regMsg args : forall i msg, keeps (S := S) (GetRedfishMessage_args regMsg i args msg).
Proof.
  induction args as [|a args IH]; intros i msg; [apply keeps_ret|]. simpl. destruct a; keeps.
Qed.
#[local] Hint Resolve keeps_message_args : keeps_db.

Lemma keeps_message prefix id args : keeps (GetRedfishMessage rfd prefix id args).
Proof. unfold GetRedfishMessage. keeps. Qed.

Lemma keeps_message_body prefix id args : keeps (message_body rfd prefix id args).
Proof.
  unfold message_body, GetRedfishMessageString. pose proof (keeps_message prefix id args). keeps.
Qed.
End keeps_message.
#[export] Hint Resolve keeps_message keeps_message_body : keeps_db.

Section privileged.
Context {S : Type} `{RedisOps S} `{FloatText} `{TextParsers}.
Variable rs : redfishServer S.

Lemma keeps_message_reply id args status : keeps (message_reply rs id args status).
Proof. unfold message_reply. keeps. Qed.
#[local] Hint Resolve keeps_message_reply : keeps_db.

Lemma keeps_get_mem : keeps (get_mem (S := S)).
Proof. done. Qed.
Lemma keeps_load a : keeps (load (S := S) a).
Proof. unfold load. pose proof keeps_get_mem. keeps. Qed.
#[local] Hint Resolve keeps_get_mem keeps_load : keeps_db.

Lemma keeps_RequiredPrivileges pr op owner entity prop : keeps (S := Memory * S) (RequiredPrivileges pr op owner entity prop).
Proof. unfold RequiredPrivileges. keeps. Qed.
Lemma keeps_OperationAllowed a required : keeps (OperationAllowed (S := S) a required).
Proof. unfold OperationAllowed, GetRole, mem_field. keeps. Qed.
#[local] Hint Resolve keeps_RequiredPrivileges keeps_OperationAllowed : keeps_db.

Lemma keeps_operation_allowed r res prop : keeps (operation_allowed rs r res prop).
Proof. unfold operation_allowed. keeps. Qed.

(** The account behind a pointer has a role that satisfies the required
    privileges, and is enabled and not locked. *)
Definition entitled (m : Memory) (a : nat) (required : list OperationPrivilege) : Prop :=
  exists ma role op, mem_heap m !! a = Some ma /\ Enabled ma = true /\ Locked ma = false /\
    mget (RoleId ma) (mem_Roles m) = Some role /\ op ∈ required /\
    forall p, p ∈ Privilege op -> p ∈ AssignedPrivileges role.

Lemma OperationAllowed_entitled a required (s : Memory * S) :
  fst (OperationAllowed a required s) = Ret true -> entitled (fst s) a required.
Proof.
  unfold OperationAllowed, load, get_mem, mem_field, GetRole, bind. simpl.
  destruct (mem_heap (fst s) !! a) as [ma|] eqn:Ea; [|done]. simpl.
  destruct (Enabled ma) eqn:En; [|done]. destruct (Locked ma) eqn:El; [done|]. simpl.
  destruct (mget (RoleId ma) (mem_Roles (fst s))) as [role|] eqn:Er; [|done]. simpl.
  intros [= (op & Hop & Hall)%HasPrivilege_iff]. by exists ma, role, op.
Qed.

Lemma operation_allowed_entitled r res prop (s : Memory * S) :
  fst (operation_allowed rs r res prop s) = Ret true ->
  exists required, fst (RequiredPrivileges (privilegeRegistry rs) (httpOperation r) "" (r_Name res) prop s) = Ret required /\
    entitled (fst s) (account r) required.
Proof.
  unfold operation_allowed, bind. pose proof (keeps_RequiredPrivileges (privilegeRegistry rs) (httpOperation r) "" (r_Name res) prop s) as Hk.
  destruct (RequiredPrivileges _ _ _ _ _ s) as [[required|?|?|] s']; simpl in *; subst; try done.
  intros Ha%OperationAllowed_entitled. by exists required.
Qed.

Lemma if_allowed_changes r res next (s : Memory * S) :
  snd (if_allowed rs r res next s) = s \/ fst (operation_allowed rs r res "" s) = Ret true.
Proof.
  unfold if_allowed, bind. pose proof (keeps_operation_allowed r res "" s) as Hk.
  destruct (operation_allowed rs r res "" s) as [[[|]|?|?|] s']; simpl in *; subst; auto.
  left. by rewrite keeps_message_reply.
Qed.
End privileged.

(** A registry with the message [messageID], which takes no argument. *)
Definition plain_message (registries : gomap value) (messageID : string) : Prop :=
  exists registry msgs regMsg version major minor rest,
    mget "Base" registries = Some (VObject registry) /\ mget "Messages" registry = Some (VObject msgs) /\
    mget messageID msgs = Some (VObject regMsg) /\ mget "NumberOfArgs" regMsg = Some (VFloat (float_of_Z 0)) /\
    mget "RegistryVersion" registry = Some (VString version) /\ split_on "." version = major :: minor :: rest.

Lemma plain_message_body {S} (rfd : RedfishDispatcher S) messageID (s : S) :
  plain_message (messageRegistries rfd) messageID -> exists b, message_body rfd "Base" messageID [] s = (Ret b, s).
Proof.
  intros (registry & msgs & regMsg & version & major & minor & rest & Hr & Hms & Hm & Hn & Hv & Hd).
  unfold message_body, GetRedfishMessageString, GetRedfishMessage, bind_ok, bind.
  rewrite Hr, Hms. simpl. rewrite Hm, Hv. simpl. rewrite Hd. simpl. rewrite Hn. simpl. by eexists.
Qed.

(* ===================================================================== *)
(** * Properties                                                         *)
(* ===================================================================== *)

(** C1: nothing changes without the privilege.  A request other than PATCH
    (which is checked field by field) leaves Redis and the memory of the
    account service as they are, unless there is a resource at its URI, and
    the account of the request is enabled, not locked, and has a role with
    all the privileges of one of the alternatives that the registry requires
    for the method on that resource. *)
Theorem changes_need_privilege S `{RedisOps S} `{FloatText} `{TextParsers} (rs : redfishServer S) ipc fuel
    method r r2s (s : Memory * S) :
  snd (dispatch rs ipc fuel method r r2s s) = s \/ method = MethodPatch \/
  exists res required, resource r = Some res /\
    fst (RequiredPrivileges (privilegeRegistry rs) (httpOperation r) "" (r_Name res) "" s) = Ret required /\
    entitled (fst s) (account r) required.
Proof.
  assert (Hif : forall res next, resource r = Some res -> snd (if_allowed rs r res next s) = s \/
    method = MethodPatch \/ exists res required, resource r = Some res /\
    fst (RequiredPrivileges (privilegeRegistry rs) (httpOperation r) "" (r_Name res) "" s) = Ret required /\
    entitled (fst s) (account r) required).
  { intros res next Hres. destruct (if_allowed_changes rs r res next s) as [?|Ha]; [by left|].
    apply operation_allowed_entitled in Ha as (required & ? & ?). right. right. by exists res, required. }
  assert (Hmiss : snd (resourceMissing rs (uri r) s) = s) by apply keeps_message_reply.
  unfold dispatch. destruct (String.eqb method MethodPost); [|destruct (String.eqb method MethodGet);
    [|destruct (String.eqb_spec method MethodPatch); [by right; left|
      destruct (String.eqb method MethodDelete); [|destruct (String.eqb method MethodPut); [|by left]]]]];
    unfold handlePostRequest, handleGetRequest, handleDeleteRequest, handlePutRequest;
    destruct (resource r) as [res|] eqn:Eres; try (by left); try by eapply Hif.
  destruct (property r); [by left|by eapply Hif].
Qed.

(** A panic does not end the server.  When the registries have the
    message for an internal error, the handler of a request never panics:
    it answers, unless the process is ended by a fatal log entry (or the
    bound on the nesting of removed keys is too small). *)
Theorem handleRequest_recovers S `{RedisOps S} `{FloatText} `{TextParsers} (rs : redfishServer S) ipc fuel
    time_now compare r (s : Memory * S)
  (Hmsg : plain_message (messageRegistries (rs_rfd rs)) "InternalError") :
  match fst (handleRequest rs ipc fuel time_now compare r s) with
  | Ret _ | Fatal _ | OutOfFuel => True
  | Panic _ => False
  end.
Proof.
  unfold handleRequest, recovering.
  match goal with |- context [match ?m s with _ => _ end] => destruct (m s) as [[resp|?|?|] s'] end; [done| |done..].
  unfold internalServerError, message_reply, bind. destruct (plain_message_body (rs_rfd rs) "InternalError" s' Hmsg) as [b ->]. done.
Qed.

(** ** A server without helpers *)

Module ServerExample.
#[local] Instance parsers : TextParsers := {|
  parse_rfc3339 _ := true; parse_request_uri _ := true; regexp_match _ _ := true;
|}.
Definition root : Resource := mkResource (plain_resource_info "ServiceRoot" false) [] None.
Definition regMsg : object :=
  [("Message", VString "The request failed due to an internal service error."); ("NumberOfArgs", VFloat (float_of_Z 0));
   ("ParamTypes", VArray []); ("Severity", VString "Critical"); ("Resolution", VString "Resubmit the request.")].
Definition registry : object :=
  [("RegistryPrefix", VString "Base"); ("RegistryVersion", VString "1.4.0");
   ("Messages", VObject [("InternalError", VObject regMsg)])].
Definition server : redfishServer memstore :=
  mkServer memstore (mkDispatcher (Memory * memstore) "" "" root [("Base", VObject registry)] [] []
    (mkWorld _ (fun _ _ => None) (fun _ _ => None) (fun _ _ => None) (fun _ _ _ => ret None)))
    (mkPrivilegeRegistry [] []) [] [].
Definition ipc : IPC (Memory * memstore) := mkIPC _ (ret "42") (fun _ => None) (fun _ => ret true).
Definition admin : ManagerAccount := mkManagerAccount "1" "admin" "Administrator" false true "secret" 0 0 0.
Definition start : Memory * memstore := (mkMemory (mkAccountService 60 30 3 8 64 true) [admin] [("admin", 0%nat)] [], ∅).
(** The privilege registry knows no entity: the check of privileges panics. *)
Definition get_root : http_Request := mkRequest MethodGet "x0c0s0b0-rts:8082" "/redfish/v1" (Some ("admin", "secret")) (BodyValue VNil).

Lemma handleRequest_recovers_witness :
  match fst (handleRequest server ipc 5 (ret 0) String.eqb get_root start) with
  | Ret _ | Fatal _ | OutOfFuel => True
  | Panic _ => False
  end.
Proof.
  apply (handleRequest_recovers memstore server ipc 5 (ret 0) String.eqb get_root start).
  exists registry, [("InternalError", VObject regMsg)], regMsg, "1.4.0", "1", "4", ["0"]. by repeat split.
Defined.

Example get_root_status :
  option_map resp_status match fst (handleRequest server ipc 5 (ret 0) String.eqb get_root start) with
    | Ret resp => Some resp | _ => None end = Some StatusInternalServerError.
Proof. vm_compute. reflexivity. Qed.
End ServerExample.
