(* ===== verification/Creation.v ===== *)
(** The members of a collection in Redis, and what the creation and the
    deletion of a resource do to them ([store_resource], [remove_resource]).

    A collection keeps the list of its indexes at [<uri>/Members], and below
    each index an object with the link to the member. *)
From S2P Require Import Prelude Values Redis Schema Walk RedisStruct Dispatcher RoundTrip.
From S2P Require Import Removal Messages Actions Validator Privileges Accounts AccountHooks JsonSchemas Server.

(* ===================================================================== *)
(** * The collection                                                     *)
(* ===================================================================== *)

Definition link_data (target : string) : rdata := DObj [("@odata.id", DStr target)].
Definition index_key (collectionURI : string) (i : Z) : string := child (Members_key collectionURI) (format_int i).

(** The links of a collection: the index and the URI of each member. *)
Abbreviation links := (list (Z * string)).

Definition index_list_value (l : links) : option rval :=
  match l with [] => None | _ => Some (RList (map (fun e => format_int (fst e)) l)) end.

(** What Redis holds of a collection with the given links. *)
Record collection_ok (ks : keys) (collectionURI : string) (l : links) : Prop := {
  co_list : ks !! Members_key collectionURI = index_list_value l;
  co_indexes : NoDup (map fst l);
  co_range : Forall (fun e => 1 <= fst e < int64_max) l;
  co_links : Forall (fun e => holds ks (link_data (snd e)) (index_key collectionURI (fst e))) l;
  co_fresh : forall i, i ∉ map fst l -> fresh ks (index_key collectionURI i);
}.

Definition next_index (l : links) : Z := foldr Z.max 0 (map fst l) + 1.

(** Redis with one more link. *)
Definition linked (ks : keys) (collectionURI : string) (l : links) (target : string) : keys :=
  image (link_data target) (index_key collectionURI (next_index l))
  ∪ <[Members_key collectionURI := RList (map (fun e => format_int (fst e)) l ++ [format_int (next_index l)])]> ks.

(** Redis with one link less. *)
Definition put_or_delete (k : string) (v : option rval) (ks : keys) : keys :=
  match v with Some v => <[k := v]> ks | None => delete k ks end.
Definition without (i : Z) (l : links) : links := base.filter (fun e => fst e <> i) l.
Definition unlinked (ks : keys) (collectionURI : string) (l : links) (i : Z) : keys :=
  delete (child (index_key collectionURI i) "@odata.id") (delete (index_key collectionURI i)
    (put_or_delete (Members_key collectionURI) (index_list_value (without i l)) ks)).

(* ===================================================================== *)
(** * Lemmas                                                             *)
(* ===================================================================== *)

Lemma index_key_inj uri i j : index_key uri i = index_key uri j -> i = j.
Proof. intros E%child_inj. by apply format_int_inj. Qed.

Lemma format_int_slash i : free_of slash (format_int i) = true.
Proof. by apply format_int_free. Qed.

Lemma index_keys_apart uri i j k : under (index_key uri i) k -> under (index_key uri j) k -> i = j.
Proof. intros Hi Hj. apply format_int_inj. eapply under_siblings; [apply format_int_slash..|exact Hi|exact Hj]. Qed.

Lemma foldr_max_ge l z : z ∈ l -> z <= foldr Z.max 0 l.
Proof. induction l as [|y l IH]; [by intros ?%elem_of_nil|]. intros [->|Hz]%elem_of_cons; simpl; [lia|]. specialize (IH Hz). lia. Qed.

Lemma foldr_max_bound l b : 0 <= b -> Forall (fun z => z <= b) l -> 0 <= foldr Z.max 0 l <= b.
Proof. intros Hb. induction 1; simpl; lia. Qed.

Lemma next_index_fresh l : next_index l ∉ map fst l.
Proof. intros H%foldr_max_ge. unfold next_index in H. lia. Qed.

Lemma next_index_range l : Forall (fun e => 1 <= fst e < int64_max) l -> 1 <= next_index l <= int64_max.
Proof.
  intros Hl. unfold next_index. assert (0 <= foldr Z.max 0 (map fst l) <= int64_max - 1); [|lia].
  apply foldr_max_bound; [done|]. apply Forall_fmap. eapply Forall_impl; [exact Hl|]. simpl. intros e ?. lia.
Qed.

(** ** Links *)

Lemma link_storable u : storable (link_data u) = true.
Proof. done. Qed.

Lemma image_link u key : image (link_data u) key
  = <[key := RSet {["@odata.id"]}]> {[child key "@odata.id" := RStr u]}.
Proof. simpl. by rewrite (right_id_L ∅ (∪)), (right_id_L ∅ (∪)). Qed.

Lemma holds_link ks u key : holds ks (link_data u) key -> ks !! child key "@odata.id" = Some (RStr u).
Proof.
  intros Hh. rewrite (Hh _ (under_child key "@odata.id")), image_link, lookup_insert_ne
    by (intros E; symmetry in E; revert E; apply child_ne). apply lookup_singleton_eq.
Qed.

(** Data elsewhere is as it was. *)
Lemma holds_same ks ks' d key : (forall k, under key k -> ks' !! k = ks !! k) -> holds ks d key -> holds ks' d key.
Proof. intros He Hh k Hk. rewrite He by done. by apply Hh. Qed.

Lemma Members_not_under uri i : ~ under (index_key uri i) (Members_key uri).
Proof. apply child_not_under. Qed.

Lemma linked_at ks uri l u k : under (index_key uri (next_index l)) k ->
  fresh ks (index_key uri (next_index l)) ->
  linked ks uri l u !! k = image (link_data u) (index_key uri (next_index l)) !! k.
Proof.
  intros Hk Hf. unfold linked. rewrite lookup_union, lookup_insert_ne
    by (intros <-; by eapply Members_not_under). rewrite Hf by done. by destruct (image _ _ !! k).
Qed.

Lemma linked_elsewhere ks uri l u k : ~ under (index_key uri (next_index l)) k -> k <> Members_key uri ->
  linked ks uri l u !! k = ks !! k.
Proof.
  intros Hk Hne. unfold linked. rewrite lookup_union, image_not_under, lookup_insert_ne by done.
  apply (left_id_L None _).
Qed.

Lemma linked_members ks uri l u : linked ks uri l u !! Members_key uri
  = Some (RList (map (fun e => format_int (fst e)) l ++ [format_int (next_index l)])).
Proof.
  unfold linked. rewrite lookup_union, image_not_under by apply Members_not_under.
  by rewrite lookup_insert_eq.
Qed.

(** A link more is a link more. *)
Lemma linked_ok ks uri l u :
  collection_ok ks uri l -> next_index l < int64_max ->
  collection_ok (linked ks uri l u) uri (l ++ [(next_index l, u)]).
Proof.
  intros [Hl Hnd Hr Hh Hf] Hmax. pose proof (next_index_fresh l) as Hnew.
  assert (Helse : forall i k, i <> next_index l -> under (index_key uri i) k -> linked ks uri l u !! k = ks !! k).
  { intros i k Hi Hk. apply linked_elsewhere.
    - intros Hk'. apply Hi. by eapply index_keys_apart.
    - intros ->. by eapply Members_not_under. }
  constructor.
  - rewrite linked_members. unfold index_list_value. rewrite map_app. by destruct l.
  - rewrite map_app. apply NoDup_app. split; [done|]. split; [|apply NoDup_singleton].
    intros x Hx ->%list_elem_of_singleton. done.
  - apply Forall_app. split; [done|]. repeat constructor; simpl; pose proof (next_index_range l Hr); lia.
  - apply Forall_app. split.
    + apply Forall_forall. intros e He. rewrite Forall_forall in Hh.
      eapply holds_same; [|by apply Hh]. intros k Hk. eapply Helse; [|exact Hk]. intros E.
      apply Hnew. rewrite <- E. apply list_elem_of_fmap. by exists e.
    + repeat constructor. intros k Hk. apply linked_at; [exact Hk|by apply Hf].
  - intros i Hi k Hk. rewrite map_app in Hi. simpl in Hi.
    rewrite not_elem_of_app, list_elem_of_singleton in Hi. destruct Hi as [Hi Hne].
    rewrite (Helse i k Hne Hk). by apply (Hf i).
Qed.

Section members.
Context {S : Type} `{RedisLaws S}.

Lemma largest_index_format zs : forall off (s : Memory * S),
  Forall in_int64 zs -> largest_index off (map format_int zs) s = (Ret (foldr Z.max off (reverse zs)), s).
Proof.
  induction zs as [|z zs IH]; intros off s Hz; [done|]. apply Forall_cons in Hz as [Hz Hzs].
  simpl. rewrite parse_format_int by done. rewrite IH by done. rewrite reverse_cons, foldr_app. simpl.
  repeat f_equal. destruct (Z.ltb_spec off z); lia.
Qed.

Lemma foldr_max_off l off : 0 <= off -> foldr Z.max off l = Z.max off (foldr Z.max 0 l).
Proof. intros Hoff. induction l as [|z l IH]; simpl; lia. Qed.

Lemma foldr_max_perm l l' : l ≡ₚ l' -> foldr Z.max 0 l = foldr Z.max 0 l'.
Proof. induction 1; simpl; lia. Qed.

(** Linking a member succeeds and adds exactly its link. *)
Lemma link_member_adds ks uri l u :
  collection_ok ks uri l -> next_index l < int64_max ->
  wp ks (link_member (S := S) uri u) (returns (fun _ ks' => ks' = linked ks uri l u)).
Proof.
  intros [Hl Hnd Hr Hh Hf] Hmax. unfold link_member.
  assert (Hidx : exists zs, zs = map fst l /\ lrange_reply (ks !! Members_key uri) = Ok (map format_int zs)).
  { exists (map fst l). split; [done|]. rewrite Hl, map_map. by destruct l. }
  destruct Hidx as (zs & Ezs & Hrep). pose proof (next_index_range l Hr) as Hn.
  wp_steps. rewrite Hrep. wp_steps. eapply wp_eq.
  { intros s. apply largest_index_format. subst zs. apply Forall_fmap. eapply Forall_impl; [exact Hr|].
    intros e. unfold in_int64, int64_min. simpl. lia. }
  rewrite (foldr_max_perm (reverse zs) zs) by apply reverse_Permutation. unfold after at 1.
  assert (Hnext : wrap64 (foldr Z.max 0 zs + 1) = next_index l).
  { subst zs. fold (next_index l). apply wrap64_id. unfold in_int64, int64_min. lia. }
  cbv zeta. rewrite Hnext. clear Hnext.
  wp_steps. unfold rpush_effect. rewrite Hl.
  set (ks1 := <[Members_key uri := RList (map (fun e => format_int (fst e)) l ++ [format_int (next_index l)])]> ks).
  assert (Heff : match index_list_value l with
    | Some (RList l0) => (Ok tt, <[Members_key uri := RList (l0 ++ [format_int (next_index l)])]> ks)
    | None => (Ok tt, <[Members_key uri := RList [format_int (next_index l)]]> ks)
    | _ => (Err ErrWrongType, ks) end = (Ok tt, ks1)) by by destruct l.
  rewrite Heff. cbn [fst snd]. wp_steps.
  eapply wp_mono; [apply insert_object_ok; [done|]|].
  - intros k Hk. unfold ks1. rewrite lookup_insert_ne by (intros <-; by eapply Members_not_under).
    apply (Hf (next_index l)); [apply next_index_fresh|exact Hk].
  - intros [r| | |] ks2; simpl; try done. intros [-> ->]. wp_steps. done.
Qed.
End members.

(** ** Removing a link *)

Lemma filter_indexes i (l : links) :
  base.filter (fun x => x <> format_int i) (map (fun e => format_int (fst e)) l)
  = map (fun e => format_int (fst e)) (without i l).
Proof.
  unfold without. induction l as [|[j u] l IH]; [done|]. simpl.
  destruct (decide (j = i)) as [->|Hne].
  - rewrite !filter_cons_False by naive_solver. exact IH.
  - rewrite !filter_cons_True; [simpl; by rewrite IH|done|]. by intros E%format_int_inj.
Qed.

Lemma lookup_put_or_delete_eq k v (ks : keys) : put_or_delete k v ks !! k = v.
Proof. destruct v; simpl; [apply lookup_insert_eq|apply lookup_delete_eq]. Qed.
Lemma lookup_put_or_delete_ne k k' v (ks : keys) : k <> k' -> put_or_delete k v ks !! k' = ks !! k'.
Proof. intros Hne. destruct v; simpl; [by apply lookup_insert_ne|by apply lookup_delete_ne]. Qed.

(** What is stored for a link is its set and its target. *)
Lemma link_region ks uri l i u k :
  collection_ok ks uri l -> (i, u) ∈ l -> under (index_key uri i) k ->
  k <> index_key uri i -> k <> child (index_key uri i) "@odata.id" -> ks !! k = None.
Proof.
  intros Hok Hin Hk H1 H2. pose proof (co_links _ _ _ Hok) as Hh. rewrite Forall_forall in Hh.
  rewrite (Hh _ Hin k Hk). simpl snd. rewrite image_link, lookup_insert_ne by done. by apply lookup_singleton_ne.
Qed.

Lemma unlinked_elsewhere ks uri l i k : ~ under (index_key uri i) k -> k <> Members_key uri ->
  unlinked ks uri l i !! k = ks !! k.
Proof.
  intros Hk Hne. unfold unlinked. rewrite !lookup_delete_ne, lookup_put_or_delete_ne; try done;
    intros <-; apply Hk; auto with keys_db.
Qed.

Lemma unlinked_members ks uri l i : unlinked ks uri l i !! Members_key uri = index_list_value (without i l).
Proof.
  unfold unlinked. rewrite !lookup_delete_ne; [apply lookup_put_or_delete_eq| |];
    intros E; eapply (Members_not_under uri i); rewrite <- E; auto with keys_db.
Qed.

Lemma unlinked_gone ks uri l i u k : collection_ok ks uri l -> (i, u) ∈ l -> under (index_key uri i) k ->
  unlinked ks uri l i !! k = None.
Proof.
  intros Hok Hin Hk. unfold unlinked.
  destruct (decide (k = child (index_key uri i) "@odata.id")) as [->|H2]; [apply lookup_delete_eq|].
  rewrite lookup_delete_ne by done.
  destruct (decide (k = index_key uri i)) as [->|H1]; [apply lookup_delete_eq|].
  rewrite lookup_delete_ne, lookup_put_or_delete_ne; [by eapply link_region|intros <-; by eapply Members_not_under|done].
Qed.

(** A link less is a link less. *)
Lemma unlinked_ok ks uri l i u :
  collection_ok ks uri l -> (i, u) ∈ l -> collection_ok (unlinked ks uri l i) uri (without i l).
Proof.
  intros Hok Hin. destruct Hok as [Hl Hnd Hr Hh Hf] eqn:Eok. clear Eok.
  assert (Hsub : without i l ⊆+ l) by (apply sublist_submseteq, sublist_filter).
  assert (Helse : forall j k, j <> i -> under (index_key uri j) k -> unlinked ks uri l i !! k = ks !! k).
  { intros j k Hj Hk. apply unlinked_elsewhere.
    - intros Hk'. apply Hj. by eapply index_keys_apart.
    - intros ->. by eapply Members_not_under. }
  constructor.
  - apply unlinked_members.
  - eapply sublist_NoDup; [exact Hnd|]. apply fmap_sublist, sublist_filter.
  - apply Forall_forall; intros e [_ He]%list_elem_of_filter; rewrite Forall_forall in Hr; by apply Hr.
  - apply Forall_forall. intros e [Hne He]%list_elem_of_filter. rewrite Forall_forall in Hh.
    eapply holds_same; [|by apply Hh]. intros k Hk. by eapply Helse.
  - intros j Hj k Hk. destruct (decide (j = i)) as [->|Hne]; [by eapply unlinked_gone|].
    rewrite (Helse j k Hne Hk). apply (Hf j); [|exact Hk]. intros ([j' u'] & -> & Hin')%list_elem_of_fmap.
    apply Hj, list_elem_of_fmap. exists (j', u'). split; [done|]. by apply list_elem_of_filter.
Qed.

Lemma filter_id {A} (P : A -> Prop) `{forall x, Decision (P x)} (l : list A) : (forall x, x ∈ l -> P x) -> base.filter P l = l.
Proof.
  induction l as [|x l IH]; intros Hl; [done|]. rewrite filter_cons_True by (apply Hl; left).
  f_equal. apply IH. intros y Hy. apply Hl. by right.
Qed.

(** Removing the link just added changes nothing. *)
Lemma unlinked_linked ks uri l u :
  collection_ok ks uri l -> next_index l < int64_max ->
  unlinked (linked ks uri l u) uri (l ++ [(next_index l, u)]) (next_index l) = ks.
Proof.
  intros Hok Hmax. pose proof (linked_ok ks uri l u Hok Hmax) as Hok'. apply map_eq. intros k.
  destruct (decide (under (index_key uri (next_index l)) k)) as [Hu|Hu].
  - rewrite (unlinked_gone _ _ _ _ u k Hok'); [|apply elem_of_app; right; by left|done].
    symmetry. apply (co_fresh _ _ _ Hok _ (next_index_fresh l)). exact Hu.
  - destruct (decide (k = Members_key uri)) as [->|Hne].
    + rewrite unlinked_members, (co_list _ _ _ Hok). f_equal. unfold without. rewrite filter_app.
      rewrite filter_cons_False by (simpl; naive_solver). rewrite app_nil_r. apply filter_id.
      intros e He Heq. apply (next_index_fresh l). rewrite <- Heq. apply list_elem_of_fmap. by exists e.
    + rewrite unlinked_elsewhere by done. by apply linked_elsewhere.
Qed.

Section remove_member.
Context {S : Type} `{RedisLaws S}.

Lemma get_or_empty_str ks key t (Q : outcome string -> keys -> Prop) :
  ks !! key = Some (RStr t) -> Q (Ret t) ks -> wp (S := Memory * S) ks (get_or_empty key) Q.
Proof. intros Hk HQ. unfold get_or_empty. wp_steps. by rewrite Hk. Qed.

Lemma link_index_finds ks uri u i l :
  Forall (fun e => holds ks (link_data (snd e)) (index_key uri (fst e))) l -> NoDup (map snd l) -> (i, u) ∈ l ->
  wp ks (link_index (S := S) uri u (map (fun e => format_int (fst e)) l))
    (fun o ks' => o = Ret (format_int i) /\ ks' = ks).
Proof.
  induction l as [|[j v] l IH]; intros Hh Hnd Hin; [by apply elem_of_nil in Hin|].
  apply Forall_cons in Hh as [Hj%holds_link Hh]. simpl in Hnd. apply NoDup_cons in Hnd as [Hnew Hnd].
  simpl. apply wp_bind. eapply get_or_empty_str; [exact Hj|]. unfold after at 1. simpl snd.
  apply elem_of_cons in Hin as [[= -> ->]|Hin].
  - rewrite String.eqb_refl. by wp_steps.
  - destruct (String.eqb_spec v u) as [->|_]; [|by apply IH]. destruct Hnew.
    apply list_elem_of_fmap. by exists (i, u).
Qed.

(** Unlinking a member succeeds and removes exactly its link. *)
Lemma unlink_member_removes ks uri l i u :
  collection_ok ks uri l -> NoDup (map snd l) -> (i, u) ∈ l ->
  wp ks (unlink_member (S := S) uri u) (returns (fun _ ks' => ks' = unlinked ks uri l i)).
Proof.
  intros Hok Hnd Hin. unfold unlink_member. wp_steps.
  assert (Hv : ks !! Members_key uri = Some (RList (map (fun e => format_int (fst e)) l))).
  { rewrite (co_list _ _ _ Hok). destruct l; [by apply elem_of_nil in Hin|done]. }
  rewrite Hv. unfold lrange_reply. wp_steps.
  eapply wp_mono; [by apply (link_index_finds ks uri u i l (co_links _ _ _ Hok))|]. intros o ks' [-> ->].
  unfold after at 1. destruct (String.eqb_spec (format_int i) "") as [E|_].
  { exfalso. revert E. apply format_int_nonempty. }
  wp_steps. unfold lrem_effect. rewrite Hv, filter_indexes. cbn [fst snd]. wp_steps.
  unfold unlinked, index_list_value. by destruct (without i l).
Qed.
End remove_member.

(** ** The stored resource *)

Lemma forallb_mput {A} (f : string * A -> bool) k a m :
  f (k, a) = true -> forallb f m = true -> forallb f (mput k a m) = true.
Proof.
  intros Hk. induction m as [|[k' a'] m IH]; simpl; [by rewrite Hk|]. rewrite andb_true_iff. intros [Hk' Hm].
  destruct (String.eqb_spec k k') as [->|]; simpl; [by rewrite Hk, Hm|]. by rewrite Hk', IH.
Qed.

Lemma mput_nonempty {A} k (a : A) m : mput k a m <> [].
Proof. destruct m as [|[k' a'] m]; simpl; [done|]. by destruct (String.eqb k k'). Qed.

Lemma storable_mput k m : free_of slash k = true -> m = [] \/ storable (DObj m) = true -> storable (DObj (mput k DNil m)) = true.
Proof.
  intros Hk Hm. assert (Hparts : bool_decide (NoDup (map fst m)) = true /\
    forallb (fun e => free_of slash (fst e) && storable (snd e)) m = true).
  { destruct Hm as [->|Hm]; [split; [by apply bool_decide_eq_true, NoDup_nil|done]|]. simpl in Hm.
    apply andb_true_iff in Hm as [[_ ?]%andb_true_iff ?]. done. }
  destruct Hparts as [Hnd%bool_decide_eq_true Hall].
  change (negb (bool_decide (mput k DNil m = [])) && bool_decide (NoDup (map fst (mput k DNil m)))
    && forallb (fun e => free_of slash (fst e) && storable (snd e)) (mput k DNil m) = true).
  rewrite bool_decide_false by apply mput_nonempty. rewrite bool_decide_true by by apply mwf_mput.
  rewrite forallb_mput; [done|simpl; by rewrite Hk|done].
Qed.

Lemma generated_storable m : m = [] \/ storable (DObj m) = true -> storable (DObj (generated_odata m)) = true.
Proof. intros Hm. unfold generated_odata. do 2 (apply storable_mput; [done|right]). by apply storable_mput. Qed.

Lemma generated_removable ps m : forallb (fun e => removable (mget (fst e) ps) (snd e)) m = true ->
  forallb (fun e => removable (mget (fst e) ps) (snd e)) (generated_odata m) = true.
Proof. intros Hm. by do 3 (apply forallb_mput; [done|]). Qed.

Lemma height_mput k m :
  (list_max (map (fun e => rdata_height (snd e)) (mput k DNil m)) <= list_max (map (fun e => rdata_height (snd e)) m))%nat.
Proof. induction m as [|[k' d] m IH]; simpl; [lia|]. destruct (String.eqb k k'); simpl; lia. Qed.

Lemma generated_height m : (rdata_height (DObj (generated_odata m)) <= rdata_height (DObj m))%nat.
Proof.
  change (Datatypes.S (list_max (map (fun e => rdata_height (snd e)) (generated_odata m)))
    <= Datatypes.S (list_max (map (fun e => rdata_height (snd e)) m)))%nat.
  unfold generated_odata. pose proof (height_mput "@odata.id" m). pose proof (height_mput "@odata.type" (mput "@odata.id" DNil m)).
  pose proof (height_mput "@odata.context" (mput "@odata.type" DNil (mput "@odata.id" DNil m))). lia.
Qed.

(** A resource and the members list of its collection do not meet. *)
Lemma member_apart uri id k : free_of slash id = true -> id <> "Members" ->
  under (child uri id) k -> under (Members_key uri) k -> False.
Proof. intros Hid Hne H1 H2. apply Hne. by eapply under_siblings. Qed.

Lemma collection_elsewhere ks ks' uri l :
  (forall k, under (Members_key uri) k -> ks' !! k = ks !! k) -> collection_ok ks uri l -> collection_ok ks' uri l.
Proof.
  intros He [Hl Hnd Hr Hh Hf].
  assert (Hi : forall i k, under (index_key uri i) k -> ks' !! k = ks !! k).
  { intros i k Hk. apply He. by eapply under_of_child. }
  constructor; try done.
  - by rewrite He by apply under_refl.
  - eapply Forall_impl; [exact Hh|]. intros e. apply holds_same, Hi.
  - intros i Hni k Hk. rewrite (Hi i) by done. by apply (Hf i).
Qed.

(** Commands over the memory and the server *)
Section stored.
Context {S : Type} `{RedisLaws S} `{FloatText}.

Definition stored (ks : keys) (resource : Resource) (uri id : string) (obj : object) : keys :=
  image (DObj (generated_odata (encode_fields (r_Properties resource) obj))) (child uri id) ∪ ks.

Lemma stored_collection ks resource uri id obj l : free_of slash id = true -> id <> "Members" ->
  collection_ok ks uri l -> collection_ok (stored ks resource uri id obj) uri l.
Proof.
  intros Hid Hne. apply collection_elsewhere. intros k Hk. unfold stored.
  rewrite lookup_union, image_not_under; [apply (left_id_L None _)|]. intros Hu. by eapply member_apart.
Qed.

Lemma store_resource_stores ks resource uri id obj l :
  object_conforms (r_Properties resource) obj = true -> fresh ks (child uri id) ->
  free_of slash id = true -> id <> "Members" -> collection_ok ks uri l -> next_index l < int64_max ->
  wp ks (store_resource (S := S) resource uri id obj)
    (returns (fun _ ks' => ks' = linked (stored ks resource uri id obj) uri l (child uri id))).
Proof.
  intros Hc Hf Hid Hne Hok Hmax. unfold store_resource. apply wp_bind, wp_must.
  eapply wp_eq; [intros s; by apply Interface2Redis_conforming|]. unfold after at 1. wp_steps.
  eapply wp_mono; [apply insert_object_ok; [|exact Hf]|].
  - apply generated_storable. right. by apply object_conforms_storable.
  - intros [r| | |] ks1; simpl; try done. intros [-> ->]. wp_steps.
    apply link_member_adds; [by apply stored_collection|done].
Qed.

Lemma stored_holds ks resource uri id obj l : fresh ks (child uri id) -> free_of slash id = true -> id <> "Members" ->
  holds (linked (stored ks resource uri id obj) uri l (child uri id))
    (DObj (generated_odata (encode_fields (r_Properties resource) obj))) (child uri id).
Proof.
  intros Hf Hid Hne k Hk. rewrite linked_elsewhere.
  - by apply holds_image.
  - intros Hu. eapply member_apart; [exact Hid|exact Hne|exact Hk|]. by eapply under_of_child.
  - intros ->. eapply member_apart; [exact Hid|exact Hne|exact Hk|]. apply under_refl.
Qed.

(** Without the resource, what is left is the link. *)
Lemma stored_cleared ks ks3 resource uri id obj l :
  fresh ks (child uri id) -> free_of slash id = true -> id <> "Members" ->
  cleared (child uri id) (linked (stored ks resource uri id obj) uri l (child uri id)) (Ret tt) ks3 ->
  ks3 = linked ks uri l (child uri id).
Proof.
  intros Hf Hid Hne (_ & [_ Hp] & Hgone). apply map_eq. intros k.
  destruct (decide (under (child uri id) k)) as [Hu|Hu].
  - rewrite Hgone by done. symmetry. rewrite linked_elsewhere; [by apply Hf| |].
    + intros Hi. eapply member_apart; [exact Hid|exact Hne|exact Hu|]. by eapply under_of_child.
    + intros ->. eapply member_apart; [exact Hid|exact Hne|exact Hu|]. apply under_refl.
  - rewrite Hp by done. unfold linked. rewrite !lookup_union. f_equal.
    destruct (decide (k = Members_key uri)) as [->|Hk]; [by rewrite !lookup_insert_eq|].
    rewrite !lookup_insert_ne by done. unfold stored. rewrite lookup_union, image_not_under by done.
    apply (left_id_L None _).
Qed.

Lemma RedisRemoveResource_stored ks resource uri id obj l fuel :
  object_conforms (r_Properties resource) obj = true -> fresh ks (child uri id) ->
  free_of slash id = true -> id <> "Members" ->
  (rdata_height (DObj (encode_fields (r_Properties resource) obj)) <= fuel)%nat ->
  wp (S := S) (linked (stored ks resource uri id obj) uri l (child uri id))
    (RedisRemoveResource fuel resource (child uri id))
    (returns (fun _ ks' => ks' = linked ks uri l (child uri id))).
Proof.
  intros Hc Hf Hid Hne Hfuel. apply object_conforms_removable in Hc as Hrem. apply object_conforms_storable in Hc as Hst.
  eapply wp_mono; [eapply clear_object with (m := generated_odata (encode_fields (r_Properties resource) obj))|].
  - apply Forall_forall. intros e _. apply field_clears.
  - apply generated_storable. by right.
  - by apply generated_removable.
  - by apply stored_holds.
  - etrans; [apply generated_height|done].
  - intros o ks3 Hcl. pose proof Hcl as (-> & _). simpl. by eapply stored_cleared.
Qed.
End stored.

(** The collection of a resource *)
Lemma join_cons x l : l <> [] -> join "/" (x :: l) = x +:+ "/" +:+ join "/" l.
Proof. by destruct l. Qed.

Lemma split_on_nonempty c s : split_on c s <> [].
Proof. destruct s; simpl; [done|]. repeat case_match; done. Qed.

Lemma join_split s : join "/" (split_slash s) = s.
Proof.
  unfold split_slash. induction s as [|a s IH]; [done|]. simpl.
  destruct (Ascii.eqb_spec a slash) as [->|_].
  - rewrite join_cons by apply split_on_nonempty. by rewrite IH, str_app_nil.
  - destruct (split_on slash s) as [|h l] eqn:E; [by apply split_on_nonempty in E|].
    destruct l as [|h' l]; [simpl in *; by rewrite IH|]. rewrite join_cons in * by done.
    by rewrite <- IH, str_app_cons.
Qed.

Lemma parent_uri_child uri id : free_of slash id = true -> parent_uri (child uri id) = uri.
Proof.
  intros Hid. unfold parent_uri, child, split_slash. rewrite split_on_cut, (split_on_free slash id) by done.
  rewrite removelast_last. apply join_split.
Qed.

Section missing.
Context {S : Type} `{RedisOps S} `{TextParsers}.

(** A map without keys is empty. *)
Lemma mkeys_nil {A} (m : gomap A) : (forall n, n ∉ mkeys m) -> m = [].
Proof. destruct m as [|[k a] m]; [done|]. intros Hm. destruct (Hm k). by left. Qed.

Lemma if_complete_missing (rs : redfishServer S) report next (s : Memory * S) n :
  (forall n, n ∉ mkeys (or_sets report MissingRequired)) -> n ∈ mkeys (or_sets report MissingRequiredOnCreate) ->
  if_complete rs report next s = (Ret (reply (JsonBody (VArray [])) StatusBadRequest), s).
Proof.
  intros Hno%mkeys_nil Hn. unfold if_complete. rewrite Hno.
  by destruct (or_sets report MissingRequiredOnCreate); [by apply elem_of_nil in Hn|].
Qed.
End missing.

(* ===================================================================== *)
(** * Properties                                                         *)
(* ===================================================================== *)

(** C11: a creation extends its collection.  For a request object that
    conforms to the schema, an identifier without a slash other than
    [Members], nothing stored at the resource's key, and a well-formed
    collection whose next index fits in 64 bits, the storing part of a POST
    succeeds; Redis gains the image of the object, with three generated
    annotations that have no value, and one link; and the collection is
    well-formed with the new member, at an index no other member has. *)
Theorem store_resource_links S `{RedisLaws S} `{FloatText} ks resource uri id obj l
  (Hc : object_conforms (r_Properties resource) obj = true) (Hf : fresh ks (child uri id))
  (Hid : free_of slash id = true) (Hne : id <> "Members")
  (Hok : collection_ok ks uri l) (Hmax : next_index l < int64_max) :
  wp ks (store_resource (S := S) resource uri id obj)
    (returns (fun _ ks' => ks' = linked (stored ks resource uri id obj) uri l (child uri id) /\
       collection_ok ks' uri (l ++ [(next_index l, child uri id)]) /\ next_index l ∉ map fst l)).
Proof.
  eapply wp_mono; [by apply (store_resource_stores ks resource uri id obj l)|].
  intros [r| | |] ks'; simpl; try done. intros ->. split; [done|]. split; [|apply next_index_fresh].
  apply linked_ok; [by apply stored_collection|done].
Qed.

(** C7: a deletion undoes a creation.  Under the same conditions, when no
    member has the URI yet, what a POST stores and the following DELETE
    removes leaves Redis exactly as it was: the resource, its link, and the
    list of the members. *)
Theorem create_delete_identity S `{RedisLaws S} `{FloatText} ks resource uri id obj l fuel
  (Hc : object_conforms (r_Properties resource) obj = true) (Hf : fresh ks (child uri id))
  (Hid : free_of slash id = true) (Hne : id <> "Members")
  (Hok : collection_ok ks uri l) (Hmax : next_index l < int64_max)
  (Hnd : NoDup (map snd l)) (Hnew : child uri id ∉ map snd l)
  (Hfuel : (rdata_height (DObj (encode_fields (r_Properties resource) obj)) <= fuel)%nat) :
  wp ks (store_resource (S := S) resource uri id obj ;; remove_resource fuel resource (child uri id))
    (returns (fun _ ks' => ks' = ks)).
Proof.
  apply wp_bind. eapply wp_mono; [by apply (store_resource_stores ks resource uri id obj l)|].
  intros [r| | |] ks1; simpl; try done. intros ->. unfold remove_resource.
  apply wp_bind. eapply wp_mono; [by apply RedisRemoveResource_stored|].
  intros [[]| | |] ks2; simpl; try done. intros ->. rewrite parent_uri_child by done.
  eapply wp_mono; [apply (unlink_member_removes _ uri (l ++ [(next_index l, child uri id)]) (next_index l))|].
  - by apply linked_ok.
  - rewrite map_app. simpl. apply NoDup_app. split; [done|]. split; [|apply NoDup_singleton].
    intros x Hx ->%list_elem_of_singleton. done.
  - apply elem_of_app. right. by left.
  - intros [r'| | |] ks3; simpl; try done. intros ->. by apply unlinked_linked.
Qed.

(** The names missing on creation are not told.  When a request for a
    creation has all required properties but lacks one that is required on
    creation, the answer is 400 with an empty array of messages (and nothing
    is stored), as the loop runs over the other set of names. *)
Theorem missing_on_create_unnamed S `{RedisOps S} `{FloatText} `{TextParsers} (rs : redfishServer S)
    r collection resource obj n (s : Memory * S)
  (Hins : ri_Insertable (r_info collection) = true) (Hcoll : CollectionOf collection = Some resource)
  (Hbody : requestBody r = BodyValue (VObject obj)) (Hobj : obj <> [])
  (Hc : checkable_resource resource = true)
  (Hreq : forall m, m ∈ ri_RequiredProperties (r_info resource) -> m ∈ mkeys obj)
  (Hn : n ∈ ri_RequiredOnCreate (r_info resource)) (Hmiss : n ∉ mkeys obj) :
  handleResourceCreation rs r collection s = (Ret (reply (JsonBody (VArray [])) StatusBadRequest), s).
Proof.
  unfold handleResourceCreation. rewrite Hins, Hbody, Hcoll.
  destruct obj as [|e obj]; [done|].
  destruct (checkResource_reports resource (e :: obj) s Hc) as (report & E & _ & Hr1 & Hr2).
  cbv delta [Unmarshal_map negb] beta iota. erewrite bind_step by exact E. apply (if_complete_missing rs report _ s n).
  - intros m Hm%Hr1. naive_solver.
  - by apply Hr2.
Qed.

(** ** A collection with one member *)

Module CreationExample.
Import RoundTripExample.
Definition leds : string := "/redfish/v1/Leds".
Definition ledResource : Resource := mkResource (plain_resource_info "Led" false) led None.
Definition one_led : keys := linked ∅ leds [] (child leds "L0").
Definition one_link : links := [(1, child leds "L0")].

Lemma no_led : collection_ok ∅ leds [].
Proof. constructor; [done|apply NoDup_nil_2|by constructor|by constructor|]. by intros i _ k _. Qed.

Lemma one_led_ok : collection_ok one_led leds one_link.
Proof. apply (linked_ok ∅ leds []); [exact no_led|by vm_compute]. Qed.

Lemma led_fresh : fresh one_led (child leds "L1").
Proof.
  intros k Hk. unfold one_led. rewrite linked_elsewhere; [done| |].
  - intros Hi. eapply (member_apart leds "L1"); [reflexivity|discriminate|exact Hk|]. by eapply under_of_child.
  - intros ->. eapply (member_apart leds "L1"); [reflexivity|discriminate|exact Hk|]. apply under_refl.
Qed.

Lemma store_resource_links_witness :
  wp (S := Memory * memstore) one_led (store_resource ledResource leds "L1" request)
    (returns (fun _ ks' => ks' = linked (stored one_led ledResource leds "L1" request) leds one_link (child leds "L1") /\
       collection_ok ks' leds (one_link ++ [(next_index one_link, child leds "L1")]) /\
       next_index one_link ∉ map fst one_link)).
Proof.
  apply (store_resource_links memstore one_led ledResource leds "L1" request one_link);
    [vm_compute; reflexivity|exact led_fresh|reflexivity|discriminate|exact one_led_ok|vm_compute; reflexivity].
Defined.

Lemma create_delete_identity_witness :
  wp (S := Memory * memstore) one_led
    (store_resource ledResource leds "L1" request ;; remove_resource 3 ledResource (child leds "L1"))
    (returns (fun _ ks' => ks' = one_led)).
Proof.
  apply (create_delete_identity memstore one_led ledResource leds "L1" request one_link 3);
    [vm_compute; reflexivity|exact led_fresh|reflexivity|discriminate|exact one_led_ok|vm_compute; reflexivity| | |vm_compute; lia].
  - apply NoDup_singleton.
  - intros Hin%list_elem_of_singleton. vm_compute in Hin. discriminate Hin.
Defined.

#[local] Instance parsers : TextParsers := {|
  parse_rfc3339 _ := true; parse_request_uri _ := true; regexp_match _ _ := true;
|}.
(** A resource that requires [Lit] when it is created. *)
Definition lit_info : resource_info :=
  mkResourceInfo "Led" "#Led" "/redfish/v1/$metadata#Led" None None false [] true true true false false ["Name"] ["Lit"] "".
Definition collection : Resource :=
  mkResource (plain_resource_info "LedCollection" true) [] (Some (mkResource lit_info led None)).
Definition server : redfishServer memstore :=
  mkServer memstore (mkDispatcher (Memory * memstore) "" "" collection [] [] []
    (mkWorld _ (fun _ _ => None) (fun _ _ => None) (fun _ _ => None) (fun _ _ _ => ret None)))
    (mkPrivilegeRegistry [] []) [] [].
Definition post : httpRequest :=
  mkHttpRequest MethodPost 0 leds (Some collection) None "" (BodyValue (VObject [("Name", VString "blue")])).

Definition start : Memory * memstore := (mkMemory (mkAccountService 0 0 0 0 0 true) [] [] [], ∅).

Lemma missing_on_create_unnamed_witness :
  handleResourceCreation server post collection start = (Ret (reply (JsonBody (VArray [])) StatusBadRequest), start).
Proof.
  apply (missing_on_create_unnamed memstore server post collection (mkResource lit_info led None)
    [("Name", VString "blue")] "Lit" start); try reflexivity; try discriminate.
  - intros m Hm%list_elem_of_singleton. subst m. by left.
  - by left.
  - intros Hin%list_elem_of_singleton. discriminate Hin.
Defined.
End CreationExample.
