(* ===== verification/Update.v ===== *)
(** What a PATCH may change ([patch_resource]).

    The conversion asks a callback for every field; a field it refuses is
    not converted, and only the converted fields reach [RedisPatch], which
    writes at and below their keys. *)
From S2P Require Import Prelude Values Redis Schema Walk RedisStruct Dispatcher RoundTrip.
From S2P Require Import Removal Messages Actions Validator Privileges Accounts AccountHooks JsonSchemas Server.

(* ===================================================================== *)
(** * The conversion with a callback                                     *)
(* ===================================================================== *)

(** Actions along which a preorder on states holds *)
Section along.
Context {C : Type} (R : C -> C -> Prop) `{!PreOrder R}.

Definition along {A} (m : M C A) : Prop := forall c, R c (snd (m c)).

Lemma along_ret {A} (a : A) : along (ret a).
Proof. intros c. simpl. reflexivity. Qed.
Lemma along_panic {A} msg : along (A := A) (panic msg).
Proof. intros c. simpl. reflexivity. Qed.
Lemma along_bind {A B} (m : M C A) (k : A -> M C B) : along m -> (forall a, along (k a)) -> along (bind m k).
Proof.
  intros Hm Hk c. unfold bind. specialize (Hm c). destruct (m c) as [[a|?|?|] c']; simpl in *; try done.
  etrans; [exact Hm|apply Hk].
Qed.
Lemma along_bind_ok {A B} (m : M C (result A)) (k : A -> M C (result B)) :
  along m -> (forall a, along (k a)) -> along (bind_ok m k).
Proof. intros Hm Hk. apply along_bind; [done|]. intros [a|e]; [apply Hk|apply along_ret]. Qed.

Context `{FloatText}.
Variable cb : Interface2RedisCB C.
Hypothesis Hcb : forall p path v unknown, along (cb p path v unknown).

Ltac along := repeat first
  [ progress intros | apply along_ret | apply along_panic | apply Hcb | assumption
  | apply along_bind_ok | apply along_bind ].

Lemma along_finish path p d : along (structField_finish (Some cb) path p d).
Proof. unfold structField_finish. along. Qed.

Lemma along_loop field path ps obj : forall acc,
  Forall (fun e => forall path p, along (field path p (snd e))) obj ->
  along (Interface2Redis_loop (Some cb) field path ps obj acc).
Proof.
  induction obj as [|[n v] obj IH]; intros acc Hf; simpl; [apply along_ret|].
  apply Forall_cons in Hf as [Hv Hf]. destruct (mget n ps) as [p|].
  - apply along_bind_ok; [apply Hv|]. intros [d b]. by apply IH.
  - apply along_bind; [apply Hcb|]. intros _. by apply IH.
Qed.

Lemma along_elements field path e l : forall i,
  Forall (fun v => forall path p, along (field path p v)) l ->
  along (structArray2Redis_loop field path e i l).
Proof.
  induction l as [|v l IH]; intros i Hf; simpl; [apply along_ret|].
  apply Forall_cons in Hf as [Hv Hf]. apply along_bind_ok; [apply Hv|]. intros [d b].
  apply along_bind_ok; [by apply IH|]. intros ds. apply along_ret.
Qed.

Lemma along_field v : forall path p, along (structField2Redis (Some cb) path p v).
Proof.
  induction v as [v Hna Hno|l IH|obj IH] using value_induction; intros path p.
  - destruct v; simpl; repeat case_match; along; try apply along_finish.
    + by destruct (Hna l).
    + by destruct (Hno m).
  - simpl. repeat case_match; along; try apply along_finish. by apply along_elements.
  - simpl. repeat case_match; along; try apply along_finish. by apply along_loop.
Qed.

(** A value that is kept was accepted by the callback. *)
Definition accepts (p : Property) (path : list string) (c : C) : Prop :=
  exists v c1, R c c1 /\ fst (cb (Some p) path v false c1) = Ret true.
Definition kept (r : rdata * bool) : bool := negb (is_DNil (fst r)) || snd r.

Lemma finish_kept path p d c c' r :
  structField_finish (Some cb) path p d c = (Ret (Ok r), c') -> kept r = true ->
  fst (cb (Some p) path (CbResult d) false c) = Ret true.
Proof.
  unfold structField_finish, run_cb, bind. destruct (cb _ _ _ _ c) as [[[|]|?|?|] c1]; simpl; try done.
  by intros [= <- _].
Qed.

Lemma finish_accepts path p d c c1 c' r :
  R c c1 -> structField_finish (Some cb) path p d c1 = (Ret (Ok r), c') -> kept r = true -> accepts p path c.
Proof. intros HR Hf Hk. exists (CbResult d), c1. split; [done|]. by eapply finish_kept. Qed.

Lemma null_accepts path p c c' r :
  (allowed <- run_cb (Some cb) (Some p) path (CbRaw VNil) false ;; ret (Ok (DNil, allowed))) c = (Ret (Ok r), c') ->
  kept r = true -> accepts p path c.
Proof.
  unfold run_cb, bind. destruct (cb _ _ _ _ c) as [[b|?|?|] c1] eqn:E; simpl; try done.
  intros [= <- _] Hb. unfold kept in Hb. simpl in Hb. subst b. exists (CbRaw VNil), c. split; [reflexivity|]. by rewrite E.
Qed.

Lemma bind_ok_inv {A B} (m : M C (result A)) (k : A -> M C (result B)) c b c' :
  bind_ok m k c = (Ret (Ok b), c') -> exists a c1, m c = (Ret (Ok a), c1) /\ k a c1 = (Ret (Ok b), c').
Proof.
  unfold bind_ok. intros (r & c1 & Hm & Hk)%bind_ret_inv. destruct r as [a|e]; [by exists a, c1|done].
Qed.

Lemma field_kept v : forall path p c c' r,
  structField2Redis (Some cb) path p v c = (Ret (Ok r), c') -> kept r = true -> accepts p path c.
Proof.
  intros path p c c' r Hrun Hk.
  assert (Hfin : forall d, structField_finish (Some cb) path p d c = (Ret (Ok r), c') -> accepts p path c).
  { intros d Hf. eapply finish_accepts; [reflexivity|exact Hf|exact Hk]. }
  destruct v; simpl in Hrun; repeat case_match; try (by discriminate Hrun); try (by eapply Hfin);
    try (by eapply null_accepts).
  - apply bind_ok_inv in Hrun as (ds & c1 & Hm & Hrun). eapply finish_accepts; [|exact Hrun|exact Hk].
    pose proof (along_elements (structField2Redis (Some cb)) path p0 l 0) as Ha.
    specialize (Ha ltac:(apply Forall_forall; intros; apply along_field) c). by rewrite Hm in Ha.
  - apply bind_ok_inv in Hrun as (ds & c1 & Hm & Hrun). eapply finish_accepts; [|exact Hrun|exact Hk].
    pose proof (along_loop (structField2Redis (Some cb)) path (Properties_of p) m []) as Ha.
    specialize (Ha ltac:(apply Forall_forall; intros; apply along_field) c). by rewrite Hm in Ha.
Qed.

Lemma accepts_later p path c c1 : R c c1 -> accepts p path c1 -> accepts p path c.
Proof. intros HR (v & c2 & HR' & Ha). exists v, c2. split; [by etrans|done]. Qed.

(** The names of the converted object were accepted. *)
Lemma loop_accepted ps obj : forall acc c data c',
  Interface2Redis_loop (Some cb) (structField2Redis (Some cb)) [] ps obj acc c = (Ret (Ok data), c') ->
  forall n, n ∈ mkeys data -> n ∈ mkeys acc \/
    n ∈ mkeys obj /\ exists p, mget n ps = Some p /\ accepts p [n] c.
Proof.
  induction obj as [|[n v] obj IH]; intros acc c data c' Hrun m Hm; simpl in Hrun.
  { injection Hrun as <- <-. by left. }
  assert (Hlater : forall acc1 c1, R c c1 ->
    Interface2Redis_loop (Some cb) (structField2Redis (Some cb)) [] ps obj acc1 c1 = (Ret (Ok data), c') ->
    m ∈ mkeys acc1 \/ m ∈ mkeys ((n, v) :: obj) /\ exists p, mget m ps = Some p /\ accepts p [m] c).
  { intros acc1 c1 HR H1. destruct (IH _ _ _ _ H1 m Hm) as [?|(Hin & p & Hp & Ha)]; [by left|].
    right. split; [by right|]. exists p. split; [done|]. by eapply accepts_later. }
  destruct (mget n ps) as [p|] eqn:Ep.
  - apply bind_ok_inv in Hrun as ([d b] & c1 & Hf & Hrun).
    pose proof (along_field v [n] p c) as HR.
    change (structField2Redis (Some cb) [n] p v c = (Ret (Ok (d, b)), c1)) in Hf. rewrite Hf in HR. simpl in HR.
    destruct (Hlater _ _ HR Hrun) as [Hin|?]; [|by right].
    destruct (negb (is_DNil d) || b) eqn:Ek; [|by left].
    apply mkeys_mput in Hin as [->|?]; [|by left]. right. split; [by left|]. exists p. split; [done|].
    by eapply field_kept.
  - apply bind_ret_inv in Hrun as (b & c1 & Hf & Hrun).
    pose proof (Hcb None [n] (CbRaw v) true c) as HR.
    change (cb None [n] (CbRaw v) true c = (Ret b, c1)) in Hf. rewrite Hf in HR.
    destruct (Hlater _ _ HR Hrun) as [?|?]; [by left|by right].
Qed.
End along.

(* ===================================================================== *)
(** * The callback of PATCH                                              *)
(* ===================================================================== *)

Section callback.
Context {S : Type} `{RedisOps S} `{FloatText} `{TextParsers}.
Variable rs : redfishServer S.

(** The callback changes its own variables only. *)
Definition same_server (c c' : patch_fields * (Memory * S)) : Prop := snd c' = snd c.

#[export] Instance same_server_preorder : PreOrder same_server.
Proof. split; [done|]. intros c1 c2 c3 E1 E2. unfold same_server in *. congruence. Qed.

Lemma along_note f : along same_server (note f).
Proof. done. Qed.

Lemma along_on_snd {A} (m : M (Memory * S) A) : keeps m -> along same_server (on_snd m).
Proof. intros Hm [f s]. unfold on_snd. simpl. specialize (Hm s). by destruct (m s). Qed.

Lemma along_patch_cb r res p path v unknown : along same_server (patch_cb rs r res p path v unknown).
Proof.
  unfold patch_cb. repeat first [progress intros | apply along_ret | apply along_panic | apply along_note
    | apply along_on_snd, keeps_operation_allowed | apply along_bind | case_match]; apply _.
Qed.

(** When the callback accepts a field of the object itself *)
Definition permitted (r : httpRequest) (res : Resource) (n : string) (p : Property) (s : Memory * S) : Prop :=
  odataMatcher n = false /\ pi_ReadOnly (p_info p) = false /\
  exists required,
    fst (RequiredPrivileges (privilegeRegistry rs) (httpOperation r) "" (r_Name res) n s) = Ret required /\
    entitled (fst s) (account r) required.

Lemma patch_cb_permits r res n p v c :
  fst (patch_cb rs r res (Some p) [n] v false c) = Ret true -> permitted r res n p (snd c).
Proof.
  unfold patch_cb, permitted. simpl. destruct (odataMatcher n); [done|]. simpl. unfold bind at 1. simpl.
  destruct (pi_ReadOnly (p_info p)); [done|]. unfold bind, on_snd. simpl.
  destruct (operation_allowed rs r res n (snd c)) as [o s'] eqn:E.
  destruct o as [[|]|?|?|]; simpl; try done. intros _. split; [done|]. split; [done|].
  apply (operation_allowed_entitled rs). by rewrite E.
Qed.

(** What the conversion of a PATCH leaves: the same state, and only the
    names that are permitted. *)
Lemma patch_conversion r res obj (s : Memory * S) :
  let m := with_fields (Interface2Redis (Some (patch_cb rs r res)) [] (r_Properties res) obj) s in
  snd m = s /\
  forall data fields, fst m = Ret (Ok data, fields) -> forall n, n ∈ mkeys data ->
    n ∈ mkeys obj /\ exists p, mget n (r_Properties res) = Some p /\ permitted r res n p s.
Proof.
  pose proof (along_patch_cb r res) as Hcb. unfold with_fields, Interface2Redis.
  pose proof (along_loop same_server (patch_cb rs r res) Hcb (structField2Redis (Some (patch_cb rs r res))) []
    (r_Properties res) obj []) as Ha.
  specialize (Ha ltac:(apply Forall_forall; intros; apply (along_field same_server (patch_cb rs r res) Hcb)) (no_fields, s)).
  destruct (Interface2Redis_loop _ _ _ _ _ _ (no_fields, s)) as [o [f s']] eqn:E.
  unfold same_server in Ha. simpl in Ha. subst s'. split; [done|]. intros data fields Ho n Hn.
  destruct o as [a|?|?|]; simpl in Ho; try done. injection Ho as -> ->.
  destruct (loop_accepted same_server (patch_cb rs r res) Hcb _ _ _ _ _ _ E n Hn)
    as [Hin|(Hin & p & Hp & v & c1 & HR & Hacc)]; [by apply elem_of_nil in Hin|].
  split; [done|]. exists p. split; [done|]. unfold same_server in HR. simpl in HR.
  apply patch_cb_permits in Hacc. by rewrite HR in Hacc.
Qed.
End callback.

(* ===================================================================== *)
(** * What is written                                                    *)
(* ===================================================================== *)

(** Outside of [region], [ks'] is [ks], however the action ends. *)
Definition confined (region : string -> Prop) (ks ks' : keys) : Prop :=
  forall k, ~ region k -> ks' !! k = ks !! k.

Lemma confined_refl region ks : confined region ks ks.
Proof. done. Qed.
Lemma confined_trans region ks1 ks2 ks3 : confined region ks1 ks2 -> confined region ks2 ks3 -> confined region ks1 ks3.
Proof. intros H1 H2 k Hk. by rewrite (H2 k Hk), (H1 k Hk). Qed.
Lemma confined_mono (region region' : string -> Prop) ks ks' :
  (forall k, region k -> region' k) -> confined region ks ks' -> confined region' ks ks'.
Proof. intros Hr Hc k Hk. apply Hc. auto. Qed.
Lemma confined_delete (region : string -> Prop) key ks : region key -> confined region ks (delete key ks).
Proof. intros Hr k Hk. apply lookup_delete_ne. by intros ->. Qed.
Lemma confined_insert (region : string -> Prop) key v ks : region key -> confined region ks (<[key := v]> ks).
Proof. intros Hr k Hk. apply lookup_insert_ne. by intros ->. Qed.

Create HintDb confined_db.
#[export] Hint Resolve confined_refl confined_delete confined_insert : confined_db.

Section confine.
Context {S : Type} `{RedisLaws S}.

Definition confines {A} (region : string -> Prop) (m : M S A) : Prop :=
  forall ks, wp ks m (fun _ ks' => confined region ks ks').

Lemma confines_ret {A} region (a : A) : confines region (ret a).
Proof. intros ks. apply wp_ret. apply confined_refl. Qed.
Lemma confines_panic {A} region msg : confines (A := A) region (panic msg).
Proof. intros ks. apply wp_panic. apply confined_refl. Qed.
Lemma confines_fuel {A} region : confines (A := A) region out_of_fuel.
Proof. intros ks s <-. done. Qed.
Lemma confines_bind {A B} region (m : M S A) (k : A -> M S B) :
  confines region m -> (forall a, confines region (k a)) -> confines region (bind m k).
Proof.
  intros Hm Hk ks. apply wp_bind. eapply wp_mono; [apply Hm|]. intros [a|?|?|] ks1 H1; simpl; try done.
  eapply wp_mono; [apply Hk|]. intros o ks2. by apply confined_trans.
Qed.
Lemma confines_must {A} region (m : M S (result A)) : confines region m -> confines region (must m).
Proof. intros Hm. apply confines_bind; [done|]. intros [a|e]; [apply confines_ret|apply confines_panic]. Qed.
Lemma confines_mono {A} (region region' : string -> Prop) (m : M S A) :
  (forall k, region k -> region' k) -> confines region m -> confines region' m.
Proof. intros Hr Hm ks. eapply wp_mono; [apply Hm|]. intros o ks'. by apply confined_mono. Qed.

Lemma confines_del (region : string -> Prop) key : region key -> confines region (redis_del key).
Proof. intros Hr ks. apply wp_del. auto with confined_db. Qed.
Lemma confines_set (region : string -> Prop) key v : region key -> confines region (redis_set key v).
Proof. intros Hr ks. apply wp_set. auto with confined_db. Qed.
Lemma confines_sadd (region : string -> Prop) key ms : region key -> confines region (redis_sadd key ms).
Proof. intros Hr ks. apply wp_sadd. unfold sadd_effect. repeat case_match; simpl; auto with confined_db. Qed.
Lemma confines_srem (region : string -> Prop) key m : region key -> confines region (redis_srem key m).
Proof. intros Hr ks. apply wp_srem. unfold srem_effect. repeat case_match; simpl; auto with confined_db. Qed.
Lemma confines_read {A} region (m : M S A) : (forall ks, wp ks m (fun _ ks' => ks' = ks)) -> confines region m.
Proof. intros Hm ks. eapply wp_mono; [apply Hm|]. intros o ks' ->. apply confined_refl. Qed.
Lemma confines_type region key : confines region (redis_type key).
Proof. apply confines_read. intros ks. by apply wp_type. Qed.
Lemma confines_lrange region key : confines region (redis_lrange key).
Proof. apply confines_read. intros ks. by apply wp_lrange. Qed.
Lemma confines_smembers region key : confines region (redis_smembers key).
Proof. apply confines_read. intros ks. by apply wp_smembers. Qed.

Lemma confines_for_each {A} region (f : A -> M S unit) l : (forall x, confines region (f x)) -> confines region (for_each f l).
Proof. intros Hf. induction l as [|x l IH]; simpl; [apply confines_ret|]. by apply confines_bind. Qed.
End confine.

(** Follow the structure of an action that stays in a region. *)
Ltac confines := repeat first
  [ lazymatch goal with |- forall _, _ => intro end | apply confines_ret | apply confines_panic | apply confines_fuel | assumption
  | apply confines_type | apply confines_lrange | apply confines_smembers | apply confines_must
  | apply confines_for_each | apply confines_bind | case_match ].

Section patch_confined.
Context {S : Type} `{RedisLaws S}.

Lemma below_child key n k : under (child key n) k -> under key k.
Proof. apply under_of_child. Qed.

Lemma confines_removeArray remove p key :
  (forall ps key, confines (S := S) (under key) (remove ps key)) ->
  confines (under key) (redisRemoveArray remove p key).
Proof.
  intros Hr. unfold redisRemoveArray. confines; try (apply confines_del, under_refl).
  rename a into l. induction l as [|x l IH]; simpl; [apply confines_ret|].
  apply confines_bind; [|by intros _]. eapply confines_mono; [apply (below_child key x)|apply Hr].
Qed.

Lemma confines_removeField remove p key :
  (forall ps key, confines (S := S) (under key) (remove ps key)) ->
  confines (under key) (redisRemoveField remove p key).
Proof.
  intros Hr. unfold redisRemoveField. apply confines_bind; [apply confines_must, confines_type|]. intros t.
  repeat case_match; try apply Hr; try apply confines_ret; [|by apply confines_removeArray].
  apply confines_must, confines_del, under_refl.
Qed.

Lemma confines_removeObject fuel : forall ps key, confines (S := S) (under key) (redisRemoveObject fuel ps key).
Proof.
  induction fuel as [|fuel IH]; intros ps key; simpl; [apply confines_fuel|].
  apply confines_bind; [apply confines_must, confines_smembers|]. intros members.
  apply confines_bind; [apply confines_must, confines_del, under_refl|]. intros _.
  apply confines_for_each. intros n. eapply confines_mono; [apply (below_child key n)|].
  by apply confines_removeField.
Qed.

(** What is written for an object is its own set, and below the keys of its
    fields. *)
Definition of_fields (key : string) (names : list string) (k : string) : Prop :=
  k = key \/ exists n, n ∈ names /\ under (child key n) k.

Lemma of_fields_under key names k : of_fields key names k -> under key k.
Proof. intros [->|(n & _ & Hk)]; [apply under_refl|by eapply under_of_child]. Qed.

Lemma confines_fields fuel key names m :
  Forall (fun e => forall key, confines (S := S) (under key) (RedisPatch fuel (snd e) key)) m ->
  (forall n, n ∈ map fst m -> n ∈ names) ->
  confines (S := S) (of_fields key names) (RedisPatch_fields (RedisPatch fuel) fuel key m).
Proof.
  induction 1 as [|[n d] m Hd _ IH]; intros Hn; simpl; [apply confines_ret|].
  assert (Hsub : forall k, under (child key n) k -> of_fields key names k).
  { intros k Hk. right. exists n. split; [apply Hn; left|done]. }
  apply confines_bind; [|intros _; apply IH; intros n' Hn'; apply Hn; by right].
  destruct (is_DNil d).
  - unfold RedisPatch_null. confines; try (by apply confines_srem; left);
      try (apply confines_del, Hsub, under_refl).
    eapply confines_mono; [exact Hsub|apply confines_removeObject].
  - confines; [eapply confines_mono; [exact Hsub|apply Hd]|apply confines_sadd; by left].
Qed.

Lemma confines_patch fuel d : forall key, confines (S := S) (under key) (RedisPatch fuel d key).
Proof.
  induction d as [|s|b l IH|m IH] using rdata_induction; intros key; simpl.
  - apply confines_ret.
  - apply confines_set, under_refl.
  - apply confines_panic.
  - apply confines_bind; [|intros; apply confines_ret].
    eapply confines_mono; [apply of_fields_under|]. by apply (confines_fields fuel key (map fst m)).
Qed.

Lemma confines_patch_object fuel key m :
  confines (S := S) (of_fields key (map fst m)) (RedisPatch fuel (DObj m) key).
Proof.
  simpl. apply confines_bind; [|intros; apply confines_ret].
  apply confines_fields; [|done]. apply Forall_forall. intros e _ k. apply confines_patch.
Qed.
End patch_confined.

(* ===================================================================== *)
(** * Properties                                                         *)
(* ===================================================================== *)

