(* ===== verification/Presentation.v ===== *)
(** A creation, answered: what the handlers of POST, GET and DELETE say of a
    resource that is created, read and removed.

    A new resource is stored with three annotations that have no value;
    [BuildStruct] asks [generateOData] for them.  The theorems put together
    the storage scheme (file [RoundTrip]), the membership of collections
    (file [Creation]) and the handlers (file [Server]). *)
From Stdlib Require Import Sorted OrdersEx.
From stdpp Require Import sorting.
From S2P Require Import Prelude Ordering Values Redis Schema Walk RedisStruct Dispatcher RoundTrip.
From S2P Require Import Removal Messages Actions Validator Privileges Accounts AccountHooks JsonSchemas Server Creation.

Definition odata_names : list string := ["@odata.id"; "@odata.type"; "@odata.context"].

(** The text [generateOData] gives for an annotation of a resource with the
    given fields. *)
Definition annotation (xname uri : string) (resource : Resource) (names : list string) (n : string) : string :=
  if String.eqb n "@odata.id" then trim_prefix xname uri
  else if String.eqb n "@odata.type" then ri_ODataType (r_info resource)
  else ri_ODataContext (r_info resource) +:+ "(" +:+ generateOData_fields names +:+ ")".
Definition annotations (xname uri : string) (resource : Resource) (names : list string) : object :=
  map (fun n => (n, VString (annotation xname uri resource names n))) odata_names.

(** The schema declares the annotations, and a request leaves them to the
    server. *)
Definition declares_odata (ps : properties) : bool :=
  forallb (fun n => match mget n ps with Some p => is_type PropString p | None => false end) odata_names.
Definition without_odata (obj : object) : bool := forallb (fun n => negb (mmem n obj)) odata_names.

(** What the API presents of a new resource. *)
Definition presented `{FloatText} {S} (r2s : Redis2Interface S) (uri : string) (resource : Resource) (obj : object) : object :=
  readback_fields r2s (r_Properties resource) obj
  ++ annotations (r2s_XName r2s) uri resource (mkeys obj).

Lemma generateOData_fields_perm l1 l2 : l1 ≡ₚ l2 -> generateOData_fields l1 = generateOData_fields l2.
Proof. intros Hl. unfold generateOData_fields. erewrite sort_strings_unique; [done|]. by rewrite Hl. Qed.

Lemma generateOData_fields_odata l : generateOData_fields (l ++ odata_names) = generateOData_fields l.
Proof. unfold generateOData_fields. by rewrite filter_app, app_nil_r. Qed.

(* ===================================================================== *)
(** * Paths                                                              *)
(* ===================================================================== *)

Lemma trim_right_free c s t : free_of c t = true -> t <> "" -> trim_right c (s +:+ t) = s +:+ t.
Proof.
  intros Ht Hne. assert (Hbase : trim_right c t = t).
  { clear s. revert Hne Ht. unfold free_of. induction t as [|a t IH]; [done|]. intros _. simpl.
    rewrite andb_true_iff, negb_true_iff. intros [Ha Ht]. destruct t as [|b t]; [simpl; by rewrite Ha|].
    by rewrite IH. }
  assert (Hs : s +:+ t <> "") by (destruct s; [by rewrite str_app_nil|done]).
  revert Hs. induction s as [|a s IH]; intros _; [by rewrite str_app_nil|].
  rewrite str_app_cons. simpl.
  assert (Hst : s +:+ t <> "") by (destruct s; [by rewrite str_app_nil|done]).
  rewrite IH by done. by destruct (s +:+ t).
Qed.

Lemma child_string_app key n : child key n = (key +:+ String slash "") +:+ n.
Proof. unfold child. by rewrite str_app_assoc. Qed.

Lemma trim_right_child key n : free_of slash n = true -> n <> "" -> trim_right slash (child key n) = child key n.
Proof. rewrite child_string_app. apply trim_right_free. Qed.

Lemma str_take_drop n s : str_take n s +:+ str_drop n s = s.
Proof. revert s. induction n as [|n IH]; intros [|a s]; try done. simpl. by rewrite str_app_cons, IH. Qed.

Lemma has_suffix_app suf s : has_suffix suf s = true -> exists t, s = t +:+ suf.
Proof.
  unfold has_suffix. intros [_ E%String.eqb_eq]%andb_true_iff. exists (str_take (String.length s - String.length suf) s). rewrite <- E at 2. by rewrite str_take_drop.
Qed.

Lemma trim_suffix_child key n : free_of slash n = true -> n <> "" -> trim_suffix "/" (child key n) = child key n.
Proof.
  intros Hn Hne. unfold trim_suffix. destruct (has_suffix "/" (child key n)) eqn:E; [|done].
  apply has_suffix_app in E as [t E]. destruct Hne. rewrite <- (last_token_child key n Hn). unfold last_token.
  rewrite E. unfold split_slash. rewrite split_on_cut. exact (List.last_last _ _ _).
Qed.

Lemma child_nonempty key n : child key n <> "".
Proof. by destruct key. Qed.

Lemma path_base_child key n : free_of slash n = true -> n <> "" -> path_base (child key n) = n.
Proof.
  intros Hn Hne. unfold path_base. destruct (String.eqb_spec (child key n) "") as [E|_]; [by apply child_nonempty in E|].
  rewrite trim_right_child by done. pose proof (last_token_child key n Hn) as Hl. unfold last_token in Hl.
  destruct (child key n) eqn:E; [by apply child_nonempty in E|exact Hl].
Qed.

(* ===================================================================== *)
(** * Reading a new resource                                             *)
(* ===================================================================== *)

Lemma odata_name_ok n : n ∈ odata_names -> free_of slash n = true /\ n <> "" /\ has_suffix "@odata.count" n = false.
Proof. unfold odata_names. rewrite !elem_of_cons, elem_of_nil. by intros [->|[->|[->|[]]]]. Qed.

Lemma generated_fresh data : (forall n, n ∈ odata_names -> n ∉ mkeys data) ->
  generated_odata data = data ++ map (fun n => (n, DNil)) odata_names.
Proof.
  intros Hd. unfold generated_odata.
  assert (Hid : "@odata.id" ∉ mkeys data) by (apply Hd; set_solver).
  assert (Hty : "@odata.type" ∉ mkeys data) by (apply Hd; set_solver).
  assert (Hcx : "@odata.context" ∉ mkeys data) by (apply Hd; set_solver).
  rewrite (mput_fresh "@odata.id"), (mput_fresh "@odata.type"), (mput_fresh "@odata.context");
    rewrite <- ?app_assoc; try done; unfold mkeys in *; rewrite !map_app; set_solver.
Qed.

Lemma mmem_elem {A} n (m : gomap A) : mmem n m = true <-> n ∈ mkeys m.
Proof.
  unfold mmem. destruct (mget n m) as [a|] eqn:E; [|by apply mget_None in E].
  split; [|done]. intros _. apply mget_Some_elem in E. apply list_elem_of_fmap. by exists (n, a).
Qed.

Lemma without_odata_spec obj n : without_odata obj = true -> n ∈ odata_names -> n ∉ mkeys obj.
Proof. intros Ho Hn. rewrite <- mmem_elem. apply (forallb_elem _ _ n) in Ho; [|done]. apply negb_true_iff in Ho. by rewrite Ho. Qed.

Section presentation.
Context {S : Type} `{RedisLaws S} `{FloatText}.
Variables (r2s : Redis2Interface S) (resource : Resource) (uri : string) (obj : object).
Hypothesis Hresource : r2s_Resource r2s = Some resource.
Hypothesis Huri : trim_right slash (r2s_URI r2s) = uri.
Hypothesis Hobj : object_conforms (r_Properties resource) obj = true.
Hypothesis Hdecl : declares_odata (r_Properties resource) = true.
Hypothesis Hodata : without_odata obj = true.

Abbreviation ps := (r_Properties resource).
Abbreviation data := (generated_odata (encode_fields ps obj)).
Abbreviation all := (mkeys obj ++ odata_names).

Lemma stored_names : map fst data = all.
Proof.
  rewrite generated_fresh; [by rewrite map_app, encode_fields_keys|]. intros n Hn.
  unfold mkeys. rewrite encode_fields_keys. by apply without_odata_spec.
Qed.

Lemma stored_nodup : NoDup all.
Proof.
  apply NoDup_app. split; [by eapply conforming_names|]. split.
  - intros n Hn Ho. by eapply without_odata_spec.
  - by apply (bool_decide_unpack _).
Qed.

Lemma stored_free : Forall (fun e => free_of slash (fst e) = true) data.
Proof.
  apply Forall_forall. intros [n d] Hin. assert (Hn : n ∈ all).
  { rewrite <- stored_names. apply list_elem_of_fmap. by exists (n, d). }
  apply elem_of_app in Hn as [Hn|Hn]; simpl.
  - by destruct (conforming_field ps obj Hobj n Hn) as (? & ? & _ & _ & _ & _ & _ & ?).
  - by apply odata_name_ok.
Qed.

Lemma stored_field_elem n d : (n, d) ∈ encode_fields ps obj \/ n ∈ odata_names /\ d = DNil -> (n, d) ∈ data.
Proof.
  rewrite generated_fresh; [|intros; unfold mkeys; rewrite encode_fields_keys; by apply without_odata_spec].
  rewrite elem_of_app. intros [?|[? ->]]; [by left|right]. apply list_elem_of_fmap. by exists n.
Qed.

Lemma annotation_reads ks n payload :
  ks !! uri = Some (RSet (list_to_set all)) -> ks !! child uri n = None ->
  n ∈ odata_names -> n ∉ mkeys payload ->
  wp ks (BuildStruct_field r2s (BuildStruct r2s) ps uri payload n)
    (extends payload ks [(n, VString (annotation (r2s_XName r2s) uri resource (mkeys obj) n))]).
Proof.
  intros Hset Hnone Hn Hfresh. pose proof (odata_name_ok n Hn) as (Hfree & Hne & _).
  assert (Hp : exists p, mget n ps = Some p /\ p_Type p = PropString).
  { unfold declares_odata in Hdecl. apply (forallb_elem _ _ n) in Hdecl; [|done].
    cbv beta in Hdecl. destruct (mget n ps) as [p|]; [|discriminate Hdecl]. exists p. split; [done|]. by apply is_type_eq. }
  destruct Hp as (p & Hp & Ht).
  assert (Hgoal : forall t, t = annotation (r2s_XName r2s) uri resource (mkeys obj) n ->
    extends payload ks [(n, VString (annotation (r2s_XName r2s) uri resource (mkeys obj) n))]
      (Ret (Ok (mput n (VString t) payload))) ks).
  { intros t ->. split; [done|]. rewrite mput_fresh by done. eexists. split; [reflexivity|]. apply entry_equiv_refl. }
  unfold BuildStruct_field. rewrite Hp, Ht. unfold getValueForKey. wp_steps. rewrite Hnone. simpl get_reply. wp_steps.
  unfold generateOData. rewrite path_base_child, Huri, Hresource by done.
  unfold odata_names in Hn. rewrite !elem_of_cons, elem_of_nil in Hn.
  destruct Hn as [->|[->|[->|[]]]]; simpl String.eqb; wp_steps; try by apply Hgoal.
  match goal with Hr : smembers_reply _ _ |- _ => rewrite Hset in Hr; inversion Hr as [|X l Hl| | |]; subst end.
  wp_steps. apply Hgoal. unfold annotation. simpl. rewrite elements_list_to_set in Hl by apply stored_nodup.
  by rewrite (generateOData_fields_perm _ _ Hl), generateOData_fields_odata.
Qed.

(** The entries of one member of the set of a new resource *)
Definition member_entries (n : string) : object :=
  if mmem n obj then entries r2s ps obj n
  else [(n, VString (annotation (r2s_XName r2s) uri resource (mkeys obj) n))].

Lemma member_entries_keys n x : x ∈ mkeys (member_entries n) -> x = n \/ x = count_name n.
Proof.
  unfold member_entries. destruct (mmem n obj); [apply entries_keys|]. intros ->%list_elem_of_singleton. by left.
Qed.

Lemma member_entries_all : flat_map member_entries all = presented r2s uri resource obj.
Proof.
  unfold presented. rewrite flat_map_app, <- (entries_readback r2s ps obj Hobj). f_equal.
  - rewrite !flat_map_concat_map. f_equal. apply map_ext_in. intros n Hn%list_elem_of_In%mmem_elem.
    unfold member_entries. by rewrite Hn.
  - assert (Hm : forall n, n ∈ odata_names -> mmem n obj = false).
    { intros n Hn%(without_odata_spec obj n Hodata). rewrite <- mmem_elem in Hn. by apply not_true_iff_false. }
    unfold annotations, member_entries. simpl. by rewrite !Hm by set_solver.
Qed.

(** A new resource is presented as the object of the request and the
    annotations. *)
Lemma new_resource_reads ks : holds ks (DObj data) uri ->
  wp ks (BuildStruct r2s ps uri)
    (returns (fun r ks' => ks' = ks /\ exists m, r = Ok m /\ object_equiv m (presented r2s uri resource obj))).
Proof.
  intros Hh.
  assert (Hset : ks !! uri = Some (RSet (list_to_set all))).
  { rewrite (Hh uri) by apply under_refl. simpl. by rewrite lookup_insert_eq, stored_names. }
  assert (Hfield : forall n d, (n, d) ∈ data -> holds ks d (child uri n)).
  { intros n d. eapply holds_field; [exact Hh|rewrite stored_names; apply stored_nodup|apply stored_free]. }
  rewrite <- member_entries_all. apply set_reads; [|apply member_entries_keys| |exact Hset|apply stored_nodup|].
  - intros n [Hn|Hn]%elem_of_app; [|by apply odata_name_ok].
    by destruct (conforming_field ps obj Hobj n Hn) as (? & ? & _ & _ & _ & _ & ? & _).
  - intros n payload Hn Hf Hcf. unfold member_entries. destruct (mmem n obj) eqn:E.
    + apply mmem_elem in E. apply entry_reads; try done; [by intros; apply Hfield, stored_field_elem; left|].
      apply Forall_forall. intros e _. apply every_value_reads.
    + apply elem_of_app in Hn as [Hn%mmem_elem|Hn]; [congruence|]. apply annotation_reads; try done.
      rewrite (Hfield n DNil); [done| |apply under_refl]. apply stored_field_elem. by right.
  - by destruct (mkeys obj).
Qed.
End presentation.

(* ===================================================================== *)
(** * What is presented is JSON                                          *)
(* ===================================================================== *)

Lemma forallb_equiv_perm {A} (f : A -> bool) l1 l2 : l1 ≡ₚ l2 -> forallb f l1 = forallb f l2.
Proof. induction 1; simpl; try congruence. by rewrite !andb_assoc, (andb_comm (f y)). Qed.

(** Induction over equivalent values is through the right one. *)
Lemma marshalable_equiv v : forall w, value_equiv w v -> marshalable w = marshalable v.
Proof.
  induction v as [v Hna Hno|l IH|m IH] using value_induction; intros w Hw; inversion Hw as [|l1 l2 HF|m1 m2 m' HP HF]; subst; try done.
  - by destruct (Hna l2).
  - by destruct (Hno m2).
  - simpl. clear Hw. revert IH. induction HF as [|a b l1 l2 Hab _ IHF]; [done|].
    intros [Hb Hl]%Forall_cons. simpl. by rewrite (Hb a Hab), IHF.
  - simpl. rewrite (forallb_equiv_perm _ _ _ HP). clear Hw HP. revert IH.
    induction HF as [|a b l1 l2 [_ Hab] _ IHF]; [done|].
    intros [Hb Hl]%Forall_cons. simpl. by rewrite (Hb (snd a) Hab), IHF.
Qed.

Lemma object_marshalable m1 m2 : object_equiv m1 m2 -> marshalable (VObject m2) = true ->
  Marshal (VObject m1) = Some (JsonBody (VObject m1)).
Proof. intros Hm Hok. unfold Marshal. rewrite (marshalable_equiv (VObject m2)); [by rewrite Hok|]. by apply object_equiv_value. Qed.

Section json.
Context `{FloatText}.
Variable xn : string.

Lemma entry_of_marshalable n v : forallb (fun e => marshalable (snd e)) (entry_of n v) = marshalable v.
Proof. destruct v as [| | | | | | |l|m]; simpl; by rewrite ?andb_true_r. Qed.

Lemma fields_marshalable ps obj :
  Forall (fun e => forall p, conforms p (snd e) = true -> marshalable (readback xn p (snd e)) = true) obj ->
  forallb (field_ok ps) obj = true ->
  forallb (fun e => marshalable (snd e)) (flat_map (fun e => entry_of (fst e)
    match mget (fst e) ps with Some q => readback xn q (snd e) | None => snd e end) obj) = true.
Proof.
  induction 1 as [|[n v] obj Hv _ IH]; [done|]. simpl. intros [Hf Hobj]%andb_true_iff.
  rewrite forallb_app, IH, entry_of_marshalable, andb_true_r by done.
  destruct (field_ok_inv ps n v Hf) as (_ & _ & p & Hp & Hc). rewrite Hp. by apply Hv.
Qed.

Lemma conforming_float p f : conforms p (VFloat f) = true -> marshalable (VFloat f) = true.
Proof. simpl. destruct (p_Type p); try done; destruct f; done. Qed.

(** What is read back of a conforming value has a JSON text. *)
Lemma readback_marshalable v : forall p, conforms p v = true -> marshalable (readback xn p v) = true.
Proof.
  induction v as [v Hna Hno|l IH|obj IH] using value_induction; intros p Hc.
  - destruct v as [| |f| | | | |l|m]; try by (simpl in *; destruct (p_Type p)).
    + pose proof (conforming_float p f Hc). simpl. by destruct (p_Type p).
    + by destruct (Hna l).
    + by destruct (Hno m).
  - simpl in *. destruct (p_Type p); try done. destruct (ArrayOf p) as [e|]; [|done].
    apply andb_true_iff in Hc as [_ Hl]. destruct (isRedfishValueString (p_Type e)).
    + apply forallb_map_true. done.
    + simpl. revert Hl. induction IH as [|v l Hv _ IHl]; [done|]. simpl.
      intros [Hcv Hl]%andb_true_iff. by rewrite (Hv e Hcv), IHl.
  - destruct (p_Type p) eqn:Et; try by (simpl in Hc; rewrite Et in Hc).
    + rewrite conforms_object in Hc by done. unfold object_conforms in Hc. split_andb.
      simpl. rewrite Et. by apply fields_marshalable.
    + simpl in *. rewrite Et in *. split_andb. by destruct obj as [|[n []] []].
Qed.

Lemma presented_marshalable {S} (r2s : Redis2Interface S) u resource obj :
  r2s_XName r2s = xn -> object_conforms (r_Properties resource) obj = true ->
  marshalable (VObject (presented r2s u resource obj)) = true.
Proof.
  intros Hx Hc. unfold presented, readback_fields. unfold object_conforms in Hc. split_andb. simpl.
  rewrite forallb_app, Hx, fields_marshalable; [done| |done].
  apply Forall_forall. intros e _. apply readback_marshalable.
Qed.
End json.

(* ===================================================================== *)
(** * The handler of a creation                                          *)
(* ===================================================================== *)

(** The request for a creation that reaches the storage: an object with an
    identifier, complete for the schema of the collection's resources. *)
Record creation_request (r : httpRequest) (collection resource : Resource) (id : string) (obj : object) : Prop := {
  cr_insertable : ri_Insertable (r_info collection) = true;
  cr_member : CollectionOf collection = Some resource;
  cr_body : requestBody r = BodyValue (VObject obj);
  cr_checkable : checkable_resource resource = true;
  cr_required : forall n, n ∈ ri_RequiredProperties (r_info resource) ++ ri_RequiredOnCreate (r_info resource) -> n ∈ mkeys obj;
  cr_id : mget "Id" obj = Some (VString id);
  cr_member_id : mget "MemberId" obj = None;
  cr_named : id <> "";
  cr_free_name : mget id (r_Properties collection) = None;
  cr_slash : free_of slash id = true;
  cr_apart : id <> "Members";
}.

Lemma wp_same {S : Type} `{RedisLaws S} {A} ks (m m' : M S A) Q : (forall s, m s = m' s) -> wp ks m' Q -> wp ks m Q.
Proof. intros E Hw s Hs. rewrite E. by apply Hw. Qed.

Section creation.
Context {S : Type} `{RedisOps S} `{FloatText} `{TextParsers}.
Variables (rs : redfishServer S) (r : httpRequest) (collection resource : Resource) (id : string) (obj : object).
Hypothesis Hrequest : creation_request r collection resource id obj.

Lemma posted_id_named (s : Memory * S) : posted_id obj s = (Ret id, s).
Proof.
  unfold posted_id. rewrite (cr_id _ _ _ _ _ Hrequest), (cr_member_id _ _ _ _ _ Hrequest).
  unfold assert_string, bind, ret. simpl. destruct (String.eqb_spec id "") as [E|_]; [|done].
  by destruct (cr_named _ _ _ _ _ Hrequest).
Qed.

(** What is left of the handler once the request is checked *)
Definition after_checks : M (Memory * S) http_response :=
  exists_ <- must (redis_exists (child (uri r) id)) ;;
  if exists_ : bool
  then ret (reply (line "Message: CustomHTTP->ResourceAlreadyExists") StatusConflict)
  else
    before <- runBeforeHookIns rs MethodPost (event_of r) [] obj ;;
    unless_answered before (fun ctx postBodyMap =>
      store_resource resource (uri r) id postBodyMap ;;
      created rs r resource (child (uri r) id) ctx).

Lemma creation_checked s : handleResourceCreation rs r collection s = after_checks s.
Proof.
  destruct Hrequest as [Hins Hcoll Hbody Hc Hreq Hid _ _ Hfree _ _].
  assert (Hne : exists e m, obj = e :: m) by (destruct obj as [|e m]; [done|by exists e, m]).
  destruct Hne as (e & m & Eobj). unfold handleResourceCreation. rewrite Hins, Hbody, Hcoll, Eobj.
  cbv delta [Unmarshal_map negb] beta iota. rewrite <- Eobj.
  destruct (checkResource_reports resource obj s Hc) as (report & E & _ & Hr1 & Hr2).
  erewrite bind_step by exact E. unfold if_complete.
  rewrite (mkeys_nil (or_sets report MissingRequired)), (mkeys_nil (or_sets report MissingRequiredOnCreate)).
  - erewrite bind_step by apply posted_id_named. unfold mmem. by rewrite Hfree.
  - intros n [Hn Hno]%Hr2. apply Hno, Hreq, elem_of_app. by right.
  - intros n [Hn Hno]%Hr1. apply Hno, Hreq, elem_of_app. by left.
Qed.
End creation.

(** No hook takes the URI of the request over. *)
Definition unhooked {S} (rs : redfishServer S) (method uri : string) : Prop :=
  findBeforeHookIns rs method uri = [] /\ findAfterHookIns rs method uri = [].

(** The answer to a request that created a resource *)
Definition created_answer `{FloatText} {S} (r2s : Redis2Interface S) (uri : string) (resource : Resource) (obj : object)
    (answer : http_response) : Prop :=
  resp_status answer = StatusCreated /\ resp_headers answer = [("Location", uri)] /\
  exists payload, resp_body answer = JsonBody (VObject payload) /\ object_equiv payload (presented r2s uri resource obj).

Section answers.
Context {S : Type} `{RedisLaws S} `{FloatText} `{TextParsers}.
Variables (rs : redfishServer S) (r : httpRequest).

Lemma created_answers ks res resourceURI id obj :
  unhooked rs MethodPost (uri r) -> free_of slash id = true -> id <> "" ->
  object_conforms (r_Properties res) obj = true -> declares_odata (r_Properties res) = true ->
  without_odata obj = true -> resourceURI = child (uri r) id ->
  holds ks (DObj (generated_odata (encode_fields (r_Properties res) obj))) resourceURI ->
  wp ks (created rs r res resourceURI [])
    (returns (fun answer ks' => ks' = ks /\
       created_answer (mkRedis2Interface (Memory * S) (rs_rfd rs) (Some res) resourceURI (xname r)) resourceURI res obj answer)).
Proof.
  intros [_ Hafter] Hslash Hne Hc Hdecl Hodata -> Hh. unfold created, build_or_nil. wp_steps.
  eapply wp_mono; [apply (new_resource_reads _ res (child (uri r) id) obj); try done; by apply trim_right_child|].
  intros [b| | |] ks'; simpl; try done. intros (-> & m & -> & Hm). wp_steps. cbn [payload_value payload_map].
  rewrite (object_marshalable m _ Hm) by by eapply presented_marshalable. wp_steps.
  unfold runAfterHookIns. simpl ev_URI. rewrite Hafter. simpl. wp_steps.
  split; [done|]. split; [done|]. split; [done|]. by exists m.
Qed.
End answers.


(** A creation never replaces a resource.  When anything is stored at the
    URI the new resource would have, a complete request is answered with 409
    and nothing changes, in memory or in Redis, whatever the object it
    carries. *)
Theorem creation_conflicts S `{RedisOps S} `{FloatText} `{TextParsers} (rs : redfishServer S)
    r collection resource id obj (s : Memory * S)
  (Hrequest : creation_request r collection resource id obj)
  (Hexists : redis_exists (child (uri r) id) s = (Ret (Ok true), s)) :
  handleResourceCreation rs r collection s
  = (Ret (reply (line "Message: CustomHTTP->ResourceAlreadyExists") StatusConflict), s).
Proof.
  rewrite (creation_checked rs r collection resource id obj Hrequest). unfold after_checks.
  assert (E : must (redis_exists (child (uri r) id)) s = (Ret true, s)); [|by erewrite bind_step by exact E].
  unfold must. by erewrite bind_step by exact Hexists.
Qed.

(* ===================================================================== *)
(** * Reading and removing what was created                              *)
(* ===================================================================== *)

(** Redis as a creation leaves it. *)
Definition created_keys `{FloatText} (ks : keys) (resource : Resource) (collection id : string) (obj : object) (l : links) : keys :=
  linked (stored ks resource collection id obj) collection l (child collection id).

(** [m] answers from [s], and the answer and Redis satisfy [Q]. *)
Definition answers_with {S} `{RedisLaws S} (m : M (Memory * S) http_response) (s : Memory * S)
    (Q : http_response -> keys -> Prop) : Prop :=
  match m s with (Ret answer, s') => Q answer (keyspace s') | _ => False end.

(** A JSON answer with the state of a new resource *)
Definition presented_answer `{FloatText} {S} (r2s : Redis2Interface S) (uri : string) (resource : Resource) (obj : object)
    (answer : http_response) : Prop :=
  resp_status answer = StatusOK /\
  exists payload, resp_body answer = JsonBody (VObject payload) /\ object_equiv payload (presented r2s uri resource obj).

Section later_requests.
Context {S : Type} `{RedisLaws S} `{FloatText} `{TextParsers}.
Variables (rs : redfishServer S) (r : httpRequest) (res : Resource) (collection id : string) (obj : object) (ks : keys) (l : links).
Hypothesis Hconf : object_conforms (r_Properties res) obj = true.
Hypothesis Hdecl : declares_odata (r_Properties res) = true.
Hypothesis Hodata : without_odata obj = true.
Hypothesis Hslash : free_of slash id = true.
Hypothesis Hnamed : id <> "".
Hypothesis Hapart : id <> "Members".
Hypothesis Hfresh : fresh ks (child collection id).

Lemma wp_answers_with (m : M (Memory * S) http_response) s Q ks0 :
  keyspace s = ks0 -> wp ks0 m (returns Q) -> answers_with m s Q.
Proof. intros Hs Hw. specialize (Hw s Hs). unfold answers_with. by destruct (m s) as [[]]. Qed.

Lemma if_allowed_answers next s Q : fst (operation_allowed rs r res "" s) = Ret true ->
  answers_with next s Q -> answers_with (if_allowed rs r res next) s Q.
Proof.
  intros Ha Hn. unfold answers_with, if_allowed. erewrite bind_step with (a := true) (s1 := s); [exact Hn|].
  assert (Hk : snd (operation_allowed rs r res "" s) = s) by apply keeps_operation_allowed.
  destruct (operation_allowed rs r res "" s). simpl in *. by subst.
Qed.

Lemma created_reads (r2s : Redis2Interface (Memory * S)) :
  r2s_Resource r2s = Some res -> r2s_URI r2s = child collection id ->
  wp (created_keys ks res collection id obj l) (BuildStruct r2s (r_Properties res) (child collection id))
    (returns (fun b ks' => ks' = created_keys ks res collection id obj l /\
       exists m, b = Ok m /\ object_equiv m (presented r2s (child collection id) res obj))).
Proof.
  intros Hr Hu. apply (new_resource_reads r2s res (child collection id) obj); try done.
  - rewrite Hu. by apply trim_right_child.
  - by apply stored_holds.
Qed.

(** Removing it leaves what was there before the creation. *)
Lemma remove_created fuel :
  collection_ok ks collection l -> next_index l < int64_max ->
  NoDup (map snd l) -> child collection id ∉ map snd l ->
  (rdata_height (DObj (encode_fields (r_Properties res) obj)) <= fuel)%nat ->
  wp (S := Memory * S) (created_keys ks res collection id obj l) (remove_resource fuel res (child collection id))
    (returns (fun _ ks' => ks' = ks)).
Proof.
  intros Hok Hmax Hnd Hnew Hfuel. unfold remove_resource.
  apply wp_bind. eapply wp_mono; [by apply RedisRemoveResource_stored|].
  intros [[]| | |] ks2; simpl; try done. intros ->. rewrite parent_uri_child by done.
  eapply wp_mono; [apply (unlink_member_removes _ collection (l ++ [(next_index l, child collection id)]) (next_index l))|].
  - by apply linked_ok.
  - rewrite map_app. simpl. apply NoDup_app. split; [done|]. split; [|apply NoDup_singleton].
    intros x Hx ->%list_elem_of_singleton. done.
  - apply elem_of_app. right. by left.
  - intros [r'| | |] ks3; simpl; try done. intros ->. by apply unlinked_linked.
Qed.
End later_requests.

(** C6: what was created can be read.  From any state in which Redis is as
    the creation of a resource left it, a GET of its URI by an account that
    the privileges of the resource let pass, when no hook takes it over, is
    answered 200 with the object of the creation and its annotations, and
    leaves Redis as it is. *)
Theorem created_resource_read S `{RedisLaws S} `{FloatText} `{TextParsers} (rs : redfishServer S)
    r res collection id obj ks l (s : Memory * S)
  (Hc : object_conforms (r_Properties res) obj = true) (Hdecl : declares_odata (r_Properties res) = true)
  (Hodata : without_odata obj = true) (Hslash : free_of slash id = true) (Hnamed : id <> "")
  (Hapart : id <> "Members") (Hf : fresh ks (child collection id))
  (Hkeys : keyspace s = created_keys ks res collection id obj l)
  (Huri : uri r = child collection id) (Hres : resource r = Some res) (Hprop : property r = None)
  (Hhooks : unhooked rs MethodGet (uri r)) (Hallowed : fst (operation_allowed rs r res "" s) = Ret true) :
  let r2s := mkRedis2Interface (Memory * S) (rs_rfd rs) (resource r) (uri r) (xname r) in
  answers_with (handleGetRequest rs r r2s) s (fun answer ks' =>
    ks' = keyspace s /\ presented_answer r2s (uri r) res obj answer).
Proof.
  intros r2s. unfold handleGetRequest. rewrite Hres, Hprop. apply if_allowed_answers; [done|].
  destruct Hhooks as [Hbefore Hafter]. eapply wp_answers_with; [exact Hkeys|].
  unfold runBeforeHookIns. simpl ev_URI. rewrite Hbefore. simpl. wp_steps. unfold unless_answered at 1.
  cbn [body_nil run_body run_ctx run_payload]. wp_steps. rewrite Huri, trim_suffix_child by done.
  eapply wp_mono; [by apply (created_reads res collection id obj ks l)|].
  intros [b| | |] ks'; simpl; try done. intros (-> & m & -> & Hm). wp_steps.
  unfold runAfterHookIns. simpl ev_URI. rewrite <- Huri, Hafter. simpl. wp_steps. unfold unless_answered. simpl. wp_steps.
  rewrite (object_marshalable m _ Hm) by by eapply presented_marshalable.
  split; [by symmetry|]. split; [done|]. exists m. split; [done|]. by rewrite Huri.
Qed.

(** C5: what was created can be removed.  Under the same conditions, a DELETE
    of a resource that may be deleted is answered 200 with its last state,
    and leaves Redis exactly as it was before the creation. *)
Theorem created_resource_deleted S `{RedisLaws S} `{FloatText} `{TextParsers} (rs : redfishServer S)
    r res collection id obj ks l fuel (s : Memory * S)
  (Hc : object_conforms (r_Properties res) obj = true) (Hdecl : declares_odata (r_Properties res) = true)
  (Hodata : without_odata obj = true) (Hslash : free_of slash id = true) (Hnamed : id <> "")
  (Hapart : id <> "Members") (Hf : fresh ks (child collection id))
  (Hok : collection_ok ks collection l) (Hmax : next_index l < int64_max)
  (Hnd : NoDup (map snd l)) (Hnew : child collection id ∉ map snd l)
  (Hfuel : (rdata_height (DObj (encode_fields (r_Properties res) obj)) <= fuel)%nat)
  (Hkeys : keyspace s = created_keys ks res collection id obj l)
  (Huri : uri r = child collection id) (Hres : resource r = Some res)
  (Hsingle : IsCollection res = false) (Hdel : ri_Deletable (r_info res) = true)
  (Hhooks : unhooked rs MethodDelete (uri r)) (Hallowed : fst (operation_allowed rs r res "" s) = Ret true) :
  let r2s := mkRedis2Interface (Memory * S) (rs_rfd rs) (resource r) (uri r) (xname r) in
  answers_with (handleDeleteRequest rs fuel r r2s) s (fun answer ks' =>
    ks' = ks /\ presented_answer r2s (uri r) res obj answer).
Proof.
  intros r2s. unfold handleDeleteRequest. rewrite Hres. apply if_allowed_answers; [done|].
  rewrite Hsingle, Hdel. cbn [negb]. destruct Hhooks as [Hbefore Hafter].
  eapply wp_answers_with; [exact Hkeys|]. unfold build_or_nil. rewrite Huri. wp_steps.
  eapply wp_mono; [by apply (created_reads res collection id obj ks l)|].
  intros [b| | |] ks'; simpl; try done. intros (-> & m & -> & Hm). wp_steps. cbn [payload_value payload_map].
  rewrite (object_marshalable m _ Hm) by by eapply presented_marshalable. wp_steps.
  unfold runBeforeHookIns. simpl ev_URI. rewrite Hbefore. simpl. wp_steps. unfold unless_answered at 1.
  cbn [body_nil run_body run_ctx run_payload]. wp_steps.
  eapply wp_mono; [by apply remove_created|].
  intros [b| | |] ks'; simpl; try done. intros ->.
  unfold runAfterHookIns. simpl ev_URI. wp_steps. rewrite Hafter. simpl. wp_steps. unfold unless_answered. simpl. wp_steps.
  split; [done|]. split; [done|]. by exists m.
Qed.

(** ** A lamp, created, read and removed *)

Module PresentationExample.
Import CreationExample.
#[local] Existing Instance parsers.
Definition text : Property := leaf (plain_info PropString).
Definition lamp : Resource := mkResource
  (mkResourceInfo "Lamp" "#Lamp" "/redfish/v1/$metadata#Lamp" None None false [] true true true false true ["Name"] [] "")
  [("@odata.id", text); ("@odata.type", text); ("@odata.context", text); ("Id", text); ("Name", text);
   ("Levels", array_of (leaf (plain_info PropNumber)))] None.
Definition lamps : Resource :=
  mkResource (plain_resource_info "LampCollection" true) [("Members", array_of text)] (Some lamp).
Definition lamp_object : object :=
  [("Id", VString "a"); ("Name", VString "blue"); ("Levels", VArray [])].
Definition everyone : OperationPrivilege := mkOperationPrivilege ["Login"].
Definition open_mapping : Mapping :=
  mkMapping "Lamp" [(MethodGet, [everyone]); (MethodDelete, [everyone])] [] [] [].
Definition lamp_server : redfishServer memstore :=
  mkServer memstore (rs_rfd server) (mkPrivilegeRegistry [open_mapping] [("Lamp", open_mapping)]) [] [].
Definition user : ManagerAccount := mkManagerAccount "1" "user" "ReadOnly" false true "secret" 0 0 0.
Definition uri0 : string := "/redfish/v1/Lamps".
Definition lamp_request (method : string) : httpRequest :=
  mkHttpRequest method 0 (child uri0 "a") (Some lamp) None "" (BodyValue VNil).
Definition post_lamp : httpRequest :=
  mkHttpRequest MethodPost 0 uri0 (Some lamps) None "" (BodyValue (VObject lamp_object)).
Definition lit : keys := created_keys ∅ lamp uri0 "a" lamp_object [].
Definition user_start : Memory * memstore :=
  (mkMemory (mkAccountService 60 30 3 8 64 true) [user] [("user", 0%nat)] [("ReadOnly", mkRole ["Login"] "ReadOnly")], lit).

Lemma post_lamp_complete : creation_request post_lamp lamps lamp "a" lamp_object.
Proof.
  constructor; try done. intros n Hn%list_elem_of_singleton. subst n. right. by left.
Qed.

Lemma no_lamps : collection_ok ∅ uri0 [].
Proof. constructor; [done|apply NoDup_nil_2|by constructor|by constructor|]. by intros i _ k _. Qed.


Lemma creation_conflicts_witness :
  handleResourceCreation lamp_server post_lamp lamps user_start
  = (Ret (reply (line "Message: CustomHTTP->ResourceAlreadyExists") StatusConflict), user_start).
Proof.
  apply (creation_conflicts memstore lamp_server post_lamp lamps lamp "a" lamp_object user_start);
    [exact post_lamp_complete|vm_compute; reflexivity].
Defined.

Lemma created_resource_read_witness :
  let r := lamp_request MethodGet in
  let r2s := mkRedis2Interface (Memory * memstore) (rs_rfd lamp_server) (resource r) (uri r) (xname r) in
  answers_with (handleGetRequest lamp_server r r2s) user_start (fun answer ks' =>
    ks' = keyspace user_start /\ presented_answer r2s (uri r) lamp lamp_object answer).
Proof.
  apply (created_resource_read memstore lamp_server (lamp_request MethodGet) lamp uri0 "a" lamp_object ∅ [] user_start);
    try reflexivity; try discriminate; [by intros k _|by split].
Defined.

Lemma created_resource_deleted_witness :
  let r := lamp_request MethodDelete in
  let r2s := mkRedis2Interface (Memory * memstore) (rs_rfd lamp_server) (resource r) (uri r) (xname r) in
  answers_with (handleDeleteRequest lamp_server 3 r r2s) user_start (fun answer ks' =>
    ks' = ∅ /\ presented_answer r2s (uri r) lamp lamp_object answer).
Proof.
  apply (created_resource_deleted memstore lamp_server (lamp_request MethodDelete) lamp uri0 "a" lamp_object ∅ [] 3 user_start);
    try reflexivity; try discriminate; [by intros k _|exact no_lamps|apply NoDup_nil_2|by intros ?%elem_of_nil|vm_compute; lia|by split].
Defined.

(** The context of the new lamp lists its fields in order. *)
Example lamp_context :
  match fst (handleGetRequest lamp_server (lamp_request MethodGet)
        (mkRedis2Interface (Memory * memstore) (rs_rfd lamp_server) (Some lamp) (child uri0 "a") "") user_start) with
  | Ret answer => match resp_body answer with JsonBody (VObject m) => mget "@odata.context" m | _ => None end
  | _ => None
  end = Some (VString "/redfish/v1/$metadata#Lamp(Id,Levels,Name)").
Proof. vm_compute. reflexivity. Qed.
End PresentationExample.
