(* ===== verification/Pipelines.v ===== *)
(** Pipelines of Redis commands, and the memory the backend helpers keep.

    go-redis queues commands in a [Pipeliner] and sends them with [Exec]: the
    commands are performed in order, and the error of the first that fails is
    reported.  [PipelineOps] is that interface, with the two commands only
    the backend helpers use; [PipelineLaws] states its documented behaviour.

    A helper is a struct reached through a pointer.  The structs together are
    a memory [X] next to the server, and a [lens] is the place of one of
    them, or of one of its fields, in that memory. *)
From S2P Require Import Prelude Redis.

(* ===================================================================== *)
(** * Commands and their effect                                          *)
(* ===================================================================== *)

Inductive command :=
  | CSet (k v : string)
  | CSAdd (k : string) (ms : list string)
  | CRPush (k : string) (vs : list string)
  | CDel (k : string).

Definition command_key (c : command) : string :=
  match c with CSet k _ | CSAdd k _ | CRPush k _ | CDel k => k end.

Definition command_effect (c : command) (ks : keys) : result unit * keys :=
  match c with
  | CSet k v => set_effect k v ks
  | CSAdd k ms => sadd_effect k ms ks
  | CRPush k vs => rpush_effect k vs ks
  | CDel k => (Ok tt, delete k ks)
  end.

(** [Exec]: every command is performed, the first error is reported. *)
Fixpoint commands_effect (cs : list command) (ks : keys) : result unit * keys :=
  match cs with
  | [] => (Ok tt, ks)
  | c :: cs' =>
      let '(r, ks1) := command_effect c ks in
      let '(rs, ks2) := commands_effect cs' ks1 in
      (match r with Err e => Err e | Ok _ => rs end, ks2)
  end.

(** [LLEN] *)
Definition llen_reply (v : option rval) : result Z :=
  match v with
  | None => Ok 0
  | Some (RList l) => Ok (Z.of_nat (List.length l))
  | _ => Err ErrWrongType
  end.

(* ===================================================================== *)
(** * The interface                                                      *)
(* ===================================================================== *)

Class PipelineOps (S P : Type) := {
  redis_llen : string -> M S (result Z);
  (* SET with an expiration, in nanoseconds *)
  redis_set_expiring : string -> string -> Z -> M S (result unit);
  (* Redis.Pipeline(), the queueing of a command, Exec() *)
  Pipeline : P;
  pipe_add : command -> P -> P;
  (* pipe.Set(key, value, expiration); with an expiration of 0 the key stays *)
  pipe_set_expiring : string -> string -> Z -> P -> P;
  pipe_exec : P -> M S (result unit);
}.

Class PipelineLaws (S P : Type) `{RedisLaws S} `{!PipelineOps S P} := {
  pipe_cmds : P -> list command;
  law_pipeline : pipe_cmds Pipeline = [];
  law_pipe_add c p : pipe_cmds (pipe_add c p) = pipe_cmds p ++ [c];
  law_pipe_set_expiring k v ttl p : pipe_cmds (pipe_set_expiring k v ttl p) = pipe_cmds p ++ [CSet k v];
  law_pipe_exec p s : answers keyspace (pipe_exec p) s
    (fst (commands_effect (pipe_cmds p) (keyspace s))) (snd (commands_effect (pipe_cmds p) (keyspace s)));
  law_llen k s : redis_llen (P:=P) k s = (Ret (llen_reply (keyspace s !! k)), s);
  law_set_expiring k v ttl s : answers keyspace (redis_set_expiring (P:=P) k v ttl) s
    (fst (set_effect k v (keyspace s))) (snd (set_effect k v (keyspace s)));
}.

(** Perform one command at once. *)
Definition run_command {S} `{RedisOps S} (c : command) : M S (result unit) :=
  match c with
  | CSet k v => redis_set k v
  | CSAdd k ms => redis_sadd k ms
  | CRPush k vs => redis_rpush k vs
  | CDel k => redis_del k
  end.

(** ** The in-memory server *)

#[export] Instance memstore_pipelines : PipelineOps memstore (list command) := {|
  redis_llen k := mem_read (fun ks => llen_reply (ks !! k));
  redis_set_expiring k v ttl := mem_write (set_effect k v);
  Pipeline := [];
  pipe_add c p := p ++ [c];
  pipe_set_expiring k v ttl p := p ++ [CSet k v];
  pipe_exec p := mem_write (commands_effect p);
|}.

#[export] Program Instance memstore_pipeline_laws : PipelineLaws memstore (list command) := {|
  pipe_cmds p := p;
|}.
Solve Obligations with intros; (reflexivity || apply mem_write_answers).

(** ** Next to other memory *)

#[export] Instance pair_pipelines X S P `{!PipelineOps S P} : PipelineOps (X * S) P := {|
  redis_llen k := on_snd (redis_llen k);
  redis_set_expiring k v ttl := on_snd (redis_set_expiring k v ttl);
  Pipeline := Pipeline (S:=S);
  pipe_add := pipe_add (S:=S);
  pipe_set_expiring := pipe_set_expiring (S:=S);
  pipe_exec p := on_snd (pipe_exec p);
|}.

(* ===================================================================== *)
(** * Values that expire                                                 *)
(* ===================================================================== *)

(** A value to be set, and for how long, in nanoseconds; 0 is for ever. *)
Record expiring := mkExpiring {
  ex_key : string;
  ex_value : string;
  ex_timeout : Z;
}.

Definition expiring_command (e : expiring) : command := CSet (ex_key e) (ex_value e).

(** [pl.Set] of each *)
Definition queue_expiring {S P} `{!PipelineOps S P} (l : list expiring) (pl : P) : P :=
  foldl (fun pl e => pipe_set_expiring (S:=S) (ex_key e) (ex_value e) (ex_timeout e) pl) pl l.

(* ===================================================================== *)
(** * Places in memory                                                   *)
(* ===================================================================== *)

Record lens (X A : Type) := mkLens {
  lget : X -> A;
  lput : A -> X -> X;
}.
Arguments mkLens {X A}.
Arguments lget {X A}.
Arguments lput {X A}.

Class LensLaws {X A} (l : lens X A) : Prop := {
  lget_lput a x : lget l (lput l a x) = a;
  lput_lget x : lput l (lget l x) x = x;
  lput_lput a b x : lput l a (lput l b x) = lput l a x;
}.

(** A field of the struct at a place *)
Definition lens_comp {X A B} (l : lens X A) (f : lens A B) : lens X B :=
  mkLens (fun x => lget f (lget l x)) (fun b x => lput l (lput f b (lget l x)) x).

#[export] Instance lens_comp_laws {X A B} (l : lens X A) (f : lens A B) :
  LensLaws l -> LensLaws f -> LensLaws (lens_comp l f).
Proof.
  intros Hl Hf. split; intros; simpl.
  - by rewrite lget_lput, lget_lput.
  - by rewrite lput_lget, lput_lget.
  - by rewrite lput_lput, lget_lput, lput_lput.
Qed.

Section cells.
Context {X S A : Type} (l : lens X A).

(** Read and write the place. *)
Definition fetch : M (X * S) A := fun s => (Ret (lget l (fst s)), s).
Definition assign (a : A) : M (X * S) unit := fun s => (Ret tt, (lput l a (fst s), snd s)).
End cells.

(* ===================================================================== *)
(** * Rules                                                              *)
(* ===================================================================== *)

Section rules.
Context {X S P : Type} `{Laws : RedisLaws S} `{!PipelineOps S P} `{PLaws : !PipelineLaws S P}.

Lemma wpm_fetch {A} (l : lens X A) x ks (Q : outcome A -> X -> keys -> Prop) :
  Q (Ret (lget l x)) x ks -> wpm x ks (fetch (S:=S) l) Q.
Proof. intros HQ. by apply (wpm_mem x ks _ (lget l x) x). Qed.

Lemma wpm_assign {A} (l : lens X A) a x ks (Q : outcome unit -> X -> keys -> Prop) :
  Q (Ret tt) (lput l a x) ks -> wpm x ks (assign (S:=S) l a) Q.
Proof. intros HQ. by apply (wpm_mem x ks _ tt (lput l a x)). Qed.

Lemma wpm_pipe_exec (p : P) x ks (Q : outcome (result unit) -> X -> keys -> Prop) :
  Q (Ret (fst (commands_effect (pipe_cmds p) ks))) x (snd (commands_effect (pipe_cmds p) ks)) ->
  wpm x ks (pipe_exec (S:=X * S) p) Q.
Proof.
  intros HQ. cbn. apply wpm_lift.
  apply (wp_answers ks _ (commands_effect (pipe_cmds p))); [apply law_pipe_exec|exact HQ].
Qed.

Lemma wpm_rpush k vs x ks (Q : outcome (result unit) -> X -> keys -> Prop) :
  Q (Ret (fst (rpush_effect k vs ks))) x (snd (rpush_effect k vs ks)) ->
  wpm x ks (redis_rpush k vs) Q.
Proof. intros HQ. apply wpm_lift, wp_rpush. exact HQ. Qed.

Lemma wpm_llen k x ks (Q : outcome (result Z) -> X -> keys -> Prop) :
  Q (Ret (llen_reply (ks !! k))) x ks -> wpm x ks (redis_llen (P:=P) k) Q.
Proof.
  intros HQ. cbn. apply wpm_lift.
  apply (wp_read ks _ (fun ks => llen_reply (ks !! k))); [intros s; apply law_llen|exact HQ].
Qed.

(** The commands of a pipeline *)
Lemma pipe_cmds_foldl {A} (f : A -> command) l (p : P) :
  pipe_cmds (foldl (fun pipe a => pipe_add (S:=S) (f a) pipe) p l) = pipe_cmds p ++ map f l.
Proof.
  revert p. induction l as [|a l IH]; intros p; simpl; [by rewrite app_nil_r|].
  rewrite IH, law_pipe_add. by rewrite <- app_assoc.
Qed.

Lemma pipe_cmds_expiring l (p : P) :
  pipe_cmds (queue_expiring (S:=S) l p) = pipe_cmds p ++ map expiring_command l.
Proof.
  unfold queue_expiring. revert p. induction l as [|e l IH]; intros p; simpl; [by rewrite app_nil_r|].
  rewrite IH, law_pipe_set_expiring. by rewrite <- app_assoc.
Qed.
End rules.

Ltac cell_step :=
  lazymatch goal with
  | |- wpm _ _ (fetch _) _ => apply wpm_fetch
  | |- wpm _ _ (assign _ _) _ => apply wpm_assign
  | |- wpm _ _ (pipe_exec _) _ => apply wpm_pipe_exec
  | |- wpm _ _ (redis_rpush _ _) _ => apply wpm_rpush
  | |- wpm _ _ (redis_llen _) _ => apply wpm_llen
  | _ => wpm_step
  end.
Ltac cell_steps := repeat cell_step.
