(* ===== verification/RedisHelper.v ===== *)
(** The Redis helper of the backend helpers
    ([internal/backend_helpers/common.go], the methods of [RedisHelper]).

    A backend helper writes the resources of a device into Redis with a few
    methods: [addMemberToSet], [setValueForPropertyInKeyspace],
    [addMemberToArray].  While a pipeline is active the writes to sets and
    strings are queued in it, but the ones to lists are performed at once.
    Most callers ignore the error of these methods and keep the keyspace they
    return, which is empty then; so both are returned here. *)
From S2P Require Import Prelude Values Redis RedisStruct Dispatcher Accounts Pipelines.

Definition ServiceRootKeyspace : string := "/redfish/v1".
Definition ChassisKeyspace : string := ServiceRootKeyspace +:+ "/Chassis".
Definition SystemsKeyspace : string := ServiceRootKeyspace +:+ "/Systems".
Definition CertificateServiceKeyspace : string := ServiceRootKeyspace +:+ "/CertificateService".
Definition ManagersKeyspace : string := ServiceRootKeyspace +:+ "/Managers".

Definition GenericBmcID : string := "BMC".
Definition GenericCertificateID : string := "1".

(** The struct, next to the client; [RedisActivePipeline] may be nil. *)
Record RedisHelper (P : Type) := mkRedisHelper {
  RedisActivePipeline : option P;
}.
Arguments mkRedisHelper {P}.
Arguments RedisActivePipeline {P}.

(** The error of a result *)
Definition error_of {A} (r : result A) : option go_error :=
  match r with Ok _ => None | Err e => Some e end.

(** The results of a method: a keyspace, and an error. *)
Abbreviation keyspace_and_error := (string * option go_error)%type.

(** The two results [(keyspace, err)] of a call, the error as a result *)
Definition result_of (err : option go_error) : result unit :=
  match err with Some e => Err e | None => Ok tt end.

(** [defer]: the clean-up is done however the call ends. *)
Definition deferring {S A} (m : M S A) (cleanup : M S unit) : M S A := fun s =>
  let '(o, s1) := m s in
  match cleanup s1 with
  | (Ret _, s2) => (o, s2)
  | (Panic msg, s2) => (Panic msg, s2)
  | (Fatal msg, s2) => (Fatal msg, s2)
  | (OutOfFuel, s2) => (OutOfFuel, s2)
  end.

Section helper.
Context {X S P : Type} `{RedisOps S} `{!PipelineOps S P}.
Variable helper : lens X (RedisHelper P).

Definition startPipeline : P := Pipeline (S:=S).

(** [if helper.RedisActivePipeline != nil { queue it } else { perform it }]:
    a command in a queue has no error yet. *)
Definition to_active_pipeline (c : command) : M (X * S) (option go_error) :=
  h <- fetch helper ;;
  match RedisActivePipeline h with
  | Some p => assign helper (mkRedisHelper (Some (pipe_add (S:=S) c p))) ;; ret None
  | None => r <- run_command c ;; ret (error_of r)
  end.

Definition addMemberToSet (keyspace member : string) : M (X * S) keyspace_and_error :=
  err <- to_active_pipeline (CSAdd keyspace [member]) ;;
  match err with
  | Some e => ret ("", Some e)
  | None => ret (child keyspace member, None)
  end.

Definition setValueForPropertyInKeyspace (keyspace property value : string) :
    M (X * S) keyspace_and_error :=
  let propertyKeyspace := child keyspace property in
  err <- to_active_pipeline (CSet propertyKeyspace value) ;;
  match err with
  | Some e => ret (propertyKeyspace, Some e)
  | None =>
      added <- addMemberToSet keyspace property ;;
      ret (propertyKeyspace, snd added)
  end.

Definition addMemberToArray (keyspace property : string) : M (X * S) keyspace_and_error :=
  let propertyKeyspace := child keyspace property in
  r <- redis_llen (P:=P) propertyKeyspace ;;
  match r with
  | Err e => ret ("", Some e)
  | Ok count =>
      err <- (if Z.eqb count 0
              then added <- addMemberToSet keyspace property ;; ret (snd added)
              else ret None) ;;
      match err with
      | Some e => ret ("", Some e)
      | None =>
          r <- redis_rpush propertyKeyspace [format_int count] ;;
          match r with
          | Err e => ret ("", Some e)
          | Ok _ => ret (child propertyKeyspace (format_int count), None)
          end
      end
  end.

(** The writes of a device in an active pipeline, which is dropped on an
    error and executed otherwise; the mutex is free. *)
Definition in_active_pipeline (writes : M (X * S) (result unit)) : M (X * S) (result unit) :=
  assign helper (mkRedisHelper (Some startPipeline)) ;;
  r <- writes ;;
  match r with
  | Err err => assign helper (mkRedisHelper None) ;; ret (Err err)
  | Ok _ =>
      h <- fetch helper ;;
      r <- match RedisActivePipeline h with
           | Some pl => pipe_exec pl
           | None => panic "runtime error: invalid memory address or nil pointer dereference"
           end ;;
      assign helper (mkRedisHelper None) ;;
      ret r
  end.

(** [bcrypt.GenerateFromPassword], with its random salt *)
Variable GenerateFromPassword : string -> M (X * S) (result string).

(** The error of the command that stores the hash is overwritten. *)
Definition initAccount (username role password : string) : M (X * S) (result unit) :=
  hash <-? GenerateFromPassword password ;;
  let passwordHash := EncodeToString hash in
  let instanceName := username in
  let enabled := "true" in
  let locked := "false" in
  let roleId := role in
  let accountServiceKeyspace := path_join [ServiceRootKeyspace; "AccountService"] in
  let accountsKeyspace := path_join [accountServiceKeyspace; "Accounts"] in
  let instanceKeyspace := path_join [accountsKeyspace; instanceName] in
  addMemberToSet instanceKeyspace "@odata.id" ;;
  addMemberToSet instanceKeyspace "@odata.type" ;;
  addMemberToSet instanceKeyspace "@odata.context" ;;
  setValueForPropertyInKeyspace instanceKeyspace "Name" instanceName ;;
  setValueForPropertyInKeyspace instanceKeyspace "Id" instanceName ;;
  setValueForPropertyInKeyspace instanceKeyspace "RoleId" roleId ;;
  setValueForPropertyInKeyspace instanceKeyspace "Enabled" enabled ;;
  setValueForPropertyInKeyspace instanceKeyspace "Locked" locked ;;
  setValueForPropertyInKeyspace instanceKeyspace "UserName" username ;;
  let propertyKeyspace := path_join [instanceKeyspace; "Password:hash"] in
  redis_set propertyKeyspace passwordHash ;;
  member <- addMemberToArray accountsKeyspace "Members" ;;
  let '(memberKeyspace, err) := member in
  setValueForPropertyInKeyspace memberKeyspace "@odata.id" instanceKeyspace ;;
  ret (match err with Some e => Err e | None => Ok tt end).

Definition initManagerCollection (xname : string) : M (X * S) (result unit) :=
  added <- addMemberToSet ServiceRootKeyspace "Managers" ;;
  match added with
  | (_, Some err) => ret (Err err)
  | (keyspace, None) =>
      let keyspace := path_join [xname; keyspace] in
      addMemberToSet keyspace "@odata.id" ;;
      addMemberToSet keyspace "@odata.type" ;;
      setValueForPropertyInKeyspace keyspace "Name" "Managers Collection" ;;
      setValueForPropertyInKeyspace keyspace "Description"
        "A collection of all Manager instances on this host" ;;
      addMemberToSet keyspace "Members" ;;
      ret (Ok tt)
  end.

Definition initManager (xname bmcID model : string) : M (X * S) (result unit) :=
  let keyspace := path_join [xname; ManagersKeyspace; bmcID] in
  addMemberToSet keyspace "@odata.id" ;;
  addMemberToSet keyspace "@odata.type" ;;
  setValueForPropertyInKeyspace keyspace "Id" bmcID ;;
  setValueForPropertyInKeyspace keyspace "Name" "Redfish Translation Service" ;;
  setValueForPropertyInKeyspace keyspace "Model" model ;;
  setValueForPropertyInKeyspace keyspace "PowerState" "On" ;;
  member <- addMemberToArray (path_join [xname; ManagersKeyspace]) "Members" ;;
  match member with
  | (_, Some _) => ret (Err (ErrText ("unable to add member to array for instance: " +:+ xname)))
  | (memberKeyspace, None) =>
      setValueForPropertyInKeyspace memberKeyspace "@odata.id" keyspace ;;
      ret (Ok tt)
  end.

(** The keys that match the pattern [xname*]; an xname has no character
    that is special in a pattern. *)
Definition removeXnamePrependedKeys (xname : string) : M (X * S) (result unit) :=
  xnameKeys <-? redis_keys_with_prefix xname ;;
  pipe_exec (foldl (fun pipe xnameKey => pipe_add (S:=S) (CDel xnameKey) pipe) (Pipeline (S:=S)) xnameKeys).

(** The errors are only logged. *)
Definition invalidateRedisKeys (keys : list string) : M (X * S) unit :=
  for_each (fun key => redis_del key ;; ret tt) keys.

Definition collectionMembers (memberKey : string) : M (X * S) (result (list string)) :=
  indexes <-? redis_lrange memberKey ;;
  fold_ok (fun members index =>
    link <-? redis_get (path_join [memberKey; index; "@odata.id"]) ;;
    ret (Ok (members ++ [path_base link]))) [] indexes.

(** Whether a new period starts: the key is a timer, kept by Redis for the
    duration [timeout]. *)
Definition checkTimeoutKey (key : string) (timeout : Z) : M (X * S) (result bool) :=
  exists_ <-? redis_exists key ;;
  if exists_ : bool then ret (Ok false)
  else
    _ <-? redis_set_expiring (P:=P) key "rts" timeout ;;
    ret (Ok true).
End helper.
