(* ===== verification/Performs.v ===== *)
(** Reasoning about code that writes to Redis within an area.

    The set-up of a device is a long sequence of writes below its xname and to
    a few shared keys of the service root, whose results depend on what Redis
    holds below the xname only.  [performs] is a judgement on such code about
    two runs at once: from two servers that agree on the keys of the area's
    owner, the code returns the same value and performs the same commands, all
    allowed in the area.  So one derivation shows that the code succeeds, that
    it confines its writes, that it does not depend on the other keys, and
    (because the shared commands are absorbed when they are repeated) that
    doing it again changes nothing. *)
From stdpp Require Import sets.
From S2P Require Import Prelude Redis RedisStruct Pipelines RedisHelper.

(* ===================================================================== *)
(** * Areas                                                              *)
(* ===================================================================== *)

Inductive kind := KStr | KSet | KList.

#[export] Instance kind_eq_dec : EqDecision kind.
Proof. solve_decision. Defined.

Definition has_kind (t : kind) (v : rval) : Prop :=
  match v, t with
  | RStr _, KStr | RSet _, KSet | RList _, KList => True
  | _, _ => False
  end.

(** The keys of the owner, the type of every key, and the shared keys: the
    sets to which members may be added, the strings with the value they have. *)
Record area := mkArea {
  own : string -> Prop;
  kind_of : string -> kind;
  shared_set : string -> Prop;
  shared_value : string -> option string;
}.

Section area.
Variable D : area.

Definition in_area (k : string) : Prop :=
  own D k \/ shared_set D k \/ is_Some (shared_value D k).

(** The keys of the area that exist have the type they should have. *)
Definition typed (ks : keys) : Prop :=
  forall k v, in_area k -> ks !! k = Some v -> has_kind (kind_of D k) v.

Definition allowed (c : command) : Prop :=
  match c with
  | CSet k v => kind_of D k = KStr /\ (own D k \/ shared_value D k = Some v)
  | CSAdd k ms => kind_of D k = KSet /\ ms <> [] /\ (own D k \/ shared_set D k)
  | CRPush k vs => kind_of D k = KList /\ vs <> [] /\ own D k
  | CDel k => False
  end.

(** The two keyspaces are the same for the owner. *)
Definition agree (ks1 ks2 : keys) : Prop := forall k, own D k -> ks1 !! k = ks2 !! k.

(** The keyspace after the commands *)
Definition run (cs : list command) (ks : keys) : keys := snd (commands_effect cs ks).

(** ** Commands, key by key *)

(** What a command does to the value of its key *)
Definition on_value (c : command) (v : option rval) : option rval :=
  match c with
  | CSet _ s => Some (RStr s)
  | CSAdd _ [] => v
  | CSAdd _ ms =>
      match v with
      | None => Some (RSet (list_to_set ms))
      | Some (RSet X) => Some (RSet (X ∪ list_to_set ms))
      | _ => v
      end
  | CRPush _ [] => v
  | CRPush _ vs =>
      match v with
      | None => Some (RList vs)
      | Some (RList l) => Some (RList (l ++ vs))
      | _ => v
      end
  | CDel _ => None
  end.

Lemma command_effect_lookup c ks k :
  snd (command_effect c ks) !! k = if decide (k = command_key c) then on_value c (ks !! k) else ks !! k.
Proof.
  destruct (decide (k = command_key c)) as [->|Hk]; destruct c as [k' s|k' ms|k' vs|k']; simpl in *;
    unfold sadd_effect, rpush_effect; try destruct ms; try destruct vs; simpl;
    try (destruct (ks !! k') as [[]|] eqn:Ek); simpl;
    by rewrite ?lookup_insert_eq, ?lookup_delete_eq, ?lookup_insert_ne, ?lookup_delete_ne, ?Ek.
Qed.

Lemma run_cons c cs ks : run (c :: cs) ks = run cs (snd (command_effect c ks)).
Proof.
  unfold run. simpl. destruct (command_effect c ks) as [r ks1]. simpl.
  by destruct (commands_effect cs ks1).
Qed.

Lemma run_app cs1 cs2 ks : run (cs1 ++ cs2) ks = run cs2 (run cs1 ks).
Proof.
  revert ks. induction cs1 as [|c cs1 IH]; intros ks; [done|].
  by rewrite <- app_comm_cons, !run_cons, IH.
Qed.

(** The value of a key afterwards only depends on its value before. *)
Lemma run_lookup cs ks1 ks2 k : ks1 !! k = ks2 !! k -> run cs ks1 !! k = run cs ks2 !! k.
Proof.
  revert ks1 ks2. induction cs as [|c cs IH]; intros ks1 ks2 E; [done|].
  rewrite !run_cons. apply IH. rewrite !command_effect_lookup. by rewrite E.
Qed.

Lemma run_agree cs ks1 ks2 : agree ks1 ks2 -> agree (run cs ks1) (run cs ks2).
Proof. intros Hagree k Hk. by apply run_lookup, Hagree. Qed.

(** ** Allowed commands succeed *)

Lemma allowed_in_area c : allowed c -> in_area (command_key c).
Proof. unfold in_area. destruct c; simpl; naive_solver. Qed.

Lemma allowed_succeeds c ks :
  allowed c -> typed ks -> fst (command_effect c ks) = Ok tt /\ typed (snd (command_effect c ks)).
Proof.
  intros Hc Ht. pose proof (allowed_in_area c Hc) as Hin. split.
  - specialize (Ht (command_key c)). destruct c as [k s|k [|m ms]|k [|v vs]|k]; simpl in *;
      unfold sadd_effect, rpush_effect; try naive_solver;
      destruct (ks !! k) as [v'|]; try done;
      specialize (Ht v' Hin eq_refl); destruct Hc as [Hkind _]; rewrite Hkind in Ht;
      by destruct v'.
  - intros k v Hk. rewrite command_effect_lookup. case_decide as E; [|by apply Ht].
    subst k. specialize (Ht (command_key c)). destruct c as [k s|k [|m ms]|k [|v' vs]|k]; simpl in *;
      intros Hv; try naive_solver;
      destruct (ks !! k) as [w|] eqn:Ek; destruct Hc as [Hkind _]; rewrite Hkind in *;
      try (specialize (Ht w Hin eq_refl)); simplify_eq; try done; destruct w; simplify_eq; done.
Qed.

Lemma commands_succeed cs ks :
  Forall allowed cs -> typed ks -> fst (commands_effect cs ks) = Ok tt /\ typed (run cs ks).
Proof.
  intros Hcs. revert ks. induction Hcs as [|c cs Hc _ IH]; intros ks Ht; [done|].
  destruct (allowed_succeeds c ks Hc Ht) as [Hok Ht1]. rewrite run_cons.
  destruct (IH _ Ht1) as [Hok' Ht']. split; [|done]. simpl.
  destruct (command_effect c ks) as [r ks1]. simpl in *. subst r.
  by destruct (commands_effect cs ks1).
Qed.

Lemma run_frame cs ks k : Forall allowed cs -> ~ in_area k -> run cs ks !! k = ks !! k.
Proof.
  intros Hcs Hk. revert ks. induction Hcs as [|c cs Hc _ IH]; intros ks; [done|].
  rewrite run_cons, IH, command_effect_lookup, decide_False; [done|].
  intros ->. by apply Hk, allowed_in_area.
Qed.

(** Commands on other keys *)
Lemma run_other cs ks k : Forall (fun c => command_key c <> k) cs -> run cs ks !! k = ks !! k.
Proof.
  intros Hcs. revert ks. induction Hcs as [|c cs Hc _ IH]; intros ks; [done|].
  rewrite run_cons, IH, command_effect_lookup. by rewrite decide_False.
Qed.

(** The last assignment to a key *)
Lemma run_assigned cs1 k v cs2 ks :
  Forall (fun c => command_key c <> k) cs2 -> run (cs1 ++ CSet k v :: cs2) ks !! k = Some (RStr v).
Proof. intros Hcs. rewrite run_app, run_cons, run_other by done. apply lookup_insert_eq. Qed.

(** ** Shared commands are absorbed *)

(** The command would change nothing. *)
Definition satisfied (c : command) (ks : keys) : Prop :=
  match c with
  | CSet k v => ks !! k = Some (RStr v)
  | CSAdd k ms => exists X, ks !! k = Some (RSet X) /\ list_to_set ms ⊆ X
  | CRPush _ _ | CDel _ => False
  end.

Lemma satisfied_id c ks : satisfied c ks -> snd (command_effect c ks) = ks.
Proof.
  intros Hc. apply map_eq. intros k. rewrite command_effect_lookup. case_decide as E; [|done].
  subst k. destruct c as [k s|k [|m ms]|k vs|k]; simpl in *; try done.
  destruct Hc as (X & -> & HX). do 2 f_equal. set_solver.
Qed.

Lemma command_satisfied c ks :
  allowed c -> typed ks -> ~ own D (command_key c) -> satisfied c (snd (command_effect c ks)).
Proof.
  intros Hc Ht Hown. pose proof (Ht (command_key c)) as Hk. specialize (fun v => Hk v (allowed_in_area c Hc)).
  destruct c as [k s|k [|m ms]|k vs|k]; cbn [satisfied command_key] in *;
    [|naive_solver|..|done].
  - by rewrite command_effect_lookup, decide_True.
  - rewrite command_effect_lookup, decide_True by done. destruct Hc as [Hkind _]. rewrite Hkind in Hk. simpl.
    destruct (ks !! k) as [v|]; [|by eexists].
    specialize (Hk v eq_refl). destruct v as [|X| |]; simpl in Hk; try done.
    exists (X ∪ list_to_set (m :: ms)). split; [done|set_solver].
  - simpl in Hc. naive_solver.
Qed.

(** Commands on shared keys do not undo one another. *)
Lemma satisfied_stable c d ks :
  allowed c -> allowed d -> ~ own D (command_key c) -> satisfied c ks ->
  satisfied c (snd (command_effect d ks)).
Proof.
  intros Hc Hd Hown Hs.
  destruct (decide (command_key c = command_key d)) as [E|E];
    [|destruct c; simpl in *; rewrite ?command_effect_lookup, ?decide_False by done; done].
  assert (Hnd : ~ own D (command_key d)) by congruence.
  destruct c as [k s|k ms|k vs|k], d as [k' s'|k' ms'|k' vs'|k']; cbn [allowed command_key satisfied] in *;
    subst; try solve [destruct_and?; done || congruence || naive_solver].
  - rewrite command_effect_lookup, decide_True by done. simpl. naive_solver.
  - destruct Hs as (X & HX & Hms). rewrite command_effect_lookup, decide_True, HX by done.
    destruct ms'; simpl; [naive_solver|]. eexists. split; [done|]. set_solver.
Qed.

Lemma run_stable c cs ks :
  allowed c -> Forall allowed cs -> ~ own D (command_key c) -> satisfied c ks -> satisfied c (run cs ks).
Proof.
  intros Hc Hcs Hown. revert ks. induction Hcs as [|d cs Hd _ IH]; intros ks Hs; [done|].
  rewrite run_cons. by apply IH, satisfied_stable.
Qed.

Lemma run_satisfied cs ks c :
  Forall allowed cs -> typed ks -> c ∈ cs -> ~ own D (command_key c) -> satisfied c (run cs ks).
Proof.
  intros Hcs. revert ks. induction Hcs as [|d cs Hd Hcs IH]; intros ks Ht Hin Hown; [by apply not_elem_of_nil in Hin|].
  rewrite run_cons. destruct (allowed_succeeds d ks Hd Ht) as [_ Ht1].
  apply elem_of_cons in Hin as [->|Hin]; [|by apply IH].
  apply run_stable; [done..|]. by apply command_satisfied.
Qed.

(** Repeated commands leave every key that is not the owner's. *)
Lemma run_absorbed cs ks k :
  Forall allowed cs -> (forall c, c ∈ cs -> ~ own D (command_key c) -> satisfied c ks) ->
  ~ own D k -> run cs ks !! k = ks !! k.
Proof.
  intros Hcs. revert ks. induction Hcs as [|d cs Hd Hcs IH]; intros ks Hs Hk; [done|].
  rewrite run_cons. rewrite IH; [| |done].
  - rewrite command_effect_lookup. case_decide as E; [|done]. subst k.
    rewrite <- (satisfied_id d ks) at 2 by (apply Hs; [left|done]).
    by rewrite command_effect_lookup, decide_True.
  - intros c Hin Hc. apply satisfied_stable; [|done..|].
    + rewrite Forall_forall in Hcs. by apply Hcs.
    + apply Hs; [by right|done].
Qed.

(** Doing the same again, after the owner's keys are as they were. *)
Lemma run_again cs ks0 ks1 :
  Forall allowed cs -> typed ks0 -> agree ks1 ks0 ->
  (forall k, ~ own D k -> ks1 !! k = run cs ks0 !! k) ->
  (forall k, Decision (own D k)) -> run cs ks1 = run cs ks0.
Proof.
  intros Hcs Ht Hagree Hshared Hdec. apply map_eq. intros k. destruct (decide (own D k)) as [Hk|Hk].
  - by apply run_lookup, Hagree.
  - rewrite <- (Hshared k Hk). apply run_absorbed; [done| |done].
    intros c Hin Hc. pose proof (run_satisfied cs ks0 c Hcs Ht Hin Hc) as Hs.
    destruct c; cbn [satisfied command_key] in *; by rewrite ?Hshared.
Qed.
End area.

(* ===================================================================== *)
(** * The judgement                                                      *)
(* ===================================================================== *)

Section performs.
Context {X S P : Type} `{Laws : RedisLaws S} `{!PipelineOps S P} `{PLaws : !PipelineLaws S P}.
Variable D : area.

Definition performs {A} (x : X) (m : M (X * S) A) (Q : A -> X -> Prop) : Prop :=
  forall s1 s2, typed D (keyspace s1) -> typed D (keyspace s2) ->
    agree D (keyspace s1) (keyspace s2) ->
  exists a x' s1' s2' cs,
    m (x, s1) = (Ret a, (x', s1')) /\ m (x, s2) = (Ret a, (x', s2')) /\
    Forall (allowed D) cs /\
    keyspace s1' = run cs (keyspace s1) /\ keyspace s2' = run cs (keyspace s2) /\ Q a x'.

Lemma performs_ret {A} x (a : A) (Q : A -> X -> Prop) : Q a x -> performs x (ret a) Q.
Proof. intros HQ s1 s2 _ _ _. by exists a, x, s1, s2, []. Qed.

Lemma performs_bind {A B} x (m : M (X * S) A) (k : A -> M (X * S) B) (Q : B -> X -> Prop) :
  performs x m (fun a x' => performs x' (k a) Q) -> performs x (bind m k) Q.
Proof.
  intros Hm s1 s2 T1 T2 Hagree.
  destruct (Hm s1 s2 T1 T2 Hagree) as (a & x' & s1' & s2' & cs & E1 & E2 & Hcs & K1 & K2 & Hk).
  destruct (Hk s1' s2') as (b & x'' & s1'' & s2'' & cs' & E1' & E2' & Hcs' & K1' & K2' & HQ).
  - rewrite K1. by apply commands_succeed.
  - rewrite K2. by apply commands_succeed.
  - rewrite K1, K2. by apply run_agree.
  - exists b, x'', s1'', s2'', (cs ++ cs'). unfold bind. rewrite E1, E2, !run_app, <- K1, <- K2.
    by rewrite Forall_app.
Qed.

Lemma performs_bind_ok {A B} x (m : M (X * S) (result A)) (k : A -> M (X * S) (result B))
    (Q : result B -> X -> Prop) :
  performs x m (fun r x' => performs x' (match r with Ok a => k a | Err e => ret (Err e) end) Q) ->
  performs x (bind_ok m k) Q.
Proof. apply performs_bind. Qed.

Lemma performs_mono {A} x (m : M (X * S) A) (Q Q' : A -> X -> Prop) :
  performs x m Q -> (forall a x', Q a x' -> Q' a x') -> performs x m Q'.
Proof.
  intros Hm HQ s1 s2 T1 T2 Hagree.
  destruct (Hm s1 s2 T1 T2 Hagree) as (a & x' & s1' & s2' & cs & ?). naive_solver eauto 10.
Qed.

(** An action that only concerns the memory, or the outside *)
Definition silent {A} (x : X) (m : M (X * S) A) (a : A) (x' : X) : Prop :=
  forall s, exists s', m (x, s) = (Ret a, (x', s')) /\ keyspace s' = keyspace s.

Lemma performs_silent {A} x (m : M (X * S) A) a x' (Q : A -> X -> Prop) :
  silent x m a x' -> Q a x' -> performs x m Q.
Proof.
  intros Hm HQ s1 s2 _ _ _. destruct (Hm s1) as (s1' & E1 & K1), (Hm s2) as (s2' & E2 & K2).
  by exists a, x', s1', s2', [].
Qed.

Lemma silent_fetch {A} x (l : lens X A) : silent x (fetch l) (lget l x) x.
Proof. intros s. by exists s. Qed.
Lemma silent_assign {A} x (l : lens X A) a : silent x (assign l a) tt (lput l a x).
Proof. intros s. by exists s. Qed.

Lemma wpm_silent {A} x ks (m : M (X * S) A) a x' (Q : outcome A -> X -> keys -> Prop) :
  silent x m a x' -> Q (Ret a) x' ks -> wpm x ks m Q.
Proof. intros Hm HQ s <-. destruct (Hm s) as (s' & -> & Hs'). simpl. by rewrite Hs'. Qed.

(** A command with a single effect *)
Lemma performs_answers x (m : M S (result unit)) c (Q : result unit -> X -> Prop) :
  (forall s, answers keyspace m s (fst (command_effect c (keyspace s)))
               (snd (command_effect c (keyspace s)))) ->
  allowed D c -> Q (Ok tt) x -> performs x (on_snd m) Q.
Proof.
  intros Hm Hc HQ s1 s2 T1 T2 _.
  destruct (Hm s1) as (s1' & E1 & K1), (Hm s2) as (s2' & E2 & K2).
  exists (Ok tt), x, s1', s2', [c]. unfold on_snd. cbn [snd fst]. rewrite E1, E2, !run_cons, K1, K2.
  destruct (allowed_succeeds D c _ Hc T1) as [-> _], (allowed_succeeds D c _ Hc T2) as [-> _].
  by rewrite Forall_singleton.
Qed.

Lemma performs_run_command x c (Q : result unit -> X -> Prop) :
  allowed D c -> Q (Ok tt) x -> performs x (run_command c) Q.
Proof.
  destruct c as [k v|k ms|k vs|k]; simpl; try done; intros Hc HQ.
  - apply (performs_answers _ _ (CSet k v)); [apply law_set|done..].
  - apply (performs_answers _ _ (CSAdd k ms)); [apply law_sadd|done..].
  - apply (performs_answers _ _ (CRPush k vs)); [apply law_rpush|done..].
Qed.

Lemma performs_rpush x k vs (Q : result unit -> X -> Prop) :
  allowed D (CRPush k vs) -> Q (Ok tt) x -> performs x (redis_rpush k vs) Q.
Proof. apply (performs_run_command x (CRPush k vs)). Qed.

Lemma performs_pipe_exec x (p : P) (Q : result unit -> X -> Prop) :
  Forall (allowed D) (pipe_cmds p) -> Q (Ok tt) x -> performs x (pipe_exec (S:=X * S) p) Q.
Proof.
  intros Hp HQ s1 s2 T1 T2 _.
  destruct (law_pipe_exec p s1) as (s1' & E1 & K1), (law_pipe_exec p s2) as (s2' & E2 & K2).
  exists (Ok tt), x, s1', s2', (pipe_cmds p). cbn. unfold on_snd. cbn [snd fst]. rewrite E1, E2, K1, K2.
  destruct (commands_succeed D _ _ Hp T1) as [-> _], (commands_succeed D _ _ Hp T2) as [-> _].
  done.
Qed.

(** The length of one of the owner's lists: whatever it is. *)
Lemma performs_llen x k (Q : result Z -> X -> Prop) :
  own D k -> kind_of D k = KList -> (forall n : nat, Q (Ok (Z.of_nat n)) x) ->
  performs x (redis_llen (P:=P) k) Q.
Proof.
  intros Hown Hkind HQ s1 s2 T1 T2 Hagree. cbn. unfold on_snd. cbn [snd fst].
  pose proof (law_llen k s1) as E1. pose proof (law_llen k s2) as E2.
  rewrite <- (Hagree k Hown) in E2.
  assert (Hn : exists n : nat, llen_reply (keyspace s1 !! k) = Ok (Z.of_nat n)).
  { specialize (T1 k). destruct (keyspace s1 !! k) as [v|] eqn:Ek; [|by exists 0%nat].
    specialize (T1 v (or_introl Hown) eq_refl). rewrite Hkind in T1.
    destruct v as [| |l|]; try done. by exists (List.length l). }
  destruct Hn as [n Hn]. rewrite Hn in *.
  exists (Ok (Z.of_nat n)), x, s1, s2, []. by rewrite E1, E2.
Qed.

(** A loop with an invariant on the memory *)
Lemma performs_fold_ok {A B} (f : B -> A -> M (X * S) (result B)) (I : X -> Prop) l b x
    (Q : result B -> X -> Prop) :
  I x -> (forall b x a, I x -> a ∈ l -> performs x (f b a) (fun r x' => (exists b', r = Ok b') /\ I x')) ->
  (forall b x, I x -> Q (Ok b) x) -> performs x (fold_ok f b l) Q.
Proof.
  intros Hx Hf HQ. revert b x Hx Hf. induction l as [|a l IH]; intros b x Hx Hf; simpl.
  - apply performs_ret. by apply HQ.
  - apply performs_bind_ok. eapply performs_mono; [apply Hf; [done|left]|].
    intros r x' [[b' ->] Hx']. apply IH; [done|]. intros b1 x1 a1 Hx1 Ha1. apply Hf; [done|by right].
Qed.

(* --------------------------------------------------------------------- *)
(** ** The methods of the Redis helper                                    *)
(* --------------------------------------------------------------------- *)

Section methods.
Variable helper : lens X (RedisHelper P).
Context `{!LensLaws helper}.

(** The memory [x] is [x0], up to allowed commands in the pipeline of the
    helper if it has one. *)
Definition grows (x0 x : X) : Prop :=
  match RedisActivePipeline (lget helper x0) with
  | None => x = x0
  | Some _ => exists p, x = lput helper (mkRedisHelper (Some p)) x0 /\ Forall (allowed D) (pipe_cmds p)
  end.

Lemma grows_idle x : RedisActivePipeline (lget helper x) = None -> grows x x.
Proof. unfold grows. by intros ->. Qed.

Lemma performs_to_active x0 x c (Q : option go_error -> X -> Prop) :
  grows x0 x -> allowed D c -> (forall x', grows x0 x' -> Q None x') ->
  performs x (to_active_pipeline helper c) Q.
Proof.
  intros Hx Hc HQ. unfold to_active_pipeline. apply performs_bind.
  eapply performs_silent; [apply silent_fetch|]. unfold grows in Hx.
  destruct (RedisActivePipeline (lget helper x0)) as [q|] eqn:Eq.
  - destruct Hx as (p & -> & Hp). rewrite lget_lput. cbn [RedisActivePipeline].
    apply performs_bind. eapply performs_silent; [apply silent_assign|]. apply performs_ret, HQ.
    unfold grows. rewrite Eq, lput_lput. eexists. split; [done|].
    rewrite law_pipe_add, Forall_app, Forall_singleton. done.
  - subst x. rewrite Eq. apply performs_bind, performs_run_command; [done|].
    apply performs_ret, HQ. unfold grows. by rewrite Eq.
Qed.

Lemma performs_addMemberToSet x0 x k m (Q : keyspace_and_error -> X -> Prop) :
  grows x0 x -> allowed D (CSAdd k [m]) -> (forall x', grows x0 x' -> Q (child k m, None) x') ->
  performs x (addMemberToSet helper k m) Q.
Proof.
  intros Hx Hc HQ. apply performs_bind, (performs_to_active x0); [done..|].
  intros x' Hx'. by apply performs_ret, HQ.
Qed.

Lemma performs_setValue x0 x k m v (Q : keyspace_and_error -> X -> Prop) :
  grows x0 x -> allowed D (CSet (child k m) v) -> allowed D (CSAdd k [m]) ->
  (forall x', grows x0 x' -> Q (child k m, None) x') ->
  performs x (setValueForPropertyInKeyspace helper k m v) Q.
Proof.
  intros Hx Hset Hadd HQ. unfold setValueForPropertyInKeyspace.
  apply performs_bind, (performs_to_active x0); [done..|]. intros x1 Hx1.
  apply performs_bind, (performs_addMemberToSet x0); [done..|]. intros x2 Hx2.
  by apply performs_ret, HQ.
Qed.

Lemma performs_addMemberToArray x0 x k m (Q : keyspace_and_error -> X -> Prop) :
  grows x0 x -> allowed D (CSAdd k [m]) -> allowed D (CRPush (child k m) ["0"]) ->
  (forall x' (n : nat), grows x0 x' -> Q (child (child k m) (format_nat n), None) x') ->
  performs x (addMemberToArray (P:=P) helper k m) Q.
Proof.
  intros Hx Hadd (Hkind & _ & Hown) HQ. unfold addMemberToArray.
  apply performs_bind, performs_llen; [done..|]. intros n. cbv beta iota.
  assert (Htail : forall x1, grows x0 x1 -> performs x1
    (r <- redis_rpush (child k m) [format_int (Z.of_nat n)];;
     match r with
     | Ok _ => ret (child (child k m) (format_int (Z.of_nat n)), None)
     | Err e => ret ("", Some e)
     end) Q).
  { intros x1 Hx1. apply performs_bind, performs_rpush; [done|]. apply performs_ret.
    by apply (HQ x1 n). }
  apply performs_bind. destruct (Z.eqb (Z.of_nat n) 0).
  - apply performs_bind, (performs_addMemberToSet x0); [done..|]. intros x1 Hx1.
    apply performs_ret. by apply Htail.
  - apply performs_ret. by apply Htail.
Qed.
End methods.
End performs.
