(* ===== verification/DeviceKeys.v ===== *)
(** The keys of a device.

    A backend helper keeps the resources of a device below its xname: a key
    is the xname followed by the tokens of a path, built with [child] and
    [filepath.Join].  This file gives every such key its tokens ([is_key]),
    and the area of a device: its own keys, what the type of each key is, and
    the few keys of the service root that all devices share. *)
From stdpp Require Import sets.
From S2P Require Import Prelude Redis RedisStruct Pipelines RedisHelper Performs.

(* ===================================================================== *)
(** * Keys as tokens                                                     *)
(* ===================================================================== *)

(** A path element that [filepath.Clean] keeps *)
Definition plain (t : string) : bool :=
  negb (String.eqb t "") && negb (String.eqb t ".") && negb (String.eqb t "..") && free_of slash t.

Definition path_tokens (s : string) : list string := List.filter (fun t => negb (String.eqb t "")) (split_slash s).

(** The key at the path [ts] below [x] *)
Definition below (x : string) (ts : list string) : string := foldl child x ts.

Lemma below_app x ts t : child (below x ts) t = below x (ts ++ [t]).
Proof. unfold below. by rewrite foldl_app. Qed.

Lemma below_shift a b ts : below (a +:+ b) ts = a +:+ below b ts.
Proof.
  revert b. induction ts as [|t ts IH]; intros b; [done|]. simpl. rewrite <- IH.
  unfold child. by rewrite str_app_assoc.
Qed.

Lemma below_suffix x ts : below x ts = x +:+ below "" ts.
Proof. rewrite <- (str_app_empty_r x) at 1. apply below_shift. Qed.

Lemma below_join x ts : join "/" (x :: ts) = below x ts.
Proof.
  revert x. induction ts as [|t ts IH]; intros x; [done|].
  change (join "/" (x :: t :: ts)) with (x +:+ ("/" +:+ join "/" (t :: ts))). rewrite IH. simpl.
  unfold child. change (String slash t) with ("/" +:+ t). by rewrite !below_shift.
Qed.

Lemma split_below x ts :
  free_of slash x = true -> Forall (fun t => free_of slash t = true) ts -> split_slash (below x ts) = x :: ts.
Proof.
  intros Hx Hts. rewrite <- below_join. revert x Hx. induction Hts as [|t ts Ht _ IH]; intros x Hx.
  - by apply split_on_free.
  - change (join "/" (x :: t :: ts)) with (x +:+ String slash (join "/" (t :: ts))).
    unfold split_slash. rewrite split_on_app by done. f_equal. by apply IH.
Qed.

Lemma split_join a l : split_slash (join "/" (a :: l)) = List.concat (map split_slash (a :: l)).
Proof.
  revert a. induction l as [|b l IH]; intros a; [simpl; by rewrite app_nil_r|].
  change (join "/" (a :: b :: l)) with (a +:+ String slash (join "/" (b :: l))).
  unfold split_slash. rewrite split_on_cut. change (split_on slash) with split_slash.
  by rewrite IH.
Qed.

(** ** [filepath.Join] below a device *)

Lemma clean_tokens_plain rooted acc l :
  Forall (fun t => t = "" \/ plain t = true) l ->
  clean_tokens rooted acc l = reverse acc ++ List.filter (fun t => negb (String.eqb t "")) l.
Proof.
  intros Hl. revert acc. induction Hl as [|t l Ht _ IH]; intros acc; [by rewrite app_nil_r|].
  simpl. destruct Ht as [->|Ht]; [apply IH|]. unfold plain in Ht. rewrite !andb_true_iff, !negb_true_iff in Ht.
  destruct Ht as [[[-> ->] ->] _]. simpl. rewrite IH, reverse_cons. by rewrite <- app_assoc.
Qed.

Lemma plain_free t : plain t = true -> free_of slash t = true.
Proof. unfold plain. by intros [_ ?]%andb_true_iff. Qed.

Lemma plain_not_rooted x s : plain x = true -> has_prefix "/" (x +:+ s) = false.
Proof.
  unfold plain. rewrite !andb_true_iff, !negb_true_iff. intros [[[Hx _] _] Hs].
  destruct x as [|a x]; [done|]. apply andb_true_iff in Hs as [Ha%negb_true_iff _].
  apply not_true_iff_false. unfold has_prefix. intros [t E]%prefix_true. rewrite !str_app_cons in E.
  injection E as -> _. by vm_compute in Ha.
Qed.

Lemma concat_tokens l :
  List.filter (fun t => negb (String.eqb t "")) (List.concat (map split_slash l)) =
  List.concat (map path_tokens l).
Proof. induction l as [|s l IH]; [done|]. simpl. by rewrite List.filter_app, IH. Qed.

Lemma tokens_nonempty l :
  List.concat (map path_tokens (base.filter (fun s => s <> "") l)) = List.concat (map path_tokens l).
Proof.
  induction l as [|s l IH]; [done|]. rewrite filter_cons. case_decide as Hs; simpl; [by rewrite IH|].
  by subst s.
Qed.

Lemma path_tokens_below x ts :
  plain x = true -> forallb plain ts = true -> path_tokens (below x ts) = x :: ts.
Proof.
  intros Hx Hts. unfold path_tokens. rewrite split_below.
  - assert (Hne : forall t, plain t = true -> negb (String.eqb t "") = true).
    { unfold plain. intros t. by intros [[[? _]%andb_true_iff _]%andb_true_iff _]%andb_true_iff. }
    simpl. rewrite (Hne x Hx). f_equal. induction ts as [|t ts IH]; [done|].
    simpl in *. apply andb_true_iff in Hts as [Ht Hts]. by rewrite (Hne t Ht), IH.
  - by apply plain_free.
  - apply List.Forall_forall. intros t Hin. rewrite List.forallb_forall in Hts. by apply plain_free, Hts.
Qed.

Lemma path_join_below x ts args :
  plain x = true -> forallb plain ts = true -> forallb plain (List.concat (map path_tokens args)) = true ->
  path_join (below x ts :: args) = below x (ts ++ List.concat (map path_tokens args)).
Proof.
  intros Hx Hts Hargs. unfold path_join. rewrite filter_cons.
  assert (Hb : exists s, below x ts = x +:+ s).
  { exists (below "" ts). rewrite <- (str_app_empty_r x) at 1. by rewrite below_shift. }
  rewrite decide_True by (destruct Hb as [s ->]; by destruct x).
  set (rest := base.filter (fun s => s <> "") args).
  assert (Htokens : List.filter (fun t => negb (String.eqb t "")) (split_slash (join "/" (below x ts :: rest))) =
    x :: ts ++ List.concat (map path_tokens args)).
  { rewrite split_join, concat_tokens. simpl. rewrite path_tokens_below by done. unfold rest. by rewrite tokens_nonempty. }
  unfold path_clean.
  assert (Hroot : has_prefix "/" (join "/" (below x ts :: rest)) = false).
  { destruct Hb as [s Hs]. destruct rest as [|r rest]; simpl; rewrite Hs, ?str_app_assoc;
      by apply plain_not_rooted. }
  rewrite Hroot, clean_tokens_plain, Htokens, reverse_nil, app_nil_l.
  - rewrite below_join. destruct (String.eqb_spec (below x (ts ++ List.concat (map path_tokens args))) "") as [E|]; [|done].
    exfalso. rewrite <- (str_app_empty_r x), below_shift in E. by destruct x.
  - apply List.Forall_forall. intros t Hin. destruct (String.eqb_spec t "") as [->|Hne]; [by left|right].
    assert (Hin' : List.In t (x :: ts ++ List.concat (map path_tokens args))).
    { rewrite <- Htokens. apply List.filter_In. split; [done|]. by destruct (String.eqb_spec t ""). }
    rewrite List.forallb_forall in Hts, Hargs. destruct Hin' as [<-|[Ht|Ht]%List.in_app_iff]; auto.
Qed.

(** ** [filepath.Join] below the root *)

Lemma path_tokens_root ts : forallb plain ts = true -> path_tokens (below "" ts) = ts.
Proof.
  destruct ts as [|t ts]; [done|]. intros Hts. unfold path_tokens. rewrite split_below; [|done|].
  - assert (H := path_tokens_below t ts). unfold path_tokens in H. simpl in Hts. apply andb_true_iff in Hts as [Ht Hts].
    specialize (H Ht Hts). rewrite split_below in H; [exact H|by apply plain_free|].
    apply List.Forall_forall. intros u Hu. rewrite List.forallb_forall in Hts. by apply plain_free, Hts.
  - apply List.Forall_forall. intros u Hu. rewrite List.forallb_forall in Hts. by apply plain_free, Hts.
Qed.

Lemma path_join_root t ts args :
  forallb plain (t :: ts) = true -> forallb plain (List.concat (map path_tokens args)) = true ->
  path_join (below "" (t :: ts) :: args) = below "" ((t :: ts) ++ List.concat (map path_tokens args)).
Proof.
  intros Hts Hargs. unfold path_join. rewrite filter_cons.
  assert (Hb : forall us, below "" (t :: us) = "/" +:+ below t us) by (intros us; apply (below_shift "/")).
  rewrite decide_True by (rewrite Hb; done).
  set (rest := base.filter (fun s => s <> "") args).
  assert (Htokens : List.filter (fun t => negb (String.eqb t "")) (split_slash (join "/" (below "" (t :: ts) :: rest))) =
    (t :: ts) ++ List.concat (map path_tokens args)).
  { rewrite split_join, concat_tokens. cbn [map List.concat]. rewrite path_tokens_root by done.
    unfold rest. by rewrite tokens_nonempty. }
  unfold path_clean.
  assert (Hroot : has_prefix "/" (join "/" (below "" (t :: ts) :: rest)) = true).
  { assert (Hj : exists s, join "/" (below "" (t :: ts) :: rest) = below "" (t :: ts) +:+ s)
      by (destruct rest; [exists ""; by rewrite str_app_empty_r|by eexists]).
    destruct Hj as [s ->]. rewrite Hb, str_app_assoc. apply prefix_app. }
  rewrite Hroot, clean_tokens_plain, Htokens, reverse_nil, app_nil_l.
  - cbn [app]. rewrite below_join. by rewrite Hb.
  - apply List.Forall_forall. intros u Hin. destruct (String.eqb_spec u "") as [->|Hne]; [by left|right].
    assert (Hin' : List.In u ((t :: ts) ++ List.concat (map path_tokens args))).
    { rewrite <- Htokens. apply List.filter_In. split; [done|]. by destruct (String.eqb_spec u ""). }
    rewrite List.forallb_forall in Hts, Hargs. destruct (List.in_app_or _ _ _ Hin'); auto.
Qed.

Lemma path_join_device x args :
  plain x = true -> forallb plain (List.concat (map path_tokens args)) = true ->
  path_join (x :: args) = below x (List.concat (map path_tokens args)).
Proof. intros Hx Hargs. by apply (path_join_below x []). Qed.

(* ===================================================================== *)
(** * The area of a device                                               *)
(* ===================================================================== *)

Definition string_names : list string :=
  ["@odata.id"; "Name"; "Id"; "Description"; "Manufacturer"; "Model"; "PowerState"; "Count";
   "TotalSystemMemoryGiB"; "target"; "Target"; "Updateable"; "Version"; "RedfishVersion";
   "ServiceEnabled"; "Health"; "State"; "ChassisType"; "SerialNumber"; "AssetTag"; "UUID"].
Definition list_names : list string :=
  ["Members"; "ComputerSystems"; "ResetType@Redfish.AllowableValues";
   "CertificateType@Redfish.AllowableValues"].

(** The index of a member *)
Definition is_index (t : string) : bool := str_forallb (fun a => is_digit a || Ascii.eqb a "-") t.

(** The type of a key, by its last two tokens.  (The certificates of a
    manager are a collection, the ones among the links of the locations are
    an array.) *)
Definition kind_tokens (ts : list string) : kind :=
  match reverse ts with
  | [] => KSet
  | t :: rest =>
      if is_index t then KSet
      else if existsb (String.eqb t) string_names then KStr
      else if existsb (String.eqb t) list_names then KList
      else match rest with
           | parent :: _ => if String.eqb t "Certificates" && String.eqb parent "Links" then KList else KSet
           | [] => KSet
           end
  end.

(** The strings of the service root that every helper writes; [version] is
    the environment variable SCHEMA_VERSION. *)
Definition root_values (version : option string) : gomap string :=
  [("/redfish/v1/Name", "Service Root"); ("/redfish/v1/Description", "The Redfish ServiceRoot")]
  ++ match version with Some v => [("/redfish/v1/RedfishVersion", v)] | None => [] end.

Definition device_area (xname : string) (version : option string) : area := {|
  own k := has_prefix xname k = true;
  kind_of k := kind_tokens (split_slash k);
  shared_set k := k ∈ ["/redfish"; ServiceRootKeyspace];
  shared_value k := mget k (root_values version);
|}.

#[export] Instance device_own_dec xname version k : Decision (own (device_area xname version) k).
Proof. unfold own, device_area. apply _. Defined.

Section device.
Variables (xname : string) (version : option string).
Hypothesis Hxname : plain xname = true.
Let D := device_area xname version.

(** The key [k] is the path [ts] below the device. *)
Definition is_key (k : string) (ts : list string) : Prop :=
  k = below xname ts /\ Forall (fun t => free_of slash t = true) ts.

Lemma key_device : is_key xname [].
Proof. done. Qed.

Lemma key_child k ts t : is_key k ts -> free_of slash t = true -> is_key (child k t) (ts ++ [t]).
Proof. intros [-> Hts] Ht. split; [apply below_app|]. by rewrite Forall_app, Forall_singleton. Qed.

Lemma key_join k ts args :
  is_key k ts -> forallb plain ts = true -> forallb plain (List.concat (map path_tokens args)) = true ->
  is_key (path_join (k :: args)) (ts ++ List.concat (map path_tokens args)).
Proof.
  intros [-> Hts] Hplain Hargs. split; [by apply path_join_below|].
  apply Forall_app. split; [done|]. apply List.Forall_forall. intros t Hin.
  rewrite List.forallb_forall in Hargs. by apply plain_free, Hargs.
Qed.

Lemma key_own k ts : is_key k ts -> own D k.
Proof.
  intros [-> _]. unfold own, D, device_area, has_prefix. apply prefix_true.
  exists (below "" ts). rewrite <- (str_app_empty_r xname) at 1. by rewrite below_shift.
Qed.

Lemma key_kind k ts : is_key k ts -> kind_of D k = kind_tokens (xname :: ts).
Proof. intros [-> Hts]. unfold D, device_area; cbn. rewrite split_below; [done| |done]. by apply plain_free. Qed.

Lemma key_allowed_set k ts v : is_key k ts -> kind_tokens (xname :: ts) = KStr -> allowed D (CSet k v).
Proof. intros Hk Hkind. split; [by rewrite (key_kind k ts)|left; by eapply key_own]. Qed.
Lemma key_allowed_sadd k ts m ms : is_key k ts -> kind_tokens (xname :: ts) = KSet -> allowed D (CSAdd k (m :: ms)).
Proof. intros Hk Hkind. split; [by rewrite (key_kind k ts)|split; [done|left; by eapply key_own]]. Qed.
Lemma key_allowed_rpush k ts v vs : is_key k ts -> kind_tokens (xname :: ts) = KList -> allowed D (CRPush k (v :: vs)).
Proof. intros Hk Hkind. split; [by rewrite (key_kind k ts)|split; [done|by eapply key_own]]. Qed.

Lemma root_allowed_sadd k m ms :
  k ∈ ["/redfish"; ServiceRootKeyspace] -> allowed D (CSAdd k (m :: ms)).
Proof.
  intros Hk. split; [|split; [done|by right]].
  repeat (apply elem_of_cons in Hk as [->|Hk]; [done|]). by apply elem_of_nil in Hk.
Qed.
Lemma root_allowed_set k v :
  mget k (root_values version) = Some v -> kind_tokens (split_slash k) = KStr -> allowed D (CSet k v).
Proof. intros Hv Hk. split; [done|by right]. Qed.
End device.

Lemma index_is_index n : is_index (format_nat n) = true.
Proof. apply format_int_bytes. Qed.
Lemma kind_index x ts n : kind_tokens (x :: ts ++ [format_nat n]) = KSet.
Proof. unfold kind_tokens. rewrite app_comm_cons, reverse_app, reverse_singleton. cbn [app]. by rewrite index_is_index. Qed.

(* --------------------------------------------------------------------- *)
(** ** Automation                                                         *)
(* --------------------------------------------------------------------- *)

(** The tokens of a key, from the way it is built. *)
Ltac is_key_tac :=
  lazymatch goal with
  | |- is_key _ (child _ _) _ =>
      eapply key_child; [is_key_tac | first [reflexivity | apply format_nat_slash | by apply plain_free]]
  | |- is_key _ (?k +:+ String _ ?t) _ =>
      refine (key_child _ k _ t _ _); [is_key_tac | reflexivity]
  | |- is_key _ (path_join (_ :: _)) _ =>
      eapply key_join; [assumption | is_key_tac | vm_compute; reflexivity | vm_compute; reflexivity]
  | |- is_key _ _ _ => apply key_device
  end.
Ltac kind_tac := first [vm_compute; reflexivity | apply kind_index].
Ltac allowed_tac :=
  lazymatch goal with
  | |- allowed _ (CSAdd _ _) =>
      first [ apply root_allowed_sadd; solve [repeat constructor]
            | eapply key_allowed_sadd; [assumption | is_key_tac | kind_tac] ]
  | |- allowed _ (CSet _ _) =>
      first [ apply root_allowed_set; [reflexivity | reflexivity]
            | eapply key_allowed_set; [assumption | is_key_tac | kind_tac] ]
  | |- allowed _ (CRPush _ _) =>
      eapply key_allowed_rpush; [assumption | is_key_tac | kind_tac]
  end.

(** One step of a sequence of writes; [grows _ _ x0 x] says what is known of
    the memory. *)
Ltac perform_step :=
  lazymatch goal with
  | |- performs _ _ (bind_ok _ _) _ => apply performs_bind_ok
  | |- performs _ _ (bind _ _) _ => apply performs_bind
  | |- performs _ _ (ret _) _ => apply performs_ret; cbv beta iota zeta delta [fst snd]
  | |- performs _ _ (addMemberToSet ?h _ _) _ =>
      eapply (performs_addMemberToSet _ h);
      [eassumption | allowed_tac | let x := fresh "x" in let Hx := fresh "Hx" in intros x Hx; cbv beta iota zeta delta [fst snd]]
  | |- performs _ _ (setValueForPropertyInKeyspace ?h _ _ _) _ =>
      eapply (performs_setValue _ h);
      [eassumption | allowed_tac | allowed_tac
      | let x := fresh "x" in let Hx := fresh "Hx" in intros x Hx; cbv beta iota zeta delta [fst snd]]
  | |- performs _ _ (addMemberToArray ?h _ _) _ =>
      eapply (performs_addMemberToArray _ h);
      [eassumption | allowed_tac | allowed_tac
      | let x := fresh "x" in let n := fresh "n" in let Hx := fresh "Hx" in
        intros x n Hx; cbv beta iota zeta delta [fst snd]]
  | |- performs _ _ (redis_rpush _ _) _ => apply performs_rpush; [allowed_tac | cbv beta iota zeta delta [fst snd]]
  end.
Ltac performing := repeat perform_step.
