(* ===== verification/Services.v ===== *)
(** The services around the translation layer
    ([internal/backend_helpers/common.go], the functions that are not methods
    of [RedisHelper], and [internal/rfdispatcher/telemetry/defs.go]).

    A backend helper announces its devices to the hardware state manager
    (HSM) and to the name service, posts events to a collector, and keeps the
    credentials of a device in Vault.  The HTTP client, Vault, Kubernetes and
    the environment are outside the program: [Outside] is what the code asks
    of them.  A JSON text that goes out is the value it encodes, a text that
    comes in is decoded by a parameter. *)
From S2P Require Import Prelude Values Redis Pipelines RedisHelper.

(* ===================================================================== *)
(** * Data                                                               *)
(* ===================================================================== *)

(** ** Events of [rf] and of [telemetry] *)

Record rf_EventRecord := mkEventRecord {
  er_EventId : string;
  er_EventTimestamp : string;
  er_Severity : string;
  er_Message : string;
  er_MessageId : string;
  er_MessageArgs : list string;
  er_OriginOfCondition : string;
}.
Record rf_Event := mkEvent {
  ev_Context : string;
  ev_Events : list rf_EventRecord;
  ev_EventsOCount : Z;
}.

Inductive CrayTelemetryType := Voltage | Current | Energy | Temperature.
Definition telemetry_type_string (t : CrayTelemetryType) : string :=
  match t with
  | Voltage => "CrayTelemetry.Voltage"
  | Current => "CrayTelemetry.Current"
  | Energy => "CrayTelemetry.Energy"
  | Temperature => "CrayTelemetry.Temperature"
  end.

Record CraySensorPayload := mkSensorPayload {
  sp_Timestamp : string;
  sp_Location : string;
  sp_ParentalContext : string;
  sp_ParentalIndex : option Z;
  sp_PhysicalContext : string;
  sp_Index : option Z;
  sp_PhysicalSubContext : string;
  sp_DeviceSpecificContext : string;
  sp_SubIndex : option Z;
  sp_Value : string;
}.
Record Sensors := mkSensors {
  Sensors_ : list CraySensorPayload;
  TelemetrySource : string;
}.
Record telemetry_EventRecord := mkTelemetryRecord {
  tr_EventType : string;
  tr_EventId : string;
  tr_EventTimestamp : string;
  tr_Severity : string;
  tr_Message : string;
  tr_MessageId : string;
  tr_MessageArgs : list string;
  tr_Context : string;
  tr_OriginOfCondition : option string;
  tr_Oem : option Sensors;
}.
Record telemetry_Event := mkTelemetryEvent {
  te_OContext : string;
  te_Oid : string;
  te_Otype : string;
  te_Id : string;
  te_Name : string;
  te_Context : string;
  te_Description : string;
  te_Events : list telemetry_EventRecord;
  te_EventsOCount : Z;
}.

(** [rf.RawRedfishEP], the fields the program sets *)
Record RawRedfishEP := mkRedfishEP {
  ep_ID : string;
  ep_FQDN : string;
  ep_RediscOnUpdate : option bool;
}.

(** [compcredentials.CompCredentials] *)
Record CompCredentials := mkCompCredentials {
  cc_Xname : string;
  cc_URL : string;
  cc_Username : string;
  cc_Password : string;
  cc_SNMPAuthPass : string;
  cc_SNMPPrivPass : string;
}.

(** ** Requests *)

Inductive http_payload :=
  | NoPayload
  | PayloadEP (ep : RawRedfishEP)
  | PayloadEvent (ev : rf_Event)
  | PayloadTelemetry (ev : telemetry_Event)
  (* a map[string]string, an outlet group, a network configuration *)
  | PayloadStrings (m : gomap string)
  | PayloadOutletGroup (name : string) (outlet_access : list string)
  | PayloadNetwork (dhcp_static_address_fallback : string).

Record HTTPRequest := mkRequest {
  ExpectedStatusCodes : list Z;
  FullURL : string;
  Method : string;
  CustomHeaders : gomap string;
  Payload : http_payload;
  Auth : option (string * string);
}.

Definition StatusOK : Z := 200.
Definition StatusCreated : Z := 201.
Definition StatusNotFound : Z := 404.
Definition StatusConflict : Z := 409.

(** A Kubernetes service, as far as it is set *)
Record k8s_Service := mkService {
  svc_Name : string;
  svc_Namespace : string;
  svc_Selector : gomap string;
  svc_Ports : list (string * Z);
}.

(** ** The global variables of the package *)

(** A [CompCredStore]: the path of its keys, and the storage *)
Record CompCredStore (V : Type) := mkCompCredStore { CCPath : string; SS : V }.
Arguments mkCompCredStore {V}.
Arguments CCPath {V}.
Arguments SS {V}.

Record Globals (V : Type) := mkGlobals {
  RFEventID : Z;
  compCredStore : option (CompCredStore V);
}.
Arguments mkGlobals {V}.
Arguments RFEventID {V}.
Arguments compCredStore {V}.

(* ===================================================================== *)
(** * The outside                                                        *)
(* ===================================================================== *)

(** The services, as actions on the state [T]; [V] are storages (Vault). *)
Record Outside (T V : Type) := mkOutside {
  (* os.LookupEnv *)
  LookupEnv : string -> option string;
  (* base.GetServiceInstanceName *)
  GetServiceInstanceName : result string;
  (* request.DoHTTPAction: the payload, the status code, the error *)
  DoHTTPAction : HTTPRequest -> M T (string * Z * option go_error);
  (* json.Unmarshal of a redfish endpoint *)
  UnmarshalEP : string -> result RawRedfishEP;
  (* time.Now().Format(time.RFC3339) *)
  now_RFC3339 : M T string;
  (* securestorage.NewVaultAdapter *)
  NewVaultAdapter : M T (result V);
  GetCompCred : CompCredStore V -> string -> M T (result CompCredentials);
  StoreCompCred : CompCredStore V -> CompCredentials -> M T (result unit);
  (* rest.InClusterConfig and kubernetes.NewForConfig *)
  k8s_client : M T (result unit);
  (* the selector of a service *)
  k8s_get : string -> string -> M T (result (gomap string));
  k8s_delete : string -> string -> M T (result unit);
  k8s_create : string -> k8s_Service -> M T (result unit);
}.
Arguments LookupEnv {T V}.
Arguments GetServiceInstanceName {T V}.
Arguments DoHTTPAction {T V}.
Arguments UnmarshalEP {T V}.
Arguments now_RFC3339 {T V}.
Arguments NewVaultAdapter {T V}.
Arguments GetCompCred {T V}.
Arguments StoreCompCred {T V}.
Arguments k8s_client {T V}.
Arguments k8s_get {T V}.
Arguments k8s_delete {T V}.
Arguments k8s_create {T V}.

Section services.
Context {X S V : Type} (out : Outside (X * S) V).
Variable globals : lens X (Globals V).

Definition getSvcInstName : gomap string :=
  [("User-Agent", match GetServiceInstanceName out with Ok sn => sn | Err _ => "RTS_BE" end)].

(* --------------------------------------------------------------------- *)
(** ** The hardware state manager                                         *)
(* --------------------------------------------------------------------- *)

(** [hsmURL, exists := os.LookupEnv("HSM_URL")], and the test on it *)
Definition hsm_url : option string :=
  match LookupEnv out "HSM_URL" with
  | Some url => if String.eqb url "" then None else Some url
  | None => None
  end.

(** The endpoint, the status code, the error.  When the body cannot be
    decoded the error of the decoding is logged, but not returned. *)
Definition getRedfishEndpointFromHSM (xname : string) :
    M (X * S) (option RawRedfishEP * Z * option go_error) :=
  match hsm_url with
  | None => ret (None, 0, None)
  | Some hsmURL =>
      response <- DoHTTPAction out (mkRequest [StatusOK; StatusNotFound]
        (hsmURL +:+ "/hsm/v2/Inventory/RedfishEndpoints/" +:+ xname) "GET" getSvcInstName NoPayload None) ;;
      match response with
      | (_, statusCode, Some err) =>
          ret (None, statusCode, Some (ErrText
            ("attempted to retrieve redfish endpoint from HSM received unexpected status code: " +:+ err_string err)))
      | (responsePayload, statusCode, None) =>
          if Z.eqb statusCode StatusNotFound then ret (None, statusCode, None)
          else
            match UnmarshalEP out responsePayload with
            | Err _ => ret (None, statusCode, None)
            | Ok rfEndpoint => ret (Some rfEndpoint, statusCode, None)
            end
      end
  end.

(** A conflict is logged as "already registered", but stays an error. *)
Definition createRedfishEndpointInHSM (rfEndpoint : RawRedfishEP) : M (X * S) (Z * option go_error) :=
  match hsm_url with
  | None => ret (0, None)
  | Some hsmURL =>
      response <- DoHTTPAction out (mkRequest [StatusCreated]
        (hsmURL +:+ "/hsm/v2/Inventory/RedfishEndpoints") "POST" getSvcInstName (PayloadEP rfEndpoint) None) ;;
      let '(_, statusCode, err) := response in
      match err with
      | None => ret (statusCode, None)
      | Some e =>
          if Z.eqb statusCode StatusConflict then ret (statusCode, Some e)
          else ret (statusCode, Some (ErrText
            ("attempted to inform HSM about xname but failed: " +:+ err_string e)))
      end
  end.

Definition informHSMWithFQDN (xname fqdn : string) : M (X * S) (result unit) :=
  match hsm_url with
  | None => ret (Ok tt)
  | Some _ =>
      got <- getRedfishEndpointFromHSM xname ;;
      match got with
      | (_, _, Some getErr) => ret (Err getErr)
      | (None, _, None) =>
          let rfEndpoint := mkRedfishEP xname fqdn (Some true) in
          created <- createRedfishEndpointInHSM rfEndpoint ;;
          match snd created with
          | Some createErr => ret (Err createErr)
          | None => ret (Ok tt)
          end
      | (Some _, _, None) => ret (Ok tt)
      end
  end.

Definition informHSM (xname : string) : M (X * S) (result unit) :=
  informHSMWithFQDN xname (xname +:+ ":8083").

Definition deleteFromHSM (xname : string) : M (X * S) (result unit) :=
  match hsm_url with
  | None => ret (Ok tt)
  | Some hsmURL =>
      response <- DoHTTPAction out (mkRequest [StatusOK]
        (hsmURL +:+ "/hsm/v2/Inventory/RedfishEndpoints/" +:+ xname) "DELETE" getSvcInstName NoPayload None) ;;
      match snd response with
      | None => ret (Ok tt)
      | Some deleteErr =>
          if contains (err_string deleteErr) "404" then ret (Ok tt)
          else ret (Err (ErrText
            ("attempted to remove " +:+ xname +:+ " from HSM but failed: " +:+ err_string deleteErr)))
      end
  end.

(* --------------------------------------------------------------------- *)
(** ** The name service                                                   *)
(* --------------------------------------------------------------------- *)

(** The service that gives an xname its name *)
Definition xname_service (namespace xname podName : string) : k8s_Service :=
  mkService xname namespace
    [("app.kubernetes.io/instance", podName); ("app.kubernetes.io/name", podName)]
    [("https", 8083); ("http", 8082)].

Definition addXNameService_create (namespace xname podName : string) : M (X * S) (bool * option go_error) :=
  r <- k8s_create out namespace (xname_service namespace xname podName) ;;
  match r with
  | Err err => ret (false, Some err)
  | Ok _ => ret (true, None)
  end.

(** Whether a service was created, and the error.  A service that selects
    another pod is replaced. *)
Definition addXNameService (namespace xname : string) : M (X * S) (bool * option go_error) :=
  let podName := default "cray-hms-rts" (LookupEnv out "POD_NAME") in
  config <- k8s_client out ;;
  match config with
  | Err err => ret (false, Some err)
  | Ok _ =>
      svc <- k8s_get out namespace xname ;;
      match svc with
      | Ok selector =>
          if match mget "app.kubernetes.io/name" selector with
             | Some svcPodName => String.eqb svcPodName podName
             | None => false
             end
          then ret (false, None)
          else
            r <- k8s_delete out namespace xname ;;
            match r with
            | Err err => ret (false, Some err)
            | Ok _ => addXNameService_create namespace xname podName
            end
      | Err _ => addXNameService_create namespace xname podName
      end
  end.

Definition informDNS (xname : string) : M (X * S) (result unit) :=
  match LookupEnv out "RTS_DNS_PROVIDER" with
  | None => ret (Ok tt)
  | Some dnsProvider =>
      if String.eqb dnsProvider "none" then ret (Ok tt)
      else if String.eqb dnsProvider "k8s_service" then
        created <- addXNameService "services" xname ;;
        match snd created with
        | Some err => ret (Err err)
        | None => ret (Ok tt)
        end
      else ret (Err (ErrText ("unknown DNS provider: " +:+ dnsProvider)))
  end.

(* --------------------------------------------------------------------- *)
(** ** Events                                                             *)
(* --------------------------------------------------------------------- *)

Definition power_event (id timestamp xname resource powerState : string) : rf_Event :=
  mkEvent (xname +:+ ":PowerState")
    [mkEventRecord id timestamp "OK"
       ("The power state of resource " +:+ resource +:+ " has changed to type " +:+ powerState +:+ ".")
       "CrayAlerts.1.0.ResourcePowerStateChanged" [resource; powerState] resource]
    1.

(** [rfPOST.DoHTTPAction()] of an event, to the collector *)
Definition post_event (collectorURL : string) (payload : http_payload) : M (X * S) (result unit) :=
  response <- DoHTTPAction out (mkRequest [StatusOK] collectorURL "POST" getSvcInstName payload None) ;;
  match snd response with
  | Some informErr =>
      ret (Err (ErrText ("attempted to POST RF event but failed: " +:+ err_string informErr)))
  | None => ret (Ok tt)
  end.

(** [RFEventID] is a [uint64]; it is incremented before the event is sent. *)
Definition postRFPowerEvent (xname resource powerState : string) : M (X * S) (result unit) :=
  match LookupEnv out "COLLECTOR_URL" with
  | None => ret (Ok tt)
  | Some collectorURL =>
      g <- fetch globals ;;
      timestamp <- now_RFC3339 out ;;
      let event := power_event (format_int (RFEventID g)) timestamp xname resource powerState in
      assign globals (mkGlobals ((RFEventID g + 1) mod 2 ^ 64) (compCredStore g)) ;;
      post_event collectorURL (PayloadEvent event)
  end.

Definition postTelemetryEvent (event : telemetry_Event) : M (X * S) (result unit) :=
  match LookupEnv out "COLLECTOR_URL" with
  | None => ret (Ok tt)
  | Some collectorURL => post_event collectorURL (PayloadTelemetry event)
  end.

(* --------------------------------------------------------------------- *)
(** ** Vault and the credentials                                          *)
(* --------------------------------------------------------------------- *)

(** The loop waits for Vault as long as it takes; [fuel] attempts are made. *)
Fixpoint connectToVault_loop (fuel : nat) : M (X * S) V :=
  match fuel with
  | O => out_of_fuel
  | Datatypes.S fuel' =>
      r <- NewVaultAdapter out ;;
      match r with
      | Ok secureStorage => ret secureStorage
      | Err _ => connectToVault_loop fuel'
      end
  end.
Definition connectToVault (fuel : nat) : M (X * S) (option V) :=
  match LookupEnv out "VAULT_ADDR" with
  | None => ret None
  | Some _ => secureStorage <- connectToVault_loop fuel ;; ret (Some secureStorage)
  end.

Definition setupCompCredsVault (secureStorage : V) : M (X * S) bool :=
  match LookupEnv out "HMS_VAULT_KEYPATH" with
  | None => ret false
  | Some vaultKeypath =>
      g <- fetch globals ;;
      assign globals (mkGlobals (RFEventID g) (Some (mkCompCredStore vaultKeypath secureStorage))) ;;
      ret true
  end.

(** The methods of the global [compCredStore]; its storage is nil until
    [setupCompCredsVault] sets it. *)
Definition with_store {A} (f : CompCredStore V -> M (X * S) A) : M (X * S) A :=
  g <- fetch globals ;;
  match compCredStore g with
  | None => panic "runtime error: invalid memory address or nil pointer dereference"
  | Some store => f store
  end.
Definition store_credentials (cred : CompCredentials) : M (X * S) (result unit) :=
  with_store (fun store => StoreCompCred out store cred).
Definition get_credentials (xname : string) : M (X * S) (result CompCredentials) :=
  with_store (fun store => GetCompCred out store xname).

Definition checkReady (xname : string) : M (X * S) (result unit) :=
  cred <-? get_credentials xname ;;
  if Nat.ltb (String.length (cc_Username cred)) 1 then
    ret (Err (ErrText "zero length username in credentials, not checking readiness"))
  else if Nat.ltb (String.length (cc_Password cred)) 1 then
    ret (Err (ErrText "zero length password in credentials, not checking readiness"))
  else if negb (String.eqb (cc_Xname cred) xname) then
    ret (Err (ErrText ("Xname found in credentials ['" +:+ cc_Xname cred +:+
                       "'] not a match, not checking readiness")))
  else if Nat.ltb (String.length (cc_URL cred)) 1 then
    ret (Err (ErrText "zero length URL in credentials, not checking readiness"))
  else
    let path := "https://" +:+ cc_URL cred +:+ "/redfish/v1" in
    response <- DoHTTPAction out (mkRequest [StatusOK] path "GET" getSvcInstName NoPayload
      (Some (cc_Username cred, cc_Password cred))) ;;
    match snd response with
    | Some err => ret (Err err)
    | None => ret (Ok tt)
    end.
End services.

(* ===================================================================== *)
(** * Sets of xnames                                                     *)
(* ===================================================================== *)

(** [XNameSet]: a map guarded by a lock *)
Definition XNameSet : Type := gomap bool.
Definition NewXNameSet : XNameSet := [].
Definition XNameSet_Get (s : XNameSet) (xname : string) : bool := default false (mget xname s).
Definition XNameSet_Set (s : XNameSet) (xname : string) (value : bool) : XNameSet := mput xname value s.
