(* ===== verification/Certificates.v ===== *)
(** The certificate service ([internal/backend_helpers/certificateservice.go])
    and the store of its certificates
    ([internal/rfdispatcher/certificate_store]).

    The service gives every device a certificate: its own, which a client has
    posted or Vault has kept, or the default one.  It writes the resources
    that describe the certificate into Redis, answers for the keys of the
    certificate, and performs the action that replaces it.  The decoding of
    PEM and X.509 is the standard library's: [Crypto] is what the code asks of
    it. *)
From S2P Require Import Prelude Values Redis Walk RedisStruct Dispatcher Pipelines RedisHelper Services.

(* ===================================================================== *)
(** * Data                                                               *)
(* ===================================================================== *)

(** [pkix.Name] and [x509.Certificate], the fields the program reads; a
    time is in seconds. *)
Record pkix_Name := mkName {
  Locality : list string;
  CommonName : string;
  Country : list string;
  Organization : list string;
  OrganizationalUnit : list string;
  Province : list string;
}.
Record x509_Certificate := mkX509 {
  NotBefore : Z;
  NotAfter : Z;
  Issuer : pkix_Name;
  Subject : pkix_Name;
}.

(** [pem.Block] *)
Record Block := mkBlock {
  block_Type : string;
  block_Headers : gomap string;
  block_Bytes : string;
}.

(** The standard library: [K] are the key pairs of [tls]. *)
Class Crypto (K : Type) := {
  pem_Decode : string -> option Block * string;
  pem_EncodeToMemory : Block -> string;
  X509KeyPair : string -> string -> result K;
  ParseCertificate : string -> result x509_Certificate;
  (* t.Format(time.RFC3339) *)
  format_RFC3339 : Z -> string;
}.

Record CertificatePair := mkPair {
  Certificate : string;
  PrivateKey : string;
}.
#[export] Instance CertificatePair_eq_dec : EqDecision CertificatePair.
Proof. solve_decision. Defined.

Record CertificateTuple (K : Type) := mkTuple {
  PublicCertificate : string;
  TLS : K;
  X509 : x509_Certificate;
}.
Arguments mkTuple {K}.
Arguments PublicCertificate {K}.
Arguments TLS {K}.
Arguments X509 {K}.

(** A [CertificateStore]: the path of its keys, and the storage *)
Record CertificateStore (V : Type) := mkCertificateStore { KeyPath : string; SecureStorage : V }.
Arguments mkCertificateStore {V}.
Arguments KeyPath {V}.
Arguments SecureStorage {V}.

(** The service; its maps are nil until it is set up. *)
Record CertificateService (P V K : Type) := mkCertificateService {
  cs_RedisHelper : RedisHelper P;
  BmcID : string;
  CertificateID : string;
  cs_CertificateStore : option (CertificateStore V);
  DefaultCertificate : option (CertificateTuple K);
  Certificates : option (gomap (CertificateTuple K));
  KnownDevices : option (gomap bool);
  defaultCertificateWatcher : bool;
}.
Arguments mkCertificateService {P V K}.
Arguments cs_RedisHelper {P V K}.
Arguments BmcID {P V K}.
Arguments CertificateID {P V K}.
Arguments cs_CertificateStore {P V K}.
Arguments DefaultCertificate {P V K}.
Arguments Certificates {P V K}.
Arguments KnownDevices {P V K}.
Arguments defaultCertificateWatcher {P V K}.

(* ===================================================================== *)
(** * The store                                                          *)
(* ===================================================================== *)

Section store.
Context {T V : Type}.
(** [SecureStorage.Lookup] of a pair (empty unless it is found), and
    [SecureStorage.Store] *)
Variable SecureStorage_Lookup : V -> string -> M T (CertificatePair * option go_error).
Variable SecureStorage_Store : V -> string -> CertificatePair -> M T (option go_error).

(** An error of the look-up is overwritten when it left the pair empty. *)
Definition GetCertificatePair (credStore : CertificateStore V) (xname : string) :
    M T (CertificatePair * option go_error) :=
  found <- SecureStorage_Lookup (SecureStorage credStore) (path_join [KeyPath credStore; xname]) ;;
  let '(got, err) := found in
  if decide (got = mkPair "" "") then ret (got, Some ErrCertificateNotFound)
  else if String.eqb (Certificate got) "" || String.eqb (PrivateKey got) ""
  then ret (got, Some (ErrText "empty certificate or private key"))
  else ret (got, err).

Definition StoreCertificatePair (credStore : CertificateStore V) (xname : string) (certPair : CertificatePair) :
    M T (option go_error) :=
  if String.eqb (Certificate certPair) "" || String.eqb (PrivateKey certPair) ""
  then ret (Some (ErrText "empty certificate or private key"))
  else SecureStorage_Store (SecureStorage credStore) (path_join [KeyPath credStore; xname]) certPair.
End store.

(* ===================================================================== *)
(** * PEM texts                                                          *)
(* ===================================================================== *)

Section pem.
Context {T K : Type} `{!Crypto K}.

(** The loop of [ParseCertificatePairFromString]: the last certificate and
    the last private key of the text.  When no block is found the text is
    tried again, unless it is unchanged. *)
Fixpoint pem_loop (fuel : nat) (certificateRaw : string) (certPEMBlock keyPEMBlock : option Block) :
    M T (option Block * option Block) :=
  match fuel with
  | O => out_of_fuel
  | Datatypes.S fuel' =>
      if Nat.eqb (String.length certificateRaw) 0 then ret (certPEMBlock, keyPEMBlock)
      else
        let '(block, next) := pem_Decode certificateRaw in
        if String.eqb certificateRaw next then ret (certPEMBlock, keyPEMBlock)
        else
          match block with
          | None => pem_loop fuel' certificateRaw certPEMBlock keyPEMBlock
          | Some b =>
              if String.eqb (block_Type b) "CERTIFICATE" then pem_loop fuel' next (Some b) keyPEMBlock
              else if String.eqb (block_Type b) "RSA PRIVATE KEY" then pem_loop fuel' next certPEMBlock (Some b)
              else pem_loop fuel' next certPEMBlock keyPEMBlock
          end
  end.

(** Every step that goes on leaves a shorter text. *)
Definition ParseCertificatePairFromString (certificateString : string) :
    M T (result CertificatePair) :=
  blocks <- pem_loop (Datatypes.S (String.length certificateString)) certificateString None None ;;
  match blocks with
  | (None, _) => ret (Err (ErrText "certificate string is missing PEM formated certificate"))
  | (_, None) => ret (Err (ErrText "certificate string is missing PEM formated private key"))
  | (Some certPEMBlock, Some keyPEMBlock) =>
      ret (Ok (mkPair (pem_EncodeToMemory certPEMBlock) (pem_EncodeToMemory keyPEMBlock)))
  end.
End pem.

(* ===================================================================== *)
(** * Keys of requests                                                   *)
(* ===================================================================== *)

(** [\s] of a regular expression *)
Definition is_space (a : ascii) : bool :=
  existsb (Ascii.eqb a) ["009"%char; "010"%char; "012"%char; "013"%char; " "%char].

(** The last group of [(<xname>)*(<keyspace>\S+$)], where [<xname>] has no
    slash: the match is the leftmost, so that the group is the first suffix
    of the key that has the form. *)
Section key_suffix.
Variable keyspace : string.
Fixpoint key_suffix (key : string) : option string :=
  let rest := str_drop (String.length keyspace) key in
  if has_prefix keyspace key && negb (String.eqb rest "")
     && str_forallb (fun a => negb (is_space a)) rest
  then Some key
  else match key with EmptyString => None | String _ key' => key_suffix key' end.
End key_suffix.
Definition keyRegex : string -> option string := key_suffix ServiceRootKeyspace.

(* ===================================================================== *)
(** * The service                                                        *)
(* ===================================================================== *)

Section service.
Context {X S P V K : Type} `{RedisOps S} `{!PipelineOps S P} `{!Crypto K}.
Context (out : Outside (X * S) V).
Variable cs : lens X (CertificateService P V K).
Variable SecureStorage_Lookup : V -> string -> M (X * S) (CertificatePair * option go_error).
Variable SecureStorage_Store : V -> string -> CertificatePair -> M (X * S) (option go_error).

(** ** The fields *)

Definition RedisHelper_field : lens (CertificateService P V K) (RedisHelper P) :=
  mkLens cs_RedisHelper (fun h c => mkCertificateService h (BmcID c) (CertificateID c) (cs_CertificateStore c)
    (DefaultCertificate c) (Certificates c) (KnownDevices c) (defaultCertificateWatcher c)).
Definition cs_helper : lens X (RedisHelper P) := lens_comp cs RedisHelper_field.

Definition set_ids (bmcID certificateID : string) (c : CertificateService P V K) :=
  mkCertificateService (cs_RedisHelper c) bmcID certificateID (cs_CertificateStore c)
    (DefaultCertificate c) (Certificates c) (KnownDevices c) (defaultCertificateWatcher c).
Definition set_store (s : option (CertificateStore V)) (c : CertificateService P V K) :=
  mkCertificateService (cs_RedisHelper c) (BmcID c) (CertificateID c) s
    (DefaultCertificate c) (Certificates c) (KnownDevices c) (defaultCertificateWatcher c).
Definition set_DefaultCertificate (t : CertificateTuple K) (c : CertificateService P V K) :=
  mkCertificateService (cs_RedisHelper c) (BmcID c) (CertificateID c) (cs_CertificateStore c)
    (Some t) (Certificates c) (KnownDevices c) (defaultCertificateWatcher c).
Definition set_Certificates (m : option (gomap (CertificateTuple K))) (c : CertificateService P V K) :=
  mkCertificateService (cs_RedisHelper c) (BmcID c) (CertificateID c) (cs_CertificateStore c)
    (DefaultCertificate c) m (KnownDevices c) (defaultCertificateWatcher c).
Definition set_KnownDevices (m : option (gomap bool)) (c : CertificateService P V K) :=
  mkCertificateService (cs_RedisHelper c) (BmcID c) (CertificateID c) (cs_CertificateStore c)
    (DefaultCertificate c) (Certificates c) m (defaultCertificateWatcher c).

Definition set_watcher (b : bool) (c : CertificateService P V K) :=
  mkCertificateService (cs_RedisHelper c) (BmcID c) (CertificateID c) (cs_CertificateStore c)
    (DefaultCertificate c) (Certificates c) (KnownDevices c) b.

Definition nil_map : string := "assignment to entry in nil map".

(** [m[k] = v] of a map that may be nil *)
Definition assign_entry {A} (k : string) (v : A) (m : option (gomap A)) : M (X * S) (gomap A) :=
  match m with None => panic nil_map | Some m => ret (mput k v m) end.

(** ** The resources of a device *)

Definition initCertificateService (xname bmcID certificateID : string) : M (X * S) (result unit) :=
  added <- addMemberToSet cs_helper ServiceRootKeyspace "CertificateService" ;;
  match added with
  | (_, Some err) => ret (Err err)
  | (keyspace, None) =>
      let keyspace := path_join [xname; keyspace] in
      addMemberToSet cs_helper keyspace "@odata.id" ;;
      addMemberToSet cs_helper keyspace "@odata.type" ;;
      setValueForPropertyInKeyspace cs_helper keyspace "Id" "CertificateService" ;;
      setValueForPropertyInKeyspace cs_helper keyspace "Name" "Certificate Service" ;;
      actions <- addMemberToSet cs_helper keyspace "Actions" ;;
      match actions with
      | (_, Some _) => ret (Err (ErrText "unable to add Actions to Certificate Service"))
      | (actionsKeyspace, None) =>
          let actionName := "CertificateService.ReplaceCertificate" in
          replace <- addMemberToSet cs_helper actionsKeyspace ("#" +:+ actionName) ;;
          match replace with
          | (_, Some _) => ret (Err (ErrText "unable to add reaplace certificate action to Certificate Service"))
          | (replaceCertificateKeyspace, None) =>
              let replaceCertificateTargetURI := path_join [actionsKeyspace; actionName] in
              setValueForPropertyInKeyspace cs_helper replaceCertificateKeyspace "Target" replaceCertificateTargetURI ;;
              allowable <- addMemberToSet cs_helper replaceCertificateKeyspace "CertificateType@Redfish.AllowableValues" ;;
              match allowable with
              | (_, Some _) => ret (Err (ErrText "unable to add AllowableValues to replace certificate action"))
              | (allowableValuesKeyspace, None) =>
                  redis_rpush allowableValuesKeyspace ["PEM"] ;;
                  ret (Ok tt)
              end
          end
      end
  end.

Definition initCertificateLocations (xname bmcID certificateID : string) : M (X * S) (result unit) :=
  added <- addMemberToSet cs_helper (path_join [xname; CertificateServiceKeyspace]) "CertificateLocations" ;;
  match added with
  | (_, Some err) => ret (Err err)
  | (keyspace, None) =>
      addMemberToSet cs_helper keyspace "@odata.id" ;;
      addMemberToSet cs_helper keyspace "@odata.type" ;;
      setValueForPropertyInKeyspace cs_helper keyspace "Id" "CertificateLocations" ;;
      setValueForPropertyInKeyspace cs_helper keyspace "Name" "Certificate Locations" ;;
      links <- addMemberToSet cs_helper keyspace "Links" ;;
      match links with
      | (_, Some err) => ret (Err err)
      | (linksKeyspace, None) =>
          link <- addMemberToArray (P:=P) cs_helper linksKeyspace "Certificates" ;;
          match link with
          | (_, Some err) => ret (Err err)
          | (certificateLinkKeyspace, None) =>
              let managerHTTPSCertLink := ManagersKeyspace +:+ "/" +:+ bmcID +:+
                "/NetworkProtocol/HTTPS/Certificates/" +:+ certificateID in
              setValueForPropertyInKeyspace cs_helper certificateLinkKeyspace "@odata.id" managerHTTPSCertLink ;;
              ret (Ok tt)
          end
      end
  end.

Definition initManagerNetworkProtocol (xname bmcID certificateID : string) : M (X * S) (result unit) :=
  let managerKeyspace := path_join [xname; ManagersKeyspace; bmcID] in
  added <- addMemberToSet cs_helper managerKeyspace "NetworkProtocol" ;;
  match added with
  | (_, Some err) => ret (Err err)
  | (keyspace, None) =>
      addMemberToSet cs_helper keyspace "@odata.id" ;;
      addMemberToSet cs_helper keyspace "@odata.type" ;;
      addMemberToSet cs_helper keyspace "HTTPS" ;;
      ret (Ok tt)
  end.

Definition initManagerHTTPSCertificateCollection (xname bmcID certificateID : string) : M (X * S) (result unit) :=
  let rootKeyspace := path_join [xname; ManagersKeyspace; bmcID; "NetworkProtocol"; "HTTPS"] in
  added <- addMemberToSet cs_helper rootKeyspace "Certificates" ;;
  match added with
  | (_, Some _) => ret (Ok tt)
  | (keyspace, None) =>
      addMemberToSet cs_helper keyspace "@odata.id" ;;
      addMemberToSet cs_helper keyspace "@odata.type" ;;
      setValueForPropertyInKeyspace cs_helper keyspace "Description"
        "A collection of all Certificates instances for this manager" ;;
      setValueForPropertyInKeyspace cs_helper keyspace "Name" "Certificates Collection" ;;
      addMemberToSet cs_helper keyspace "Members" ;;
      ret (Ok tt)
  end.

(** The members that describe an issuer or a subject *)
Definition name_members (keyspace : string) : M (X * S) unit :=
  addMemberToSet cs_helper keyspace "City" ;;
  addMemberToSet cs_helper keyspace "CommonName" ;;
  addMemberToSet cs_helper keyspace "Country" ;;
  addMemberToSet cs_helper keyspace "Organization" ;;
  addMemberToSet cs_helper keyspace "OrganizationalUnit" ;;
  addMemberToSet cs_helper keyspace "State" ;;
  ret tt.

Definition initManagerHTTPSCertificate (xname bmcID certificateID : string) : M (X * S) (result unit) :=
  let collectionKeyspace := path_join [xname; ManagersKeyspace; bmcID; "/NetworkProtocol/HTTPS/Certificates"] in
  let keyspace := path_join [collectionKeyspace; certificateID] in
  addMemberToSet cs_helper keyspace "@odata.id" ;;
  addMemberToSet cs_helper keyspace "@odata.type" ;;
  setValueForPropertyInKeyspace cs_helper keyspace "Id" certificateID ;;
  setValueForPropertyInKeyspace cs_helper keyspace "Name" "HTTPS Certificate for RTS" ;;
  addMemberToSet cs_helper keyspace "CertificateString" ;;
  addMemberToSet cs_helper keyspace "CertificateType" ;;
  addMemberToSet cs_helper keyspace "ValidNotAfter" ;;
  addMemberToSet cs_helper keyspace "ValidNotBefore" ;;
  issuer <- addMemberToSet cs_helper keyspace "Issuer" ;;
  match issuer with
  | (_, Some _) => ret (Ok tt)
  | (issuerKeyspace, None) =>
      name_members issuerKeyspace ;;
      subject <- addMemberToSet cs_helper keyspace "Subject" ;;
      match subject with
      | (_, Some _) => ret (Ok tt)
      | (subjectKeyspace, None) =>
          name_members subjectKeyspace ;;
          member <- addMemberToArray (P:=P) cs_helper collectionKeyspace "Members" ;;
          match member with
          | (_, Some err) => ret (Err err)
          | (memberKeyspace, None) =>
              setValueForPropertyInKeyspace cs_helper memberKeyspace "@odata.id" keyspace ;;
              ret (Ok tt)
          end
      end
  end.

(** ** Certificates *)

(** The certificate of a device, or the default one, which may be nil *)
Definition GetCertificate (xname : string) : M (X * S) (option (CertificateTuple K)) :=
  c <- fetch cs ;;
  ret (match mget xname (default [] (Certificates c)) with
       | Some cert => Some cert
       | None => DefaultCertificate c
       end).

Definition LoadCertificateFromPair (xname : string) (certPair : CertificatePair) : M (X * S) (result unit) :=
  match fst (pem_Decode (Certificate certPair)), fst (pem_Decode (PrivateKey certPair)) with
  | Some certPEMBlock, Some keyPEMBlock =>
      let certPEM := pem_EncodeToMemory certPEMBlock in
      let keyPEM := pem_EncodeToMemory keyPEMBlock in
      match X509KeyPair certPEM keyPEM with
      | Err err => ret (Err (ErrText ("Failed to load X509 Keypair: " +:+ err_string err)))
      | Ok tlsCert =>
          match ParseCertificate (block_Bytes certPEMBlock) with
          | Err err => ret (Err (ErrText ("Failed to parse certificate: " +:+ err_string err)))
          | Ok x509Cert =>
              let certTuple := mkTuple (Certificate certPair) tlsCert x509Cert in
              c <- fetch cs ;;
              m <- assign_entry xname certTuple (Certificates c) ;;
              assign cs (set_Certificates (Some m) c) ;;
              ret (Ok tt)
          end
      end
  | _, _ => panic nil_deref
  end.

(** [tls.LoadX509KeyPair] reads the two files; then the first is read again. *)
Definition LoadDefaultCert (ReadFile : string -> M (X * S) (result string)) (certFile keyFile : string) :
    M (X * S) (result unit) :=
  certText <-? ReadFile certFile ;;
  keyText <-? ReadFile keyFile ;;
  match X509KeyPair certText keyText with
  | Err err => ret (Err err)
  | Ok tlsCert =>
      certRaw <-? ReadFile certFile ;;
      match fst (pem_Decode certRaw) with
      | None => panic nil_deref
      | Some block =>
          match ParseCertificate (block_Bytes block) with
          | Err err => ret (Err err)
          | Ok x509Cert =>
              c <- fetch cs ;;
              assign cs (set_DefaultCertificate (mkTuple certRaw tlsCert x509Cert) c) ;;
              ret (Ok tt)
          end
      end
  end.

(** [fsnotify.Op], and what the watching goroutine does on an event: after a
    removal the default certificate is loaded again. *)
Inductive fsnotify_Op := Create | Write | Remove | Rename | Chmod.
Definition watch_event (ReadFile : string -> M (X * S) (result string)) (certFile keyFile : string)
    (op : fsnotify_Op) : M (X * S) unit :=
  match op with
  | Remove => LoadDefaultCert ReadFile certFile keyFile ;; ret tt
  | _ => ret tt
  end.

(** [path.Dir] *)
Definition path_dir (p : string) : string :=
  path_clean (str_take (String.length p - String.length (List.last (split_slash p) "")) p).

(** The start of the watching goroutine, once: its events are handled by
    [watch_event].  The directories of the two files are watched. *)
Definition WatchDefaultCertificate (NewWatcher : M (X * S) (result unit))
    (watcher_Add : string -> M (X * S) (result unit)) (certFile keyFile : string) : M (X * S) (result unit) :=
  c <- fetch cs ;;
  if defaultCertificateWatcher c then ret (Ok tt)
  else
    _ <-? NewWatcher ;;
    c <- fetch cs ;;
    assign cs (set_watcher true c) ;;
    _ <-? watcher_Add (path_dir certFile) ;;
    watcher_Add (path_dir keyFile).

(** [ReturnCert], the callback of the TLS server *)
Definition ReturnCert (ServerName : string) : M (X * S) (result K) :=
  let xname := trim_suffix "-rts" ServerName in
  c <- fetch cs ;;
  match mget xname (default [] (Certificates c)) with
  | Some certificate => ret (Ok (TLS certificate))
  | None =>
      match DefaultCertificate c with
      | Some certificate => ret (Ok (TLS certificate))
      | None => panic nil_deref
      end
  end.

(** ** Set-up *)

Definition SetupCertificateService (bmcID certificateID : string) : M (X * S) (result unit) :=
  c <- fetch cs ;;
  assign cs (set_ids bmcID certificateID c) ;;
  ret (Ok tt).

Definition initFunctions : list (string -> string -> string -> M (X * S) (result unit)) :=
  [initCertificateService; initCertificateLocations; initManagerNetworkProtocol;
   initManagerHTTPSCertificateCollection; initManagerHTTPSCertificate].

(** The certificate that Vault keeps for the device *)
Definition InitForXName_vault (xname : string) : M (X * S) (result unit) :=
  c <- fetch cs ;;
  match cs_CertificateStore c with
  | None => ret (Ok tt)
  | Some credStore =>
      got <- GetCertificatePair SecureStorage_Lookup credStore xname ;;
      match got with
      | (_, Some err) =>
          if decide (err = ErrCertificateNotFound) then ret (Ok tt) else ret (Err err)
      | (certPair, None) => LoadCertificateFromPair xname certPair
      end
  end.

Definition InitForXName (xname : string) : M (X * S) (result unit) :=
  c <- fetch cs ;;
  _ <-? fold_ok (fun _ initFunction => initFunction xname (BmcID c) (CertificateID c)) tt initFunctions ;;
  _ <-? InitForXName_vault xname ;;
  c <- fetch cs ;;
  m <- assign_entry xname true (KnownDevices c) ;;
  assign cs (set_KnownDevices (Some m) c) ;;
  ret (Ok tt).

(** [SetupBackendHelper] of the service; [fuel] attempts to reach Vault. *)
Definition certificates_SetupBackendHelper (fuel : nat) : M (X * S) (result unit) :=
  c <- fetch cs ;;
  assign cs (set_KnownDevices (Some []) (set_Certificates (Some []) c)) ;;
  let certificateVaultKeypath := default "" (LookupEnv out "CERTIFICATE_VAULT_KEYPATH") in
  if String.eqb certificateVaultKeypath "" then ret (Ok tt)
  else
    secureStorage <- connectToVault out fuel ;;
    match secureStorage with
    | None => fatal "Unable to connect to Vault"
    | Some storage =>
        c <- fetch cs ;;
        assign cs (set_store (Some (mkCertificateStore certificateVaultKeypath storage)) c) ;;
        ret (Ok tt)
    end.

(** ** Requests *)

(** The values of an issuer or a subject *)
Definition name_values (keyspace : string) (n : pkix_Name) : list command :=
  [CSet (path_join [keyspace; "City"]) (join " " (Locality n));
   CSet (path_join [keyspace; "CommonName"]) (CommonName n);
   CSet (path_join [keyspace; "Country"]) (join " " (Country n));
   CSet (path_join [keyspace; "Organization"]) (join " " (Organization n));
   CSet (path_join [keyspace; "OrganizationalUnit"]) (join " " (OrganizationalUnit n));
   CSet (path_join [keyspace; "State"]) (join " " (Province n))].

Definition certificate_values (keyspace : string) (cert : CertificateTuple K) : list command :=
  [CSet (path_join [keyspace; "CertificateString"]) (PublicCertificate cert);
   CSet (path_join [keyspace; "CertificateType"]) "PEM";
   CSet (path_join [keyspace; "ValidNotAfter"]) (format_RFC3339 (NotAfter (X509 cert)));
   CSet (path_join [keyspace; "ValidNotBefore"]) (format_RFC3339 (NotBefore (X509 cert)))]
  ++ name_values (path_join [keyspace; "Issuer"]) (Issuer (X509 cert))
  ++ name_values (path_join [keyspace; "Subject"]) (Subject (X509 cert)).

(** The pipeline [pl] with the commands that describe the certificate *)
Definition populateCertificate (pl : P) (xname bmcID certID : string) : M (X * S) P :=
  let keyspace := path_join [xname; ManagersKeyspace; bmcID; "NetworkProtocol"; "HTTPS"; "Certificates"; certID] in
  cert <- GetCertificate xname ;;
  match cert with
  | None => panic nil_deref
  | Some cert => ret (foldl (fun pl c => pipe_add (S:=S) c pl) pl (certificate_values keyspace cert))
  end.

(** [pl := Pipeline(); populateCertificate(pl, ...); pl.Exec()] *)
Definition update_redis (xname : string) : M (X * S) (result unit) :=
  c <- fetch cs ;;
  pl <- populateCertificate (Pipeline (S:=S)) xname (BmcID c) (CertificateID c) ;;
  pipe_exec pl.

Definition certificate_key (c : CertificateService P V K) : string :=
  path_join [ManagersKeyspace; BmcID c; "NetworkProtocol/HTTPS/Certificates"; CertificateID c].

(** The certificate text of a request to replace a certificate *)
Definition replace_request (c : CertificateService P V K) (env : gomap string) : result string :=
  match mget "CertificateUri" env with
  | None => Err (ErrText "CertificateUri was not provided in the certificate replace request")
  | Some certificateURI =>
  match mget "CertificateType" env with
  | None => Err (ErrText "CertificateType was not provided in the certificate replace request")
  | Some certificateType =>
      if negb (String.eqb certificateType "PEM")
      then Err (ErrText "Unsupported CertificateType provided in the certificate replace request")
      else
        match mget "CertificateString" env with
        | None => Err (ErrText "CertificateString was not provided in the certificate replace request")
        | Some certificateString =>
            if negb (String.eqb certificateURI (certificate_key c)) then Err (ErrText "Unknown Certificate URI")
            else Ok certificateString
        end
  end
  end.

(** The action ReplaceCertificate *)
Definition ReplaceCertificate (xname : string) (env : gomap string) : M (X * S) (result string) :=
  c <- fetch cs ;;
  match replace_request c env with
  | Err err => ret (Err err)
  | Ok certificateString =>
      certPair <-? ParseCertificatePairFromString certificateString ;;
      _ <-? LoadCertificateFromPair xname certPair ;;
      c <- fetch cs ;;
      stored <- match cs_CertificateStore c with
                | None => ret None
                | Some credStore => StoreCertificatePair SecureStorage_Store credStore xname certPair
                end ;;
      match stored with
      | Some err => ret (Err (ErrText ("Unable to store certifcate pair in Vault: " +:+ err_string err)))
      | None =>
          _ <-? update_redis xname ;;
          ret (Ok "")
      end
  end.

Definition certificates_RunBackendHelper (key : string) (args : list string) (env : gomap string) :
    M (X * S) (result string) :=
  match mget "RTS_XNAME" env with
  | None => ret (Err (ErrText "RTS_XNAME not in environment variables"))
  | Some xname =>
      c <- fetch cs ;;
      if negb (mmem xname (default [] (KnownDevices c))) then ret (Err (ErrText ("unknown xname: " +:+ xname)))
      else
        match keyRegex key with
        | None => ret (Err (ErrText "key format not what expected"))
        | Some fullKey =>
            if has_prefix (certificate_key c) fullKey then
              _ <-? update_redis xname ;;
              redis_get key
            else if String.eqb fullKey
              "/redfish/v1/CertificateService/Actions/CertificateService.ReplaceCertificate"
            then ReplaceCertificate xname env
            else ret (Err ErrBackendContinue)
        end
  end.

Definition certificates_GetEnvForXname (xname : string) : M (X * S) (result (gomap string)) :=
  ret (Ok [("RTS_XNAME", xname)]).

(** The service as a backend helper of the dispatcher *)
Definition CertificateService_backend (fuel : nat) : BackendHelper (X * S) := {|
  RunPeriodic := ret (Ok tt);
  SetupBackendHelper := certificates_SetupBackendHelper fuel;
  GetEnvForXname := certificates_GetEnvForXname;
  RunBackendHelper := certificates_RunBackendHelper;
|}.
End service.
