(* ===== verification/Simulator.v ===== *)
(** The backend helper that simulates devices
    ([internal/backend_helpers/simulator.go]), and the one that does nothing
    ([internal/backend_helpers/mock.go]).

    The simulator keeps the whole state of its devices in Redis: the set-up
    writes the resources of every xname ([initSimulator]), and the actions
    change the values that the next request reads ([simulator_RunBackendHelper]).
    Most results of the writes are ignored, as in the source. *)
From S2P Require Import Prelude Values Redis Walk RedisStruct Dispatcher Pipelines RedisHelper Services Certificates.

(** The simulator; a known instance has no data. *)
Record RFSimulatorHelper (P : Type) := mkSimulator {
  sim_RedisHelper : RedisHelper P;
  KnownInstances : gomap unit;
}.
Arguments mkSimulator {P}.
Arguments sim_RedisHelper {P}.
Arguments KnownInstances {P}.

(** The global variables [RedfishUsername] and [RedfishPassword] *)
Record RedfishCredentials := mkRedfishCredentials {
  RedfishUsername : string;
  RedfishPassword : string;
}.

Section simulator.
Context {X S P V K : Type} `{RedisOps S} `{!PipelineOps S P} `{!Crypto K}.
Context (out : Outside (X * S) V).
Variable globals : lens X (Globals V).
Variable credentials : lens X RedfishCredentials.
Variable sim : lens X (RFSimulatorHelper P).
Variable cs : lens X (CertificateService P V K).
Variable SecureStorage_Lookup : V -> string -> M (X * S) (CertificatePair * option go_error).
Variable GenerateFromPassword : string -> M (X * S) (result string).
(** [runtime.NumCPU()], and [strconv.Quote] *)
Variable NumCPU : Z.
Variable quote : string -> string.

Definition sim_RedisHelper_field : lens (RFSimulatorHelper P) (RedisHelper P) :=
  mkLens sim_RedisHelper (fun h s => mkSimulator h (KnownInstances s)).
Definition sim_helper : lens X (RedisHelper P) := lens_comp sim sim_RedisHelper_field.

(** ** The resources of a simulated device *)

Definition initSystem_reset (xname actionsKeyspace : string) : M (X * S) (result unit) :=
  let actionName := "ComputerSystem.Reset" in
  reset <- addMemberToSet sim_helper actionsKeyspace ("#" +:+ actionName) ;;
  let computerSystemResetKeyspace := fst reset in
  let computerSystemResetTargetURI := path_join [actionsKeyspace; actionName] in
  setValueForPropertyInKeyspace sim_helper computerSystemResetKeyspace "target" computerSystemResetTargetURI ;;
  allowable <- addMemberToSet sim_helper computerSystemResetKeyspace "ResetType@Redfish.AllowableValues" ;;
  match allowable with
  | (_, Some _) => ret (Err (ErrText ("unable to add AllowableValues to ResetType for xname " +:+ xname)))
  | (allowableValuesKeyspace, None) =>
      redis_rpush allowableValuesKeyspace ["On"; "GracefulShutdown"; "ForceRestart"] ;;
      ret (Ok tt)
  end.

(** The instance "Self" of the systems *)
Definition initSystem_self (xname newInstanceKeyspace : string) : M (X * S) (result unit) :=
  addMemberToSet sim_helper newInstanceKeyspace "@odata.id" ;;
  addMemberToSet sim_helper newInstanceKeyspace "@odata.type" ;;
  setValueForPropertyInKeyspace sim_helper newInstanceKeyspace "Name" "Computer System Chassis" ;;
  setValueForPropertyInKeyspace sim_helper newInstanceKeyspace "Id" "Self" ;;
  setValueForPropertyInKeyspace sim_helper newInstanceKeyspace "Manufacturer" "Cray, Inc." ;;
  setValueForPropertyInKeyspace sim_helper newInstanceKeyspace "Model" "Redfish Simulator" ;;
  setValueForPropertyInKeyspace sim_helper newInstanceKeyspace "PowerState" "On" ;;
  processorSummary <- addMemberToSet sim_helper newInstanceKeyspace "ProcessorSummary" ;;
  let processorSummaryKeyspace := fst processorSummary in
  setValueForPropertyInKeyspace sim_helper processorSummaryKeyspace "Count" (format_int NumCPU) ;;
  setValueForPropertyInKeyspace sim_helper processorSummaryKeyspace "Model" "Simulated" ;;
  memorySummary <- addMemberToSet sim_helper newInstanceKeyspace "MemorySummary" ;;
  let memorySummaryKeyspace := fst memorySummary in
  setValueForPropertyInKeyspace sim_helper memorySummaryKeyspace "TotalSystemMemoryGiB" "42" ;;
  actions <- addMemberToSet sim_helper newInstanceKeyspace "Actions" ;;
  match actions with
  | (_, Some _) => ret (Err (ErrText ("unable to add Actions to instance " +:+ xname)))
  | (actionsKeyspace, None) => initSystem_reset xname actionsKeyspace
  end.

Definition initSystem (xname : string) : M (X * S) (result unit) :=
  system <- addMemberToSet sim_helper (path_join [xname; ServiceRootKeyspace]) "Systems" ;;
  let systemKeyspace := fst system in
  setValueForPropertyInKeyspace sim_helper systemKeyspace "Name" "Computer System Collection" ;;
  addMemberToSet sim_helper systemKeyspace "@odata.id" ;;
  addMemberToSet sim_helper systemKeyspace "@odata.type" ;;
  addMemberToSet sim_helper systemKeyspace "Members" ;;
  member <- addMemberToArray (P:=P) sim_helper systemKeyspace "Members" ;;
  match member with
  | (_, Some _) => ret (Err (ErrText ("unable to add member to array for instance: " +:+ xname)))
  | (thisMemberKeyspace, None) =>
      let newInstanceKeyspace := systemKeyspace +:+ "/Self" in
      setValueForPropertyInKeyspace sim_helper thisMemberKeyspace "@odata.id" newInstanceKeyspace ;;
      initSystem_self xname newInstanceKeyspace
  end.

Definition initChassis (xname : string) : M (X * S) (result unit) :=
  chassis <- addMemberToSet sim_helper (path_join [xname; ServiceRootKeyspace]) "Chassis" ;;
  let chassisKeyspace := fst chassis in
  setValueForPropertyInKeyspace sim_helper chassisKeyspace "Name" "Chassis Collection" ;;
  addMemberToSet sim_helper chassisKeyspace "@odata.id" ;;
  addMemberToSet sim_helper chassisKeyspace "@odata.type" ;;
  addMemberToSet sim_helper chassisKeyspace "Members" ;;
  member <- addMemberToArray (P:=P) sim_helper chassisKeyspace "Members" ;;
  match member with
  | (_, Some _) => ret (Err (ErrText ("unable to add member to array for instance: " +:+ xname)))
  | (thisMemberKeyspace, None) =>
      let newInstanceKeyspace := chassisKeyspace +:+ "/Self" in
      setValueForPropertyInKeyspace sim_helper thisMemberKeyspace "@odata.id" newInstanceKeyspace ;;
      addMemberToSet sim_helper newInstanceKeyspace "@odata.id" ;;
      addMemberToSet sim_helper newInstanceKeyspace "@odata.type" ;;
      setValueForPropertyInKeyspace sim_helper newInstanceKeyspace "Name" "Computer System Chassis" ;;
      setValueForPropertyInKeyspace sim_helper newInstanceKeyspace "Id" "Self" ;;
      setValueForPropertyInKeyspace sim_helper newInstanceKeyspace "Manufacturer" "Cray, Inc." ;;
      setValueForPropertyInKeyspace sim_helper newInstanceKeyspace "Model" "Redfish Simulator" ;;
      links <- addMemberToSet sim_helper newInstanceKeyspace "Links" ;;
      let linksKeyspace := fst links in
      systems <- addMemberToArray (P:=P) sim_helper linksKeyspace "ComputerSystems" ;;
      let systemsKeyspace := fst systems in
      setValueForPropertyInKeyspace sim_helper systemsKeyspace "@odata.id" (path_join [SystemsKeyspace; "Self"]) ;;
      ret (Ok tt)
  end.

Definition initManagers (xname : string) : M (X * S) (result unit) :=
  r <- initManagerCollection sim_helper xname ;;
  match r with
  | Err err => ret (Err (ErrText ("unable to init manager collection for " +:+ xname +:+ ": " +:+ err_string err)))
  | Ok _ =>
      r <- initManager (P:=P) sim_helper xname "RTS" "Redfish Simulator" ;;
      match r with
      | Err err => ret (Err (ErrText ("unable to init manager for " +:+ xname +:+ ": " +:+ err_string err)))
      | Ok _ => ret (Ok tt)
      end
  end.

(** One component whose firmware can be updated *)
Definition firmware_member (updateKeyspace firmwareInventoryKeyspace member : string) : M (X * S) (result unit) :=
  added <- addMemberToArray (P:=P) sim_helper firmwareInventoryKeyspace "Members" ;;
  match added with
  | (_, Some _) => ret (Err (ErrText ("unable to add member to array for keyspace: " +:+ updateKeyspace)))
  | (thisMemberKeyspace, None) =>
      let newInstanceKeyspace := child firmwareInventoryKeyspace member in
      setValueForPropertyInKeyspace sim_helper thisMemberKeyspace "@odata.id" newInstanceKeyspace ;;
      addMemberToSet sim_helper newInstanceKeyspace "@odata.id" ;;
      addMemberToSet sim_helper newInstanceKeyspace "@odata.type" ;;
      setValueForPropertyInKeyspace sim_helper newInstanceKeyspace "Description" (member +:+ " Firmware Inventory") ;;
      setValueForPropertyInKeyspace sim_helper newInstanceKeyspace "Id" member ;;
      setValueForPropertyInKeyspace sim_helper newInstanceKeyspace "Name" member ;;
      setValueForPropertyInKeyspace sim_helper newInstanceKeyspace "Updateable" "True" ;;
      setValueForPropertyInKeyspace sim_helper newInstanceKeyspace "Version" "1" ;;
      ret (Ok tt)
  end.

Definition populateFirmwareInventory (updateKeyspace : string) : M (X * S) (result unit) :=
  inventory <- addMemberToSet sim_helper updateKeyspace "FirmwareInventory" ;;
  let firmwareInventoryKeyspace := fst inventory in
  addMemberToSet sim_helper firmwareInventoryKeyspace "@odata.id" ;;
  addMemberToSet sim_helper firmwareInventoryKeyspace "@odata.type" ;;
  setValueForPropertyInKeyspace sim_helper firmwareInventoryKeyspace "Description"
    "Collection of Firmware Inventory resources available to the UpdateService" ;;
  setValueForPropertyInKeyspace sim_helper firmwareInventoryKeyspace "Name" "Firmware Inventory Collection" ;;
  fold_ok (fun _ member => firmware_member updateKeyspace firmwareInventoryKeyspace member) tt ["BIOS"; "BMC"].

(** The error of the inventory is ignored. *)
Definition initUpdateService (xname : string) : M (X * S) (result unit) :=
  update <- addMemberToSet sim_helper (path_join [xname; ServiceRootKeyspace]) "UpdateService" ;;
  let updateKeyspace := fst update in
  setValueForPropertyInKeyspace sim_helper updateKeyspace "Name" "Update Service" ;;
  setValueForPropertyInKeyspace sim_helper updateKeyspace "Id" "Update Service" ;;
  addMemberToSet sim_helper updateKeyspace "@odata.id" ;;
  addMemberToSet sim_helper updateKeyspace "@odata.type" ;;
  setValueForPropertyInKeyspace sim_helper updateKeyspace "Description" "Redfish Update Service" ;;
  setValueForPropertyInKeyspace sim_helper updateKeyspace "ServiceEnabled" "true" ;;
  populateFirmwareInventory updateKeyspace ;;
  status <- addMemberToSet sim_helper updateKeyspace "Status" ;;
  let statusKeyspace := fst status in
  setValueForPropertyInKeyspace sim_helper statusKeyspace "Health" "OK" ;;
  setValueForPropertyInKeyspace sim_helper statusKeyspace "State" "Enabled" ;;
  actions <- addMemberToSet sim_helper updateKeyspace "Actions" ;;
  match actions with
  | (_, Some _) => ret (Err (ErrText ("unable to add Actions to instance " +:+ xname)))
  | (actionsKeyspace, None) =>
      let actionName := "UpdateService.SimpleUpdate" in
      simpleUpdate <- addMemberToSet sim_helper actionsKeyspace ("#" +:+ actionName) ;;
      let simpleUpdateKeyspace := fst simpleUpdate in
      let simpleUpdateTargetURI := path_join [actionsKeyspace; actionName] in
      setValueForPropertyInKeyspace sim_helper simpleUpdateKeyspace "target" simpleUpdateTargetURI ;;
      ret (Ok tt)
  end.

(** The keys of the service root, for every instance *)
Definition initRoot : M (X * S) unit :=
  root <- addMemberToSet sim_helper "/redfish" "v1" ;;
  let rootKeyspace := fst root in
  setValueForPropertyInKeyspace sim_helper rootKeyspace "Name" "Service Root" ;;
  setValueForPropertyInKeyspace sim_helper rootKeyspace "Description" "The Redfish ServiceRoot" ;;
  addMemberToSet sim_helper rootKeyspace "@odata.id" ;;
  addMemberToSet sim_helper rootKeyspace "@odata.type" ;;
  match LookupEnv out "SCHEMA_VERSION" with
  | Some versionStr =>
      setValueForPropertyInKeyspace sim_helper rootKeyspace "RedfishVersion" versionStr ;; ret tt
  | None => ret tt
  end ;;
  addMemberToSet sim_helper rootKeyspace "Chassis" ;;
  addMemberToSet sim_helper rootKeyspace "Systems" ;;
  addMemberToSet sim_helper rootKeyspace "Managers" ;;
  addMemberToSet sim_helper rootKeyspace "UpdateService" ;;
  ret tt.

Definition set_pipeline (pl : option P) : M (X * S) unit := assign sim_helper (mkRedisHelper pl).

Definition simulator_initFunctions : list (string -> M (X * S) (result unit)) :=
  [initChassis; initSystem; initManagers; initUpdateService].

(** The writes of the instance, in a pipeline that is dropped on an error *)
Definition initInstance (xname : string) : M (X * S) (result unit) :=
  set_pipeline (Some (Pipeline (S:=S))) ;;
  r <- fold_ok (fun _ initFunction => initFunction xname) tt simulator_initFunctions ;;
  match r with
  | Err err => set_pipeline None ;; ret (Err err)
  | Ok _ =>
      r <- InitForXName cs SecureStorage_Lookup xname ;;
      match r with
      | Err err => set_pipeline None ;; ret (Err err)
      | Ok _ =>
          h <- fetch sim_helper ;;
          r <- match RedisActivePipeline h with
               | Some pl => pipe_exec pl
               | None => panic nil_deref
               end ;;
          set_pipeline None ;;
          ret r
      end
  end.

Definition initSimulator (xname : string) : M (X * S) (result unit) :=
  r <- removeXnamePrependedKeys (P:=P) xname ;;
  match r with
  | Err removeErr => ret (Err (ErrText ("unable to remove keys from Redis: " +:+ err_string removeErr)))
  | Ok _ =>
      initRoot ;;
      _ <-? initInstance xname ;;
      creds <- fetch credentials ;;
      store_credentials out globals
        (mkCompCredentials xname (xname +:+ ":8083") (RedfishUsername creds) (RedfishPassword creds) "" "")
  end.

(** ** The backend helper *)

(** The first error ends the round. *)
Definition simulator_RunPeriodic : M (X * S) (result unit) :=
  s <- fetch sim ;;
  fold_ok (fun _ xname => informHSM out xname) tt (mkeys (KnownInstances s)).

(** The error of an instance is ignored: it is known all the same. *)
Definition setup_instance (xname : string) : M (X * S) unit :=
  initSimulator xname ;;
  s <- fetch sim ;;
  assign sim (mkSimulator (sim_RedisHelper s) (mput xname tt (KnownInstances s))).

(** An environment variable that must be set *)
Definition required_env (name : string) : M (X * S) string :=
  match LookupEnv out name with
  | Some v => ret v
  | None => panic ("Value must be set for " +:+ name)
  end.

Definition comma : ascii := ","%char.

(** [SetupBackendHelper]; [fuel] attempts to reach Vault. *)
Definition simulator_SetupBackendHelper (fuel : nat) : M (X * S) (result unit) :=
  secureStorage <- connectToVault out fuel ;;
  match secureStorage with
  | None => fatal "Unable to connect to Vault"
  | Some storage =>
      ok <- setupCompCredsVault out globals storage ;;
      (if ok : bool then ret tt else fatal "Failed to setup CompCredsVault") ;;
      username <- required_env "RF_USERNAME" ;;
      password <- required_env "RF_PASSWORD" ;;
      assign credentials (mkRedfishCredentials username password) ;;
      let role := "Administrator" in
      initAccount (P:=P) sim_helper GenerateFromPassword username role password ;;
      _ <-? SetupCertificateService cs "RTS" GenericCertificateID ;;
      match LookupEnv out "RF_SIMULATOR_XNAMES" with
      | None => ret (Ok tt)
      | Some simulatorXnames =>
          for_each setup_instance (split_on comma simulatorXnames) ;;
          ret (Ok tt)
      end
  end.

Definition simulator_GetEnvForXname (xname : string) : M (X * S) (result (gomap string)) :=
  s <- fetch sim ;;
  if mmem xname (KnownInstances s) then ret (Ok [("RTS_XNAME", xname)])
  else ret (Err (ErrText "unable to find xname in device list")).

(** ** Actions *)

(** ComputerSystem.Reset; an unknown type is only logged. *)
Definition ComputerSystem_Reset (xname : string) (env : gomap string) : M (X * S) (result string) :=
  match mget "ResetType" env with
  | None => ret (Err (ErrText "ResetType action requested, but ResetType not provided"))
  | Some desiredPowerState =>
      let powerStateKeyspace := path_join [xname; SystemsKeyspace; "Self"] in
      if String.eqb desiredPowerState "GracefulShutdown" then
        setValueForPropertyInKeyspace sim_helper powerStateKeyspace "PowerState" "Off" ;;
        postRFPowerEvent out globals xname (path_join [SystemsKeyspace; "Self"]) "Off" ;;
        ret (Ok "")
      else if String.eqb desiredPowerState "ForceRestart" || String.eqb desiredPowerState "On" then
        setValueForPropertyInKeyspace sim_helper powerStateKeyspace "PowerState" "On" ;;
        postRFPowerEvent out globals xname (path_join [SystemsKeyspace; "Self"]) "On" ;;
        ret (Ok "")
      else ret (Ok "")
  end.

(** [\d\.\d\.\d] at the beginning *)
Definition version_at (s : string) : option string :=
  match s with
  | String a (String b (String c (String d (String e _)))) =>
      if is_digit a && Ascii.eqb b "." && is_digit c && Ascii.eqb d "." && is_digit e
      then Some (str_take 5 s) else None
  | _ => None
  end.

(** The last version in the text that something follows *)
Fixpoint last_version (line : string) : option string :=
  match line with
  | EmptyString => None
  | String _ line' =>
      match last_version line' with
      | Some v => Some v
      | None => if Nat.ltb 5 (String.length line) then version_at line else None
      end
  end.

(** The group of [.+(\d\.\d\.\d).+]: the match is within a line, something
    is before the version, and the first [.+] takes as much as it can. *)
Definition versionRegex (imageURI : string) : option string :=
  head (omap (fun line => match line with EmptyString => None | String _ rest => last_version rest end)
    (split_on "010"%char imageURI)).

(** The text of an error of [strconv.ParseBool] that is wrapped *)
Definition parse_bool_error (s : string) : string :=
  "UpdateService.SimpleUpdate action requested, but ResetBMC not boolean type: strconv.ParseBool: parsing "
  +:+ quote s +:+ ": invalid syntax".

(** UpdateService.SimpleUpdate: the parameters that must be there *)
Definition SimpleUpdate (xname : string) (env : gomap string) : M (X * S) (result string) :=
  let missing name :=
    ret (Err (ErrText ("UpdateService.SimpleUpdate action requested, but " +:+ name +:+ " not provided"))) in
  match mget "ImageURI" env with
  | None => missing "ImageURI"
  | Some imageURI =>
  match mget "TransferProtocol" env with
  | None => missing "TransferProtocol"
  | Some transferProtocol =>
  match mget "UpdateComponent" env with
  | None => missing "UpdateComponent"
  | Some updateComponent =>
      _ <-? match mget "ResetBMC" env with
            | Some resetBMCString =>
                match parse_bool resetBMCString with
                | Some _ => ret (Ok tt)
                | None => ret (Err (ErrText (parse_bool_error resetBMCString)))
                end
            | None => ret (Ok tt)
            end ;;
      match versionRegex imageURI with
      | None => ret (Err (ErrText "ImageURI doesn't have a version in its filename, giving up"))
      | Some version =>
          let keyspace := path_join [xname; ServiceRootKeyspace; "UpdateService"; "FirmwareInventory"; updateComponent] in
          setValueForPropertyInKeyspace sim_helper keyspace "Version" version ;;
          ret (Ok "")
      end
  end
  end
  end.

(** The value of a key of a known instance: the two actions, or what Redis
    has. *)
Definition simulator_RunBackendHelper (key : string) (args : list string) (env : gomap string) :
    M (X * S) (result string) :=
  match mget "RTS_XNAME" env with
  | None => ret (Err (ErrText "RTS_XNAME not in environment variables"))
  | Some xname =>
      s <- fetch sim ;;
      if negb (mmem xname (KnownInstances s)) then ret (Err (ErrText ("unknown xname: " +:+ xname)))
      else
        match keyRegex key with
        | None => ret (Err (ErrText "key format not what expected"))
        | Some fullKey =>
            let strippedKey := trim_prefix ServiceRootKeyspace fullKey in
            if String.eqb strippedKey key then ret (Err (ErrText "unexpected key prefix"))
            else if String.eqb strippedKey "/Systems/Self/Actions/ComputerSystem.Reset"
            then ComputerSystem_Reset xname env
            else if String.eqb strippedKey "/UpdateService/Actions/UpdateService.SimpleUpdate"
            then SimpleUpdate xname env
            else redis_get key
        end
  end.

Definition RFSimulatorHelper_backend (fuel : nat) : BackendHelper (X * S) := {|
  RunPeriodic := simulator_RunPeriodic;
  SetupBackendHelper := simulator_SetupBackendHelper fuel;
  GetEnvForXname := simulator_GetEnvForXname;
  RunBackendHelper := simulator_RunBackendHelper;
|}.

(* ===================================================================== *)
(** * The mock                                                           *)
(* ===================================================================== *)

(** It only has a Redis helper. *)
Variable mock_helper : lens X (RedisHelper P).

Definition mock_SetupBackendHelper : M (X * S) (result unit) :=
  let xname := "localhost" in
  match LookupEnv out "MOCKBACKEND_ROOT_PASSWORD" with
  | None => ret (Err (ErrText "environment variable MOCKBACKEND_ROOT_PASSWORD is not defined"))
  | Some password =>
      _ <-? initAccount (P:=P) mock_helper GenerateFromPassword "root" "Administrator" password ;;
      _ <-? initManagerCollection mock_helper xname ;;
      _ <-? initManager (P:=P) mock_helper xname GenericBmcID "Mock" ;;
      _ <-? SetupCertificateService cs GenericBmcID GenericCertificateID ;;
      InitForXName cs SecureStorage_Lookup xname
  end.

Definition MockBackendHelper_backend : BackendHelper (X * S) := {|
  RunPeriodic := ret (Ok tt);
  SetupBackendHelper := mock_SetupBackendHelper;
  GetEnvForXname _ := ret (Ok []);
  RunBackendHelper _ _ _ := ret (Err ErrMockNoOp);
|}.
End simulator.
