(* ===== verification/DeviceSetup.v ===== *)
(** The set-up of a device: what it writes, and that it can be repeated.

    The functions that write the resources of a device ([RedisHelper],
    [CertificateService], [RFSimulatorHelper]) are shown to perform allowed
    commands only, whatever Redis holds.  The theorems follow: setting up a
    simulated device succeeds, leaves the keys of the others alone, gives the
    same resources whatever was there before, and changes nothing when it is
    done again. *)
From stdpp Require Import sets.
From S2P Require Import Prelude Values Redis Walk RedisStruct Dispatcher Pipelines RedisHelper Performs DeviceKeys.
From S2P Require Import Services Certificates Simulator.

(** Two places of the memory that do not overlap *)
Class LensIndep {X A B} (l : lens X A) (l' : lens X B) : Prop := {
  indep_get a x : lget l' (lput l a x) = lget l' x;
  indep_get' b x : lget l (lput l' b x) = lget l x;
  indep_put a b x : lput l a (lput l' b x) = lput l' b (lput l a x);
}.

Section removal.
Context {X S P : Type} `{Laws : RedisLaws S} `{!PipelineOps S P} `{PLaws : !PipelineLaws S P}.

Lemma deletions_effect l ks :
  fst (commands_effect (map CDel l) ks) = Ok tt /\
  forall k, run (map CDel l) ks !! k = if decide (k ∈ l) then None else ks !! k.
Proof.
  revert ks. induction l as [|a l IH]; intros ks; [by split; [|intros k; rewrite decide_False by apply not_elem_of_nil]|].
  destruct (IH (delete a ks)) as [Hok Hrun]. split.
  - simpl. destruct (commands_effect (map CDel l) (delete a ks)) as [r ks2]. done.
  - intros k. cbn [map]. rewrite run_cons. cbn [command_effect snd]. rewrite Hrun.
    destruct (decide (k ∈ l)) as [Hin|Hin].
    + by rewrite decide_True by by right.
    + destruct (decide (k = a)) as [->|Hne].
      * by rewrite lookup_delete_eq, decide_True by left.
      * rewrite lookup_delete_ne, decide_False by (rewrite ?elem_of_cons; naive_solver). done.
Qed.

Lemma removeXnamePrependedKeys_run (x : X) (s : S) xname :
  exists s', removeXnamePrependedKeys (P:=P) xname (x, s) = (Ret (Ok tt), (x, s')) /\
  forall k, keyspace s' !! k = if decide (has_prefix xname k = true) then None else keyspace s !! k.
Proof.
  unfold removeXnamePrependedKeys, bind_ok, bind. cbn. unfold on_snd. cbn [fst snd].
  destruct (law_keys xname s) as (l & -> & _ & Hl).
  destruct (law_pipe_exec (foldl (fun pipe k => pipe_add (S:=S) (CDel k) pipe) (Pipeline (S:=S)) l) s) as (s' & E & K).
  cbn [fst snd]. rewrite E, pipe_cmds_foldl, law_pipeline. rewrite pipe_cmds_foldl, law_pipeline in K. cbn [app] in *.
  destruct (deletions_effect l (keyspace s)) as [-> Hrun]. exists s'. split; [done|].
  intros k. rewrite K. fold (run (map CDel l) (keyspace s)). rewrite Hrun.
  destruct (decide (k ∈ l)) as [Hin|Hin], (decide (has_prefix xname k = true)) as [Hp|Hp]; try done.
  - by apply Hl in Hin as [_ ?].
  - destruct (keyspace s !! k) eqn:Ek; [|done]. destruct Hin. apply Hl. by rewrite Ek.
Qed.
End removal.

(** Removing the keys of a device succeeds and removes exactly the keys
    that start with its name: so also those of every device whose name
    continues it (the nodes of a removed slot, slot 10 with slot 1), and, for
    the empty name that an empty entry of a list of names gives, all of
    Redis. *)
Theorem removal_by_prefix {X S P : Type} `{Laws : RedisLaws S} `{!PipelineOps S P} `{PLaws : !PipelineLaws S P}
    (x : X) (s : S) xname :
  exists s', removeXnamePrependedKeys (P:=P) xname (x, s) = (Ret (Ok tt), (x, s')) /\
    (forall k, keyspace s' !! k = if decide (has_prefix xname k = true) then None else keyspace s !! k) /\
    (forall suffix k, keyspace s' !! (xname +:+ suffix +:+ k) = None) /\
    (xname = "" -> keyspace s' = ∅).
Proof.
  destruct (removeXnamePrependedKeys_run (P:=P) x s xname) as (s' & E & K). exists s'. split_and!; [done..| |].
  - intros suffix k. rewrite K, decide_True by apply has_prefix_app. done.
  - intros ->. apply map_eq. intros k. by rewrite K, decide_True, lookup_empty by apply (has_prefix_app "" k).
Qed.

(* ===================================================================== *)
(** * The common resources                                               *)
(* ===================================================================== *)

Section resources.
Context {X S P : Type} `{Laws : RedisLaws S} `{!PipelineOps S P} `{PLaws : !PipelineLaws S P}.
Variables (xname : string) (version : option string).
Hypothesis Hxname : plain xname = true.
#[local] Abbreviation D := (device_area xname version).

(** The function succeeds; the memory [x0] only changes in the pipeline. *)
Definition sets_up (helper : lens X (RedisHelper P)) (m : M (X * S) (result unit)) : Prop :=
  forall x0 x, grows D helper x0 x -> performs D x m (fun r x' => r = Ok tt /\ grows D helper x0 x').

(** The managers of the repository *)
Definition known_bmc (bmcID : string) : Prop := bmcID = "RTS" \/ bmcID = "BMC".

Section managers.
Variable helper : lens X (RedisHelper P).
Context `{!LensLaws helper}.

Lemma initManagerCollection_sets_up : sets_up helper (initManagerCollection helper xname).
Proof. intros x0 x Hx. unfold initManagerCollection. by performing. Qed.

Lemma initManager_sets_up bmcID model :
  known_bmc bmcID -> sets_up helper (initManager (P:=P) helper xname bmcID model).
Proof. intros [-> | ->] x0 x Hx; unfold initManager; by performing. Qed.
End managers.

(* --------------------------------------------------------------------- *)
(** ** The certificate service                                            *)
(* --------------------------------------------------------------------- *)

Section certificates.
Context {V K : Type} `{!Crypto K}.
Variable cs : lens X (CertificateService P V K).
Context `{!LensLaws cs}.
Variable SecureStorage_Lookup : V -> string -> M (X * S) (CertificatePair * option go_error).

#[export] Instance RedisHelper_field_laws : LensLaws (RedisHelper_field (P:=P) (V:=V) (K:=K)).
Proof. by split; intros; try destruct x. Qed.
#[export] Instance cs_helper_laws : LensLaws (cs_helper cs).
Proof. apply _. Qed.

Lemma initCertificateService_sets_up bmcID certificateID :
  sets_up (cs_helper cs) (initCertificateService cs xname bmcID certificateID).
Proof. intros x0 x Hx. unfold initCertificateService. by performing. Qed.

Lemma initCertificateLocations_sets_up bmcID certificateID :
  sets_up (cs_helper cs) (initCertificateLocations cs xname bmcID certificateID).
Proof. intros x0 x Hx. unfold initCertificateLocations. by performing. Qed.

Lemma initManagerNetworkProtocol_sets_up bmcID certificateID :
  known_bmc bmcID -> sets_up (cs_helper cs) (initManagerNetworkProtocol cs xname bmcID certificateID).
Proof. intros [-> | ->] x0 x Hx; unfold initManagerNetworkProtocol; by performing. Qed.

Lemma initManagerHTTPSCertificateCollection_sets_up bmcID certificateID :
  known_bmc bmcID -> sets_up (cs_helper cs) (initManagerHTTPSCertificateCollection cs xname bmcID certificateID).
Proof. intros [-> | ->] x0 x Hx; unfold initManagerHTTPSCertificateCollection; by performing. Qed.

Lemma initManagerHTTPSCertificate_sets_up bmcID :
  known_bmc bmcID -> sets_up (cs_helper cs) (initManagerHTTPSCertificate cs xname bmcID "1").
Proof. intros [-> | ->] x0 x Hx; unfold initManagerHTTPSCertificate, name_members; by performing. Qed.
End certificates.

(* --------------------------------------------------------------------- *)
(** ** The simulator                                                      *)
(* --------------------------------------------------------------------- *)

Section simulator.
Context {V : Type} (out : Outside (X * S) V).
Variable sim : lens X (RFSimulatorHelper P).
Context `{!LensLaws sim}.
Variable NumCPU : Z.

#[export] Instance sim_RedisHelper_field_laws : LensLaws (sim_RedisHelper_field (P:=P)).
Proof. by split; intros; try destruct x. Qed.
#[export] Instance sim_helper_laws : LensLaws (sim_helper sim).
Proof. apply _. Qed.

Lemma initChassis_sets_up : sets_up (sim_helper sim) (initChassis sim xname).
Proof. intros x0 x Hx. unfold initChassis. by performing. Qed.

Lemma initSystem_sets_up : sets_up (sim_helper sim) (initSystem sim NumCPU xname).
Proof. intros x0 x Hx. unfold initSystem, initSystem_self, initSystem_reset. by performing. Qed.

Lemma initManagers_sets_up : sets_up (sim_helper sim) (initManagers sim xname).
Proof.
  intros x0 x Hx. unfold initManagers. perform_step.
  eapply performs_mono; [by apply (initManagerCollection_sets_up (sim_helper sim) x0)|]. intros r x1 [-> Hx1]. perform_step.
  eapply performs_mono; [apply (initManager_sets_up (sim_helper sim) "RTS" _ (or_introl eq_refl) x0 _ Hx1)|]. intros r x2 [-> Hx2]. by perform_step.
Qed.

Lemma initUpdateService_sets_up : sets_up (sim_helper sim) (initUpdateService sim xname).
Proof.
  intros x0 x Hx. unfold initUpdateService, populateFirmwareInventory, firmware_member. cbn [fold_ok].
  by performing.
Qed.

Lemma initRoot_performs x0 x :
  version = LookupEnv out "SCHEMA_VERSION" -> grows D (sim_helper sim) x0 x ->
  performs D x (initRoot out sim) (fun _ x' => grows D (sim_helper sim) x0 x').
Proof.
  intros Hversion Hx. unfold initRoot. rewrite <- Hversion. destruct version; by performing.
Qed.
End simulator.
End resources.

(* ===================================================================== *)
(** * Setting up a device                                                *)
(* ===================================================================== *)

#[export] Instance lens_comp_indep {X A B C} (l : lens X A) (f : lens A B) (l' : lens X C) :
  LensIndep l l' -> LensIndep (lens_comp l f) l'.
Proof.
  intros Hl. split; intros; simpl.
  - by rewrite indep_get.
  - by rewrite indep_get'.
  - by rewrite indep_get', indep_put.
Qed.

Section devices.
Context {X S P V K : Type} `{Laws : RedisLaws S} `{!PipelineOps S P} `{PLaws : !PipelineLaws S P} `{!Crypto K}.
Context (out : Outside (X * S) V).
Variable globals : lens X (Globals V).
Variable credentials : lens X RedfishCredentials.
Variable sim : lens X (RFSimulatorHelper P).
Variable cs : lens X (CertificateService P V K).
Context `{!LensLaws sim, !LensLaws cs, !LensIndep sim cs, !LensIndep sim globals, !LensIndep cs globals}.
Variable SecureStorage_Lookup : V -> string -> M (X * S) (CertificatePair * option go_error).
Variable NumCPU : Z.

(** The service and the simulator after [SetupBackendHelper], without a
    store of certificates: no pipeline is active. *)
Definition ready (x : X) : Prop :=
  RedisActivePipeline (lget (sim_helper sim) x) = None /\
  RedisActivePipeline (lget (cs_helper cs) x) = None /\
  BmcID (lget cs x) = "RTS" /\ CertificateID (lget cs x) = GenericCertificateID /\
  cs_CertificateStore (lget cs x) = None /\ is_Some (KnownDevices (lget cs x)) /\
  is_Some (compCredStore (lget globals x)).

(** Vault takes the credentials, and is not Redis. *)
Hypothesis store_silent : forall store cred x,
  silent x (StoreCompCred out store cred) (Ok tt) x.

Variable xname : string.
Hypothesis Hxname : plain xname = true.
#[local] Abbreviation D := (device_area xname (LookupEnv out "SCHEMA_VERSION")).

Lemma sets_up_idle (helper : lens X (RedisHelper P)) (m : M (X * S) (result unit)) x :
  LensLaws helper -> RedisActivePipeline (lget helper x) = None ->
  sets_up xname (LookupEnv out "SCHEMA_VERSION") helper m ->
  performs D x m (fun r x' => r = Ok tt /\ x' = x).
Proof.
  intros Hlaws Hidle Hm. eapply performs_mono; [by apply Hm, grows_idle|].
  intros r x' [-> Hx']. unfold grows in Hx'. rewrite Hidle in Hx'. done.
Qed.

Lemma InitForXName_performs x :
  RedisActivePipeline (lget (cs_helper cs) x) = None ->
  BmcID (lget cs x) = "RTS" -> CertificateID (lget cs x) = GenericCertificateID ->
  cs_CertificateStore (lget cs x) = None -> is_Some (KnownDevices (lget cs x)) ->
  performs D x (InitForXName cs SecureStorage_Lookup xname)
    (fun r x' => r = Ok tt /\ exists m, x' = lput cs (set_KnownDevices (Some m) (lget cs x)) x).
Proof.
  intros Hidle Hbmc Hcert Hstore [known Hknown]. unfold InitForXName, initFunctions.
  apply performs_bind. eapply performs_silent; [apply silent_fetch|]. rewrite Hbmc, Hcert.
  cbn [fold_ok]. apply performs_bind_ok.
  assert (Hstep : forall m (k : unit -> M (X * S) (result unit)) Q,
    sets_up xname (LookupEnv out "SCHEMA_VERSION") (cs_helper cs) m ->
    performs D x (k tt) Q -> performs D x (bind_ok m k) Q).
  { intros m k Q Hm Hk. apply performs_bind_ok.
    eapply performs_mono; [by apply (sets_up_idle (cs_helper cs)); [apply _|..]|]. by intros r x' [-> ->]. }
  apply Hstep; [by apply initCertificateService_sets_up|].
  apply Hstep; [by apply initCertificateLocations_sets_up|].
  apply Hstep; [by apply initManagerNetworkProtocol_sets_up; try left|].
  apply Hstep; [by apply initManagerHTTPSCertificateCollection_sets_up; try left|].
  apply Hstep; [by apply initManagerHTTPSCertificate_sets_up; try left|].
  apply performs_ret. cbv beta iota. apply performs_bind_ok. unfold InitForXName_vault.
  apply performs_bind. eapply performs_silent; [apply silent_fetch|]. rewrite Hstore. apply performs_ret.
  apply performs_bind. eapply performs_silent; [apply silent_fetch|]. rewrite Hknown. cbn [assign_entry].
  apply performs_bind, performs_ret. apply performs_bind. eapply performs_silent; [apply silent_assign|].
  apply performs_ret. split; [done|]. by eexists.
Qed.

(** The pipeline of the simulator is the only change of its functions. *)
Lemma simulator_initFunctions_perform x :
  RedisActivePipeline (lget (sim_helper sim) x) <> None ->
  grows D (sim_helper sim) x x ->
  performs D x (fold_ok (fun _ initFunction => initFunction xname) tt (simulator_initFunctions sim NumCPU))
    (fun r x' => r = Ok tt /\ grows D (sim_helper sim) x x').
Proof.
  intros _ Hx. unfold simulator_initFunctions. cbn [fold_ok].
  assert (Hstep : forall m (k : unit -> M (X * S) (result unit)) Q x1,
    grows D (sim_helper sim) x x1 -> sets_up xname (LookupEnv out "SCHEMA_VERSION") (sim_helper sim) m ->
    (forall x', grows D (sim_helper sim) x x' -> performs D x' (k tt) Q) -> performs D x1 (bind_ok m k) Q).
  { intros m k Q x1 Hx1 Hm Hk. apply performs_bind_ok.
    eapply performs_mono; [by apply (Hm x)|]. intros r x' [-> Hx']. by apply Hk. }
  apply Hstep; [done|by apply initChassis_sets_up|]. intros x1 Hx1.
  apply Hstep; [done|by apply initSystem_sets_up|]. intros x2 Hx2.
  apply Hstep; [done|by apply initManagers_sets_up|]. intros x3 Hx3.
  apply Hstep; [done|by apply initUpdateService_sets_up|]. intros x4 Hx4.
  by apply performs_ret.
Qed.

Lemma grows_started x :
  grows D (sim_helper sim) (lput (sim_helper sim) (mkRedisHelper (Some (Pipeline (S:=S)))) x)
    (lput (sim_helper sim) (mkRedisHelper (Some (Pipeline (S:=S)))) x).
Proof.
  unfold grows. rewrite lget_lput. cbn [RedisActivePipeline]. eexists. rewrite lput_lput.
  split; [done|]. by rewrite law_pipeline.
Qed.

Lemma initInstance_performs x :
  ready x -> performs D x (initInstance sim cs SecureStorage_Lookup NumCPU xname) (fun r x' => r = Ok tt /\ ready x').
Proof.
  intros (Hsim & Hcs & Hbmc & Hcert & Hstore & Hknown & Hvault).
  unfold initInstance, set_pipeline. apply performs_bind. eapply performs_silent; [apply silent_assign|].
  set (x1 := lput (sim_helper sim) _ x). apply performs_bind.
  eapply performs_mono; [apply simulator_initFunctions_perform; [|apply grows_started]|].
  { unfold x1. by rewrite lget_lput. }
  intros r x' [-> Hx']. unfold grows in Hx'. fold x1 in Hx'.
  unfold x1 in Hx' at 1. rewrite lget_lput in Hx'. cbn [RedisActivePipeline] in Hx'.
  destruct Hx' as (p & -> & Hp). unfold x1. rewrite lput_lput. set (x2 := lput (sim_helper sim) _ x).
  assert (E2 : lget cs x2 = lget cs x) by apply indep_get.
  apply performs_bind. eapply performs_mono.
  { apply InitForXName_performs; [|by rewrite E2..]. unfold cs_helper, lens_comp. cbn [lget]. by rewrite E2. }
  intros r x3 [-> [m ->]]. rewrite E2. apply performs_bind. eapply performs_silent; [apply silent_fetch|].
  assert (E3 : forall c, lget (sim_helper sim) (lput cs c x2) = mkRedisHelper (Some p)).
  { intros c. rewrite indep_get'. apply lget_lput. }
  rewrite E3. cbn [RedisActivePipeline].
  apply performs_bind, performs_pipe_exec; [done|].
  apply performs_bind. eapply performs_silent; [apply silent_assign|]. apply performs_ret. split; [done|].
  unfold ready. rewrite lget_lput. unfold cs_helper, lens_comp. cbn [lget]. rewrite !indep_get, !lget_lput.
  unfold x2, sim_helper, lens_comp. cbn [lget lput]. rewrite !indep_get. naive_solver.
Qed.

(** The keys of the service root, when they exist, have their types. *)
Definition root_key (k : string) : Prop :=
  k ∈ ["/redfish"; ServiceRootKeyspace] \/ is_Some (mget k (root_values (LookupEnv out "SCHEMA_VERSION"))).
Definition root_typed (ks : keys) : Prop :=
  forall k v, root_key k -> ks !! k = Some v -> has_kind (kind_tokens (split_slash k)) v.

Lemma setup_performs x :
  ready x ->
  performs D x (initRoot out sim ;;
    _ <-? initInstance sim cs SecureStorage_Lookup NumCPU xname ;;
    creds <- fetch credentials ;;
    store_credentials out globals
      (mkCompCredentials xname (xname +:+ ":8083") (RedfishUsername creds) (RedfishPassword creds) "" ""))
    (fun r x' => r = Ok tt /\ ready x').
Proof.
  intros Hready. assert (Hidle := proj1 Hready). apply performs_bind.
  eapply performs_mono; [eapply initRoot_performs; first [reflexivity|done|by apply grows_idle]|].
  intros ? x1 Hx1. unfold grows in Hx1. rewrite Hidle in Hx1. subst x1.
  apply performs_bind_ok. eapply performs_mono; [by apply initInstance_performs|].
  intros r x2 [-> Hx2]. apply performs_bind. eapply performs_silent; [apply silent_fetch|].
  unfold store_credentials, with_store. apply performs_bind. eapply performs_silent; [apply silent_fetch|].
  pose proof Hx2 as (_ & _ & _ & _ & _ & _ & [store Hstore]). rewrite Hstore.
  eapply performs_silent; [apply store_silent|]. done.
Qed.

(** From any two servers, the same commands are performed after the removal
    of the device. *)
Lemma initSimulator_run x s1 s2 :
  ready x -> root_typed (keyspace s1) -> root_typed (keyspace s2) ->
  exists x' s1' s2' ks1 ks2 cs_,
    initSimulator out globals credentials sim cs SecureStorage_Lookup NumCPU xname (x, s1) = (Ret (Ok tt), (x', s1')) /\
    initSimulator out globals credentials sim cs SecureStorage_Lookup NumCPU xname (x, s2) = (Ret (Ok tt), (x', s2')) /\
    ready x' /\ Forall (allowed D) cs_ /\ typed D ks1 /\ typed D ks2 /\
    keyspace s1' = run cs_ ks1 /\ keyspace s2' = run cs_ ks2 /\
    (forall k, ks1 !! k = if decide (has_prefix xname k = true) then None else keyspace s1 !! k) /\
    (forall k, ks2 !! k = if decide (has_prefix xname k = true) then None else keyspace s2 !! k).
Proof.
  intros Hready T1 T2.
  destruct (removeXnamePrependedKeys_run (P:=P) x s1 xname) as (s1a & E1 & K1).
  destruct (removeXnamePrependedKeys_run (P:=P) x s2 xname) as (s2a & E2 & K2).
  assert (Htyped : forall s sa, root_typed (keyspace s) ->
    (forall k, keyspace sa !! k = if decide (has_prefix xname k = true) then None else keyspace s !! k) ->
    typed D (keyspace sa)).
  { intros s sa Hs Ha k v Hk. rewrite Ha. case_decide as Hp; [done|]. apply Hs.
    destruct Hk as [Hk|Hk]; [done|]. exact Hk. }
  destruct (setup_performs x Hready s1a s2a) as (r & x' & s1' & s2' & cs_ & F1 & F2 & Hcs & R1 & R2 & -> & Hready').
  { by apply (Htyped s1). } { by apply (Htyped s2). }
  { intros k Hk. rewrite K1, K2. by rewrite !decide_True by exact Hk. }
  exists x', s1', s2', (keyspace s1a), (keyspace s2a), cs_.
  unfold initSimulator. rewrite !(bind_step _ _ _ _ _ E1), !(bind_step _ _ _ _ _ E2).
  split_and!; try done; [by apply (Htyped s1)|by apply (Htyped s2)].
Qed.

#[local] Abbreviation init := (initSimulator out globals credentials sim cs SecureStorage_Lookup NumCPU xname).

Lemma root_typed_after cs_ ks0 : Forall (allowed D) cs_ -> typed D ks0 -> root_typed (run cs_ ks0).
Proof. intros Hcs Ht k v Hk. destruct (commands_succeed D cs_ ks0 Hcs Ht) as [_ Ht']. apply Ht'. by right. Qed.

(** C23: setting up a simulated device, from any Redis whose service root is
    not of a wrong type, succeeds without a panic, leaves no pipeline behind,
    and touches no key but those that start with the xname and the keys of
    the service root. *)
Theorem initSimulator_confined x s :
  ready x -> root_typed (keyspace s) ->
  exists x' s', init (x, s) = (Ret (Ok tt), (x', s')) /\ ready x' /\ root_typed (keyspace s') /\
    forall k, has_prefix xname k = false -> ~ root_key k -> keyspace s' !! k = keyspace s !! k.
Proof.
  intros Hready Hs.
  destruct (initSimulator_run x s s Hready Hs Hs)
    as (x' & s' & _ & ks1 & _ & cs_ & E & _ & Hready' & Hcs & T1 & _ & R & _ & K1 & _).
  exists x', s'. split_and!; [done..|rewrite R; by apply root_typed_after|].
  intros k Hp Hk. rewrite R, (run_frame D cs_ ks1 k Hcs), K1, decide_False; [done|by rewrite Hp|].
  intros [Hown|Hroot]; [|by apply Hk]. unfold own, device_area in Hown. congruence.
Qed.

(** C9: what the set-up of a simulated device leaves below the xname does
    not depend on what Redis held before, and a restart of the service, which
    sets the device up again in the Redis it left, leaves Redis as it is. *)
Theorem initSimulator_repeatable x s s0 :
  ready x -> root_typed (keyspace s) -> root_typed (keyspace s0) ->
  exists x' s' s0' s'',
    init (x, s) = (Ret (Ok tt), (x', s')) /\ init (x, s0) = (Ret (Ok tt), (x', s0')) /\
    (forall k, has_prefix xname k = true -> keyspace s' !! k = keyspace s0' !! k) /\
    init (x, s') = (Ret (Ok tt), (x', s'')) /\ keyspace s'' = keyspace s'.
Proof.
  intros Hready Hs Hs0.
  destruct (initSimulator_run x s s0 Hready Hs Hs0)
    as (x' & s' & s0' & ks1 & ks2 & cs_ & E & E0 & _ & Hcs & T1 & _ & R & R0 & K1 & K2).
  assert (Hs' : root_typed (keyspace s')) by (rewrite R; by apply root_typed_after).
  destruct (initSimulator_run x s s' Hready Hs Hs')
    as (x1 & s1 & s'' & ks3 & ks4 & cs' & E1 & E2 & _ & Hcs' & T3 & _ & K1' & K2' & K3 & K4).
  rewrite E in E1. injection E1 as <- <-.
  exists x', s', s0', s''. split_and!; [done..| |done|].
  - intros k Hk. rewrite R, R0. apply run_lookup. by rewrite K1, K2, !decide_True.
  - rewrite K2', K1'. apply (run_again D); [done..| | |apply _].
    + intros k Hk. rewrite K3, K4. by rewrite !decide_True.
    + intros k Hk. by rewrite K4, decide_False, K1'.
Qed.
End devices.
