(* ===== verification/Replacement.v ===== *)
(** The certificates of the devices: parsing a posted text, and replacing a
    certificate ([ParseCertificatePairFromString], [RunBackendHelper] and
    [ReturnCert] of [internal/backend_helpers/certificateservice.go]).

    [PemLaws] states the documented behaviour of [encoding/pem]: [Decode]
    returns the first block and the rest of the text, or the whole text when
    there is no block, and reads back a block that [EncodeToMemory] wrote. *)
From S2P Require Import Prelude Values Redis Walk RedisStruct Dispatcher Pipelines RedisHelper Performs DeviceKeys.
From S2P Require Import Services Certificates DeviceSetup.

Class PemLaws (K : Type) `{!Crypto K} := {
  (* blocks that a text can hold: a plain type, no odd headers *)
  encodable : Block -> Prop;
  pem_decode_none s rest : pem_Decode s = (None, rest) -> rest = s;
  pem_decode_shorter s b rest :
    pem_Decode s = (Some b, rest) -> (String.length rest < String.length s)%nat;
  pem_decode_encoded b : encodable b -> pem_Decode (pem_EncodeToMemory b) = (Some b, "");
}.

(* ===================================================================== *)
(** * Parsing                                                            *)
(* ===================================================================== *)

Section parsing.
Context {T K : Type} `{!Crypto K}.

(** The blocks of a text *)
Inductive pem_blocks : string -> list Block -> Prop :=
  | blocks_end s rest : pem_Decode s = (None, rest) -> pem_blocks s []
  | blocks_empty : pem_blocks "" []
  | blocks_next s b rest bs :
      s <> "" -> pem_Decode s = (Some b, rest) -> pem_blocks rest bs -> pem_blocks s (b :: bs).

(** The last block of a type *)
Definition last_of (t : string) (bs : list Block) : option Block :=
  last (List.filter (fun b => String.eqb (block_Type b) t) bs).

(** The pair that a text with the blocks [bs] stands for *)
Definition pair_of_blocks (bs : list Block) : result CertificatePair :=
  match last_of "CERTIFICATE" bs, last_of "RSA PRIVATE KEY" bs with
  | None, _ => Err (ErrText "certificate string is missing PEM formated certificate")
  | Some _, None => Err (ErrText "certificate string is missing PEM formated private key")
  | Some c, Some k => Ok (mkPair (pem_EncodeToMemory c) (pem_EncodeToMemory k))
  end.

Lemma last_of_cons t b bs :
  last_of t (b :: bs) =
    match last_of t bs with Some b' => Some b' | None => if String.eqb (block_Type b) t then Some b else None end.
Proof.
  unfold last_of. simpl. destruct (String.eqb (block_Type b) t).
  - rewrite last_cons. by destruct (last _).
  - by destruct (last _).
Qed.

Context `{!PemLaws K}.

Lemma pem_blocks_exist s : exists bs, pem_blocks s bs.
Proof.
  induction s as [s IH] using (induction_ltof1 _ String.length). unfold ltof in IH.
  destruct (String.eqb_spec s "") as [->|Hs]; [by exists []; constructor|].
  destruct (pem_Decode s) as [[b|] rest] eqn:E; [|exists []; by econstructor].
  destruct (IH rest) as [bs Hbs]; [by eapply pem_decode_shorter|].
  exists (b :: bs). by econstructor.
Qed.

Lemma pem_loop_blocks fuel text bs c k (s : T) :
  pem_blocks text bs -> (String.length text < fuel)%nat ->
  pem_loop fuel text c k s =
    (Ret (match last_of "CERTIFICATE" bs with Some b => Some b | None => c end,
          match last_of "RSA PRIVATE KEY" bs with Some b => Some b | None => k end), s).
Proof.
  intros Hbs. revert fuel c k. induction Hbs as [text rest E| |text b rest bs Hne E Hbs IH];
    intros [|fuel] c k Hfuel; try (simpl in Hfuel; lia); simpl.
  - destruct (Nat.eqb_spec (String.length text) 0); [done|].
    rewrite E, (pem_decode_none _ _ E), String.eqb_refl. done.
  - done.
  - pose proof (pem_decode_shorter _ _ _ E) as Hlt.
    destruct (Nat.eqb_spec (String.length text) 0); [by destruct text|]. rewrite E.
    destruct (String.eqb_spec text rest) as [->|_]; [lia|]. rewrite !last_of_cons.
    destruct (String.eqb_spec (block_Type b) "CERTIFICATE") as [Ht|];
      [rewrite Ht|destruct (String.eqb_spec (block_Type b) "RSA PRIVATE KEY") as [Ht'|]];
      rewrite IH by lia; simpl; do 3 f_equal; repeat case_match; done.
Qed.

(** C32: parsing a posted text always ends, without an error of the loop,
    and gives the last certificate and the last RSA private key of the
    blocks in the text, in whatever order they come; a text that lacks one of
    them is refused. *)
Theorem ParseCertificatePairFromString_spec text :
  exists bs, pem_blocks text bs /\
    forall s : T, ParseCertificatePairFromString text s = (Ret (pair_of_blocks bs), s).
Proof.
  destruct (pem_blocks_exist text) as [bs Hbs]. exists bs. split; [done|]. intros s.
  unfold ParseCertificatePairFromString, bind. rewrite (pem_loop_blocks _ _ bs) by (done || lia).
  unfold pair_of_blocks. by destruct (last_of "CERTIFICATE" bs), (last_of "RSA PRIVATE KEY" bs).
Qed.
End parsing.

(* ===================================================================== *)
(** * Replacing a certificate                                            *)
(* ===================================================================== *)

Lemma key_suffix_device keyspace xname s :
  has_prefix "/" keyspace = true -> free_of slash xname = true ->
  key_suffix keyspace (xname +:+ s) = key_suffix keyspace s.
Proof.
  intros [below Hk]%prefix_true. unfold free_of. induction xname as [|a x IH]; [done|].
  intros [Ha%negb_true_iff Hx]%andb_true_iff. rewrite str_app_cons. cbn [key_suffix].
  assert (Hp : has_prefix keyspace (String a (x +:+ s)) = false).
  { apply not_true_iff_false. unfold has_prefix. rewrite Hk. intros [t E]%prefix_true.
    injection E as -> _. by vm_compute in Ha. }
  rewrite Hp. simpl. by apply IH.
Qed.

Lemma keyRegex_device xname s : free_of slash xname = true -> keyRegex (xname +:+ s) = keyRegex s.
Proof. by apply key_suffix_device. Qed.

Lemma sets_succeed cs ks :
  Forall (fun c => match c with CSet _ _ => True | _ => False end) cs -> fst (commands_effect cs ks) = Ok tt.
Proof.
  intros Hcs. revert ks. induction Hcs as [|[] cs Hc _ IH]; intros ks; try done. simpl.
  specialize (IH (<[k:=RStr v]> ks)). by destruct (commands_effect cs (<[k:=RStr v]> ks)).
Qed.

Lemma below_ne x ts ts' :
  free_of slash x = true -> Forall (fun t => free_of slash t = true) ts ->
  Forall (fun t => free_of slash t = true) ts' -> ts <> ts' -> below x ts <> below x ts'.
Proof. intros Hx Hts Hts' Hne E. apply (f_equal split_slash) in E. rewrite !split_below in E by done. congruence. Qed.

Section replacement.
Context {X S P V K : Type} `{Laws : RedisLaws S} `{!PipelineOps S P} `{PLaws : !PipelineLaws S P}
  `{!Crypto K} `{!PemLaws K}.
Context (out : Outside (X * S) V).
Variable cs : lens X (CertificateService P V K).
Context `{!LensLaws cs}.
Variable SecureStorage_Lookup : V -> string -> M (X * S) (CertificatePair * option go_error).
Variable SecureStorage_Store : V -> string -> CertificatePair -> M (X * S) (option go_error).

Variables (xname bmcID : string).
Hypothesis Hxname : plain xname = true.
Hypothesis Hbmc : known_bmc bmcID.

(** The tokens of the certificate of a device *)
Definition certificate_tokens : list string :=
  ["redfish"; "v1"; "Managers"; bmcID; "NetworkProtocol"; "HTTPS"; "Certificates"; GenericCertificateID].

Lemma certificate_keyspace :
  path_join [xname; ManagersKeyspace; bmcID; "NetworkProtocol"; "HTTPS"; "Certificates"; GenericCertificateID]
  = below xname certificate_tokens.
Proof.
  unfold certificate_tokens. destruct Hbmc as [-> | ->]; by rewrite path_join_device by (done || by vm_compute).
Qed.

Lemma certificate_values_first (cert : CertificateTuple K) ks :
  let cs_ := certificate_values (below xname certificate_tokens) cert in
  fst (commands_effect cs_ ks) = Ok tt /\
  run cs_ ks !! below xname (certificate_tokens ++ ["CertificateString"]) = Some (RStr (PublicCertificate cert)).
Proof.
  assert (Hfree := plain_free _ Hxname). split.
  - apply sets_succeed. by repeat constructor.
  - unfold certificate_values, name_values, certificate_tokens. cbn [app].
    destruct Hbmc as [-> | ->];
      rewrite !(path_join_below xname) by (done || by vm_compute); cbn [app List.concat map];
      apply (run_assigned []); repeat (apply Forall_cons; split); try apply Forall_nil; cbn [command_key];
      try apply not_eq_sym; try done; apply below_ne; (done || by repeat constructor || by vm_compute).
Qed.

(** A request for a key of the certificate refreshes it in Redis first. *)
Lemma update_redis_wpm x ks cert (Q : outcome (result unit) -> X -> keys -> Prop) :
  BmcID (lget cs x) = bmcID -> CertificateID (lget cs x) = GenericCertificateID ->
  mget xname (default [] (Certificates (lget cs x))) = Some cert ->
  (forall ks', ks' !! below xname (certificate_tokens ++ ["CertificateString"]) = Some (RStr (PublicCertificate cert)) ->
     Q (Ret (Ok tt)) x ks') ->
  wpm x ks (update_redis (S:=S) cs xname) Q.
Proof.
  intros Hb Hc Hcert HQ. unfold update_redis, populateCertificate, GetCertificate.
  cell_steps. rewrite Hb, Hc, certificate_keyspace, Hcert. cell_steps.
  rewrite (pipe_cmds_foldl (fun c => c)), law_pipeline, map_id. cbn [app].
  destruct (certificate_values_first cert ks) as [-> Hrun]. by apply HQ.
Qed.

(** The key of the text of the certificate, as a request for it has it *)
Definition CertificateString_key : string := below xname (certificate_tokens ++ ["CertificateString"]).

Lemma keyRegex_certificate c :
  BmcID c = bmcID -> CertificateID c = GenericCertificateID ->
  exists fullKey, keyRegex CertificateString_key = Some fullKey /\
    has_prefix (certificate_key (P:=P) (V:=V) (K:=K) c) fullKey = true.
Proof.
  intros Hb Hc. unfold CertificateString_key, certificate_tokens, certificate_key. rewrite Hb, Hc.
  rewrite below_suffix, keyRegex_device by by apply plain_free.
  destruct Hbmc as [-> | ->]; eexists; split; vm_compute; reflexivity.
Qed.

(** An answered request for the text of the certificate *)
Lemma CertificateString_read x ks cert args env :
  BmcID (lget cs x) = bmcID -> CertificateID (lget cs x) = GenericCertificateID ->
  mget "RTS_XNAME" env = Some xname -> mmem xname (default [] (KnownDevices (lget cs x))) = true ->
  mget xname (default [] (Certificates (lget cs x))) = Some cert ->
  wpm x ks (certificates_RunBackendHelper cs SecureStorage_Store CertificateString_key args env)
    (fun o x' _ => o = Ret (Ok (PublicCertificate cert)) /\ x' = x).
Proof.
  intros Hb Hc Henv Hknown Hcert. unfold certificates_RunBackendHelper. rewrite Henv. cell_steps.
  rewrite Hknown. cbn [negb]. destruct (keyRegex_certificate (lget cs x) Hb Hc) as (fullKey & -> & ->).
  cell_steps. eapply update_redis_wpm; [done..|]. intros ks' Hks'. cell_steps.
  unfold CertificateString_key. by rewrite Hks'.
Qed.

(** The action, as a request names it *)
Definition replace_key : string :=
  below xname ["redfish"; "v1"; "CertificateService"; "Actions"; "CertificateService.ReplaceCertificate"].

Lemma keyRegex_replace c :
  BmcID c = bmcID -> CertificateID c = GenericCertificateID ->
  keyRegex replace_key = Some "/redfish/v1/CertificateService/Actions/CertificateService.ReplaceCertificate" /\
  has_prefix (certificate_key (P:=P) (V:=V) (K:=K) c)
    "/redfish/v1/CertificateService/Actions/CertificateService.ReplaceCertificate" = false.
Proof.
  intros Hb Hc. unfold replace_key, certificate_key. rewrite Hb, Hc, below_suffix, keyRegex_device by by apply plain_free.
  destruct Hbmc as [-> | ->]; by vm_compute.
Qed.

(** A posted text whose last certificate and key fit together *)
Definition good_certificate (text : string) (cert : CertificateTuple K) : Prop :=
  exists bs c k, pem_blocks (K:=K) text bs /\ last_of "CERTIFICATE" bs = Some c /\
    last_of "RSA PRIVATE KEY" bs = Some k /\ encodable c /\ encodable k /\
    PublicCertificate cert = pem_EncodeToMemory c /\
    X509KeyPair (pem_EncodeToMemory c) (pem_EncodeToMemory k) = Ok (TLS cert) /\
    ParseCertificate (block_Bytes c) = Ok (X509 cert).

(** The store of certificates, if there is one, takes every pair. *)
Definition store_accepts (c : CertificateService P V K) : Prop :=
  forall credStore, cs_CertificateStore c = Some credStore ->
  forall certPair x, silent x (StoreCertificatePair SecureStorage_Store credStore xname certPair) None x.

Lemma LoadCertificateFromPair_wpm x ks bs_c bs_k cert certs (Q : outcome (result unit) -> X -> keys -> Prop) :
  encodable bs_c -> encodable bs_k -> PublicCertificate cert = pem_EncodeToMemory bs_c ->
  X509KeyPair (pem_EncodeToMemory bs_c) (pem_EncodeToMemory bs_k) = Ok (TLS cert) ->
  ParseCertificate (block_Bytes bs_c) = Ok (X509 cert) ->
  Certificates (lget cs x) = Some certs ->
  Q (Ret (Ok tt)) (lput cs (set_Certificates (Some (mput xname cert certs)) (lget cs x)) x) ks ->
  wpm x ks (LoadCertificateFromPair (S:=S) cs xname
    (mkPair (pem_EncodeToMemory bs_c) (pem_EncodeToMemory bs_k))) Q.
Proof.
  intros Hc Hk Hpub Htls Hx509 Hcerts HQ. unfold LoadCertificateFromPair. cbn [Certificate PrivateKey].
  rewrite !pem_decode_encoded by done. cbn [fst]. rewrite Htls, Hx509.
  cell_steps. rewrite Hcerts. cbn [assign_entry]. cell_steps. rewrite <- Hpub. by destruct cert.
Qed.

(** C18: a request that replaces the certificate of a device by a good one
    succeeds; from then on the device presents that certificate to its
    clients, and a request for the text of the certificate is answered with
    the certificate that was posted. *)
Theorem replaced_certificate_served x ks env text cert certs :
  BmcID (lget cs x) = bmcID -> CertificateID (lget cs x) = GenericCertificateID ->
  mmem xname (default [] (KnownDevices (lget cs x))) = true ->
  Certificates (lget cs x) = Some certs -> store_accepts (lget cs x) ->
  mget "RTS_XNAME" env = Some xname ->
  mget "CertificateUri" env = Some (certificate_key (lget cs x)) ->
  mget "CertificateType" env = Some "PEM" -> mget "CertificateString" env = Some text ->
  good_certificate text cert ->
  wpm x ks (certificates_RunBackendHelper cs SecureStorage_Store replace_key [] env) (fun o x1 ks1 =>
    o = Ret (Ok "") /\
    wpm x1 ks1 (ReturnCert (S:=S) cs (xname +:+ "-rts")) (fun o x2 _ => o = Ret (Ok (TLS cert)) /\ x2 = x1) /\
    wpm x1 ks1 (certificates_RunBackendHelper cs SecureStorage_Store CertificateString_key [] [("RTS_XNAME", xname)])
      (fun o x2 _ => o = Ret (Ok (PublicCertificate cert)) /\ x2 = x1)).
Proof.
  intros Hb Hc Hknown Hcerts Hstore Henv Huri Htype Hstring (bs & c & k & Hbs & Ec & Ek & Hec & Hek & Hpub & Htls & Hx509).
  unfold certificates_RunBackendHelper at 1. rewrite Henv. cell_steps. rewrite Hknown. cbn [negb].
  destruct (keyRegex_replace (lget cs x) Hb Hc) as [-> ->]. unfold ReplaceCertificate.
  rewrite String.eqb_refl. cell_steps. unfold replace_request. rewrite Huri, Htype, Hstring, String.eqb_refl.
  cbn [negb]. rewrite String.eqb_refl. cbn [negb].
  apply wpm_bind. eapply (wpm_mem _ _ _ (Ok (mkPair (pem_EncodeToMemory c) (pem_EncodeToMemory k))) x).
  { intros s. unfold ParseCertificatePairFromString, bind.
    rewrite (pem_loop_blocks _ _ bs) by (done || lia). by rewrite Ec, Ek. }
  cell_steps. eapply LoadCertificateFromPair_wpm; [done..|]. cell_steps. rewrite lget_lput.
  set (x1 := lput cs _ x).
  assert (E1 : lget cs x1 = set_Certificates (Some (mput xname cert certs)) (lget cs x)) by apply lget_lput.
  cbn [cs_CertificateStore set_Certificates].
  assert (Htail : forall ks0, wpm x1 ks0 (update_redis (S:=S) cs xname) (fun o x2 ks2 => o = Ret (Ok tt) /\ x2 = x1)).
  { intros ks0. eapply update_redis_wpm; rewrite ?E1; [done..|by apply mget_mput_eq|done]. }
  assert (Hread : forall ks1,
    wpm x1 ks1 (ReturnCert (S:=S) cs (xname +:+ "-rts")) (fun o x2 _ => o = Ret (Ok (TLS cert)) /\ x2 = x1) /\
    wpm x1 ks1 (certificates_RunBackendHelper cs SecureStorage_Store CertificateString_key [] [("RTS_XNAME", xname)])
      (fun o x2 _ => o = Ret (Ok (PublicCertificate cert)) /\ x2 = x1)).
  { intros ks1. split.
    - unfold ReturnCert. rewrite trim_suffix_end. cell_steps. rewrite E1. cbn. by rewrite mget_mput_eq.
    - apply CertificateString_read; rewrite ?E1; try done. by apply mget_mput_eq. }
  assert (Hstored : wpm x1 ks match cs_CertificateStore (lget cs x) with
      | None => ret None
      | Some credStore => StoreCertificatePair SecureStorage_Store credStore xname
          (mkPair (pem_EncodeToMemory c) (pem_EncodeToMemory k))
      end (fun o x2 _ => o = Ret None /\ x2 = x1)).
  { destruct (cs_CertificateStore (lget cs x)) as [credStore|] eqn:Es; [|by cell_steps].
    eapply wpm_silent; [by apply Hstore|done]. }
  cell_steps. eapply wpm_mono; [exact Hstored|]. intros o x2 ks2 [-> ->]. cell_steps.
  eapply wpm_mono; [apply (Htail ks2)|]. intros o x2 ks3 [-> ->]. cell_steps. by split.
Qed.
End replacement.
