(* ===== verification/Collections.v ===== *)
(** What the methods of the Redis helper leave behind: the members of a
    collection, and a new account ([addMemberToArray], [collectionMembers]
    and [initAccount] of [internal/backend_helpers/common.go]).

    An array of links is a list of indices, and for every index a key that
    holds the link; [links_at] states it. *)
From S2P Require Import Prelude Values Redis RedisStruct Accounts Pipelines RedisHelper Performs DeviceKeys Replacement.

Lemma format_nat_plain n : plain (format_nat n) = true.
Proof.
  assert (Hd : str_forallb (fun a => is_digit a || Ascii.eqb a "-") (format_nat n) = true) by apply format_int_bytes.
  unfold plain. rewrite format_nat_slash, andb_true_r.
  destruct (String.eqb_spec (format_nat n) "") as [E|_].
  - assert (Hp : parse_int (format_int 0) = parse_int (format_int 0)) by done.
    unfold format_nat, format_int in E. exfalso. clear -E. destruct (Z.to_int (Z.of_nat n)) as [d|d]; simpl in E.
    + unfold NilZero.string_of_uint in E. by destruct d.
    + done.
  - destruct (String.eqb_spec (format_nat n) ".") as [E|_]; [by rewrite E in Hd|].
    destruct (String.eqb_spec (format_nat n) "..") as [E|_]; [by rewrite E in Hd|done].
Qed.

Lemma shorter_ne (k k' : string) : (String.length k < String.length k')%nat -> k <> k'.
Proof. intros Hl ->. lia. Qed.

(** Two strings of different lengths *)
Ltac by_length := first [apply shorter_ne; lia | apply not_eq_sym, shorter_ne; lia].

Section links.
Context {X S P : Type} `{Laws : RedisLaws S} `{!PipelineOps S P} `{PLaws : !PipelineLaws S P}.
Variable helper : lens X (RedisHelper P).
Context `{!LensLaws helper}.

(** The key of the link of a member *)
Definition link_key (key : string) (i : nat) : string := child (child key (format_nat i)) "@odata.id".

Definition indices (n : nat) : list string := map format_nat (seq 0 n).

(** The array at [key] holds the links [l]. *)
Definition links_at (ks : keys) (key : string) (l : list string) : Prop :=
  match l with
  | [] => ks !! key = None
  | _ => ks !! key = Some (RList (indices (List.length l)))
  end /\
  forall i link, l !! i = Some link -> ks !! link_key key i = Some (RStr link).

(** Adding a member with its link, as the set-up of a device does it *)
Definition add_link (keyspace link : string) : M (X * S) unit :=
  member <- addMemberToArray (P:=P) helper keyspace "Members" ;;
  setValueForPropertyInKeyspace helper (fst member) "@odata.id" link ;;
  ret tt.

Lemma indices_snoc n : indices (Datatypes.S n) = indices n ++ [format_nat n].
Proof. unfold indices. by rewrite seq_S, map_app. Qed.

(** ** Writes without a pipeline *)

Lemma wpm_set_idle x ks k m v (Q : outcome keyspace_and_error -> X -> keys -> Prop) :
  RedisActivePipeline (lget helper x) = None ->
  (forall e, Q (Ret (child k m, e)) x (snd (sadd_effect k [m] (<[child k m := RStr v]> ks)))) ->
  wpm x ks (setValueForPropertyInKeyspace helper k m v) Q.
Proof.
  intros Hidle HQ. unfold setValueForPropertyInKeyspace, addMemberToSet, to_active_pipeline.
  cell_steps. rewrite Hidle. cell_steps. cbn [run_command error_of]. cell_steps. cbn [error_of]. cell_steps.
  rewrite Hidle. cell_steps.
  cbn [run_command]. cell_steps.
  destruct (fst (sadd_effect k [m] (<[child k m:=RStr v]> ks))); cbn [error_of]; cell_steps; apply HQ.
Qed.

Lemma wpm_sadd_idle x ks k m (Q : outcome keyspace_and_error -> X -> keys -> Prop) X0 :
  RedisActivePipeline (lget helper x) = None ->
  ks !! k = None /\ X0 = ∅ \/ ks !! k = Some (RSet X0) ->
  Q (Ret (child k m, None)) x (<[k := RSet (X0 ∪ list_to_set [m])]> ks) ->
  wpm x ks (addMemberToSet helper k m) Q.
Proof.
  intros Hidle Hk HQ. unfold addMemberToSet, to_active_pipeline. cell_steps. rewrite Hidle. cell_steps.
  cbn [run_command]. cell_steps. unfold sadd_effect.
  destruct Hk as [[-> ->] | ->]; cbn [fst snd error_of]; cell_steps; [|exact HQ].
  by rewrite (left_id_L ∅ (∪)) in HQ.
Qed.

(** ** The keys of an array are different *)

Lemma link_key_long key i : (String.length key < String.length (link_key key i))%nat.
Proof.
  unfold link_key. pose proof (child_length key (format_nat i)).
  pose proof (child_length (child key (format_nat i)) "@odata.id"). lia.
Qed.
Lemma link_key_inj key i j : link_key key i = link_key key j -> i = j.
Proof.
  unfold link_key. rewrite !child_app. intros E%str_app_inv_head.
  injection E as E. by apply str_app_inv_tail, format_nat_inj in E.
Qed.
Lemma link_key_member key i j : link_key key i <> child key (format_nat j).
Proof.
  unfold link_key. rewrite child_app. unfold child. intros E%str_app_inv_head. injection E as E.
  pose proof (format_nat_slash j) as Hj. rewrite <- E in Hj. unfold free_of in Hj.
  rewrite str_forallb_app in Hj. apply andb_true_iff in Hj as [_ Hj]. by vm_compute in Hj.
Qed.

(** The set of a collection *)
Definition collection_set (ks : keys) (keyspace : string) : Prop :=
  ks !! keyspace = None \/ exists X0, ks !! keyspace = Some (RSet X0).

(** The length of the array *)
Lemma links_at_llen ks key l : links_at ks key l -> llen_reply (ks !! key) = Ok (Z.of_nat (List.length l)).
Proof.
  intros [Hl _]. destruct l as [|a l]; rewrite Hl; [done|]. simpl. by rewrite length_map, length_seq.
Qed.

(** The array after the index is pushed and the link is stored; other keys may
    change, if they are none of the array's. *)
Lemma links_at_snoc ks ks' key l link :
  links_at ks key l ->
  ks' !! key = Some (RList (indices (List.length l) ++ [format_nat (List.length l)])) ->
  (forall i, i <> List.length l -> ks' !! link_key key i = ks !! link_key key i) ->
  ks' !! link_key key (List.length l) = Some (RStr link) ->
  links_at ks' key (l ++ [link]).
Proof.
  intros [_ Hlinks] Hkey Hothers Hlast. split.
  - rewrite length_app, Nat.add_1_r, indices_snoc, <- Hkey. by destruct l.
  - intros i w Hi. destruct (decide (i = List.length l)) as [->|Hne].
    + rewrite lookup_app_r, Nat.sub_diag in Hi by lia. by simplify_eq/=.
    + rewrite Hothers by done. apply Hlinks. apply lookup_lt_Some in Hi as Hlt. rewrite length_app in Hlt. simpl in Hlt.
      rewrite lookup_app_l in Hi by lia. done.
Qed.

Lemma sadd_other k ms ks k' : k' <> k -> snd (sadd_effect k ms ks) !! k' = ks !! k'.
Proof.
  intros Hne. change (sadd_effect k ms ks) with (command_effect (CSAdd k ms) ks).
  by rewrite command_effect_lookup, decide_False.
Qed.

(** Two keyspaces with the same array *)
Definition same_array (key : string) (ks ks' : keys) : Prop :=
  ks' !! key = ks !! key /\ forall i, ks' !! link_key key i = ks !! link_key key i.

(** The push of the next index *)
Lemma rpush_index ks ks1 key l :
  links_at ks key l -> same_array key ks ks1 ->
  rpush_effect key [format_int (Z.of_nat (List.length l))] ks1 =
    (Ok tt, <[key := RList (indices (List.length l) ++ [format_nat (List.length l)])]> ks1).
Proof. intros [Hl _] [Hkey _]. unfold rpush_effect. rewrite Hkey. by destruct l as [|a l']; rewrite Hl. Qed.

(** The link of the member just pushed *)
Lemma wpm_store_link x ks ks1 keyspace l link (Q : outcome keyspace_and_error -> X -> keys -> Prop) :
  let key := child keyspace "Members" in let n := List.length l in
  RedisActivePipeline (lget helper x) = None ->
  links_at ks key l -> same_array key ks ks1 -> collection_set ks1 keyspace ->
  (forall r ks', links_at ks' key (l ++ [link]) -> collection_set ks' keyspace ->
     (forall k, k <> key -> k <> child key (format_nat n) -> k <> link_key key n -> ks' !! k = ks1 !! k) ->
     Q (Ret r) x ks') ->
  wpm x (<[key := RList (indices n ++ [format_nat n])]> ks1)
    (setValueForPropertyInKeyspace helper (child key (format_nat n)) "@odata.id" link) Q.
Proof.
  intros key n Hidle Hl [Hkey Hothers] Hset HQ. pose proof (child_length keyspace "Members") as Hlen. fold key in Hlen.
  pose proof (link_key_long key n) as Hlong. pose proof (child_length key (format_nat n)) as Hlong'.
  apply wpm_set_idle; [done|]. intros e. fold (link_key key n). apply HQ.
  - eapply links_at_snoc; [exact Hl|..].
    + rewrite sadd_other, lookup_insert_ne, lookup_insert_eq by by_length.
      done.
    + intros i Hi. pose proof (link_key_long key i). rewrite sadd_other by apply link_key_member.
      rewrite lookup_insert_ne by (intros E; by apply link_key_inj in E).
      rewrite lookup_insert_ne by by_length. apply Hothers.
    + rewrite sadd_other by apply link_key_member. apply lookup_insert_eq.
  - unfold collection_set in *. rewrite sadd_other by by_length.
    rewrite !lookup_insert_ne by by_length. exact Hset.
  - intros k H1 H2 H3. by rewrite sadd_other, !lookup_insert_ne.
Qed.

Lemma wpm_push_member x ks keyspace l (Q : outcome keyspace_and_error -> X -> keys -> Prop) :
  let key := child keyspace "Members" in let n := List.length l in
  RedisActivePipeline (lget helper x) = None ->
  links_at ks key l -> collection_set ks keyspace ->
  (forall ks1, same_array key ks ks1 -> collection_set ks1 keyspace ->
     (forall k, k <> keyspace -> ks1 !! k = ks !! k) ->
     Q (Ret (child key (format_nat n), None)) x (<[key := RList (indices n ++ [format_nat n])]> ks1)) ->
  wpm x ks (addMemberToArray (P:=P) helper keyspace "Members") Q.
Proof.
  intros key n Hidle Hl Hset HQ. subst key n. unfold addMemberToArray. cell_steps.
  rewrite (links_at_llen _ _ _ Hl). pose proof (child_length keyspace "Members") as Hlen.
  destruct (Z.eqb (Z.of_nat (List.length l)) 0); cell_steps.
  - assert (HX : exists X0, ks !! keyspace = None /\ X0 = ∅ \/ ks !! keyspace = Some (RSet X0)).
    { destruct Hset as [|[X0 ?]]; [exists ∅; by left|exists X0; by right]. }
    destruct HX as [X0 HX]. apply (wpm_sadd_idle x ks keyspace "Members" _ X0 Hidle HX).
    assert (Hsame : same_array (child keyspace "Members") ks (<[keyspace:=RSet (X0 ∪ list_to_set ["Members"])]> ks)).
    { split; [by rewrite lookup_insert_ne by by_length|]. intros i.
      pose proof (link_key_long (child keyspace "Members") i). by rewrite lookup_insert_ne by by_length. }
    cell_steps. cbn [snd]. cell_steps. rewrite (rpush_index ks _ _ l Hl Hsame). cbn [fst snd]. cell_steps.
    apply HQ; [done| |intros k Hk; by rewrite lookup_insert_ne]. right. eexists. apply lookup_insert_eq.
  - rewrite (rpush_index ks ks _ l Hl) by done. cbn [fst snd]. cell_steps. by apply HQ.
Qed.

Lemma wpm_add_link x ks keyspace l link (Q : outcome unit -> X -> keys -> Prop) :
  RedisActivePipeline (lget helper x) = None ->
  links_at ks (child keyspace "Members") l -> collection_set ks keyspace ->
  (forall ks', links_at ks' (child keyspace "Members") (l ++ [link]) -> collection_set ks' keyspace ->
     Q (Ret tt) x ks') ->
  wpm x ks (add_link keyspace link) Q.
Proof.
  intros Hidle Hl Hset HQ. unfold add_link. cell_steps.
  apply (wpm_push_member x ks keyspace l); [done..|]. intros ks1 Hsame Hset1 _. cell_steps. cbn [fst].
  apply (wpm_store_link x ks ks1 keyspace l link); [done..|]. intros r ks' Hl' Hset' _. cell_steps. by apply HQ.
Qed.

Lemma wpm_add_links x ks keyspace l links (Q : outcome unit -> X -> keys -> Prop) :
  RedisActivePipeline (lget helper x) = None ->
  links_at ks (child keyspace "Members") l -> collection_set ks keyspace ->
  (forall ks', links_at ks' (child keyspace "Members") (l ++ links) -> Q (Ret tt) x ks') ->
  wpm x ks (for_each (add_link keyspace) links) Q.
Proof.
  intros Hidle. revert ks l. induction links as [|link links IH]; intros ks l Hl Hset HQ; cbn [for_each].
  - apply wpm_ret, HQ. by rewrite app_nil_r.
  - apply wpm_bind, (wpm_add_link x ks keyspace l link); [done..|]. intros ks' Hl' Hset'. cell_steps.
    apply (IH ks' (l ++ [link])); [done..|]. intros ks2 Hl2. apply HQ. by rewrite <- app_assoc in Hl2.
Qed.

(** ** Reading the members *)

Lemma links_at_lrange ks key l : links_at ks key l -> lrange_reply (ks !! key) = Ok (indices (List.length l)).
Proof. intros [Hl _]. by destruct l; rewrite Hl. Qed.

Lemma path_join_link xname ts i :
  plain xname = true -> forallb plain ts = true ->
  path_join [child (below xname ts) "Members"; format_nat i; "@odata.id"] =
  link_key (child (below xname ts) "Members") i.
Proof.
  intros Hx Hts. unfold link_key. rewrite below_app.
  assert (Htok : List.concat (map path_tokens [format_nat i; "@odata.id"]) = [format_nat i; "@odata.id"]).
  { cbn [map List.concat]. by rewrite (path_tokens_below (format_nat i) [] (format_nat_plain i) eq_refl : path_tokens (format_nat i) = [format_nat i]). }
  assert (Hall : forallb plain (ts ++ ["Members"]) = true) by by rewrite forallb_app, Hts.
  rewrite path_join_below; rewrite ?Htok; try done; [|cbn [forallb]; by rewrite format_nat_plain].
  rewrite !below_app. f_equal. by rewrite <- !app_assoc.
Qed.

Lemma wpm_collectionMembers x ks xname ts l (Q : outcome (result (list string)) -> X -> keys -> Prop) :
  plain xname = true -> forallb plain ts = true ->
  links_at ks (child (below xname ts) "Members") l ->
  Q (Ret (Ok (map path_base l))) x ks ->
  wpm x ks (collectionMembers (child (below xname ts) "Members")) Q.
Proof.
  intros Hx Hts Hl HQ. unfold collectionMembers. apply wpm_bind, wpm_lift, wp_lrange.
  rewrite (links_at_lrange _ _ _ Hl). unfold afterm at 1. destruct Hl as [_ Hl]. unfold indices.
  assert (Hloop : forall n acc rest, drop n l = rest -> wpm x ks
    (fold_ok (fun members index =>
       link <-? redis_get (path_join [child (below xname ts) "Members"; index; "@odata.id"]) ;;
       ret (Ok (members ++ [path_base link]))) acc (map format_nat (seq n (List.length rest))))
    (fun o x' ks' => o = Ret (Ok (acc ++ map path_base rest)) /\ x' = x /\ ks' = ks)).
  { intros n acc rest. revert n acc. induction rest as [|link rest IH]; intros n acc Hrest; cbn [List.length seq map fold_ok].
    - apply wpm_ret. by rewrite app_nil_r.
    - assert (Hn : l !! n = Some link) by (rewrite <- (Nat.add_0_r n), <- lookup_drop, Hrest; done).
      cell_steps. rewrite path_join_link, (Hl n link Hn) by done. cbn [get_reply]. cell_steps.
      eapply wpm_mono; [apply (IH (Datatypes.S n)); by rewrite <- Nat.add_1_r, <- drop_drop, Hrest|].
      intros o x' ks' (-> & -> & ->). cbn [map]. by rewrite <- app_assoc. }
  eapply wpm_mono; [by apply (Hloop 0%nat [] l)|]. by intros o x' ks' (-> & -> & ->).
Qed.

(** When members are added to an empty collection of a device, each with
    its link, as the set-up of the device does it, the names of the members
    are the last tokens of the links, in the order in which they were added. *)
Theorem collectionMembers_added x ks xname ts links :
  RedisActivePipeline (lget helper x) = None -> plain xname = true -> forallb plain ts = true ->
  ks !! child (below xname ts) "Members" = None -> collection_set ks (below xname ts) ->
  wpm x ks (for_each (add_link (below xname ts)) links ;; collectionMembers (child (below xname ts) "Members"))
    (fun o x' _ => o = Ret (Ok (map path_base links)) /\ x' = x).
Proof.
  intros Hidle Hx Hts Hnone Hset. apply wpm_bind, (wpm_add_links x ks _ [] links); [done|by split|done|].
  intros ks' Hl. unfold afterm at 1. by apply (wpm_collectionMembers x ks' xname ts links).
Qed.

(** ** Accounts *)

(** The commands of [setValueForPropertyInKeyspace] *)
Definition set_commands (k m v : string) : list command := [CSet (child k m) v; CSAdd k [m]].

Lemma wpm_set_commands x ks cs k m v (Q : outcome keyspace_and_error -> X -> keys -> Prop) :
  RedisActivePipeline (lget helper x) = None ->
  (forall r, Q (Ret r) x (run (cs ++ set_commands k m v) ks)) ->
  wpm x (run cs ks) (setValueForPropertyInKeyspace helper k m v) Q.
Proof.
  intros Hidle HQ. apply wpm_set_idle; [done|]. intros e. specialize (HQ (child k m, e)).
  rewrite run_app in HQ. unfold set_commands in HQ. by rewrite !run_cons in HQ.
Qed.

Lemma wpm_sadd_commands x ks cs k m (Q : outcome keyspace_and_error -> X -> keys -> Prop) :
  RedisActivePipeline (lget helper x) = None ->
  (forall r, Q (Ret r) x (run (cs ++ [CSAdd k [m]]) ks)) ->
  wpm x (run cs ks) (addMemberToSet helper k m) Q.
Proof.
  intros Hidle HQ. unfold addMemberToSet, to_active_pipeline. cell_steps. rewrite Hidle. cell_steps.
  cbn [run_command]. cell_steps. assert (HQ' : forall r, Q (Ret r) x (snd (sadd_effect k [m] (run cs ks)))).
  { intros r. specialize (HQ r). by rewrite run_app, run_cons in HQ. }
  destruct (fst (sadd_effect k [m] (run cs ks))); cbn [error_of]; cell_steps; apply HQ'.
Qed.

Lemma same_array_links key l ks ks' : same_array key ks ks' -> links_at ks key l -> links_at ks' key l.
Proof.
  intros [Hkey Hothers] [Hl Hlinks]. split; [by destruct l; rewrite Hkey|].
  intros i link Hi. rewrite Hothers. by apply Hlinks.
Qed.

Definition accounts : string := "/redfish/v1/AccountService/Accounts".
Definition account_tokens : list string := ["redfish"; "v1"; "AccountService"; "Accounts"].

(** Keys below the accounts are different when their tokens are. *)
Lemma account_key_ne ts ts' :
  Forall (fun t => free_of slash t = true) ts -> Forall (fun t => free_of slash t = true) ts' -> ts <> ts' ->
  foldl child accounts ts <> foldl child accounts ts'.
Proof.
  intros Hts Hts' Hne. change accounts with (below "" account_tokens). unfold below. rewrite <- !foldl_app.
  apply (below_ne ""); [done|by apply Forall_app; split; [repeat constructor|]..|].
  by intros E%app_inv_head.
Qed.

(** What the set-up of an account writes before the hash *)
Definition account_commands (username role : string) : list command :=
  let inst := child accounts username in
  [CSAdd inst ["@odata.id"]; CSAdd inst ["@odata.type"]; CSAdd inst ["@odata.context"]]
  ++ set_commands inst "Name" username ++ set_commands inst "Id" username ++ set_commands inst "RoleId" role
  ++ set_commands inst "Enabled" "true" ++ set_commands inst "Locked" "false"
  ++ set_commands inst "UserName" username.

Section account.
Variables (username role : string).
Hypothesis Hname : plain username = true.
Hypothesis Hmembers : username <> "Members".
#[local] Abbreviation inst := (child accounts username).

Lemma account_commands_other k :
  k <> inst -> (forall f, free_of slash f = true -> f <> "Password:hash" -> k <> child inst f) ->
  Forall (fun c => command_key c <> k) (account_commands username role).
Proof.
  intros H1 H2. unfold account_commands, set_commands. cbn [app].
  repeat (apply Forall_cons; split); try done; cbn [command_key]; apply not_eq_sym; try done; by apply H2.
Qed.

Lemma account_array_apart k :
  k = inst \/ (exists f, k = child inst f /\ free_of slash f = true) ->
  k <> child accounts "Members" /\ forall i, k <> link_key (child accounts "Members") i.
Proof.
  pose proof (plain_free _ Hname) as Hf. pose proof format_nat_slash as Hi.
  intros [->|(f & -> & Hff)]; (split; [|intros i]).
  - apply (account_key_ne [username] ["Members"]); [by repeat constructor..|congruence].
  - apply (account_key_ne [username] ["Members"; format_nat i; "@odata.id"]); [by repeat constructor..|done].
  - apply (account_key_ne [username; f] ["Members"]); [by repeat constructor..|done].
  - apply (account_key_ne [username; f] ["Members"; format_nat i; "@odata.id"]); [by repeat constructor..|done].
Qed.

Lemma path_join_account : path_join [accounts; username] = inst.
Proof.
  change accounts with (below "" account_tokens). unfold account_tokens.
  pose proof (path_tokens_below username [] Hname eq_refl : path_tokens username = [username]) as Ht.
  rewrite path_join_root; cbn [map List.concat]; rewrite ?Ht; [|done|by cbn; rewrite Hname].
  by rewrite below_app.
Qed.
Lemma path_join_hash : path_join [inst; "Password:hash"] = child inst "Password:hash".
Proof.
  change accounts with (below "" account_tokens). unfold account_tokens. rewrite below_app. cbn [app].
  rewrite path_join_root; [by rewrite below_app|cbn; by rewrite Hname|done].
Qed.

(** The keyspace before the member is added *)
Definition account_written (h : string) (ks : keys) : keys :=
  <[child inst "Password:hash" := RStr h]> (run (account_commands username role) ks).

Lemma account_written_other h ks k :
  k <> inst -> (forall f, free_of slash f = true -> k <> child inst f) -> account_written h ks !! k = ks !! k.
Proof.
  intros H1 H2. unfold account_written. rewrite lookup_insert_ne by (apply not_eq_sym; by apply H2).
  apply run_other, account_commands_other; auto.
Qed.

Lemma account_written_array h ks : same_array (child accounts "Members") ks (account_written h ks).
Proof.
  split; [|intros i]; apply account_written_other.
  - apply not_eq_sym. by apply account_array_apart; left.
  - intros f Hf. apply not_eq_sym. apply account_array_apart. right. by exists f.
  - apply not_eq_sym. by apply account_array_apart; left.
  - intros f Hf. apply not_eq_sym. apply account_array_apart. right. by exists f.
Qed.

Lemma account_written_set h ks : collection_set ks accounts -> collection_set (account_written h ks) accounts.
Proof.
  unfold collection_set. pose proof (child_length accounts username). rewrite account_written_other; [done|by_length|].
  intros f _. pose proof (child_length inst f). by_length.
Qed.

(** What is written of the account *)
Definition account_fields (h : string) (ks : keys) : Prop :=
  ks !! child inst "Password:hash" = Some (RStr h) /\
  ks !! child inst "UserName" = Some (RStr username) /\ ks !! child inst "RoleId" = Some (RStr role) /\
  ks !! child inst "Enabled" = Some (RStr "true") /\ ks !! child inst "Locked" = Some (RStr "false").

Lemma account_written_fields h ks : account_fields h (account_written h ks).
Proof.
  assert (Hself : forall f, inst <> child inst f) by (intros f; pose proof (child_length inst f); by_length).
  unfold account_fields, account_written. split; [apply lookup_insert_eq|].
  rewrite !lookup_insert_ne by (by intros E%child_inj). unfold account_commands, set_commands. cbn [app].
  split_and!.
  - refine (run_assigned [_;_;_;_;_;_;_;_;_;_;_;_;_] _ _ _ _ _). by repeat constructor.
  - refine (run_assigned [_;_;_;_;_;_;_] _ _ _ _ _).
    repeat (apply Forall_cons; split); try done; by intros E%child_inj.
  - refine (run_assigned [_;_;_;_;_;_;_;_;_] _ _ _ _ _).
    repeat (apply Forall_cons; split); try done; by intros E%child_inj.
  - refine (run_assigned [_;_;_;_;_;_;_;_;_;_;_] _ _ _ _ _).
    repeat (apply Forall_cons; split); try done; by intros E%child_inj.
Qed.

Lemma account_fields_frame h ks ks' :
  (forall f, free_of slash f = true -> ks' !! child inst f = ks !! child inst f) ->
  account_fields h ks -> account_fields h ks'.
Proof. intros Hframe. unfold account_fields. by rewrite !Hframe. Qed.

Variable GenerateFromPassword : string -> M (X * S) (result string).

(** Setting up an account stores its name, its role and its state, and
    the hash of the password in the form from which the account service
    decodes it; and it adds a link to the account to the members, also when
    the members already have one, as after every restart of the service. *)
Theorem initAccount_stores x ks password hash l :
  RedisActivePipeline (lget helper x) = None -> silent x (GenerateFromPassword password) (Ok hash) x ->
  links_at ks (child accounts "Members") l -> collection_set ks accounts ->
  wpm x ks (initAccount (P:=P) helper GenerateFromPassword username role password) (fun o x' ks' =>
    o = Ret (Ok tt) /\ x' = x /\ links_at ks' (child accounts "Members") (l ++ [inst]) /\
    exists h, account_fields h ks' /\ DecodeString h = Some hash).
Proof.
  intros Hidle Hhash Hl Hset. unfold initAccount. cell_steps.
  eapply wpm_silent; [exact Hhash|]. cell_steps.
  assert (Hacc : path_join [path_join [ServiceRootKeyspace; "AccountService"]; "Accounts"] = accounts) by by vm_compute.
  rewrite Hacc, path_join_account, path_join_hash.
  change ks with (run [] ks) at 1.
  do 3 (apply wpm_sadd_commands; [exact Hidle|]; intros ?; cell_steps).
  do 6 (apply wpm_set_commands; [exact Hidle|]; intros ?; cell_steps). cbn [app set_commands].
  set (h := EncodeToString hash).
  match goal with |- wpm x ?k ?m ?Q => change (wpm x (account_written h ks) m Q) end.
  assert (Hl' := same_array_links _ _ _ _ (account_written_array h ks) Hl).
  apply (wpm_push_member x _ accounts l); [done|done|by apply account_written_set|].
  intros ks1 Hsame Hset1 Hframe. cell_steps.
  apply (wpm_store_link x (account_written h ks) ks1 accounts l inst); [done..|].
  intros ? ks2 Hl2 _ Hframe2. cell_steps. split_and!; [done..|]. exists h.
  split; [|apply hex_round_trip]. eapply account_fields_frame; [|apply account_written_fields].
  intros f Hf. destruct (account_array_apart (child inst f)) as [A1 A2]; [by right; exists f|].
  pose proof (child_length accounts username). pose proof (child_length inst f).
  rewrite Hframe2, Hframe; [done|by_length|done| |apply A2].
  pose proof (plain_free _ Hname). pose proof format_nat_slash.
  apply (account_key_ne [username; f] ["Members"; format_nat (List.length l)]); [by repeat constructor..|congruence].
Qed.
End account.
End links.
