(* ===== verification/Simulated.v ===== *)
(** The actions of a simulated device
    ([RunBackendHelper] of [internal/backend_helpers/simulator.go]). *)
From S2P Require Import Prelude Values Redis Walk RedisStruct Dispatcher Pipelines RedisHelper Performs DeviceKeys.
From S2P Require Import Services Certificates Simulator DeviceSetup Replacement Collections.

Section power.
Context {X S P V K : Type} `{Laws : RedisLaws S} `{!PipelineOps S P} `{PLaws : !PipelineLaws S P}.
Context (out : Outside (X * S) V).
Variable globals : lens X (Globals V).
Variable sim : lens X (RFSimulatorHelper P).
Context `{!LensLaws sim, !LensIndep sim globals}.
Variable quote : string -> string.

(** The collector and the clock are not Redis, and not the memory. *)
Hypothesis http_silent : forall request x, exists r, silent x (DoHTTPAction out request) r x.
Hypothesis now_silent : forall x, exists t, silent x (now_RFC3339 out) t x.

Variable xname : string.
Hypothesis Hxname : plain xname = true.

Definition system_key : string := below xname ["redfish"; "v1"; "Systems"; "Self"].
Definition reset_key : string :=
  below xname ["redfish"; "v1"; "Systems"; "Self"; "Actions"; "ComputerSystem.Reset"].

(** The state that a type of reset leads to *)
Definition power_after (resetType : string) : option string :=
  if String.eqb resetType "GracefulShutdown" then Some "Off"
  else if String.eqb resetType "ForceRestart" || String.eqb resetType "On" then Some "On"
  else None.

(** Posting an event only counts it. *)
Lemma wpm_postRFPowerEvent x ks resource p (Q : outcome (result unit) -> X -> keys -> Prop) :
  (forall r g, Q (Ret r) x ks /\ Q (Ret r) (lput globals g x) ks) ->
  wpm x ks (postRFPowerEvent out globals xname resource p) Q.
Proof.
  intros HQ. unfold postRFPowerEvent. destruct (LookupEnv out "COLLECTOR_URL") as [url|].
  - cell_steps. destruct (now_silent x) as [t Ht]. eapply wpm_silent; [exact Ht|]. cell_steps.
    unfold post_event. apply wpm_bind.
    match goal with |- wpm ?x1 _ (DoHTTPAction _ ?req) _ => destruct (http_silent req x1) as [r Hr] end.
    eapply wpm_silent; [exact Hr|]. cell_steps. destruct (snd r); cell_steps; apply HQ.
  - apply wpm_ret. apply (HQ (Ok tt) (lget globals x)).
Qed.

(** A request for the power state of the system *)
Lemma PowerState_read x ks p args env :
  mget "RTS_XNAME" env = Some xname -> mmem xname (KnownInstances (lget sim x)) = true ->
  ks !! child system_key "PowerState" = Some (RStr p) ->
  wpm x ks (simulator_RunBackendHelper (P:=P) out globals sim quote (child system_key "PowerState") args env)
    (fun o x' ks' => o = Ret (Ok p) /\ x' = x /\ ks' = ks).
Proof.
  intros Henv Hknown Hks. unfold simulator_RunBackendHelper. rewrite Henv. cell_steps. rewrite Hknown. cbn [negb].
  assert (Hkey : keyRegex (child system_key "PowerState") = Some "/redfish/v1/Systems/Self/PowerState").
  { unfold system_key. rewrite below_app, below_suffix, keyRegex_device by by apply plain_free. by vm_compute. }
  rewrite Hkey. assert (Hstrip : trim_prefix ServiceRootKeyspace "/redfish/v1/Systems/Self/PowerState" = "/Systems/Self/PowerState")
    by by vm_compute.
  rewrite Hstrip. destruct (String.eqb_spec "/Systems/Self/PowerState" (child system_key "PowerState")) as [E|_].
  - exfalso. assert (Hl := f_equal keyRegex E). by rewrite Hkey in Hl.
  - change (String.eqb "/Systems/Self/PowerState" _) with false at 1. cbv iota.
    change (String.eqb "/Systems/Self/PowerState" _) with false. cbv iota. cell_steps. by rewrite Hks.
Qed.

(** The action, without a pipeline *)
Lemma wpm_ComputerSystem_Reset x ks env resetType p (Q : outcome (result string) -> X -> keys -> Prop) :
  RedisActivePipeline (lget (sim_helper sim) x) = None ->
  mget "ResetType" env = Some resetType -> power_after resetType = Some p ->
  (forall x1, x1 = x \/ (exists g, x1 = lput globals g x) ->
     Q (Ret (Ok "")) x1 (snd (sadd_effect system_key ["PowerState"] (<[child system_key "PowerState" := RStr p]> ks)))) ->
  wpm x ks (ComputerSystem_Reset (P:=P) out globals sim xname env) Q.
Proof.
  intros Hidle Htype Hp HQ. unfold ComputerSystem_Reset. rewrite Htype.
  assert (Hjoin : path_join [xname; SystemsKeyspace; "Self"] = system_key)
    by by rewrite path_join_device by (done || by vm_compute).
  rewrite Hjoin.
  assert (Hset : wpm x ks (setValueForPropertyInKeyspace (sim_helper sim) system_key "PowerState" p ;;
      postRFPowerEvent out globals xname (path_join [SystemsKeyspace; "Self"]) p ;; ret (Ok "")) Q).
  { apply wpm_bind, wpm_set_idle; [done|]. intros e. unfold afterm at 1. apply wpm_bind, wpm_postRFPowerEvent.
    intros r g. split; unfold afterm at 1; apply wpm_ret, HQ; eauto. }
  unfold power_after in Hp. destruct (String.eqb resetType "GracefulShutdown"); [by simplify_eq|].
  destruct (String.eqb resetType "ForceRestart" || String.eqb resetType "On"); by simplify_eq.
Qed.

(** C28: a reset of a simulated system that asks for a known type succeeds,
    changes no key but the power state and the set of the system's members,
    and the next request for the power state is answered with the state that
    the reset leads to. *)
Theorem reset_sets_power x ks env resetType p :
  RedisActivePipeline (lget (sim_helper sim) x) = None ->
  mget "RTS_XNAME" env = Some xname -> mmem xname (KnownInstances (lget sim x)) = true ->
  mget "ResetType" env = Some resetType -> power_after resetType = Some p ->
  wpm x ks (simulator_RunBackendHelper (P:=P) out globals sim quote reset_key [] env) (fun o x1 ks1 =>
    o = Ret (Ok "") /\
    (forall k, k <> system_key -> k <> child system_key "PowerState" -> ks1 !! k = ks !! k) /\
    wpm x1 ks1 (simulator_RunBackendHelper (P:=P) out globals sim quote (child system_key "PowerState") []
      [("RTS_XNAME", xname)]) (fun o x2 ks2 => o = Ret (Ok p) /\ x2 = x1 /\ ks2 = ks1)).
Proof.
  intros Hidle Henv Hknown Htype Hp. unfold simulator_RunBackendHelper at 1. rewrite Henv. cell_steps.
  rewrite Hknown. cbn [negb].
  assert (Hkey : keyRegex reset_key = Some "/redfish/v1/Systems/Self/Actions/ComputerSystem.Reset").
  { unfold reset_key. rewrite below_suffix, keyRegex_device by by apply plain_free. by vm_compute. }
  rewrite Hkey.
  assert (Hstrip : trim_prefix ServiceRootKeyspace "/redfish/v1/Systems/Self/Actions/ComputerSystem.Reset" =
    "/Systems/Self/Actions/ComputerSystem.Reset") by by vm_compute.
  rewrite Hstrip. destruct (String.eqb_spec "/Systems/Self/Actions/ComputerSystem.Reset" reset_key) as [E|_].
  { exfalso. assert (Hl := f_equal keyRegex E). by rewrite Hkey in Hl. }
  rewrite String.eqb_refl. apply (wpm_ComputerSystem_Reset x ks env resetType p); [done..|].
  intros x1 Hx1. split_and!; [done|..].
  - intros k H1 H2. rewrite sadd_other by done. by rewrite lookup_insert_ne.
  - apply PowerState_read; [done| |].
    + by destruct Hx1 as [->|[g ->]]; rewrite ?indep_get'.
    + pose proof (child_length system_key "PowerState"). rewrite sadd_other by by_length. apply lookup_insert_eq.
Qed.
End power.
