(* ===== verification/Announce.v ===== *)
(** Announcing devices ([informHSM] and [deleteFromHSM] of
    [internal/backend_helpers/common.go]).

    The hardware state manager is a service outside the program; [HSM] states
    the part of its interface the code relies on: it keeps a set of endpoints,
    which a GET looks up, a POST extends and a DELETE reduces. *)
From stdpp Require Import sets.
From S2P Require Import Prelude Values Redis Pipelines RedisHelper Services.

Definition endpoints_path : string := "/hsm/v2/Inventory/RedfishEndpoints".

(** An answer of the service, and what it leaves registered *)
Definition answers_http {X S} (registered : S -> gset string)
    (m : M (X * S) (string * Z * option go_error)) (x : X) (s : S)
    (status : Z) (err : option go_error) (R : gset string) (P : string -> Prop) : Prop :=
  exists body s', m (x, s) = (Ret (body, status, err), (x, s')) /\ registered s' = R /\ P body.

(** The action returns no error and leaves the memory as it is. *)
Definition succeeds {X S} (m : M (X * S) (result unit)) (x : X) (s s' : S) : Prop :=
  m (x, s) = (Ret (Ok tt), (x, s')).

Definition unexpected (status : Z) : go_error :=
  ErrText ("received unexpected status code: " +:+ format_int status).

Class HSM {X S V : Type} (out : Outside (X * S) V) (url : string) := {
  registered : S -> gset string;
  hsm_get x s xname request :
    Method request = "GET" -> FullURL request = url +:+ endpoints_path +:+ "/" +:+ xname ->
    200 ∈ ExpectedStatusCodes request -> 404 ∈ ExpectedStatusCodes request ->
    if decide (xname ∈ registered s)
    then answers_http registered (DoHTTPAction out request) x s 200 None (registered s)
           (fun body => exists ep, UnmarshalEP out body = Ok ep)
    else answers_http registered (DoHTTPAction out request) x s 404 None (registered s) (fun _ => True);
  hsm_post x s ep request :
    Method request = "POST" -> FullURL request = url +:+ endpoints_path -> Payload request = PayloadEP ep ->
    201 ∈ ExpectedStatusCodes request -> ep_ID ep ∉ registered s ->
    answers_http registered (DoHTTPAction out request) x s 201 None ({[ep_ID ep]} ∪ registered s) (fun _ => True);
  hsm_delete x s xname request :
    Method request = "DELETE" -> FullURL request = url +:+ endpoints_path +:+ "/" +:+ xname ->
    ExpectedStatusCodes request = [200] ->
    if decide (xname ∈ registered s)
    then answers_http registered (DoHTTPAction out request) x s 200 None (registered s ∖ {[xname]}) (fun _ => True)
    else answers_http registered (DoHTTPAction out request) x s 404 (Some (unexpected 404)) (registered s)
           (fun _ => True);
}.

Section announce.
Context {X S V : Type} (out : Outside (X * S) V) (url : string) `{!HSM out url}.
Hypothesis Henv : LookupEnv out "HSM_URL" = Some url.
Hypothesis Hurl : url <> "".

Lemma hsm_url_set : hsm_url out = Some url.
Proof. unfold hsm_url. rewrite Henv. by destruct (String.eqb_spec url ""). Qed.

Lemma informHSM_run xname x s :
  exists s', informHSM out xname (x, s) = (Ret (Ok tt), (x, s')) /\ registered s' = {[xname]} ∪ registered s.
Proof.
  unfold informHSM, informHSMWithFQDN, getRedfishEndpointFromHSM. rewrite hsm_url_set. unfold bind at 1 2.
  set (request := mkRequest _ _ "GET" _ _ _).
  assert (Hget := hsm_get x s xname request eq_refl eq_refl ltac:(left) ltac:(right; left)).
  destruct (decide (xname ∈ registered s)) as [Hin|Hin]; destruct Hget as (body & s1 & E & R & P); rewrite E.
  - destruct P as [ep ->]. exists s1. split; [done|]. rewrite R. set_solver.
  - cbn [Z.eqb Pos.eqb StatusNotFound]. unfold createRedfishEndpointInHSM. rewrite hsm_url_set. unfold bind, ret at 1.
    set (post := mkRequest _ _ "POST" _ _ _).
    destruct (hsm_post x s1 (mkRedfishEP xname (xname +:+ ":8083") (Some true)) post eq_refl eq_refl eq_refl
      ltac:(left)) as (body' & s2 & E2 & R2 & _); [by rewrite R|].
    rewrite E2. exists s2. split; [done|]. by rewrite R2, R.
Qed.

Lemma deleteFromHSM_run xname x s :
  exists s', deleteFromHSM out xname (x, s) = (Ret (Ok tt), (x, s')) /\ registered s' = registered s ∖ {[xname]}.
Proof.
  unfold deleteFromHSM. rewrite hsm_url_set. unfold bind. set (request := mkRequest _ _ "DELETE" _ _ _).
  assert (Hdel := hsm_delete x s xname request eq_refl eq_refl eq_refl).
  destruct (decide (xname ∈ registered s)) as [Hin|Hin]; destruct Hdel as (body & s1 & E & R & _); rewrite E; exists s1.
  - done.
  - split; [done|]. rewrite R. set_solver.
Qed.

(** C25: with a hardware state manager that keeps its interface, announcing a
    device registers exactly it, announcing it again changes nothing, and
    deleting it afterwards, once or twice, gives the endpoints before, without
    the device; none of this fails. *)
Theorem inform_then_delete xname x s :
  exists s1 s2 s3 s4,
    succeeds (informHSM out xname) x s s1 /\ registered s1 = {[xname]} ∪ registered s /\
    succeeds (informHSM out xname) x s1 s2 /\ registered s2 = registered s1 /\
    succeeds (deleteFromHSM out xname) x s2 s3 /\ registered s3 = registered s ∖ {[xname]} /\
    succeeds (deleteFromHSM out xname) x s3 s4 /\ registered s4 = registered s3.
Proof.
  destruct (informHSM_run xname x s) as (s1 & E1 & R1), (informHSM_run xname x s1) as (s2 & E2 & R2),
    (deleteFromHSM_run xname x s2) as (s3 & E3 & R3), (deleteFromHSM_run xname x s3) as (s4 & E4 & R4).
  exists s1, s2, s3, s4. split_and!; try done; rewrite ?R4, ?R3, ?R2, ?R1; clear; set_solver.
Qed.

(** An endpoint whose description cannot be decoded counts as missing: it is
    created again, and when the service reports the conflict the announcement
    fails, however often it is repeated. *)
Theorem unreadable_endpoint_recreated xname x s body body' s1 s2 e request post :
  request = mkRequest [StatusOK; StatusNotFound] (url +:+ "/hsm/v2/Inventory/RedfishEndpoints/" +:+ xname) "GET"
    (getSvcInstName out) NoPayload None ->
  post = mkRequest [StatusCreated] (url +:+ "/hsm/v2/Inventory/RedfishEndpoints") "POST" (getSvcInstName out)
    (PayloadEP (mkRedfishEP xname (xname +:+ ":8083") (Some true))) None ->
  DoHTTPAction out request (x, s) = (Ret (body, 200, None), (x, s1)) -> UnmarshalEP out body = Err e ->
  DoHTTPAction out post (x, s1) = (Ret (body', 409, Some (unexpected 409)), (x, s2)) ->
  informHSM out xname (x, s) = (Ret (Err (unexpected 409)), (x, s2)).
Proof.
  intros -> -> E1 Hbody E2. unfold informHSM, informHSMWithFQDN, getRedfishEndpointFromHSM. rewrite hsm_url_set.
  unfold bind at 1 2. rewrite E1. cbn [Z.eqb Pos.eqb StatusNotFound]. rewrite Hbody.
  unfold createRedfishEndpointInHSM. rewrite hsm_url_set. unfold bind, ret. by rewrite E2.
Qed.

(** A failure is taken for "not found" whenever its text contains 404, which
    the text of a failed request to an xname with these digits does. *)
Theorem delete_failure_masked xname x s s1 msg request :
  request = mkRequest [StatusOK] (url +:+ "/hsm/v2/Inventory/RedfishEndpoints/" +:+ xname) "DELETE"
    (getSvcInstName out) NoPayload None ->
  DoHTTPAction out request (x, s) = (Ret ("", 0, Some (ErrText msg)), (x, s1)) ->
  contains msg "404" = true ->
  deleteFromHSM out xname (x, s) = (Ret (Ok tt), (x, s1)).
Proof.
  intros -> E Hmsg. unfold deleteFromHSM. rewrite hsm_url_set. unfold bind. rewrite E. cbn [snd err_string].
  by rewrite Hmsg.
Qed.
End announce.

(* ===================================================================== *)
(** * Waiting for Vault                                                  *)
(* ===================================================================== *)

Section vault.
Context {X S V : Type} (out : Outside (X * S) V).

(** Vault answers at the attempt after [n] failures. *)
Inductive vault_after : nat -> X * S -> V -> X * S -> Prop :=
  | vault_now t v t' : NewVaultAdapter out t = (Ret (Ok v), t') -> vault_after 0 t v t'
  | vault_later n t e t1 v t' :
      NewVaultAdapter out t = (Ret (Err e), t1) -> vault_after n t1 v t' -> vault_after (Datatypes.S n) t v t'.

(** The loop ends as soon as Vault answers: one attempt more than there are
    failures is enough. *)
Lemma connectToVault_waits n t v t' fuel :
  vault_after n t v t' -> (n < fuel)%nat -> connectToVault_loop out fuel t = (Ret v, t').
Proof.
  intros Hv. revert fuel. induction Hv as [t v t' E|n t e t1 v t' E _ IH]; intros [|fuel] Hf; try lia;
    simpl; unfold bind; rewrite E; [done|]. apply IH. lia.
Qed.
End vault.
