(* ===== verification/CredentialStores.v ===== *)
(** The credentials kept in Vault
    ([internal/rfdispatcher/rts_credential_store/*.go] and
    [internal/rfdispatcher/pdu_credential_store/*.go]).

    The storage is a library; [Storage] is what the code asks of it.  A
    look-up fills a struct, and may fill it in part when it fails, so that it
    gives both the struct and an error. *)
From S2P Require Import Prelude Redis.

(** [rts_credential_store.Credential] and [pdu_credential_store.DefaultCredential] *)
Record Credential := mkCredential {
  cred_Username : string;
  cred_Password : string;
}.

(** [pdu_credential_store.Device] *)
Record Device := mkDevice {
  dev_Xname : string;
  dev_URL : string;
  dev_Username : string;
  dev_Password : string;
}.

(** [securestorage.SecureStorage] *)
Record Storage (T V : Type) := mkStorage {
  Lookup_credential : V -> string -> M T (Credential * option go_error);
  Store_credential : V -> string -> Credential -> M T (option go_error);
  Lookup_device : V -> string -> M T (Device * option go_error);
  Store_device : V -> string -> Device -> M T (option go_error);
  LookupKeys : V -> string -> M T (result (list string));
  Store_data : V -> string -> gomap string -> M T (option go_error);
}.
Arguments Lookup_credential {T V}.
Arguments Store_credential {T V}.
Arguments Lookup_device {T V}.
Arguments Store_device {T V}.
Arguments LookupKeys {T V}.
Arguments Store_data {T V}.

Section stores.
Context {T V : Type} (storage : Storage T V).

Definition empty_credential (cred : Credential) : bool :=
  String.eqb (cred_Password cred) "" || String.eqb (cred_Username cred) "".
Definition empty_error : go_error := ErrText "empty username or password".

(* ===================================================================== *)
(** * The global credentials                                             *)
(* ===================================================================== *)

Record RTSCredentialStore := mkRTSCredStore {
  rts_KeyPath : string;
  rts_SecureStorage : V;
}.

Definition rts_CredentialsGlobalKey : string := "global/rts".

(** The error of the look-up is overwritten when it left a field empty. *)
Definition GetGlobalCredentials (credStore : RTSCredentialStore) : M T (Credential * option go_error) :=
  found <- Lookup_credential storage (rts_SecureStorage credStore)
    (path_join [rts_KeyPath credStore; rts_CredentialsGlobalKey]) ;;
  let '(cred, err) := found in
  if empty_credential cred then ret (cred, Some empty_error) else ret (cred, err).

Definition StoreGlobalCredentials (credStore : RTSCredentialStore) (cred : Credential) : M T (option go_error) :=
  if empty_credential cred then ret (Some empty_error)
  else Store_credential storage (rts_SecureStorage credStore)
    (path_join [rts_KeyPath credStore; rts_CredentialsGlobalKey]) cred.

(* ===================================================================== *)
(** * The power distribution units                                       *)
(* ===================================================================== *)

Record PDUCredentialStore := mkPDUCredStore {
  pdu_KeyPath : string;
  pdu_SecureStorage : V;
}.

Definition pdu_CredentialsGlobalKey : string := "global/pdu".

Definition SetKeypathValue (credStore : PDUCredentialStore) (data : gomap string) : M T (option go_error) :=
  Store_data storage (pdu_SecureStorage credStore) (pdu_KeyPath credStore) data.

(** One key of the storage; a device that cannot be read is left out. *)
Definition add_device (credStore : PDUCredentialStore) (devices : gomap Device) (key : string) :
    M T (gomap Device) :=
  if contains key "global" || contains key "certificates" then ret devices
  else
    found <- Lookup_device storage (pdu_SecureStorage credStore) (path_join [pdu_KeyPath credStore; key]) ;;
    match found with
    | (_, Some _) => ret devices
    | (device, None) => ret (mput (dev_Xname device) device devices)
    end.

Fixpoint add_devices (credStore : PDUCredentialStore) (devices : gomap Device) (keys : list string) :
    M T (gomap Device) :=
  match keys with
  | [] => ret devices
  | key :: keys' => devices' <- add_device credStore devices key ;; add_devices credStore devices' keys'
  end.

Definition GetDevices (credStore : PDUCredentialStore) : M T (result (gomap Device)) :=
  keys <-? LookupKeys storage (pdu_SecureStorage credStore) (pdu_KeyPath credStore) ;;
  devices <- add_devices credStore [] keys ;;
  ret (Ok devices).

Definition GetDefaultPDUCredentails (credStore : PDUCredentialStore) : M T (Credential * option go_error) :=
  found <- Lookup_credential storage (pdu_SecureStorage credStore)
    (path_join [pdu_KeyPath credStore; pdu_CredentialsGlobalKey]) ;;
  match found with
  | (cred, Some err) => ret (cred, Some err)
  | (cred, None) => if empty_credential cred then ret (cred, Some empty_error) else ret (cred, None)
  end.

Definition StoreDefaultPDUCredentails (credStore : PDUCredentialStore) (cred : Credential) : M T (option go_error) :=
  if empty_credential cred then ret (Some empty_error)
  else Store_credential storage (pdu_SecureStorage credStore)
    (path_join [pdu_KeyPath credStore; pdu_CredentialsGlobalKey]) cred.

Definition StorePDUCredentails (credStore : PDUCredentialStore) (cred : Device) : M T (option go_error) :=
  if String.eqb (dev_Xname cred) "" then ret (Some (ErrText "empty xname"))
  else if String.eqb (dev_URL cred) "" then ret (Some (ErrText "empty device url"))
  else if String.eqb (dev_Password cred) "" || String.eqb (dev_Username cred) "" then ret (Some empty_error)
  else Store_device storage (pdu_SecureStorage credStore) (path_join [pdu_KeyPath credStore; dev_Xname cred]) cred.
End stores.
Arguments RTSCredentialStore : clear implicits.
Arguments PDUCredentialStore : clear implicits.
Arguments mkRTSCredStore {V}.
Arguments mkPDUCredStore {V}.
Arguments rts_KeyPath {V}.
Arguments rts_SecureStorage {V}.
Arguments pdu_KeyPath {V}.
Arguments pdu_SecureStorage {V}.
