(* ===== verification/Loaders.v ===== *)
(** The programs that put credentials into Vault
    ([cmd/vault_loader/vault_loader.go] and [cmd/pdu_loader/pdu_loader.go]).

    One stores the defaults of the environment, the other the power
    distribution units of a file.  Vault and the decoding of JSON are outside
    the program. *)
From S2P Require Import Prelude Values Redis Pipelines RedisHelper Services CredentialStores.

Section loaders.
Context {T V : Type} (storage : Storage T V).
Variable lookup_env : string -> option string.
(** [securestorage.NewVaultAdapter(vaultKeypath)] *)
Variable new_adapter : string -> M T (result V).

(** An environment variable without which the program ends *)
Definition env_or_fatal (name : string) : M T string :=
  match lookup_env name with
  | Some v => ret v
  | None => fatal ("Value not set for " +:+ name)
  end.

(* ===================================================================== *)
(** * The defaults                                                       *)
(* ===================================================================== *)

Variable unmarshal_credential : string -> result Credential.

(** A number that cannot be read is the default, too. *)
Definition maxConnectionAttempts : Z :=
  match lookup_env "VAULT_RTS_MAX_CONNECTION_ATTEMPTS" with
  | None => 120
  | Some raw => default 120 (parse_int raw)
  end.

Fixpoint connect_within (vaultKeypath : string) (attempts : nat) : M T (option V) :=
  match attempts with
  | O => ret None
  | Datatypes.S attempts' =>
      r <- new_adapter vaultKeypath ;;
      match r with
      | Ok secureStorage => ret (Some secureStorage)
      | Err _ => connect_within vaultKeypath attempts'
      end
  end.

(** [json.Unmarshal], then the store *)
Definition store_defaults (raw : string) (store : Credential -> M T (option go_error)) : M T unit :=
  match unmarshal_credential raw with
  | Err err => fatal (err_string err)
  | Ok cred =>
      err <- store cred ;;
      match err with Some e => fatal (err_string e) | None => ret tt end
  end.

Definition vault_loader : M T unit :=
  defaultRTSCredentails <- env_or_fatal "VAULT_RTS_DEFAULT_CREDENTIALS" ;;
  defaultPDUCredentails <- env_or_fatal "VAULT_PDU_DEFAULT_CREDENTIALS" ;;
  vaultKeypath <- env_or_fatal "JAWS_VAULT_KEYPATH" ;;
  connected <- connect_within vaultKeypath (Z.to_nat maxConnectionAttempts) ;;
  match connected with
  | None => fatal ("Unable to connect to Vault after " +:+ format_int maxConnectionAttempts +:+ " tries")
  | Some secureStorage =>
      store_defaults defaultRTSCredentails (StoreGlobalCredentials storage (mkRTSCredStore "" secureStorage)) ;;
      store_defaults defaultPDUCredentails (StoreDefaultPDUCredentails storage (mkPDUCredStore "" secureStorage))
  end.

(* ===================================================================== *)
(** * The power distribution units                                       *)
(* ===================================================================== *)

(** [configs/iPDUs.json], opened and decoded *)
Variable pdus_file : M T (result (list Device)).

(** The loop waits for Vault as long as it takes; [fuel] attempts are made. *)
Fixpoint connect_waiting (vaultKeypath : string) (fuel : nat) : M T V :=
  match fuel with
  | O => out_of_fuel
  | Datatypes.S fuel' =>
      r <- new_adapter vaultKeypath ;;
      match r with
      | Ok secureStorage => ret secureStorage
      | Err _ => connect_waiting vaultKeypath fuel'
      end
  end.

Definition add_pdu (secureStorage : V) (pdu : Device) : M T unit :=
  err <- StorePDUCredentails storage (mkPDUCredStore "" secureStorage) pdu ;;
  match err with Some e => panic (err_string e) | None => ret tt end.

Definition pdu_loader (fuel : nat) : M T unit :=
  devices <- must pdus_file ;;
  vaultKeypath <- env_or_fatal "JAWS_VAULT_KEYPATH" ;;
  secureStorage <- connect_waiting vaultKeypath fuel ;;
  for_each (add_pdu secureStorage) devices.
End loaders.
