(* ===== verification/Pdu.v ===== *)
(** Power distribution units: their data, and what of it goes into Redis
    ([internal/backend_helpers/jaws.go], up to the set-up).

    A controller speaks the JAWS interface for a group of units.  Its replies
    are decoded into the structs below, whose readings are written with an
    expiration, so that a request for an expired reading asks the controller
    again; when the controller is polled they do not expire. *)
From S2P Require Import Prelude Values Pipelines RedisHelper.

Definition RackPDUsKeyspace : string := ServiceRootKeyspace +:+ "/PowerEquipment/RackPDUs".
Definition EPOOutletGroupPrefix : string := "CrayEPO".

(* ===================================================================== *)
(** * Data                                                               *)
(* ===================================================================== *)

Record MonitorUnit := mkMonitorUnit {
  mu_Id : string; mu_Name : string; mu_DisplayOrientation : string;
  mu_OutletSequence : string; mu_Status : string; mu_Type : string;
}.

Record Branch := mkBranch {
  br_ID : string; br_Name : string;
  br_Current : float64; br_CurrentCapacity : float64; br_CurrentStatus : string; br_CurrentUtilized : float64;
  br_OCPID : string; br_PhaseID : string; br_State : string; br_Status : string;
}.

Record Line := mkLine {
  ln_ID : string; ln_Name : string;
  ln_Current : float64; ln_CurrentCapacity : Z; ln_CurrentStatus : string; ln_CurrentUtilized : float64;
  ln_State : string; ln_Status : string;
}.

Record Phase := mkPhase {
  ph_ID : string; ph_Name : string;
  ph_ActivePower : Z; ph_ApparentPower : Z; ph_CrestFactor : float64; ph_Current : float64; ph_Energy : Z;
  ph_NominalVoltage : Z; ph_PowerFactor : float64; ph_PowerFactorStatus : string; ph_Reactance : string;
  ph_State : string; ph_Status : string;
  ph_Voltage : float64; ph_VoltageStatus : string; ph_VoltageDeviation : float64;
}.

Record MonitorOutlet := mkMonitorOutlet {
  mo_ID : string; mo_Name : string;
  mo_ActivePower : Z; mo_ActivePowerStatus : string; mo_ApparentPower : Z; mo_BranchID : string;
  mo_ControlState : string; mo_CrestFactor : float64;
  mo_Current : float64; mo_CurrentCapacity : Z; mo_CurrentStatus : string; mo_CurrentUtilized : float64;
  mo_Energy : Z; mo_OCPID : string; mo_PhaseID : string; mo_PowerCapacity : Z;
  mo_PowerFactor : float64; mo_PowerFactorStatus : string; mo_Reactance : string;
  mo_SocketAdapter : string; mo_SocketType : string; mo_State : string; mo_Status : string; mo_Voltage : float64;
}.

Record ConfigOutlet := mkConfigOutlet {
  co_ID : string; co_Name : string; co_ControlLock : string; co_CurrentThresholds : list float64;
  co_EmailNotifications : string; co_ExtraOnDelay : float64; co_Host : string;
  co_PowerFactorThresholds : list float64; co_PowerThresholds : list float64;
  co_ScriptDelay : Z; co_ScriptFeature : string; co_ShutdownDelay : Z;
  co_SNMPTrapNotifications : string; co_WakeupState : string;
}.

Record OutletGroup := mkOutletGroup { og_Name : string; og_OutletAccess : list string }.

(** A sensor that is not plugged in has no reading. *)
Record TemperatureSensor := mkTemperatureSensor {
  ts_ID : string; ts_Name : string; ts_Status : string; ts_TemperatureCelsius : option float64;
}.
Record HumiditySensor := mkHumiditySensor {
  hs_ID : string; hs_Name : string; hs_Status : string; hs_RelativeHumidity : option float64;
}.

(** [Unit]: what a unit reports of itself, and what belongs to it *)
Record PDUnit := mkUnit {
  u_Id : string; u_Name : string; u_ManufactureDate : string; u_ModelNumber : string;
  u_ProductSerialNumber : string; u_Type : string;
  u_Branches : list Branch;
  u_Lines : list Line;
  u_Phases : list Phase;
  u_Outlets : list MonitorOutlet;
  u_OutletConfigs : list ConfigOutlet;
  u_OutletGroups : list OutletGroup;
  u_TemperatureSensors : list TemperatureSensor;
  u_HumiditySensors : list HumiditySensor;
}.

(* ===================================================================== *)
(** * Translations                                                       *)
(* ===================================================================== *)

(** [strings.ToLower] of the letters of ASCII *)
Definition is_upper (a : ascii) : bool :=
  (N.leb (N_of_ascii "A") (N_of_ascii a) && N.leb (N_of_ascii a) (N_of_ascii "Z"))%N.
Definition lower (a : ascii) : ascii :=
  if is_upper a then ascii_of_N (N_of_ascii a + 32)%N else a.
Fixpoint to_lower (s : string) : string :=
  match s with EmptyString => EmptyString | String a s' => String (lower a) (to_lower s') end.

(** The fourth case cannot be reached: the first one has its text, too. *)
Definition translateJAWSASCIIToRedfishHealth (status : string) : string :=
  let status := to_lower status in
  if contains status "normal" || contains status "not found" then "OK"
  else if contains status "warning" then "Warning"
  else if contains status "alarm" then "Critical"
  else if contains status "not found" then "Absent"
  else "UNKNOWN".

Definition translateJAWSASCIIToRedfishState (status : string) : string :=
  let status := to_lower status in
  if contains status "not found" then "Absent" else "Enabled".

(** [fmt.Sprintf("%.2d", z)]: at least two digits *)
Definition format_two_digits (z : Z) : string :=
  if Z.ltb (Z.abs z) 10 then (if Z.ltb z 0 then "-0" else "0") +:+ format_int (Z.abs z) else format_int z.

(** The text of a number in Redis ([strconv.FormatFloat(f, 'f', -1, 64)]),
    the one of [fmt.Sprintf("%f", f)], and the one of the error of
    [strconv.Atoi] *)
Class ReadingText := {
  redis_float : float64 -> string;
  fixed_float : float64 -> string;
  atoi_error : string -> string;
}.

Section outlets.
Context `{ReadingText}.

(** The two letters of an outlet and its number *)
Definition parse_outlet (outlet : string) : result (string * Z) :=
  if Nat.ltb (String.length outlet) 3 then Err (ErrText "outlet string is too short")
  else
    match parse_int (str_drop 2 outlet) with
    | None => Err (ErrText ("unable to parse outlet id: " +:+ atoi_error (str_drop 2 outlet)))
    | Some id => Ok (str_take 2 outlet, id)
    end.

Definition translateJAWSToRedfishOutlet (outlet : string) : result string :=
  match parse_outlet outlet with
  | Err err => Err err
  | Ok (unitID, id) => Ok (unitID +:+ format_two_digits id)
  end.
Definition translateRedfishToJAWSOutlet (outlet : string) : result string :=
  match parse_outlet outlet with
  | Err err => Err err
  | Ok (unitID, id) => Ok (unitID +:+ format_int id)
  end.
End outlets.

(** The digits at the beginning, and the rest *)
Fixpoint span_digits (s : string) : string * string :=
  match s with
  | EmptyString => (EmptyString, EmptyString)
  | String a s' => if is_digit a then (String a (fst (span_digits s')), snd (span_digits s')) else (EmptyString, s)
  end.

(** The group of [[A-Z]+(\d+)]: the first digits after a capital letter *)
Fixpoint index_after (capital : bool) (s : string) : option string :=
  match s with
  | EmptyString => None
  | String a s' =>
      if capital && is_digit a then Some (fst (span_digits s)) else index_after (is_upper a) s'
  end.
Definition getIndexFromJAWsID (lineID : string) : string := default "INVALID" (index_after false lineID).

(** [:L(\d+)-L(\d+)] at the beginning *)
Definition phases_at (s : string) : option (string * string) :=
  if has_prefix ":L" s then
    let '(from, rest) := span_digits (str_drop 2 s) in
    let '(to, _) := span_digits (str_drop 2 rest) in
    if negb (String.eqb from "") && has_prefix "-L" rest && negb (String.eqb to "") then Some (from, to) else None
  else None.

(** The groups of [[A-Z]+:L(\d+)-L(\d+)] *)
Fixpoint phases_after (capital : bool) (s : string) : option (string * string) :=
  match s with
  | EmptyString => None
  | String a s' =>
      match (if capital then phases_at s else None) with
      | Some r => Some r
      | None => phases_after (is_upper a) s'
      end
  end.
Definition getFromAndToPhasesFromPhaseName (phaseName : string) : string * string :=
  default ("INVALID", "INVALID") (phases_after false phaseName).

(* ===================================================================== *)
(** * Readings                                                           *)
(* ===================================================================== *)

(** Durations, in nanoseconds *)
Definition Second : Z := 1000000000.
Definition Minute : Z := 60 * Second.

Section readings.
Context `{ReadingText}.
(** [helper.PollingEnabled] *)
Variable PollingEnabled : bool.

Definition expiration (timeout : Z) : Z := if PollingEnabled then 0 else timeout.

(** The first unit that has the name *)
Fixpoint unit_status (units : list MonitorUnit) (pduID : string) : option string :=
  match units with
  | [] => None
  | unit :: units' => if String.eqb (mu_Id unit) pduID then Some (mu_Status unit) else unit_status units' pduID
  end.

Definition populateRedisForMonitorUnits (units : list MonitorUnit) (xname pduID : string) : list expiring :=
  let timeout := expiration Minute in
  let baseKeyspace := path_join [xname +:+ RackPDUsKeyspace; pduID; "Status"] in
  match unit_status units pduID with
  | Some status => [mkExpiring (path_join [baseKeyspace; "Health"]) (translateJAWSASCIIToRedfishHealth status) timeout]
  | None => []
  end.

Definition populateRedisForBranch (branch : Branch) (xname pduID : string) : list expiring :=
  let timeout := expiration (15 * Second) in
  let baseKeyspace := path_join [xname +:+ RackPDUsKeyspace; pduID; "Branches"; br_ID branch] in
  [mkExpiring (path_join [baseKeyspace; "PowerState"]) (br_State branch) timeout;
   mkExpiring (path_join [baseKeyspace; "CurrentSensor"; "Reading"]) (redis_float (br_Current branch)) timeout;
   mkExpiring (path_join [baseKeyspace; "CurrentSensor"; "Status"; "Health"])
     (translateJAWSASCIIToRedfishHealth (br_CurrentStatus branch)) timeout;
   mkExpiring (path_join [baseKeyspace; "Status"; "Health"])
     (translateJAWSASCIIToRedfishHealth (br_Status branch)) timeout].

(** One line; a line of another unit is ignored. *)
Definition line_values (line : Line) (xname pduID : string) : list expiring :=
  let timeout := expiration (30 * Second) in
  let baseKeyspace := path_join [xname +:+ RackPDUsKeyspace; pduID; "Mains"; "AC1"; "PolyPhaseCurrentSensors"] in
  if has_prefix pduID (ln_ID line) then
    let lineKeyspace := path_join [baseKeyspace; "Line" +:+ getIndexFromJAWsID (ln_ID line)] in
    [mkExpiring (path_join [lineKeyspace; "Reading"]) (redis_float (ln_Current line)) timeout;
     mkExpiring (path_join [lineKeyspace; "Status"; "Health"])
       (translateJAWSASCIIToRedfishHealth (ln_CurrentStatus line)) timeout]
  else [].
Definition populateRedisForLines (lines : list Line) (xname pduID : string) : list expiring :=
  List.concat (map (fun line => line_values line xname pduID) lines).

Definition phase_values (phase : Phase) (xname pduID : string) : list expiring :=
  let timeout := expiration (30 * Second) in
  let baseKeyspace := path_join [xname +:+ RackPDUsKeyspace; pduID; "Mains"; "AC1"; "PolyPhasePowerSensors"] in
  if has_prefix pduID (ph_ID phase) then
    let '(fromPhase, toPhase) := getFromAndToPhasesFromPhaseName (ph_Name phase) in
    let phaseKeyspace := path_join [baseKeyspace; "Line" +:+ fromPhase +:+ "ToLine" +:+ toPhase] in
    [mkExpiring (path_join [phaseKeyspace; "ApparentVA"]) (format_int (ph_ApparentPower phase)) timeout;
     mkExpiring (path_join [phaseKeyspace; "PowerFactor"]) (redis_float (ph_PowerFactor phase)) timeout;
     mkExpiring (path_join [phaseKeyspace; "Reading"]) (format_int (ph_ActivePower phase)) timeout]
  else [].
Definition populateRedisForPhases (phases : list Phase) (xname pduID : string) : list expiring :=
  List.concat (map (fun phase => phase_values phase xname pduID) phases).

Definition monitor_values (outlet : MonitorOutlet) (baseKeyspace : string) : list expiring :=
  let timeout := expiration (10 * Second) in
  [mkExpiring (path_join [baseKeyspace; "PowerState"]) (mo_State outlet) timeout;
   mkExpiring (path_join [baseKeyspace; "RatedCurrentAmps"]) (format_int (mo_CurrentCapacity outlet)) timeout;
   mkExpiring (path_join [baseKeyspace; "CurrentSensor"; "Reading"]) (redis_float (mo_Current outlet)) timeout;
   mkExpiring (path_join [baseKeyspace; "CurrentSensor"; "Status"; "Health"])
     (translateJAWSASCIIToRedfishHealth (mo_CurrentStatus outlet)) timeout;
   mkExpiring (path_join [baseKeyspace; "EnergySensor"; "Reading"]) (format_int (mo_Energy outlet)) timeout;
   mkExpiring (path_join [baseKeyspace; "PowerSensor"; "ApparentVA"]) (format_int (mo_ApparentPower outlet)) timeout;
   mkExpiring (path_join [baseKeyspace; "PowerSensor"; "PowerFactor"]) (redis_float (mo_PowerFactor outlet)) timeout;
   mkExpiring (path_join [baseKeyspace; "PowerSensor"; "Reading"]) (format_int (mo_ActivePower outlet)) timeout;
   mkExpiring (path_join [baseKeyspace; "PowerSensor"; "Status"; "Health"])
     (translateJAWSASCIIToRedfishHealth (mo_ActivePowerStatus outlet)) timeout;
   mkExpiring (path_join [baseKeyspace; "VoltageSensor"; "Reading"]) (redis_float (mo_Voltage outlet)) timeout;
   mkExpiring (path_join [baseKeyspace; "Status"; "Health"])
     (translateJAWSASCIIToRedfishHealth (mo_Status outlet)) timeout].

Definition populateRedisForMonitorOutlet (outlet : MonitorOutlet) (xname pduID : string) : result (list expiring) :=
  match translateJAWSToRedfishOutlet (mo_ID outlet) with
  | Err err => Err err
  | Ok outletID =>
      Ok (monitor_values outlet (path_join [xname +:+ RackPDUsKeyspace; pduID; "Outlets"; outletID]))
  end.

Definition powerRestorePolicy (wakeupState : string) : string :=
  if String.eqb wakeupState "on" then "AlwaysOn"
  else if String.eqb wakeupState "off" then "AlwaysOff"
  else if String.eqb wakeupState "last" then "LastState"
  else "UNKNOWN".

Definition populateRedisForConfigOutlet (outlet : ConfigOutlet) (xname pduID : string) : result (list expiring) :=
  let timeout := expiration (10 * Second) in
  match translateJAWSToRedfishOutlet (co_ID outlet) with
  | Err err => Err err
  | Ok outletID =>
      let baseKeyspace := path_join [xname +:+ RackPDUsKeyspace; pduID; "Outlets"; outletID] in
      Ok [mkExpiring (path_join [baseKeyspace; "PowerRestorePolicy"])
            (powerRestorePolicy (co_WakeupState outlet)) timeout]
  end.

(** A sensor: no reading is the empty text. *)
Definition sensor_values (sensorID status : string) (reading : option float64) (xname pduID : string) : list expiring :=
  let timeout := expiration (30 * Second) in
  let baseKeyspace := path_join [xname +:+ RackPDUsKeyspace; pduID; "Sensors"] in
  let sensorKeyspace := path_join [baseKeyspace; sensorID] in
  let sensorReading := match reading with Some r => redis_float r | None => "" end in
  [mkExpiring (path_join [sensorKeyspace; "Reading"]) sensorReading timeout;
   mkExpiring (path_join [sensorKeyspace; "Status"; "Health"]) (translateJAWSASCIIToRedfishHealth status) timeout;
   mkExpiring (path_join [sensorKeyspace; "Status"; "State"]) (translateJAWSASCIIToRedfishState status) timeout].

Definition populateRedisForTemperature (sensors : list TemperatureSensor) (xname pduID : string) : list expiring :=
  List.concat (map (fun sensor =>
    sensor_values ("Temperature" +:+ ts_ID sensor) (ts_Status sensor) (ts_TemperatureCelsius sensor) xname pduID) sensors).
Definition populateRedisForHumidity (sensors : list HumiditySensor) (xname pduID : string) : list expiring :=
  List.concat (map (fun sensor =>
    sensor_values ("Humidity" +:+ hs_ID sensor) (hs_Status sensor) (hs_RelativeHumidity sensor) xname pduID) sensors).
End readings.

Example translate_AA1 `{ReadingText} : translateJAWSToRedfishOutlet "AA1" = Ok "AA01".
Proof. reflexivity. Qed.
Example translate_BA36 `{ReadingText} : translateRedfishToJAWSOutlet "BA36" = Ok "BA36".
Proof. reflexivity. Qed.
Example phases_of_name : getFromAndToPhasesFromPhaseName "AA:L1-L2" = ("1", "2").
Proof. reflexivity. Qed.
Example index_of_line : getIndexFromJAWsID "BA36" = "36".
Proof. reflexivity. Qed.
