(* ===== verification/PduSetup.v ===== *)
(** The resources of power distribution units
    ([internal/backend_helpers/jaws.go], [initRackPDU] and the functions it
    calls).

    These methods have a value receiver, so that the pipeline they start
    belongs to a copy of the helper; [helper] is the place of that copy.  The
    errors of most writes are ignored, as in the source. *)
From S2P Require Import Prelude Values Redis Walk Pipelines RedisHelper Services Pdu.

Section setup.
Context {X S P V : Type} `{RedisOps S} `{!PipelineOps S P} `{ReadingText}.
Context (out : Outside (X * S) V).
Variable helper : lens X (RedisHelper P).
Variable PollingEnabled : bool.

#[local] Abbreviation add := (addMemberToSet (S:=S) helper).
#[local] Abbreviation set := (setValueForPropertyInKeyspace (S:=S) helper).
#[local] Abbreviation push := (addMemberToArray (S:=S) (P:=P) helper).

(* ===================================================================== *)
(** * Branches                                                           *)
(* ===================================================================== *)

Definition initBranch (unit_Id keyspace : string) (branch : Branch) : M (X * S) (result unit) :=
  member <- push keyspace "Members" ;;
  match member with
  | (_, Some _) => ret (Err (ErrText ("unable to add outlet member to array for PDU " +:+ unit_Id)))
  | (thisMemberKeyspace, None) =>
      let thisKeyspace := path_join [keyspace; br_ID branch] in
      set thisMemberKeyspace "@odata.id" thisKeyspace ;;
      add thisKeyspace "@odata.id" ;;
      add thisKeyspace "@odata.type" ;;
      set thisKeyspace "Id" (br_ID branch) ;;
      set thisKeyspace "Name" (br_Name branch) ;;
      set thisKeyspace "CircuitType" "Branch" ;;
      add thisKeyspace "PowerState" ;;
      sensor <- add thisKeyspace "CurrentSensor" ;;
      match sensor with
      | (_, Some _) => ret (Err (ErrText "unable to add member to array for Branch"))
      | (currentSensorKeyspace, None) =>
          set currentSensorKeyspace "DataSourceUri"
            (path_join [RackPDUsKeyspace; unit_Id; "Sensors"; "CurrentBranch" +:+ br_ID branch]) ;;
          set currentSensorKeyspace "Name" ("Branch " +:+ br_ID branch +:+ " Current") ;;
          add currentSensorKeyspace "Reading" ;;
          set currentSensorKeyspace "ReadingUnits" "A" ;;
          sensorStatus <- add currentSensorKeyspace "Status" ;;
          match sensorStatus with
          | (_, Some _) => ret (Err (ErrText "unable to add member to array for CurrentSensor"))
          | (currentSensorStatusKeyspace, None) =>
              add currentSensorStatusKeyspace "Health" ;;
              status <- add thisKeyspace "Status" ;;
              match status with
              | (_, Some _) => ret (Err (ErrText "unable to add member to array"))
              | (statusKeyspace, None) => add statusKeyspace "Health" ;; ret (Ok tt)
              end
          end
      end
  end.

Definition initRackPDUBranches (xname : string) (u : PDUnit) : M (X * S) (result unit) :=
  added <- add (path_join [xname; RackPDUsKeyspace; u_Id u]) "Branches" ;;
  let '(keyspace, err) := added in
  add keyspace "@odata.id" ;;
  add keyspace "@odata.type" ;;
  _ <-? fold_ok (fun _ branch => initBranch (u_Id u) keyspace branch) tt (u_Branches u) ;;
  ret (result_of err).

(* ===================================================================== *)
(** * Mains                                                              *)
(* ===================================================================== *)

(** A line has a place of its own. *)
Definition initLine (unit_Id polyPhaseCurrentSensorsKeyspace : string) (line : Line) : M (X * S) (result unit) :=
  let lineIndex := getIndexFromJAWsID (ln_ID line) in
  added <- add polyPhaseCurrentSensorsKeyspace ("Line" +:+ lineIndex) ;;
  match added with
  | (_, Some _) => ret (Err (ErrText "unable to add member to array for PolyPhaseCurrentSensors"))
  | (lineKeyspace, None) =>
      set lineKeyspace "DataSourceUri"
        (path_join [RackPDUsKeyspace; unit_Id; "Sensors"; "CurrentMains1-" +:+ ln_ID line]) ;;
      set lineKeyspace "Name" ("Mains Current L" +:+ lineIndex) ;;
      add lineKeyspace "Reading" ;;
      set lineKeyspace "ReadingUnits" "A" ;;
      status <- add lineKeyspace "Status" ;;
      match status with
      | (_, Some _) => ret (Err (ErrText "unable to add member to array for PolyPhaseCurrentSensor"))
      | (currentSensorStatusKeyspace, None) => add currentSensorStatusKeyspace "Health" ;; ret (Ok tt)
      end
  end.

Definition initPhase (unit_Id polyPhasePowerSensorsKeyspace : string) (phase : Phase) : M (X * S) (result unit) :=
  let '(fromPhase, toPhase) := getFromAndToPhasesFromPhaseName (ph_Name phase) in
  added <- add polyPhasePowerSensorsKeyspace ("Line" +:+ fromPhase +:+ "ToLine" +:+ toPhase) ;;
  match added with
  | (_, Some _) => ret (Err (ErrText "unable to add member to array for polyPhasePowerSensorsKeyspace"))
  | (phaseKeyspace, None) =>
      add phaseKeyspace "ApparentVA" ;;
      set phaseKeyspace "DataSourceUri"
        (path_join [RackPDUsKeyspace; unit_Id; "Sensors"; "PowerMains1-" +:+ ph_ID phase]) ;;
      set phaseKeyspace "Name" ("Mains Power L" +:+ fromPhase +:+ "L" +:+ toPhase) ;;
      add phaseKeyspace "PowerFactor" ;;
      add phaseKeyspace "Reading" ;;
      set phaseKeyspace "ReadingUnits" "W" ;;
      ret (Ok tt)
  end.

(** The voltage is the one of the first phase: without one it panics. *)
Definition initRackPDUMains (xname : string) (u : PDUnit) : M (X * S) (result unit) :=
  added <- add (path_join [xname; RackPDUsKeyspace; u_Id u]) "Mains" ;;
  let '(keyspace, err) := added in
  add keyspace "@odata.id" ;;
  add keyspace "@odata.type" ;;
  member <- push keyspace "Members" ;;
  match member with
  | (_, Some _) => ret (Err (ErrText ("unable to add outlet member to array for PDU " +:+ u_Id u)))
  | (thisMemberKeyspace, None) =>
      let thisKeyspace := path_join [keyspace; "AC1"] in
      set thisMemberKeyspace "@odata.id" thisKeyspace ;;
      add thisKeyspace "@odata.id" ;;
      add thisKeyspace "@odata.type" ;;
      set thisKeyspace "Id" "AC1" ;;
      set thisKeyspace "Name" "Mains AC Input" ;;
      set thisKeyspace "CircuitType" "Mains" ;;
      match u_Phases u with
      | [] => panic index_out_of_range
      | phase0 :: _ =>
          set thisKeyspace "NominalVoltage" ("AC" +:+ format_int (ph_NominalVoltage phase0) +:+ "V") ;;
          currents <- add thisKeyspace "PolyPhaseCurrentSensors" ;;
          match currents with
          | (_, Some _) => ret (Err (ErrText "unable to add member to array for Mains"))
          | (polyPhaseCurrentSensorsKeyspace, None) =>
              _ <-? fold_ok (fun _ line => initLine (u_Id u) polyPhaseCurrentSensorsKeyspace line) tt (u_Lines u) ;;
              powers <- add thisKeyspace "PolyPhasePowerSensors" ;;
              match powers with
              | (_, Some _) => ret (Err (ErrText "unable to add member to array for Mains"))
              | (polyPhasePowerSensorsKeyspace, None) =>
                  _ <-? fold_ok (fun _ phase => initPhase (u_Id u) polyPhasePowerSensorsKeyspace phase) tt (u_Phases u) ;;
                  ret (result_of err)
              end
          end
      end
  end.

(* ===================================================================== *)
(** * Outlets                                                            *)
(* ===================================================================== *)

(** The action to switch an outlet, or a group of outlets *)
Definition initPowerControl (actionsKeyspace actionName : string) (failure : go_error) : M (X * S) (result unit) :=
  control <- add actionsKeyspace ("#" +:+ actionName) ;;
  let powerControlKeyspace := fst control in
  let powerControlTargetURI := path_join [actionsKeyspace; actionName] in
  set powerControlKeyspace "Target" powerControlTargetURI ;;
  allowable <- add powerControlKeyspace "PowerState@Redfish.AllowableValues" ;;
  match allowable with
  | (_, Some _) => ret (Err failure)
  | (allowableValuesKeyspace, None) =>
      redis_rpush allowableValuesKeyspace ["On"; "Off"] ;;
      ret (Ok tt)
  end.

(** A sensor of an outlet, with the members that have no value yet *)
Definition initOutletSensor (unit_Id thisKeyspace sensor source name units : string) (before after : list string) :
    M (X * S) (result string) :=
  added <- add thisKeyspace sensor ;;
  match added with
  | (_, Some _) => ret (Err (ErrText "unable to add member to array for Outlet"))
  | (sensorKeyspace, None) =>
      for_each (fun m => add sensorKeyspace m ;; ret tt) before ;;
      set sensorKeyspace "DataSourceUri" (path_join [RackPDUsKeyspace; unit_Id; "Sensors"; source]) ;;
      set sensorKeyspace "Name" name ;;
      for_each (fun m => add sensorKeyspace m ;; ret tt) after ;;
      set sensorKeyspace "ReadingUnits" units ;;
      ret (Ok sensorKeyspace)
  end.

(** The status of a sensor, or of the outlet *)
Definition initHealth (keyspace : string) (failure : go_error) : M (X * S) (result unit) :=
  added <- add keyspace "Status" ;;
  match added with
  | (_, Some _) => ret (Err failure)
  | (statusKeyspace, None) => add statusKeyspace "Health" ;; ret (Ok tt)
  end.

Definition initOutlet (unit_Id keyspace : string) (outlet : MonitorOutlet) : M (X * S) (result unit) :=
  member <- push keyspace "Members" ;;
  match member with
  | (_, Some _) => ret (Err (ErrText ("unable to add outlet member to array for PDU " +:+ unit_Id)))
  | (thisMemberKeyspace, None) =>
      match translateJAWSToRedfishOutlet (mo_ID outlet) with
      | Err err => ret (Err err)
      | Ok outletID =>
          let thisKeyspace := path_join [keyspace; outletID] in
          set thisMemberKeyspace "@odata.id" thisKeyspace ;;
          add thisKeyspace "@odata.id" ;;
          add thisKeyspace "@odata.type" ;;
          set thisKeyspace "Id" outletID ;;
          set thisKeyspace "Name" (mo_Name outlet) ;;
          set thisKeyspace "OutletType" (mo_SocketType outlet) ;;
          add thisKeyspace "PowerRestorePolicy" ;;
          add thisKeyspace "PowerState" ;;
          add thisKeyspace "RatedCurrentAmps" ;;
          set thisKeyspace "VoltageType" "AC" ;;
          actions <- add thisKeyspace "Actions" ;;
          match actions with
          | (_, Some _) => ret (Err (ErrText ("unable to add Actions to outlet " +:+ mo_Name outlet)))
          | (actionsKeyspace, None) =>
              _ <-? initPowerControl actionsKeyspace "Outlet.PowerControl"
                      (ErrText ("unable to add AllowableValues to PowerControl for outlet " +:+ mo_Name outlet)) ;;
              currentSensorKeyspace <-? initOutletSensor unit_Id thisKeyspace "CurrentSensor" ("CurrentOutlet" +:+ outletID)
                ("Outlet " +:+ mo_ID outlet +:+ " Current") "A" [] ["Reading"] ;;
              _ <-? initHealth currentSensorKeyspace (ErrText "unable to add member to array for CurrentSensor") ;;
              _ <-? initOutletSensor unit_Id thisKeyspace "EnergySensor" ("Energy" +:+ outletID)
                ("Outlet " +:+ outletID +:+ " Energy") "J" [] ["Reading"] ;;
              powerSensorKeyspace <-? initOutletSensor unit_Id thisKeyspace "PowerSensor" ("Power" +:+ outletID)
                ("Outlet " +:+ outletID +:+ " Power") "W" ["ApparentVA"] ["PowerFactor"; "Reading"] ;;
              _ <-? initHealth powerSensorKeyspace (ErrText "unable to add member to array for PowerSensor") ;;
              _ <-? initHealth thisKeyspace (ErrText "unable to add member to array for Outlet") ;;
              _ <-? initOutletSensor unit_Id thisKeyspace "VoltageSensor" ("Voltage" +:+ outletID)
                ("Outlet " +:+ outletID +:+ " Voltage") "V" [] ["Reading"] ;;
              ret (Ok tt)
          end
      end
  end.

(** The error of the collection is overwritten by the first outlet. *)
Definition initRackPDUOutlets (xname : string) (u : PDUnit) : M (X * S) (result unit) :=
  added <- add (path_join [xname; RackPDUsKeyspace; u_Id u]) "Outlets" ;;
  let '(keyspace, err) := added in
  add keyspace "@odata.id" ;;
  add keyspace "@odata.type" ;;
  _ <-? fold_ok (fun _ outlet => initOutlet (u_Id u) keyspace outlet) tt (u_Outlets u) ;;
  ret (result_of (match u_Outlets u with [] => err | _ => None end)).

(** A link of a group to an outlet has the outlet's name of JAWS, not the one
    under which Redfish knows the outlet. *)
Definition initGroupOutlet (unit_Id groupName thisKeyspace outlet : string) : M (X * S) (result unit) :=
  member <- push thisKeyspace "Outlets" ;;
  match member with
  | (_, Some _) =>
      ret (Err (ErrText ("unable to add outlets array for outlet group " +:+ groupName +:+ " on PDU " +:+ unit_Id)))
  | (thisOutletKeyspace, None) =>
      set thisOutletKeyspace "@odata.id" (path_join [RackPDUsKeyspace; unit_Id; "Outlets"; outlet]) ;;
      ret (Ok tt)
  end.

Definition initOutletGroup (unit_Id keyspace : string) (outletGroup : OutletGroup) : M (X * S) (result unit) :=
  member <- push keyspace "Members" ;;
  match member with
  | (_, Some _) => ret (Err (ErrText ("unable to add outlet group member to array for PDU " +:+ unit_Id)))
  | (thisMemberKeyspace, None) =>
      let thisKeyspace := path_join [keyspace; og_Name outletGroup] in
      set thisMemberKeyspace "@odata.id" thisKeyspace ;;
      add thisKeyspace "@odata.id" ;;
      add thisKeyspace "@odata.type" ;;
      set thisKeyspace "Name" (og_Name outletGroup) ;;
      actions <- add thisKeyspace "Actions" ;;
      match actions with
      | (_, Some _) => ret (Err (ErrText ("unable to add Actions to outlet group " +:+ og_Name outletGroup)))
      | (actionsKeyspace, None) =>
          _ <-? initPowerControl actionsKeyspace "OutletGroup.PowerControl"
                  (ErrText ("unable to add AllowableValues to PowerControl for outlet group " +:+ og_Name outletGroup)) ;;
          fold_ok (fun _ outlet => initGroupOutlet unit_Id (og_Name outletGroup) thisKeyspace outlet) tt
            (og_OutletAccess outletGroup)
      end
  end.

Definition initRackPDUOutletGroups (xname : string) (u : PDUnit) : M (X * S) (result unit) :=
  added <- add (path_join [xname; RackPDUsKeyspace; u_Id u]) "OutletGroups" ;;
  let '(keyspace, err) := added in
  add keyspace "@odata.id" ;;
  add keyspace "@odata.type" ;;
  _ <-? fold_ok (fun _ group => initOutletGroup (u_Id u) keyspace group) tt (u_OutletGroups u) ;;
  ret (result_of err).

(* ===================================================================== *)
(** * Sensors                                                            *)
(* ===================================================================== *)

(** A sensor of the unit: [what] is "temperature" or "humidity", with its
    type and its units. *)
Definition initSensor (unit_Id keyspace what readingType units sensorID name : string) : M (X * S) (result unit) :=
  member <- push keyspace "Members" ;;
  match member with
  | (_, Some _) =>
      ret (Err (ErrText ("unable to add " +:+ what +:+ " sensor member to array for PDU " +:+ unit_Id)))
  | (thisMemberKeyspace, None) =>
      let thisKeyspace := path_join [keyspace; sensorID] in
      set thisMemberKeyspace "@odata.id" thisKeyspace ;;
      add thisKeyspace "@odata.id" ;;
      add thisKeyspace "@odata.type" ;;
      set thisKeyspace "Id" sensorID ;;
      set thisKeyspace "Name" name ;;
      add thisKeyspace "Reading" ;;
      set thisKeyspace "ReadingType" readingType ;;
      set thisKeyspace "ReadingUnits" units ;;
      status <- add thisKeyspace "Status" ;;
      match status with
      | (_, Some _) => ret (Err (ErrText ("unable to add member to array for " +:+ readingType +:+ " Sensor")))
      | (currentSensorStatusKeyspace, None) =>
          add currentSensorStatusKeyspace "Health" ;;
          add currentSensorStatusKeyspace "State" ;;
          ret (Ok tt)
      end
  end.

Definition initRackPDUSensors (xname : string) (u : PDUnit) : M (X * S) (result unit) :=
  added <- add (path_join [xname; RackPDUsKeyspace; u_Id u]) "Sensors" ;;
  let '(keyspace, err) := added in
  add keyspace "@odata.id" ;;
  add keyspace "@odata.type" ;;
  set keyspace "Name" "PDU Sensor Collection" ;;
  set keyspace "Description" "A collection of sensor attached to this PDU instance" ;;
  _ <-? fold_ok (fun _ sensor => initSensor (u_Id u) keyspace "temperature" "Temperature" "C"
                                   ("Temperature" +:+ ts_ID sensor) (ts_Name sensor)) tt (u_TemperatureSensors u) ;;
  _ <-? fold_ok (fun _ sensor => initSensor (u_Id u) keyspace "humidity" "Humidity" "%"
                                   ("Humidity" +:+ hs_ID sensor) (hs_Name sensor)) tt (u_HumiditySensors u) ;;
  ret (result_of err).

(* ===================================================================== *)
(** * A unit                                                             *)
(* ===================================================================== *)

(** The keys of the service root, for every unit *)
Definition initPDURoot : M (X * S) unit :=
  root <- add "/redfish" "v1" ;;
  let rootKeyspace := fst root in
  set rootKeyspace "Name" "Service Root" ;;
  set rootKeyspace "Description" "The Redfish ServiceRoot" ;;
  add rootKeyspace "@odata.id" ;;
  add rootKeyspace "@odata.type" ;;
  match LookupEnv out "SCHEMA_VERSION" with
  | Some versionStr => set rootKeyspace "RedfishVersion" versionStr ;; ret tt
  | None => ret tt
  end ;;
  power <- add rootKeyspace "PowerEquipment" ;;
  let powerEquipmentKeyspace := fst power in
  set powerEquipmentKeyspace "Name" "Service Root" ;;
  add powerEquipmentKeyspace "@odata.id" ;;
  add powerEquipmentKeyspace "@odata.type" ;;
  add powerEquipmentKeyspace "RackPDUs" ;;
  ret tt.

(** The summary of a unit *)
Definition initCircuitSummary (u : PDUnit) (circuitSummaryKeyspace : string) : M (X * S) unit :=
  let outlets := format_nat (List.length (u_Outlets u)) in
  let branches := format_nat (List.length (u_Branches u)) in
  let phases := format_nat (List.length (u_Phases u)) in
  set circuitSummaryKeyspace "ControlledOutlets" outlets ;;
  set circuitSummaryKeyspace "MonitoredBranches" branches ;;
  set circuitSummaryKeyspace "MonitoredOutlets" outlets ;;
  set circuitSummaryKeyspace "MonitoredPhases" phases ;;
  set circuitSummaryKeyspace "TotalBranches" branches ;;
  set circuitSummaryKeyspace "TotalOutlets" outlets ;;
  set circuitSummaryKeyspace "TotalPhases" phases ;;
  ret tt.

(** The readings that are at hand; an outlet without a proper name is left
    out. *)
Definition unit_readings (xname : string) (u : PDUnit) : list expiring :=
  populateRedisForLines PollingEnabled (u_Lines u) xname (u_Id u)
  ++ populateRedisForPhases PollingEnabled (u_Phases u) xname (u_Id u)
  ++ populateRedisForTemperature PollingEnabled (u_TemperatureSensors u) xname (u_Id u)
  ++ populateRedisForHumidity PollingEnabled (u_HumiditySensors u) xname (u_Id u)
  ++ List.concat (map (fun branch => populateRedisForBranch PollingEnabled branch xname (u_Id u)) (u_Branches u))
  ++ List.concat (map (fun outlet =>
       match populateRedisForConfigOutlet PollingEnabled outlet xname (u_Id u) with Ok l => l | Err _ => [] end)
       (u_OutletConfigs u))
  ++ List.concat (map (fun outlet =>
       match populateRedisForMonitorOutlet PollingEnabled outlet xname (u_Id u) with Ok l => l | Err _ => [] end)
       (u_Outlets u)).

Definition pdu_initFunctions : list (string -> PDUnit -> M (X * S) (result unit)) :=
  [initRackPDUBranches; initRackPDUMains; initRackPDUOutlets; initRackPDUOutletGroups; initRackPDUSensors].

(** [RedisActivePipeline], a field of the copy *)
Definition set_active (pl : option P) : M (X * S) unit := assign helper (mkRedisHelper pl).
Definition active_pipeline : M (X * S) P :=
  h <- fetch helper ;;
  match RedisActivePipeline h with Some pl => ret pl | None => panic nil_deref end.

(** The writes of the unit, in a pipeline *)
Definition initRackPDU_unit (xname : string) (u : PDUnit) : M (X * S) (result unit) :=
  let xnameKeyspace := xname +:+ RackPDUsKeyspace in
  set xnameKeyspace "Name" "RackPDU Collection" ;;
  add xnameKeyspace "@odata.id" ;;
  add xnameKeyspace "@odata.type" ;;
  member <- push xnameKeyspace "Members" ;;
  match member with
  | (_, Some _) => ret (Err (ErrText ("unable to add member to array for PDU " +:+ u_Id u)))
  | (thisMemberKeyspace, None) =>
      let newPDUKeyspace := xnameKeyspace +:+ "/" +:+ u_Id u in
      set thisMemberKeyspace "@odata.id" newPDUKeyspace ;;
      add newPDUKeyspace "@odata.id" ;;
      add newPDUKeyspace "@odata.type" ;;
      set newPDUKeyspace "DateOfManufacture" (u_ManufactureDate u) ;;
      set newPDUKeyspace "Name" (u_Name u) ;;
      set newPDUKeyspace "Id" (u_Id u) ;;
      set newPDUKeyspace "Manufacturer" "ServerTech" ;;
      set newPDUKeyspace "Model" (u_ModelNumber u) ;;
      set newPDUKeyspace "SerialNumber" (u_ProductSerialNumber u) ;;
      set newPDUKeyspace "EquipmentType" "RackPDU" ;;
      status <- add newPDUKeyspace "Status" ;;
      add (fst status) "Health" ;;
      summary <- add newPDUKeyspace "CircuitSummary" ;;
      initCircuitSummary u (fst summary) ;;
      _ <-? fold_ok (fun _ initFunction => initFunction xname u) tt pdu_initFunctions ;;
      pl <- active_pipeline ;;
      pipe_exec (queue_expiring (S:=S) (unit_readings xname u) pl)
  end.

(** The pipeline is dropped at the end, however it comes. *)
Definition initRackPDU (xname : string) (u : PDUnit) : M (X * S) (result unit) :=
  initPDURoot ;;
  set_active (Some (Pipeline (S:=S))) ;;
  deferring (initRackPDU_unit xname u) (set_active None).
End setup.
