(* ===== verification/PduDevice.v ===== *)
(** The backend helper for power distribution units: discovery
    ([internal/backend_helpers/jaws.go], from the queries of a controller to
    [SetupBackendHelper]).

    A controller is asked for the units it controls and for everything that
    belongs to them; the replies are assigned to the units by the prefix of
    their identifiers, and every unit is written to Redis ([initRackPDU]).
    The client of HTTP and [mapstructure] are libraries ([JAWS]).  The
    discovery of several controllers is concurrent in the program; here one
    follows the other. *)
From S2P Require Import Prelude Values Redis Walk Pipelines RedisHelper Services Certificates.
From S2P Require Import CredentialStores Pdu PduSetup.

(* ===================================================================== *)
(** * The interface of a controller                                      *)
(* ===================================================================== *)

(** [request.GetBodyForHTTPRequest()], whose value is [VNil] when there is no
    body, and [mapstructure.Decode] into each of the structs *)
Record JAWS (T : Type) := mkJAWS {
  GetBodyForHTTPRequest : HTTPRequest -> M T (value * option go_error);
  Decode_Units : list value -> result (list PDUnit);
  Decode_OutletGroups : list value -> result (list OutletGroup);
  Decode_MonitorUnits : list value -> result (list MonitorUnit);
  Decode_ConfigOutlets : list value -> result (list ConfigOutlet);
  Decode_MonitorOutlets : list value -> result (list MonitorOutlet);
  Decode_Branches : list value -> result (list Branch);
  Decode_Phases : list value -> result (list Phase);
  Decode_Lines : list value -> result (list Line);
  Decode_TemperatureSensors : list value -> result (list TemperatureSensor);
  Decode_HumiditySensors : list value -> result (list HumiditySensor);
  Decode_Branch : object -> result Branch;
  Decode_MonitorOutlet : object -> result MonitorOutlet;
  Decode_ConfigOutlet : object -> result ConfigOutlet;
  Decode_TemperatureSensor : object -> result TemperatureSensor;
  Decode_HumiditySensor : object -> result HumiditySensor;
}.
Arguments GetBodyForHTTPRequest {T}.
Arguments Decode_Units {T}.
Arguments Decode_OutletGroups {T}.
Arguments Decode_MonitorUnits {T}.
Arguments Decode_ConfigOutlets {T}.
Arguments Decode_MonitorOutlets {T}.
Arguments Decode_Branches {T}.
Arguments Decode_Phases {T}.
Arguments Decode_Lines {T}.
Arguments Decode_TemperatureSensors {T}.
Arguments Decode_HumiditySensors {T}.
Arguments Decode_Branch {T}.
Arguments Decode_MonitorOutlet {T}.
Arguments Decode_ConfigOutlet {T}.
Arguments Decode_TemperatureSensor {T}.
Arguments Decode_HumiditySensor {T}.

(** [v.([]interface{})] and [v.(map[string]interface{})] *)
Definition conversion_panic : string := "interface conversion".
Definition as_array {T} (v : value) : M T (list value) :=
  match v with VArray l => ret l | _ => panic conversion_panic end.
Definition as_object {T} (v : value) : M T object :=
  match v with VObject m => ret m | _ => panic conversion_panic end.

(** [%s] of an error that may be nil *)
Definition error_text (err : option go_error) : string :=
  match err with Some e => err_string e | None => "%!s(<nil>)" end.

(** The helper.  Its methods with a value receiver work on a copy; as no
    pipeline is active outside of [initRackPDU], the place of the original
    stands for the copies, too. *)
Record JAWSBackedHelper (P V : Type) := mkJAWSBackedHelper {
  jaws_RedisHelper : RedisHelper P;
  jaws_PDUCredentialStore : option (PDUCredentialStore V);
  jaws_RTSCredentialStore : option (RTSCredentialStore V);
  jaws_KnownDevices : gomap Device;
  PollingEnabled : bool;
  PollingInterval : Z;
  PollingWorkers : Z;
  PollingTemperatureInterval : Z;
  PollingHumidityInterval : Z;
}.
Arguments mkJAWSBackedHelper {P V}.
Arguments jaws_RedisHelper {P V}.
Arguments jaws_PDUCredentialStore {P V}.
Arguments jaws_RTSCredentialStore {P V}.
Arguments jaws_KnownDevices {P V}.
Arguments PollingEnabled {P V}.
Arguments PollingInterval {P V}.
Arguments PollingWorkers {P V}.
Arguments PollingTemperatureInterval {P V}.
Arguments PollingHumidityInterval {P V}.

(* ===================================================================== *)
(** * What belongs to a unit                                             *)
(* ===================================================================== *)

(** Whether a group goes to a unit: one of its outlets belongs to the unit,
    or all do, as of an empty group *)
Definition group_of_unit (unit_Id : string) (group : OutletGroup) : bool :=
  existsb (has_prefix unit_Id) (og_OutletAccess group) || forallb (has_prefix unit_Id) (og_OutletAccess group).

(** What a controller reports, next to its units *)
Record Inventory := mkInventory {
  inv_branches : list Branch;
  inv_lines : list Line;
  inv_phases : list Phase;
  inv_outlets : list MonitorOutlet;
  inv_outletConfigs : list ConfigOutlet;
  inv_temperatureSensors : list TemperatureSensor;
  inv_humiditySensors : list HumiditySensor;
  inv_outletGroups : list OutletGroup;
}.

(** [unit.X = append(unit.X, x)] of everything that has the unit's prefix *)
Definition assign_unit (inv : Inventory) (u : PDUnit) : PDUnit :=
  let mine {A} (ID : A -> string) := List.filter (fun a => has_prefix (u_Id u) (ID a)) in
  mkUnit (u_Id u) (u_Name u) (u_ManufactureDate u) (u_ModelNumber u) (u_ProductSerialNumber u) (u_Type u)
    (u_Branches u ++ mine br_ID (inv_branches inv))
    (u_Lines u ++ mine ln_ID (inv_lines inv))
    (u_Phases u ++ mine ph_ID (inv_phases inv))
    (u_Outlets u ++ mine mo_ID (inv_outlets inv))
    (u_OutletConfigs u ++ mine co_ID (inv_outletConfigs inv))
    (u_OutletGroups u ++ List.filter (group_of_unit (u_Id u)) (inv_outletGroups inv))
    (u_TemperatureSensors u ++ mine ts_ID (inv_temperatureSensors inv))
    (u_HumiditySensors u ++ mine hs_ID (inv_humiditySensors inv)).

(** The group of all outlets of a unit, for an emergency *)
Definition EPOGroup (outlets : list MonitorOutlet) (unit_Id : string) : OutletGroup :=
  mkOutletGroup (EPOOutletGroupPrefix +:+ "_" +:+ unit_Id)
    (List.filter (has_prefix unit_Id) (map mo_ID outlets)).

(* ===================================================================== *)
(** * Discovery                                                          *)
(* ===================================================================== *)

Section device.
Context {X S P V K : Type} `{RedisOps S} `{!PipelineOps S P} `{ReadingText} `{!Crypto K}.
Context (out : Outside (X * S) V) (jaws_api : JAWS (X * S)) (storage : Storage (X * S) V).
Variable globals : lens X (Globals V).
Variable jaws : lens X (JAWSBackedHelper P V).
Variable cs : lens X (CertificateService P V K).
Variable SecureStorage_Lookup : V -> string -> M (X * S) (CertificatePair * option go_error).
Variable GenerateFromPassword : string -> M (X * S) (result string).

Definition jaws_RedisHelper_field : lens (JAWSBackedHelper P V) (RedisHelper P) :=
  mkLens jaws_RedisHelper (fun r h => mkJAWSBackedHelper r (jaws_PDUCredentialStore h) (jaws_RTSCredentialStore h)
    (jaws_KnownDevices h) (PollingEnabled h) (PollingInterval h) (PollingWorkers h)
    (PollingTemperatureInterval h) (PollingHumidityInterval h)).
Definition jaws_helper : lens X (RedisHelper P) := lens_comp jaws jaws_RedisHelper_field.

Definition StatusNoContent : Z := 204.

(** [baseRequest] with the URL of a device *)
Definition device_request (device : Device) (path : string) : HTTPRequest :=
  mkRequest [StatusOK] (dev_URL device +:+ path) "GET" (getSvcInstName out) NoPayload
    (Some (dev_Username device, dev_Password device)).

Definition disableDHCPStaticAddressFallback (device : Device) : M (X * S) (option go_error) :=
  response <- DoHTTPAction out (mkRequest [StatusNoContent] (dev_URL device +:+ "/config/network") "PATCH"
    (getSvcInstName out) (PayloadNetwork "disabled") (Some (dev_Username device, dev_Password device))) ;;
  ret (snd response).

(** A list that a controller reports; [decode_error] is the error of a reply
    that cannot be decoded, given the library's. *)
Definition get_list {A} (what path : string) (decode : list value -> result (list A))
    (decode_error : go_error -> go_error) (device : Device) : M (X * S) (result (list A)) :=
  reply <- GetBodyForHTTPRequest jaws_api (device_request device path) ;;
  match reply with
  | (VNil, getErr) => ret (Err (ErrText ("unable to get body for " +:+ what +:+ " request: " +:+ error_text getErr)))
  | (v, _) =>
      l <- as_array v ;;
      match decode l with
      | Err err => ret (Err (decode_error err))
      | Ok r => ret (Ok r)
      end
  end.
Definition fetched_error (err : go_error) : go_error := ErrText "unable to decode fetched data".

Definition getMonitorUnits := get_list "units" "/monitor/units" (Decode_MonitorUnits jaws_api) (fun e => e).
Definition getConfigOutlets := get_list "config outlets" "/config/outlets" (Decode_ConfigOutlets jaws_api) (fun e => e).
Definition getMonitorOutlets :=
  get_list "monitor outlets" "/monitor/outlets" (Decode_MonitorOutlets jaws_api) fetched_error.
Definition getMonitorBranches :=
  get_list "monitor branches" "/monitor/branches" (Decode_Branches jaws_api) fetched_error.
Definition getMonitorPhases := get_list "monitor phases" "/monitor/phases" (Decode_Phases jaws_api) fetched_error.
Definition getMonitorLines := get_list "monitor lines" "/monitor/lines" (Decode_Lines jaws_api) fetched_error.
Definition getMonitorSensorsTemp :=
  get_list "monitor sensor temperature" "/monitor/sensors/temp" (Decode_TemperatureSensors jaws_api) fetched_error.
Definition getMonitorSensorsHumidity :=
  get_list "monitor sensor humidity" "/monitor/sensors/humidity" (Decode_HumiditySensors jaws_api) fetched_error.

(** The units themselves, and the groups, in [initDevice] *)
Definition getUnits := get_list "units" "/config/info/units" (Decode_Units jaws_api) (fun e => e).
Definition getOutletGroups := get_list "outlet groups" "/config/groups" (Decode_OutletGroups jaws_api) (fun e => e).

(** The group is created, or updated when it exists; the failure of an
    update is reported with the error of the creation. *)
Definition put_EPOGroup (device : Device) (group : OutletGroup) : M (X * S) (result unit) :=
  let request method status := mkRequest [status] (dev_URL device +:+ "/config/groups/" +:+ og_Name group) method
    (getSvcInstName out) (PayloadOutletGroup (og_Name group) (og_OutletAccess group))
    (Some (dev_Username device, dev_Password device)) in
  created <- DoHTTPAction out (request "POST" StatusCreated) ;;
  match snd created with
  | None => ret (Ok tt)
  | Some createErr =>
      if has_suffix "409" (err_string createErr) then
        patched <- DoHTTPAction out (request "PATCH" StatusNoContent) ;;
        match snd patched with
        | Some _ => ret (Err (ErrText ("unable to patch EPO group: " +:+ err_string createErr)))
        | None => ret (Ok tt)
        end
      else ret (Err (ErrText ("unable to create EPO group: " +:+ err_string createErr)))
  end.

(** The units of a controller, with what belongs to them *)
Definition discover (device : Device) : M (X * S) (result (list PDUnit)) :=
  disableDHCPStaticAddressFallback device ;;
  units <-? getUnits device ;;
  branches <-? getMonitorBranches device ;;
  lines <-? getMonitorLines device ;;
  phases <-? getMonitorPhases device ;;
  outlets <-? getMonitorOutlets device ;;
  outletConfigs <-? getConfigOutlets device ;;
  temperatureSensors <-? getMonitorSensorsTemp device ;;
  humiditySensors <-? getMonitorSensorsHumidity device ;;
  _ <-? fold_ok (fun _ u => put_EPOGroup device (EPOGroup outlets (u_Id u))) tt units ;;
  outletGroups <-? getOutletGroups device ;;
  let inv := mkInventory branches lines phases outlets outletConfigs temperatureSensors humiditySensors outletGroups in
  ret (Ok (map (assign_unit inv) units)).

(** [helper.RTSCredentialStore.GetGlobalCredentials()] *)
Definition jaws_credentials : M (X * S) (Credential * option go_error) :=
  h <- fetch jaws ;;
  match jaws_RTSCredentialStore h with
  | None => panic nil_deref
  | Some credStore => GetGlobalCredentials storage credStore
  end.

(** The announcement of a device that is in Redis *)
Definition announce_device (xname : string) : M (X * S) (result unit) :=
  _ <-? informDNS out (xname +:+ "-rts") ;;
  creds <- jaws_credentials ;;
  match creds with
  | (_, Some err) => panic (err_string err)
  | (creds, None) =>
      let url := xname +:+ "-rts:8083" in
      stored <- store_credentials out globals
        (mkCompCredentials xname url (cred_Username creds) (cred_Password creds) "" "") ;;
      match stored with
      | Err compErr => ret (Err (ErrText ("unable to store credentials in Vault: " +:+ err_string compErr)))
      | Ok _ =>
          informed <- informHSMWithFQDN out xname url ;;
          match informed with
          | Err hsmErr => ret (Err (ErrText ("unable to inform HSM: " +:+ err_string hsmErr)))
          | Ok _ => ret (Ok tt)
          end
      end
  end.

(** The errors of the units are overwritten. *)
Definition jaws_initDevice (xname : string) (device : Device) : M (X * S) (result unit) :=
  units <-? discover device ;;
  removed <- removeXnamePrependedKeys (P:=P) xname ;;
  match removed with
  | Err removeErr => ret (Err (ErrText ("unable to remove keys from Redis: " +:+ err_string removeErr)))
  | Ok _ =>
      h <- fetch jaws ;;
      for_each (fun u => initRackPDU out jaws_helper (PollingEnabled h) xname u ;; ret tt) units ;;
      _ <-? initManagerCollection jaws_helper xname ;;
      _ <-? initManager (P:=P) jaws_helper xname GenericBmcID "ServerTech JAWS" ;;
      _ <-? InitForXName cs SecureStorage_Lookup xname ;;
      announce_device xname
  end.

(* ===================================================================== *)
(** * The backend helper                                                 *)
(* ===================================================================== *)

Definition set_jaws_KnownDevices (m : gomap Device) (h : JAWSBackedHelper P V) :=
  mkJAWSBackedHelper (jaws_RedisHelper h) (jaws_PDUCredentialStore h) (jaws_RTSCredentialStore h)
    m (PollingEnabled h) (PollingInterval h) (PollingWorkers h) (PollingTemperatureInterval h) (PollingHumidityInterval h).

(** One device of the store; the error stays that of the last device that
    failed. *)
Definition discover_device (err : option go_error) (entry : string * Device) : M (X * S) (option go_error) :=
  let '(xname, device) := entry in
  h <- fetch jaws ;;
  if mmem xname (jaws_KnownDevices h) then ret err
  else
    r <- jaws_initDevice xname device ;;
    match r with
    | Err initErr => ret (Some (ErrText ("unable to initialize device: " +:+ err_string initErr)))
    | Ok _ =>
        h <- fetch jaws ;;
        assign jaws (set_jaws_KnownDevices (mput xname device (jaws_KnownDevices h)) h) ;;
        ret err
    end.

Fixpoint discover_devices (err : option go_error) (devices : gomap Device) : M (X * S) (option go_error) :=
  match devices with
  | [] => ret err
  | entry :: devices' => err' <- discover_device err entry ;; discover_devices err' devices'
  end.

Definition jaws_RunPeriodic : M (X * S) (result unit) :=
  h <- fetch jaws ;;
  match jaws_PDUCredentialStore h with
  | None => panic nil_deref
  | Some credStore =>
      devices <-? GetDevices storage credStore ;;
      err <- discover_devices None devices ;;
      ret (result_of err)
  end.

(** A number of an environment variable, times a unit of time *)
Definition env_duration (name : string) (fallback unit_of_time : Z) : result Z :=
  match LookupEnv out name with
  | None => Ok fallback
  | Some raw =>
      match parse_int raw with
      | None => Err (ErrText (atoi_error raw))
      | Some n => Ok (wrap64 (n * unit_of_time))
      end
  end.

(** The settings of the polling; those before a bad one are kept. *)
Definition set_polling (h : JAWSBackedHelper P V) : JAWSBackedHelper P V * result unit :=
  let with_polling enabled interval workers temperature humidity :=
    mkJAWSBackedHelper (jaws_RedisHelper h) (jaws_PDUCredentialStore h) (jaws_RTSCredentialStore h)
      (jaws_KnownDevices h) enabled interval workers temperature humidity in
  let enabled := PollingEnabled h
    || String.eqb (to_lower (default "" (LookupEnv out "JAWS_POLLING_ENABLED"))) "true" in
  match env_duration "JAWS_POLLING_INTERVAL" (10 * Second) Second with
  | Err e => (with_polling enabled (10 * Second) (PollingWorkers h) (PollingTemperatureInterval h) (PollingHumidityInterval h), Err e)
  | Ok interval =>
  match env_duration "JAWS_POLLING_TEMPERATURE_INTERVAL" (30 * Second) Second with
  | Err e => (with_polling enabled interval (PollingWorkers h) (30 * Second) (PollingHumidityInterval h), Err e)
  | Ok temperature =>
  match env_duration "JAWS_POLLING_HUMIDITY_INTERVAL" (30 * Second) Second with
  | Err e => (with_polling enabled interval (PollingWorkers h) temperature (30 * Second), Err e)
  | Ok humidity =>
  match env_duration "JAWS_POLLING_WORKERS" 30 1 with
  | Err e => (with_polling enabled interval 0 temperature humidity, Err e)
  | Ok workers => (with_polling enabled interval workers temperature humidity, Ok tt)
  end end end end.

Definition set_stores (keypath : string) (secureStorage : V) (h : JAWSBackedHelper P V) : JAWSBackedHelper P V :=
  mkJAWSBackedHelper (jaws_RedisHelper h) (Some (mkPDUCredStore keypath secureStorage))
    (Some (mkRTSCredStore keypath secureStorage)) (jaws_KnownDevices h) (PollingEnabled h) (PollingInterval h)
    (PollingWorkers h) (PollingTemperatureInterval h) (PollingHumidityInterval h).

(** [SetupBackendHelper]; [fuel] attempts to reach Vault.  The polling, which
    runs on its own, is started by [start_polling]. *)
Definition jaws_SetupBackendHelper (start_polling : M (X * S) unit) (fuel : nat) : M (X * S) (result unit) :=
  match LookupEnv out "JAWS_VAULT_KEYPATH" with
  | None => fatal "Environment variable JAWS_VAULT_KEYPATH was not set"
  | Some jawsVaultKeypath =>
      secureStorage <- connectToVault out fuel ;;
      match secureStorage with
      | None => fatal "Unable to connect to Vault"
      | Some secureStorage =>
          h <- fetch jaws ;;
          assign jaws (set_stores jawsVaultKeypath secureStorage h) ;;
          ok <- setupCompCredsVault out globals secureStorage ;;
          (if ok : bool then ret tt else fatal "Failed to setup CompCredsVault") ;;
          creds <- jaws_credentials ;;
          match creds with
          | (_, Some err) => fatal "Unable to get default credentails for RTS"
          | (creds, None) =>
              _ <-? initAccount (P:=P) jaws_helper GenerateFromPassword (cred_Username creds) "Administrator"
                      (cred_Password creds) ;;
              h <- fetch jaws ;;
              let '(h', r) := set_polling h in
              assign jaws h' ;;
              match r with
              | Err e => ret (Err e)
              | Ok _ =>
                  (if PollingEnabled h' then start_polling else ret tt) ;;
                  SetupCertificateService cs GenericBmcID GenericCertificateID
              end
          end
      end
  end.

Definition jaws_GetEnvForXname (xname : string) : M (X * S) (result (gomap string)) :=
  h <- fetch jaws ;;
  match mget xname (jaws_KnownDevices h) with
  | Some device =>
      ret (Ok [("RTS_URL", dev_URL device); ("RTS_USERNAME", dev_Username device);
               ("RTS_PASSWORD", dev_Password device); ("RTS_XNAME", dev_Xname device)])
  | None => ret (Err (ErrText "Unable to find xname in device list"))
  end.
End device.
