(* ===== verification/PduRequests.v ===== *)
(** Requests to power distribution units
    ([internal/backend_helpers/jaws.go], [RunBackendHelper]).

    The key of a request names a property of a unit.  [route] finds out what
    the controller is to be asked, or told, about it; the reply of a query is
    written to Redis, from where the value is read then.  An order to switch
    an outlet makes its power state invalid, which is removed from Redis. *)
From S2P Require Import Prelude Values Redis Walk Dispatcher Pipelines RedisHelper Services Certificates.
From S2P Require Import CredentialStores Pdu PduSetup PduDevice.

(* ===================================================================== *)
(** * What is asked                                                      *)
(* ===================================================================== *)

(** [op], [urlPath], [payload], [invalidatedKeys], [expectedStatusCode] *)
Record jaws_route := mkRoute {
  rt_op : string;
  rt_urlPath : string;
  rt_payload : http_payload;
  rt_invalidatedKeys : list string;
  rt_expectedStatusCode : Z;
}.

Definition query (urlPath : string) : jaws_route := mkRoute "GET" urlPath NoPayload [] StatusOK.

(** The unit of a key below [/redfish/v1/PowerEquipment/RackPDUs], and what is
    asked of it: [strings.SplitN(_, "/", 2)] without the first slash *)
Definition split_device_key (pduPrefixedKey : string) : option (string * string) :=
  match split_slash (trim_prefix "/" pduPrefixedKey) with
  | pduID :: ((_ :: _) as rest) => Some (pduID, join "/" rest)
  | _ => None
  end.

Section route.
Context {S : Type} `{ReadingText}.
Variable env : gomap string.

(** The order to switch something, given its action in the key *)
Definition route_power (action expected_action urlPath : string) (invalidatedKeys : list string) :
    result jaws_route :=
  if String.eqb action expected_action then
    match mget "PowerState" env with
    | None => Err (ErrText "PowerControl action requested, but PowerState not provided")
    | Some powerState =>
        Ok (mkRoute "PATCH" urlPath (PayloadStrings [("control_action", powerState)]) invalidatedKeys StatusNoContent)
    end
  else Err (ErrText "unknown action for Outlets").

Definition route_mains (deviceSpecificKey : string) : M S (result jaws_route) :=
  sensors <- index_list (split_slash (trim_prefix "Mains/" deviceSpecificKey)) 1 ;;
  ret (if String.eqb sensors "PolyPhaseCurrentSensors" then Ok (query "/monitor/lines")
       else if String.eqb sensors "PolyPhasePowerSensors" then Ok (query "/monitor/phases")
       else Err (ErrText "unable to build full url")).

Definition route_outlet (xname pduID deviceSpecificKey : string) : M S (result jaws_route) :=
  let outletURLParts := split_slash (trim_prefix "Outlets/" deviceSpecificKey) in
  outlet <- index_list outletURLParts 0 ;;
  match translateRedfishToJAWSOutlet outlet with
  | Err err => ret (Err err)
  | Ok jawsOutlet =>
      what <- index_list outletURLParts 1 ;;
      if String.eqb what "Actions" then
        action <- index_list outletURLParts 2 ;;
        ret (route_power action "Outlet.PowerControl" (path_join ["/control/outlets"; jawsOutlet])
               [path_join [xname; RackPDUsKeyspace; pduID; "Outlets"; outlet; "PowerState"]])
      else if String.eqb what "PowerRestorePolicy" then
        ret (Ok (query (path_join ["/config/outlets"; jawsOutlet])))
      else ret (Ok (query (path_join ["/monitor/outlets"; jawsOutlet])))
  end.

Definition route_group (deviceSpecificKey : string) : M S (result jaws_route) :=
  let outletGroupURLParts := split_slash (trim_prefix "OutletGroups/" deviceSpecificKey) in
  outletGroup <- index_list outletGroupURLParts 0 ;;
  what <- index_list outletGroupURLParts 1 ;;
  if String.eqb what "Actions" then
    action <- index_list outletGroupURLParts 2 ;;
    ret (route_power action "OutletGroup.PowerControl" (path_join ["/control/groups"; outletGroup]) [])
  else ret (Err (ErrText "unknown OutletGroup key")).

(** The part of a key that names a branch, or a sensor *)
Definition first_part (prefix deviceSpecificKey : string) : M S string :=
  index_list (split_slash (trim_prefix prefix deviceSpecificKey)) 0.

Definition route (xname pduID deviceSpecificKey : string) : M S (result jaws_route) :=
  if has_prefix "Status" deviceSpecificKey then ret (Ok (query "/monitor/units"))
  else if has_prefix "Branches" deviceSpecificKey then
    branch <- first_part "Branches/" deviceSpecificKey ;;
    ret (Ok (query (path_join ["/monitor/branches"; branch])))
  else if has_prefix "Mains" deviceSpecificKey then route_mains deviceSpecificKey
  else if has_prefix "Outlets" deviceSpecificKey then route_outlet xname pduID deviceSpecificKey
  else if has_prefix "OutletGroups" deviceSpecificKey then route_group deviceSpecificKey
  else if has_prefix "Sensors/Temperature" deviceSpecificKey then
    sensor <- first_part "Sensors/Temperature" deviceSpecificKey ;;
    ret (Ok (query (path_join ["/monitor/sensors/temp"; sensor])))
  else if has_prefix "Sensors/Humidity" deviceSpecificKey then
    sensor <- first_part "Sensors/Humidity" deviceSpecificKey ;;
    ret (Ok (query (path_join ["/monitor/sensors/humidity"; sensor])))
  else ret (Err (ErrText "unknown key")).
End route.

(* ===================================================================== *)
(** * The reply                                                          *)
(* ===================================================================== *)

Section requests.
Context {X S P V K : Type} `{RedisOps S} `{!PipelineOps S P} `{ReadingText} `{!Crypto K}.
Context (out : Outside (X * S) V) (jaws_api : JAWS (X * S)) (storage : Storage (X * S) V).
Variable globals : lens X (Globals V).
Variable jaws : lens X (JAWSBackedHelper P V).
Variable cs : lens X (CertificateService P V K).

Definition undecoded {A B} (r : result A) (k : A -> result B) : result B :=
  match r with Ok a => k a | Err _ => Err (ErrText "unable to decode fetched data") end.
Definition unpopulated {A} (r : result A) : result A :=
  match r with Ok a => Ok a | Err _ => Err (ErrText "unable to populate database with fetched data") end.

(** The values of a reply [v], by the path that was asked; [None] is a reply
    that nobody cares for. *)
Definition reply_values (polling : bool) (urlPath xname pduID : string) (v : value) :
    M (X * S) (option (result (list expiring))) :=
  if String.eqb urlPath "/monitor/units" then
    l <- as_array v ;;
    ret (Some (undecoded (Decode_MonitorUnits jaws_api l)
      (fun units => Ok (populateRedisForMonitorUnits polling units xname pduID))))
  else if has_prefix "/monitor/lines" urlPath then
    l <- as_array v ;;
    ret (Some (undecoded (Decode_Lines jaws_api l)
      (fun lines => Ok (populateRedisForLines polling lines xname pduID))))
  else if has_prefix "/monitor/phases" urlPath then
    l <- as_array v ;;
    ret (Some (undecoded (Decode_Phases jaws_api l)
      (fun phases => Ok (populateRedisForPhases polling phases xname pduID))))
  else if has_prefix "/monitor/outlets" urlPath then
    m <- as_object v ;;
    ret (Some (undecoded (Decode_MonitorOutlet jaws_api m)
      (fun outlet => unpopulated (populateRedisForMonitorOutlet polling outlet xname pduID))))
  else if has_prefix "/monitor/branches" urlPath then
    m <- as_object v ;;
    ret (Some (undecoded (Decode_Branch jaws_api m)
      (fun branch => Ok (populateRedisForBranch polling branch xname pduID))))
  else if has_prefix "/config/outlets" urlPath then
    m <- as_object v ;;
    ret (Some (undecoded (Decode_ConfigOutlet jaws_api m)
      (fun outlet => unpopulated (populateRedisForConfigOutlet polling outlet xname pduID))))
  else if has_prefix "/monitor/sensors/temp" urlPath then
    m <- as_object v ;;
    ret (Some (undecoded (Decode_TemperatureSensor jaws_api m)
      (fun sensor => Ok (populateRedisForTemperature polling [sensor] xname pduID))))
  else if has_prefix "/monitor/sensors/humidity" urlPath then
    m <- as_object v ;;
    ret (Some (undecoded (Decode_HumiditySensor jaws_api m)
      (fun sensor => Ok (populateRedisForHumidity polling [sensor] xname pduID))))
  else ret None.

(** A reply with a body: the values are written, and the one of the key is
    read. *)
Definition store_reply (key xname pduID : string) (r : jaws_route) (v : value) : M (X * S) (result string) :=
  h <- fetch jaws ;;
  values <- reply_values (PollingEnabled h) (rt_urlPath r) xname pduID v ;;
  match values with
  | None => ret (Ok "")
  | Some (Err err) => ret (Err err)
  | Some (Ok l) =>
      _ <-? pipe_exec (queue_expiring (S:=S) l (startPipeline (S:=S) (P:=P))) ;;
      redis_get key
  end.

(** The event of an outlet that was switched *)
Definition outlet_switched (xname : string) (r : jaws_route) : M (X * S) unit :=
  if has_prefix "/control/outlets" (rt_urlPath r) then
    match rt_payload r with
    | PayloadStrings postBody =>
        match mget "control_action" postBody, rt_invalidatedKeys r with
        | Some newPostState, key :: _ =>
            postRFPowerEvent out globals xname (trim_suffix "/PowerState" (trim_prefix xname key)) newPostState ;;
            ret tt
        | _, _ => ret tt
        end
    | _ => ret tt
    end
  else ret tt.

(** A reply without a body *)
Definition order_done (xname : string) (r : jaws_route) : M (X * S) (result string) :=
  invalidateRedisKeys (rt_invalidatedKeys r) ;;
  outlet_switched xname r ;;
  ret (Ok "").

(** The request, and what is done with its reply *)
Definition ask_controller (key baseURL username password xname pduID : string) (r : jaws_route) :
    M (X * S) (result string) :=
  reply <- GetBodyForHTTPRequest jaws_api (mkRequest [rt_expectedStatusCode r] (baseURL +:+ rt_urlPath r) (rt_op r)
             (getSvcInstName out) (rt_payload r) (Some (username, password))) ;;
  match reply with
  | (_, Some err) => ret (Err err)
  | (VNil, None) => order_done xname r
  | (v, None) => store_reply key xname pduID r v
  end.

Definition missing (name : string) : go_error := ErrText (name +:+ " not in environment variables").

Definition jaws_RunBackendHelper (key : string) (args : list string) (env : gomap string) : M (X * S) (result string) :=
  match mget "RTS_URL" env with None => ret (Err (missing "RTS_URL")) | Some baseURL =>
  match mget "RTS_USERNAME" env with None => ret (Err (missing "RTS_USERNAME")) | Some username =>
  match mget "RTS_PASSWORD" env with None => ret (Err (missing "RTS_PASSWORD")) | Some password =>
  match mget "RTS_XNAME" env with None => ret (Err (missing "RTS_XNAME")) | Some xname =>
      h <- fetch jaws ;;
      if negb (mmem xname (jaws_KnownDevices h)) then ret (Err (ErrText ("unknown xname: " +:+ xname)))
      else
        match key_suffix RackPDUsKeyspace key with
        | None => ret (Err (ErrText "key format not what expected"))
        | Some fullKey =>
            let pduPrefixedKey := trim_prefix RackPDUsKeyspace fullKey in
            if String.eqb pduPrefixedKey key then ret (Err (ErrText "unexpected PDU key prefix"))
            else
              match split_device_key pduPrefixedKey with
              | None => ret (Err (ErrText "pduPrefixedKey does not contain the right number of parts"))
              | Some (pduID, deviceSpecificKey) =>
                  r <-? route env xname pduID deviceSpecificKey ;;
                  ask_controller key baseURL username password xname pduID r
              end
        end
  end end end end.

(** The helper as the dispatcher knows it *)
Definition JAWSBackedHelper_backend
    (SecureStorage_Lookup : V -> string -> M (X * S) (CertificatePair * option go_error))
    (GenerateFromPassword : string -> M (X * S) (result string))
    (start_polling : M (X * S) unit) (fuel : nat) : BackendHelper (X * S) := {|
  RunPeriodic := jaws_RunPeriodic (K:=K) out jaws_api storage globals jaws cs SecureStorage_Lookup;
  SetupBackendHelper := jaws_SetupBackendHelper out storage globals jaws cs GenerateFromPassword start_polling fuel;
  GetEnvForXname := jaws_GetEnvForXname jaws;
  RunBackendHelper := jaws_RunBackendHelper;
|}.
End requests.
