(* ===== verification/PduOutlets.v ===== *)
(** The outlets of power distribution units: their names, and their power
    state.

    A controller names an outlet by two letters and a number, Redfish by two
    letters and a number of at least two digits, so that the byte order of the
    names is the order of the outlets ([outlet_names]).  An order to switch an
    outlet makes the state in Redis invalid, and the next request for it is
    answered by the controller and kept ([switched_outlet_shown]). *)
From S2P Require Import Prelude Values Redis Walk RedisStruct Dispatcher Presentation Pipelines RedisHelper Performs.
From S2P Require Import DeviceKeys Services Certificates DeviceSetup Replacement Simulated.
From S2P Require Import CredentialStores Pdu PduSetup PduDevice PduRequests.

(* ===================================================================== *)
(** * Names                                                              *)
(* ===================================================================== *)

(** The two names of the outlet [n] *)
Definition jaws_name (a b : ascii) (n : Z) : string := String a (String b (format_int n)).
Definition redfish_name (a b : ascii) (n : Z) : string := String a (String b (format_two_digits n)).

(** What holds of the first numbers holds of a number among them. *)
Lemma first_numbers (P : Z -> bool) k n :
  0 <= n < Z.of_nat k -> forallb P (map Z.of_nat (List.seq 0 k)) = true -> P n = true.
Proof.
  intros Hn Hall. rewrite List.forallb_forall in Hall. apply Hall, List.in_map_iff.
  exists (Z.to_nat n). split; [lia|]. apply List.in_seq. lia.
Qed.

Lemma format_two_digits_large n : 10 <= n -> format_two_digits n = format_int n.
Proof. intros Hn. unfold format_two_digits. by rewrite (proj2 (Z.ltb_ge _ _)) by lia. Qed.

Lemma parse_two_digits n : 0 <= n <= int64_max -> parse_int (format_two_digits n) = Some n.
Proof.
  intros [Hn Hmax]. destruct (Z.lt_ge_cases n 10) as [Hlt|Hge].
  - set (parsed := fun n => match parse_int (format_two_digits n) with Some m => Z.eqb m n | None => false end).
    assert (Hp : parsed n = true) by (apply (first_numbers parsed 10); [lia|by vm_compute]).
    unfold parsed in Hp. destruct (parse_int _) as [m|]; [|done]. by apply Z.eqb_eq in Hp as ->.
  - rewrite format_two_digits_large by done. apply parse_format_int. unfold in_int64, int64_min. lia.
Qed.

Lemma parse_outlet_digits `{ReadingText} a b s n :
  s <> "" -> parse_int s = Some n -> parse_outlet (String a (String b s)) = Ok (String a (String b ""), n).
Proof. intros Hs Hp. unfold parse_outlet. destruct s as [|c s]; [done|]. simpl. by rewrite Hp. Qed.

Lemma to_redfish `{ReadingText} a b n :
  0 <= n <= int64_max -> translateJAWSToRedfishOutlet (jaws_name a b n) = Ok (redfish_name a b n).
Proof.
  intros Hn. unfold translateJAWSToRedfishOutlet, jaws_name.
  rewrite (parse_outlet_digits a b (format_int n) n); [done|apply format_int_nonempty|].
  apply parse_format_int. unfold in_int64, int64_min. lia.
Qed.

Lemma to_jaws `{ReadingText} a b n :
  0 <= n <= int64_max -> translateRedfishToJAWSOutlet (redfish_name a b n) = Ok (jaws_name a b n).
Proof.
  intros Hn. unfold translateRedfishToJAWSOutlet, redfish_name.
  assert (Hp := parse_two_digits n Hn). rewrite (parse_outlet_digits a b (format_two_digits n) n); [done| |done].
  intros E. by rewrite E in Hp.
Qed.

(** Two digits in byte order are in the order of the numbers. *)
Lemma two_digits_ordered m n :
  0 <= m < n -> n < 100 -> String.ltb (format_two_digits m) (format_two_digits n) = true.
Proof.
  intros Hm Hn. set (ordered := fun m n => negb (Z.ltb m n) || String.ltb (format_two_digits m) (format_two_digits n)).
  assert (Hall : ordered m n = true).
  { apply (first_numbers (ordered m) 100); [lia|].
    apply (first_numbers (fun m => forallb (ordered m) (map Z.of_nat (List.seq 0 100))) 100); [lia|by vm_compute]. }
  unfold ordered in Hall. by rewrite (proj2 (Z.ltb_lt m n)) in Hall by lia.
Qed.

Lemma ltb_cons a s t : String.ltb (String a s) (String a t) = String.ltb s t.
Proof. unfold String.ltb. simpl. unfold Ascii.compare. by rewrite N.compare_refl. Qed.

(** C35: the names of an outlet are translated into each other; and below a
    hundred the byte order of the Redfish names is the order of the outlets. *)
Theorem outlet_names `{ReadingText} a b n :
  0 <= n <= int64_max ->
  translateJAWSToRedfishOutlet (jaws_name a b n) = Ok (redfish_name a b n) /\
  translateRedfishToJAWSOutlet (redfish_name a b n) = Ok (jaws_name a b n) /\
  (forall m, 0 <= m < n -> n < 100 -> String.ltb (redfish_name a b m) (redfish_name a b n) = true).
Proof.
  intros Hn. split_and!; [by apply to_redfish|by apply to_jaws|].
  intros m Hm Hlt. unfold redfish_name. rewrite !ltb_cons. by apply two_digits_ordered.
Qed.

(* ===================================================================== *)
(** * A controller                                                       *)
(* ===================================================================== *)

(** The part of the interface of a controller that concerns the power of its
    outlets.  [power x o] is the state of the outlet [o]; an order brings it
    to [switched] of what was ordered, a query reports it. *)
Class Controller {X S P V : Type} `{RedisLaws S} (jaws : lens X (JAWSBackedHelper P V))
    (jaws_api : JAWS (X * S)) (url username password : string) := {
  power : X -> string -> string;
  switched : string -> string;
  order_switches x o p request :
    Method request = "PATCH" -> FullURL request = url +:+ "/control/outlets/" +:+ o ->
    Payload request = PayloadStrings [("control_action", p)] -> Auth request = Some (username, password) ->
    ExpectedStatusCodes request = [StatusNoContent] ->
    exists x', silent x (GetBodyForHTTPRequest jaws_api request) (VNil, None) x' /\
      power x' o = switched p /\ lget jaws x' = lget jaws x;
  query_reports x o request :
    Method request = "GET" -> FullURL request = url +:+ "/monitor/outlets/" +:+ o ->
    Auth request = Some (username, password) -> ExpectedStatusCodes request = [StatusOK] ->
    exists m outlet, silent x (GetBodyForHTTPRequest jaws_api request) (VObject m, None) x /\
      Decode_MonitorOutlet jaws_api m = Ok outlet /\ mo_ID outlet = o /\ mo_State outlet = power x o;
}.

(* ===================================================================== *)
(** * Keys                                                               *)
(* ===================================================================== *)

Definition rack_tokens : list string := ["redfish"; "v1"; "PowerEquipment"; "RackPDUs"].
Definition unspaced (t : string) : bool := str_forallb (fun a => negb (is_space a)) t.

Lemma below_concat x ts us : below x (ts ++ us) = below (below x ts) us.
Proof. unfold below. by rewrite foldl_app. Qed.

Lemma unspaced_below x ts :
  unspaced x = true -> forallb unspaced ts = true -> unspaced (below x ts) = true.
Proof.
  unfold unspaced. revert x. induction ts as [|t ts IH]; intros x Hx Hts; [done|].
  simpl in Hts. apply andb_true_iff in Hts as [Ht Hts]. simpl. apply IH; [|done].
  unfold child. rewrite str_forallb_app, Hx. simpl. by rewrite Ht.
Qed.

(** What the expression of [RunBackendHelper] finds in a key of a unit *)
Lemma key_suffix_rack xname t ts :
  plain xname = true -> unspaced t = true -> forallb unspaced ts = true ->
  key_suffix RackPDUsKeyspace (below xname (rack_tokens ++ t :: ts)) = Some (RackPDUsKeyspace +:+ "/" +:+ below t ts).
Proof.
  intros Hx Ht Hts. rewrite below_suffix, key_suffix_device by (done || by apply plain_free).
  rewrite below_concat. change (below "" rack_tokens) with RackPDUsKeyspace.
  assert (Hkey : below RackPDUsKeyspace (t :: ts) = RackPDUsKeyspace +:+ "/" +:+ below t ts).
  { rewrite below_suffix. f_equal. apply (below_shift "/"). }
  rewrite Hkey. set (rest := "/" +:+ below t ts).
  assert (Hrest : str_forallb (fun a => negb (is_space a)) rest = true) by by apply (unspaced_below t ts).
  assert (Hdrop := str_drop_app RackPDUsKeyspace rest). assert (Hpre := has_prefix_app RackPDUsKeyspace rest).
  revert Hdrop Hpre. generalize (RackPDUsKeyspace +:+ rest). intros key Hdrop Hpre.
  by destruct key; cbn [key_suffix]; rewrite Hdrop, Hpre, Hrest.
Qed.

Lemma split_device_key_below t ts u us :
  plain t = true -> forallb plain (u :: us) = true -> ts = u :: us ->
  split_device_key ("/" +:+ below t ts) = Some (t, join "/" ts).
Proof.
  intros Ht Hts ->. unfold split_device_key. rewrite (trim_prefix_app "/"), split_below; [done|by apply plain_free|].
  apply List.Forall_forall. intros v Hv. rewrite List.forallb_forall in Hts. by apply plain_free, Hts.
Qed.

Lemma path_tokens_plain t : plain t = true -> path_tokens t = [t].
Proof. intros Ht. by apply (path_tokens_below t []). Qed.

(** The values of a pipeline that only sets *)
Lemma settings_effect l ks :
  fst (commands_effect (map expiring_command l) ks) = Ok tt /\
  forall k, Forall (fun e => ex_key e <> k) l -> snd (commands_effect (map expiring_command l) ks) !! k = ks !! k.
Proof.
  revert ks. induction l as [|e l IH]; intros ks; [done|]. cbn [map commands_effect command_effect expiring_command set_effect].
  specialize (IH (<[ex_key e := RStr (ex_value e)]> ks)).
  destruct (commands_effect (map expiring_command l) _) as [r ks2]. destruct IH as [Hr Hk]. cbn [fst snd] in *.
  split; [exact Hr|]. intros k Hl. apply Forall_cons in Hl as [Hne Hl]. by rewrite Hk, lookup_insert_ne.
Qed.

(* ===================================================================== *)
(** * Orders and requests                                                *)
(* ===================================================================== *)

Lemma upper_not a c : is_upper a = true -> is_upper c = false -> Ascii.eqb a c = false.
Proof. intros Ha Hc. apply Ascii.eqb_neq. congruence. Qed.

Lemma upper_not_space a : is_upper a = true -> is_space a = false.
Proof.
  intros Ha. unfold is_space. simpl. by rewrite !(upper_not a) by done.
Qed.

Lemma plain_name a b s : is_upper a = true -> is_upper b = true -> free_of slash s = true -> plain (String a (String b s)) = true.
Proof.
  intros Ha Hb Hs. unfold plain. unfold free_of in *. simpl.
  rewrite (upper_not a "."), (upper_not a slash), (upper_not b slash) by done. by rewrite Hs.
Qed.

Lemma two_digits_bytes n : str_forallb (fun a => is_digit a || Ascii.eqb a "-") (format_two_digits n) = true.
Proof.
  unfold format_two_digits. destruct (Z.ltb (Z.abs n) 10); [|apply format_int_bytes].
  destruct (Z.ltb n 0); simpl; apply format_int_bytes.
Qed.

Lemma two_digits_free c n : is_digit c = false -> c <> "-"%char -> free_of c (format_two_digits n) = true.
Proof.
  intros Hd Hc. eapply str_forallb_impl; [|apply two_digits_bytes].
  intros a Ha. destruct (Ascii.eqb_spec a c) as [->|]; [|done]. rewrite Hd in Ha. by apply Ascii.eqb_eq in Ha.
Qed.

Lemma unspaced_name a b n : is_upper a = true -> is_upper b = true -> unspaced (redfish_name a b n) = true.
Proof.
  intros Ha Hb. unfold unspaced, redfish_name. simpl. rewrite !upper_not_space by done. simpl.
  eapply str_forallb_impl; [|apply two_digits_bytes]. intros c Hc. unfold is_space. simpl.
  apply orb_true_iff in Hc as [Hc|Hc%Ascii.eqb_eq]; [|by subst c].
  assert (Hnd : forall d, is_digit d = false -> Ascii.eqb c d = false) by (intros d Hd; apply Ascii.eqb_neq; congruence).
  by rewrite !Hnd.
Qed.

Section outlet.
Context {X S P V K : Type} `{Laws : RedisLaws S} `{!PipelineOps S P} `{PLaws : !PipelineLaws S P}.
Context `{!Crypto K} `{ReadingText} `{FloatText}.
Context (out : Outside (X * S) V) (jaws_api : JAWS (X * S)) (storage : Storage (X * S) V).
Variable globals : lens X (Globals V).
Variable jaws : lens X (JAWSBackedHelper P V).
Variable cs : lens X (CertificateService P V K).
Context `{!LensLaws jaws, !LensIndep jaws globals}.
Variables url username password : string.
Context `{Ctl : !Controller jaws jaws_api url username password}.

(** The collector and the clock are not Redis, not the memory, and the events
    are not the controller. *)
Hypothesis http_silent : forall request x, exists r, silent x (DoHTTPAction out request) r x.
Hypothesis now_silent : forall x, exists t, silent x (now_RFC3339 out) t x.
Hypothesis power_globals : forall g x o, power (lput globals g x) o = power x o.

Variables (xname pduID : string) (a b : ascii) (n : Z).
Hypothesis Hxname : plain xname = true.
Hypothesis HpduID : plain pduID = true.
Hypothesis Hunspaced : unspaced pduID = true.
Hypothesis Ha : is_upper a = true.
Hypothesis Hb : is_upper b = true.
Hypothesis Hn : 0 <= n <= int64_max.

Definition outlet_key : string := below xname (rack_tokens ++ [pduID; "Outlets"; redfish_name a b n]).
Definition power_key : string := child outlet_key "PowerState".
Definition order_key : string :=
  below xname (rack_tokens ++ [pduID; "Outlets"; redfish_name a b n; "Actions"; "Outlet.PowerControl"]).

(** The device as [GetEnvForXname] describes it, and an order for the outlet *)
Definition known (x : X) : Prop :=
  mget xname (jaws_KnownDevices (lget jaws x)) = Some (mkDevice xname url username password).
Definition device_env : gomap string :=
  [("RTS_URL", url); ("RTS_USERNAME", username); ("RTS_PASSWORD", password); ("RTS_XNAME", xname)].

Lemma redfish_plain : plain (redfish_name a b n) = true.
Proof using Ha Hb. apply plain_name; [done..|]. by apply two_digits_free. Qed.
Lemma jaws_plain : plain (jaws_name a b n) = true.
Proof using Ha Hb. apply plain_name; [done..|]. by apply format_int_free. Qed.

Lemma path_join_control what :
  plain what = true -> path_join ["/" +:+ what +:+ "/outlets"; jaws_name a b n] = "/" +:+ what +:+ "/outlets/" +:+ jaws_name a b n.
Proof using Ha Hb.
  intros Hw. assert (E : "/" +:+ what +:+ "/outlets" = below "" [what; "outlets"]).
  { simpl. unfold child. rewrite str_app_nil. by rewrite !str_app_cons, str_app_nil. }
  rewrite E, path_join_root.
  - cbn [map List.concat]. rewrite path_tokens_plain by apply jaws_plain. simpl. unfold child.
    rewrite !str_app_cons, !str_app_nil, !str_app_assoc. by rewrite !str_app_cons, str_app_nil.
  - simpl. by rewrite Hw.
  - simpl. rewrite path_tokens_plain by apply jaws_plain. simpl. by rewrite jaws_plain.
Qed.

Lemma tokens_of_outlet last :
  plain last = true ->
  List.concat (map path_tokens [RackPDUsKeyspace; pduID; "Outlets"; redfish_name a b n; last]) =
  rack_tokens ++ [pduID; "Outlets"; redfish_name a b n; last].
Proof using Ha Hb HpduID.
  intros Hl. cbn [map List.concat]. rewrite (path_tokens_plain pduID), (path_tokens_plain (redfish_name a b n)),
    (path_tokens_plain last) by (done || apply redfish_plain). by vm_compute.
Qed.

(** ** What is asked *)

Lemma route_parts u us env s :
  Forall (fun t => free_of slash t = true) (u :: us) ->
  route (S:=X * S) env xname pduID (join "/" ("Outlets" :: redfish_name a b n :: u :: us)) s =
  route_outlet env xname pduID (join "/" ("Outlets" :: redfish_name a b n :: u :: us)) s /\
  split_slash (trim_prefix "Outlets/" (join "/" ("Outlets" :: redfish_name a b n :: u :: us))) = redfish_name a b n :: u :: us.
Proof using Ha Hb.
  intros Hus. split; [done|].
  change (join "/" ("Outlets" :: redfish_name a b n :: u :: us)) with ("Outlets/" +:+ join "/" (redfish_name a b n :: u :: us)).
  rewrite trim_prefix_app, below_join. by apply split_below; [apply plain_free, redfish_plain|].
Qed.

Lemma route_order p s :
  route (S:=X * S) (("PowerState", p) :: device_env) xname pduID
    (join "/" ["Outlets"; redfish_name a b n; "Actions"; "Outlet.PowerControl"]) s =
  (Ret (Ok (mkRoute "PATCH" ("/control/outlets/" +:+ jaws_name a b n) (PayloadStrings [("control_action", p)])
              [power_key] StatusNoContent)), s).
Proof using Ha Hb Hn HpduID Hxname.
  destruct (route_parts "Actions" ["Outlet.PowerControl"] (("PowerState", p) :: device_env) s) as [-> Hparts];
    [by repeat constructor|].
  unfold route_outlet. rewrite Hparts. erewrite bind_step by reflexivity. rewrite to_jaws by done.
  erewrite bind_step by reflexivity. change (String.eqb "Actions" "Actions") with true. cbv iota.
  erewrite bind_step by reflexivity.
  change (path_join ["/control/outlets"; _]) with (path_join ["/" +:+ "control" +:+ "/outlets"; jaws_name a b n]).
  rewrite path_join_control by done. rewrite (path_join_device xname), tokens_of_outlet
    by (done || (rewrite tokens_of_outlet by done; simpl; by rewrite HpduID, redfish_plain)).
  unfold power_key, outlet_key. by rewrite below_app, <- app_assoc.
Qed.

Lemma route_state env s :
  route (S:=X * S) env xname pduID (join "/" ["Outlets"; redfish_name a b n; "PowerState"]) s =
  (Ret (Ok (query ("/monitor/outlets/" +:+ jaws_name a b n))), s).
Proof using Ha Hb Hn.
  destruct (route_parts "PowerState" [] env s) as [-> Hparts]; [by repeat constructor|].
  unfold route_outlet. rewrite Hparts. erewrite bind_step by reflexivity. rewrite to_jaws by done.
  erewrite bind_step by reflexivity. change (String.eqb "PowerState" _) with false. cbv iota.
  change (path_join ["/monitor/outlets"; _]) with (path_join ["/" +:+ "monitor" +:+ "/outlets"; jaws_name a b n]).
  by rewrite path_join_control.
Qed.

(** ** A request up to the controller *)

Lemma wpm_request x ks env u us r (Q : outcome (result string) -> X -> keys -> Prop) :
  known x -> mget "RTS_URL" env = Some url -> mget "RTS_USERNAME" env = Some username ->
  mget "RTS_PASSWORD" env = Some password -> mget "RTS_XNAME" env = Some xname ->
  forallb plain (u :: us) = true -> forallb unspaced (u :: us) = true ->
  (forall s, route (S:=X * S) env xname pduID (join "/" (u :: us)) s = (Ret (Ok r), s)) ->
  wpm x ks (ask_controller out jaws_api globals jaws (below xname (rack_tokens ++ pduID :: u :: us))
              url username password xname pduID r) Q ->
  wpm x ks (jaws_RunBackendHelper out jaws_api globals jaws (below xname (rack_tokens ++ pduID :: u :: us)) [] env) Q.
Proof using Laws Hxname HpduID Hunspaced.
  intros Hknown E1 E2 E3 E4 Hplain Hsp Hroute HQ. unfold jaws_RunBackendHelper. rewrite E1, E2, E3, E4. cell_steps.
  assert (Hmem : mmem xname (jaws_KnownDevices (lget jaws x)) = true) by (unfold mmem; by rewrite Hknown).
  rewrite Hmem. cbn [negb]. rewrite key_suffix_rack, trim_prefix_app by done.
  destruct (String.eqb_spec ("/" +:+ below pduID (u :: us)) (below xname (rack_tokens ++ pduID :: u :: us))) as [E|_].
  { exfalso. assert (Hroot := plain_not_rooted xname (below "" (rack_tokens ++ pduID :: u :: us)) Hxname).
    rewrite <- below_suffix, <- E in Hroot. by rewrite has_prefix_app in Hroot. }
  rewrite (split_device_key_below _ _ u us) by done. apply wpm_bind.
  apply (wpm_mem x ks _ (Ok r) x); [intros s; apply Hroute|]. exact HQ.
Qed.

(** ** The order *)

Lemma wpm_order x ks p (Q : outcome (result string) -> X -> keys -> Prop) :
  known x ->
  (forall x1, known x1 -> power x1 (jaws_name a b n) = switched p -> lget jaws x1 = lget jaws x ->
     Q (Ret (Ok "")) x1 (delete power_key ks)) ->
  wpm x ks (jaws_RunBackendHelper out jaws_api globals jaws order_key [] (("PowerState", p) :: device_env)) Q.
Proof using Laws Ctl http_silent now_silent power_globals Hxname HpduID Hunspaced Ha Hb Hn LensIndep0.
  intros Hknown HQ. unfold order_key.
  apply (wpm_request _ _ _ "Outlets" [redfish_name a b n; "Actions"; "Outlet.PowerControl"]
    (mkRoute "PATCH" ("/control/outlets/" +:+ jaws_name a b n) (PayloadStrings [("control_action", p)]) [power_key] StatusNoContent));
    try done.
  - simpl. by rewrite redfish_plain.
  - simpl. by rewrite unspaced_name.
  - intros s. by apply route_order.
  - unfold ask_controller. apply wpm_bind. simpl.
    set (request := mkRequest _ _ _ _ _ _).
    destruct (order_switches x (jaws_name a b n) p request) as (x1 & Hs & Hpower & Hsame); [done| |done..|].
    { unfold request. simpl. by rewrite !str_app_cons, str_app_nil. }
    eapply wpm_silent; [exact Hs|]. cell_steps. unfold order_done. apply wpm_bind. unfold invalidateRedisKeys. simpl.
    apply wpm_bind, wpm_bind, wpm_lift, wp_del. cell_steps. apply wpm_bind. unfold outlet_switched. simpl.
    apply (wpm_postRFPowerEvent out globals http_silent now_silent).
    intros r g. split; cell_steps; apply HQ; try done; unfold known; rewrite ?power_globals, ?indep_get', ?Hsame; done.
Qed.

(** ** The answer *)

Definition outlet_tokens : list string := rack_tokens ++ [pduID; "Outlets"; redfish_name a b n].

Lemma outlet_plain us : forallb plain us = true -> forallb plain (outlet_tokens ++ us) = true.
Proof using Ha Hb HpduID. intros Hus. rewrite forallb_app, Hus. unfold outlet_tokens. simpl. by rewrite HpduID, redfish_plain. Qed.

Lemma outlet_base : path_join [xname +:+ RackPDUsKeyspace; pduID; "Outlets"; redfish_name a b n] = outlet_key.
Proof using Hxname Ha Hb HpduID.
  change RackPDUsKeyspace with (below "" rack_tokens). rewrite <- below_suffix.
  assert (Htok : List.concat (map path_tokens [pduID; "Outlets"; redfish_name a b n]) = [pduID; "Outlets"; redfish_name a b n]).
  { cbn [map List.concat]. by rewrite (path_tokens_plain pduID), (path_tokens_plain (redfish_name a b n)) by (done || apply redfish_plain). }
  rewrite path_join_below, Htok; [done|done..|]. rewrite Htok. simpl. by rewrite HpduID, redfish_plain.
Qed.

Lemma outlet_value us :
  forallb plain us = true -> path_join (outlet_key :: us) = below xname (outlet_tokens ++ us).
Proof using Hxname Ha Hb HpduID.
  intros Hus. assert (Htok : List.concat (map path_tokens us) = us).
  { clear -Hus. induction us as [|u us IH]; [done|]. simpl in *. apply andb_true_iff in Hus as [Hu Hus].
    by rewrite path_tokens_plain, IH. }
  unfold outlet_key. rewrite path_join_below, Htok; [done|done| |by rewrite Htok].
  rewrite <- (app_nil_r (_ ++ _)). by apply outlet_plain.
Qed.

Lemma outlet_value_ne us :
  forallb plain us = true -> us <> ["PowerState"] -> path_join (outlet_key :: us) <> power_key.
Proof using Hxname Ha Hb HpduID.
  intros Hus Hne E. rewrite outlet_value in E by done. unfold power_key, outlet_key in E. rewrite below_app in E.
  apply (f_equal path_tokens) in E. rewrite !path_tokens_below in E; [|done|by apply (outlet_plain ["PowerState"])|done|by apply outlet_plain].
  injection E as E. by apply Hne.
Qed.

Lemma monitor_effect polling outlet ks :
  fst (commands_effect (map expiring_command (monitor_values polling outlet outlet_key)) ks) = Ok tt /\
  snd (commands_effect (map expiring_command (monitor_values polling outlet outlet_key)) ks) !! power_key
  = Some (RStr (mo_State outlet)).
Proof using Hxname Ha Hb HpduID.
  split; [apply settings_effect|]. unfold monitor_values.
  assert (Hkey : path_join [outlet_key; "PowerState"] = power_key).
  { rewrite outlet_value by done. unfold power_key, outlet_key. rewrite below_app. done. }
  rewrite Hkey. match goal with |- context [map expiring_command (?e :: ?l)] => set (rest := l) end.
  cbn [map commands_effect command_effect expiring_command set_effect ex_key ex_value].
  destruct (settings_effect rest (<[power_key := RStr (mo_State outlet)]> ks)) as [_ Hrest].
  specialize (Hrest power_key). destruct (commands_effect (map expiring_command rest) _) as [r ks2]. cbn [snd] in *.
  rewrite Hrest; [apply lookup_insert_eq|]. unfold rest. repeat constructor; by apply outlet_value_ne.
Qed.

Lemma reply_outlet polling o m :
  reply_values jaws_api polling ("/monitor/outlets/" +:+ o) xname pduID (VObject m) =
  ret (S:=X * S) (Some (undecoded (Decode_MonitorOutlet jaws_api m)
    (fun outlet => unpopulated (populateRedisForMonitorOutlet polling outlet xname pduID)))).
Proof. reflexivity. Qed.

Lemma wpm_state x ks (Q : outcome (result string) -> X -> keys -> Prop) :
  known x ->
  (forall ks', ks' !! power_key = Some (RStr (power x (jaws_name a b n))) -> Q (Ret (Ok (power x (jaws_name a b n)))) x ks') ->
  wpm x ks (jaws_RunBackendHelper out jaws_api globals jaws power_key [] device_env) Q.
Proof using Laws PLaws Ctl Hxname HpduID Hunspaced Ha Hb Hn.
  intros Hknown HQ. assert (Hkey : power_key = below xname (rack_tokens ++ pduID :: "Outlets" :: [redfish_name a b n; "PowerState"])).
  { unfold power_key, outlet_key. by rewrite below_app, <- app_assoc. }
  rewrite Hkey. apply (wpm_request _ _ _ "Outlets" [redfish_name a b n; "PowerState"]
    (query ("/monitor/outlets/" +:+ jaws_name a b n))); try done.
  - simpl. by rewrite redfish_plain.
  - simpl. by rewrite unspaced_name.
  - intros s. by apply route_state.
  - rewrite <- Hkey. unfold ask_controller. apply wpm_bind. set (request := mkRequest _ _ _ _ _ _).
    destruct (query_reports x (jaws_name a b n) request) as (m & outlet & Hs & Hdec & Hid & Hst); [done..|].
    eapply wpm_silent; [exact Hs|]. cell_steps. unfold store_reply. cell_steps. cbn [rt_urlPath query].
    rewrite reply_outlet. cell_steps. rewrite Hdec. cbn [undecoded].
    unfold populateRedisForMonitorOutlet. rewrite Hid, to_redfish, outlet_base by done. cbn [unpopulated]. cell_steps.
    rewrite pipe_cmds_expiring. unfold startPipeline. rewrite law_pipeline, app_nil_l.
    destruct (monitor_effect (PollingEnabled (lget jaws x)) outlet ks) as [-> Hstate]. cell_steps. rewrite Hstate.
    cbn [get_reply]. rewrite Hst. rewrite Hst in Hstate. by apply HQ.
Qed.

(* ===================================================================== *)
(** * Through the dispatcher                                             *)
(* ===================================================================== *)

Context (rfd : RedfishDispatcher (X * S)).
Hypothesis no_files : forall s file, file_mode (world rfd) s file = None.
Hypothesis no_executor : forall s name, look_path (world rfd) s name = None.
Hypothesis one_backend : exists SecureStorage_Lookup GenerateFromPassword start_polling fuel, BackendHelpers rfd =
  [JAWSBackedHelper_backend out jaws_api storage globals jaws cs SecureStorage_Lookup GenerateFromPassword start_polling fuel].

(** A request for a property of the device *)
Definition request_for (uri : string) : Redis2Interface (X * S) := mkRedis2Interface _ rfd None uri xname.

Lemma wpm_ask {A} x ks (f : X * S -> A) r (Q : outcome A -> X -> keys -> Prop) :
  (forall s, f s = r) -> Q (Ret r) x ks -> wpm x ks (ask f) Q.
Proof using Laws. intros Hf. apply wpm_mem. intros s. unfold ask. by rewrite Hf. Qed.

(** A power state that is in Redis is shown as it is. *)
Lemma wpm_cached x ks uri p (Q : outcome (result string) -> X -> keys -> Prop) :
  ks !! power_key = Some (RStr p) -> Q (Ret (Ok p)) x ks -> wpm x ks (getValueForKey (request_for uri) power_key) Q.
Proof using Laws. intros Hks HQ. unfold getValueForKey. cell_steps. rewrite Hks. cbn [get_reply]. by cell_steps. Qed.

(** One that is not is asked for. *)
Lemma wpm_uncached x ks uri (Q : outcome (result string) -> X -> keys -> Prop) :
  known x -> ks !! power_key = None -> ks !! (power_key +:+ ":handler") = None ->
  (forall ks', ks' !! power_key = Some (RStr (power x (jaws_name a b n))) -> Q (Ret (Ok (power x (jaws_name a b n)))) x ks') ->
  wpm x ks (getValueForKey (request_for uri) power_key) Q.
Proof using Laws PLaws Ctl Hxname HpduID Hunspaced Ha Hb Hn no_files no_executor one_backend.
  intros Hknown Hks Hhandler HQ. unfold getValueForKey. cell_steps. rewrite Hks. cbn [get_reply].
  assert (Hodata : generateOData (request_for uri) power_key = ret (Err (ErrText "Unknown field name"))).
  { unfold generateOData, power_key. by rewrite path_base_child. }
  rewrite Hodata. cell_steps.
  unfold DoFileHandler. rewrite !decide_False by done. cbv zeta. apply wpm_bind, wpm_lift, wp_exists.
  rewrite bool_decide_false by (rewrite Hhandler; by intros [? ?]). cell_steps. apply (wpm_ask _ _ _ None); [intros s; apply no_files|]. cell_steps.
  unfold DoFileHandler_global. cell_steps. apply (wpm_ask _ _ _ None); [intros s; apply no_executor|]. cell_steps.
  destruct one_backend as (f1 & f2 & f3 & f4 & Eb). simpl. rewrite Eb. cbn [getValueForKey_backends request_for r2s_XName].
  assert (Hx : String.eqb xname "" = false) by by (destruct xname; [done|]). rewrite Hx.
  apply wpm_bind, wpm_bind, wpm_bind. simpl. unfold jaws_GetEnvForXname. cell_steps. rewrite Hknown. cell_steps.
  apply wpm_state; [done|]. intros ks' Hks'. cell_steps. by apply HQ.
Qed.

(** C10: an order to switch an outlet that is sent to its controller removes
    exactly the power state of the outlet from Redis; the next request for it
    is answered with the state the controller has switched to, which is kept:
    the request after it is answered from Redis. *)
Theorem switched_outlet_shown x ks p uri :
  known x -> ks !! (power_key +:+ ":handler") = None ->
  wpm x ks (jaws_RunBackendHelper out jaws_api globals jaws order_key [] (("PowerState", p) :: device_env)) (fun o x1 ks1 =>
    o = Ret (Ok "") /\ ks1 = delete power_key ks /\
    wpm x1 ks1 (getValueForKey (request_for uri) power_key) (fun o x2 ks2 =>
      o = Ret (Ok (switched p)) /\ x2 = x1 /\ ks2 !! power_key = Some (RStr (switched p)) /\
      wpm x2 ks2 (getValueForKey (request_for uri) power_key) (fun o x3 ks3 =>
        o = Ret (Ok (switched p)) /\ x3 = x2 /\ ks3 = ks2))).
Proof using Laws PLaws Ctl http_silent now_silent power_globals Hxname HpduID Hunspaced Ha Hb Hn LensIndep0 no_files no_executor one_backend.
  intros Hknown Hhandler. apply wpm_order; [done|]. intros x1 Hk1 Hp1 _. split_and!; [done..|].
  apply wpm_uncached; [done|apply lookup_delete_eq| |].
  - apply lookup_delete_None. by right.
  - rewrite Hp1. intros ks2 Hks2. split_and!; [done..|]. by apply (wpm_cached _ _ _ (switched p)).
Qed.
End outlet.
