(* ===== verification/PduPolling.v ===== *)
(** Polling of power distribution units: the telemetry, and one round for one
    controller ([internal/backend_helpers/jaws_polling.go]).

    When polling is enabled the readings of a controller are fetched again and
    again; they are sent to a collector as telemetry, and written to Redis
    without an expiration.  The channel of the events is a queue in memory;
    it holds ten thousand events in the program, which waits when it is full,
    and any number here. *)
From S2P Require Import Prelude Values Redis Pipelines RedisHelper Services.
From S2P Require Import CredentialStores Pdu PduSetup PduDevice.

(** [x, err := r; if err != nil { return ..., err }; k], without effects *)
Definition result_bind {A B} (r : result A) (k : A -> result B) : result B :=
  match r with Ok a => k a | Err e => Err e end.
#[local] Notation "'let?' x := r 'in' k" := (result_bind r (fun x => k)) (at level 10, x binder, k at level 200) : go_scope.

(* ===================================================================== *)
(** * Telemetry                                                          *)
(* ===================================================================== *)

(** [JAWsTelemetryHelper], without the channel *)
Record JAWsTelemetryHelper := mkTelemetryHelper { pduIDs : list string; pduControllerXName : string }.

(** The index of an identifier, cut to eight bits *)
Definition parseIndex (id : string) : result Z :=
  match parse_int (getIndexFromJAWsID id) with
  | None => Err (ErrText "Unable to parse outlet index")
  | Some outletIndex => Ok (outletIndex mod 2 ^ 8)
  end.

(** The position of the first unit whose name is a prefix of [id] *)
Fixpoint ordinal_of (id : string) (sorted : list string) : option nat :=
  match sorted with
  | [] => None
  | pduID :: sorted' => if has_prefix pduID id then Some O else S <$> ordinal_of id sorted'
  end.

(** The slice of the names is sorted in place ([sorted_by]). *)
Definition pduXName (helper : JAWsTelemetryHelper) (id : string) : result string :=
  match ordinal_of id (sort_strings (pduIDs helper)) with
  | Some ordinal => Ok (pduControllerXName helper +:+ "p" +:+ format_nat ordinal)
  | None => Err (ErrText ("Unable to determine PDU XName for given id " +:+ id))
  end.

Definition stripUnitPrefix (value : string) : result string :=
  match split_on ":"%char value with
  | _ :: ((_ :: _) as rest) => Ok (join ":" rest)
  | _ => Err (ErrText "unable to strip unit prefix")
  end.

Definition newEvent (helper : JAWsTelemetryHelper) (timestamp : string) (sensorType : CrayTelemetryType)
    (sensors : list CraySensorPayload) : telemetry_Event :=
  mkTelemetryEvent "" "" "" "" "" (pduControllerXName helper +:+ ":" +:+ telemetry_type_string sensorType) ""
    [mkTelemetryRecord "" "" timestamp "" "See Oem/CrayPayload property" (telemetry_type_string sensorType) [] "" None
       (Some (mkSensors sensors "River"))] 1.

(** The loop of an event: a reading gives a sensor, nothing, or an error that
    ends it. *)
Fixpoint event_sensors {A} (f : A -> result (option CraySensorPayload)) (l : list A) :
    result (list CraySensorPayload) :=
  match l with
  | [] => Ok []
  | a :: l' =>
      let? sensor := f a in
      let? sensors := event_sensors f l' in
      Ok (match sensor with Some s => s :: sensors | None => sensors end)
  end.

Definition invalid_type {A} (tType : CrayTelemetryType) : result A :=
  Err (ErrText ("Invalid telemetry type: " +:+ telemetry_type_string tType)).

Section telemetry.
Context `{ReadingText}.
Variable helper : JAWsTelemetryHelper.
Variable timestamp : string.

(** Where a sensor is, and its index *)
Definition locate (id : string) : result (string * Z) :=
  let? location := pduXName helper id in
  let? index := parseIndex id in
  Ok (location, index).

Definition pdu_sensor (location : string) (index : Z) (physicalContext subContext deviceContext value : string) :
    option CraySensorPayload :=
  Some (mkSensorPayload timestamp location "PDU" None physicalContext (Some index) subContext deviceContext None value).

(** Watt-hours, as joules *)
Definition outlet_sensor (tType : CrayTelemetryType) (outlet : MonitorOutlet) : result (option CraySensorPayload) :=
  let? at_ := locate (mo_ID outlet) in
  let? value :=
    match tType with
    | Voltage => Ok (fixed_float (mo_Voltage outlet))
    | Current => Ok (fixed_float (mo_Current outlet))
    | Energy => Ok (format_int (wrap64 (mo_Energy outlet * 3600)))
    | Temperature => invalid_type tType
    end in
  Ok (pdu_sensor (fst at_) (snd at_) "Outlet" "Output" "" value).

Definition OutletEvent (outlets : list MonitorOutlet) (tType : CrayTelemetryType) : result telemetry_Event :=
  let? sensors := event_sensors (outlet_sensor tType) outlets in
  Ok (newEvent helper timestamp tType sensors).

(** Kilowatt-hours, as joules *)
Definition phase_sensor (tType : CrayTelemetryType) (phase : Phase) : result (option CraySensorPayload) :=
  let? at_ := locate (ph_ID phase) in
  let '(fromPhase, toPhase) := getFromAndToPhasesFromPhaseName (ph_Name phase) in
  let? value :=
    match tType with
    | Voltage => Ok (fixed_float (ph_Voltage phase))
    | Current => Ok (fixed_float (ph_Current phase))
    | Energy => Ok (format_int (wrap64 (ph_Energy phase * 3600000)))
    | Temperature => invalid_type tType
    end in
  Ok (pdu_sensor (fst at_) (snd at_) "Phase" "Input" ("Line" +:+ fromPhase +:+ "ToLine" +:+ toPhase) value).

Definition PhaseEvent (phases : list Phase) (tType : CrayTelemetryType) : result telemetry_Event :=
  let? sensors := event_sensors (phase_sensor tType) phases in
  Ok (newEvent helper timestamp tType sensors).

Definition line_sensor (tType : CrayTelemetryType) (line : Line) : result (option CraySensorPayload) :=
  let? at_ := locate (ln_ID line) in
  let? deviceContext := stripUnitPrefix (ln_Name line) in
  match tType with
  | Current => Ok (pdu_sensor (fst at_) (snd at_) "Line" "Input" deviceContext (fixed_float (ln_Current line)))
  | _ => invalid_type tType
  end.

Definition LineEvent (lines : list Line) (tType : CrayTelemetryType) : result telemetry_Event :=
  let? sensors := event_sensors (line_sensor tType) lines in
  Ok (newEvent helper timestamp tType sensors).

Definition branch_sensor (tType : CrayTelemetryType) (branch : Branch) : result (option CraySensorPayload) :=
  let? at_ := locate (br_ID branch) in
  let? deviceContext := stripUnitPrefix (br_Name branch) in
  match tType with
  | Current => Ok (pdu_sensor (fst at_) (snd at_) "Branch" "Input" deviceContext (fixed_float (br_Current branch)))
  | _ => invalid_type tType
  end.

Definition BranchEvent (branches : list Branch) (tType : CrayTelemetryType) : result telemetry_Event :=
  let? sensors := event_sensors (branch_sensor tType) branches in
  Ok (newEvent helper timestamp Current sensors).

(** A sensor that is not plugged in is left out. *)
Definition climate_sensor (physicalContext id name : string) (reading : option float64)
    (tType : CrayTelemetryType) : result (option CraySensorPayload) :=
  let? at_ := locate id in
  match tType with
  | Temperature =>
      Ok (match reading with
          | None => None
          | Some r => pdu_sensor (fst at_) (snd at_) physicalContext "" name (fixed_float r)
          end)
  | _ => invalid_type tType
  end.

Definition TemperatureEvent (temperatureSensors : list TemperatureSensor) (tType : CrayTelemetryType) :
    result telemetry_Event :=
  let? sensors := event_sensors (fun t =>
    climate_sensor "Temperature" (ts_ID t) (ts_Name t) (ts_TemperatureCelsius t) tType) temperatureSensors in
  Ok (newEvent helper timestamp Temperature sensors).

Definition HumidityEvent (humiditySensors : list HumiditySensor) (tType : CrayTelemetryType) : result telemetry_Event :=
  let? sensors := event_sensors (fun h =>
    climate_sensor "Humidity" (hs_ID h) (hs_Name h) (hs_RelativeHumidity h) tType) humiditySensors in
  Ok (newEvent helper timestamp Temperature sensors).

(** What is sent: an event that could not be built is only logged. *)
Definition built (event : result telemetry_Event) : list telemetry_Event :=
  match event with Ok e => [e] | Err _ => [] end.

(** [len(event.Events[0].Oem.Sensors) == 0] *)
Definition no_sensors (event : telemetry_Event) : bool :=
  match te_Events event with
  | record :: _ => match tr_Oem record with Some oem => Nat.eqb (List.length (Sensors_ oem)) 0 | None => true end
  | [] => true
  end.

Definition SendOutletEvents (outlets : list MonitorOutlet) : list telemetry_Event :=
  built (OutletEvent outlets Voltage) ++ built (OutletEvent outlets Current) ++ built (OutletEvent outlets Energy).
Definition SendPhaseEvents (phases : list Phase) : list telemetry_Event :=
  built (PhaseEvent phases Voltage) ++ built (PhaseEvent phases Current) ++ built (PhaseEvent phases Energy).
Definition SendLineEvents (lines : list Line) : list telemetry_Event := built (LineEvent lines Current).
Definition SendBranchEvents (branches : list Branch) : list telemetry_Event := built (BranchEvent branches Current).
Definition SendTemperatureEvents (sensors : list TemperatureSensor) : list telemetry_Event :=
  List.filter (fun event => negb (no_sensors event)) (built (TemperatureEvent sensors Temperature)).
Definition SendHumidityEvents (sensors : list HumiditySensor) : list telemetry_Event :=
  List.filter (fun event => negb (no_sensors event)) (built (HumidityEvent sensors Temperature)).
End telemetry.

(** The names of the units, after an event of [readings] was built: the slice
    belongs to the caller, too. *)
Definition sorted_by {A} (readings : list A) (ids : list string) : list string :=
  match readings with [] => ids | _ :: _ => sort_strings ids end.

(* ===================================================================== *)
(** * A round for one controller                                         *)
(* ===================================================================== *)

(** A loop that collects *)
Fixpoint collect {S A B} (f : A -> M S (list B)) (l : list A) : M S (list B) :=
  match l with
  | [] => ret []
  | a :: l' => bs <- f a ;; rest <- collect f l' ;; ret (bs ++ rest)
  end.

(** [id[0:1]] *)
Definition first_letter {S} (id : string) : M S string :=
  match id with
  | EmptyString => panic "runtime error: slice bounds out of range"
  | String a _ => ret (String a EmptyString)
  end.

Section poll.
Context {X S P V : Type} `{RedisOps S} `{!PipelineOps S P} `{ReadingText}.
Context (out : Outside (X * S) V) (jaws_api : JAWS (X * S)).
Variable jaws : lens X (JAWSBackedHelper P V).
Variable eventPayloads : lens X (list telemetry_Event).
(** [time.Now().UTC().Format(time.RFC3339Nano)] *)
Variable now_RFC3339Nano : M (X * S) string.

(** [eventPayloads <- event] *)
Definition send_all (events : list telemetry_Event) : M (X * S) unit :=
  q <- fetch eventPayloads ;; assign eventPayloads (q ++ events).

(** A pipeline; its error is only logged. *)
Definition write_readings (l : list expiring) : M (X * S) unit :=
  pipe_exec (queue_expiring (S:=S) l (startPipeline (S:=S) (P:=P))) ;; ret tt.

(** The readings of one kind: the events, then the values of every unit.
    The result is the slice of the names of the units. *)
Definition poll_kind {A} (get : Device -> M (X * S) (result (list A)))
    (send : JAWsTelemetryHelper -> string -> list A -> list telemetry_Event)
    (values : list string -> list A -> M (X * S) (list expiring)) (device : Device) (ids : list string) :
    M (X * S) (list string) :=
  got <- get device ;;
  match got with
  | Err _ => ret ids
  | Ok readings =>
      timestamp <- now_RFC3339Nano ;;
      send_all (send (mkTelemetryHelper ids (dev_Xname device)) timestamp readings) ;;
      let ids := sorted_by readings ids in
      l <- values ids readings ;;
      write_readings l ;;
      ret ids
  end.

(** The values for each of the units *)
Definition of_units {A} (f : list A -> string -> string -> list expiring) (xname : string)
    (ids : list string) (readings : list A) : M (X * S) (list expiring) :=
  ret (List.concat (map (f readings xname) ids)).

(** The values of a reading whose unit is the first letter of its name *)
Definition of_letters {A} (ID : A -> string) (f : A -> string -> string -> list expiring) (xname : string)
    (ids : list string) (readings : list A) : M (X * S) (list expiring) :=
  collect (fun r => pduID <- first_letter (ID r) ;; ret (f r xname pduID)) readings.

(** The values of an outlet, none when its name is not one *)
Definition outlet_readings (polling : bool) (outlet : MonitorOutlet) (xname pduID : string) : list expiring :=
  match populateRedisForMonitorOutlet polling outlet xname pduID with Ok l => l | Err _ => [] end.

(** The kinds that are polled every so often: a key that expires is the
    timer. *)
Definition when_due (key : string) (timeout : Z) (otherwise : M (X * S) (list string)) (due : M (X * S) (list string)) :
    M (X * S) (list string) :=
  poll <- checkTimeoutKey (P:=P) key timeout ;;
  match poll with
  | Ok true => due
  | _ => otherwise
  end.

(** The states of the units, once a minute; an error ends the round. *)
Definition poll_units (polling : bool) (device : Device) : M (X * S) (result unit) :=
  poll <-? checkTimeoutKey (P:=P) (path_join [dev_Xname device; "poll"; "monitor"; "units"]) Minute ;;
  if poll : bool then
    units <-? getMonitorUnits out jaws_api device ;;
    write_readings (List.concat (map (fun u =>
      populateRedisForMonitorUnits polling units (dev_Xname device) (mu_Id u)) units)) ;;
    ret (Ok tt)
  else ret (Ok tt).

Definition pollPDU (device : Device) : M (X * S) unit :=
  let xname := dev_Xname device in
  h <- fetch jaws ;;
  let polling := PollingEnabled h in
  started <- poll_units polling device ;;
  match started with
  | Err _ => ret tt
  | Ok _ =>
      members <- collectionMembers (path_join [xname; "redfish"; "v1"; "PowerEquipment"; "RackPDUs"; "Members"]) ;;
      match members with
      | Err _ => ret tt
      | Ok ids =>
          ids <- poll_kind (getMonitorPhases out jaws_api) SendPhaseEvents
                   (of_units (populateRedisForPhases polling) xname) device ids ;;
          ids <- poll_kind (getMonitorLines out jaws_api) SendLineEvents
                   (of_units (populateRedisForLines polling) xname) device ids ;;
          ids <- poll_kind (getMonitorOutlets out jaws_api) SendOutletEvents
                   (of_letters mo_ID (outlet_readings polling) xname) device ids ;;
          ids <- poll_kind (getMonitorBranches out jaws_api) SendBranchEvents
                   (of_letters br_ID (populateRedisForBranch polling) xname) device ids ;;
          ids <- when_due (path_join [xname; "poll"; "monitor"; "temperature"]) (PollingTemperatureInterval h) (ret ids)
                   (poll_kind (getMonitorSensorsTemp out jaws_api) SendTemperatureEvents
                      (of_units (populateRedisForTemperature polling) xname) device ids) ;;
          when_due (path_join [xname; "poll"; "monitor"; "humidity"]) (PollingHumidityInterval h) (ret ids)
            (poll_kind (getMonitorSensorsHumidity out jaws_api) SendHumidityEvents
               (of_units (populateRedisForHumidity polling) xname) device ids) ;;
          ret tt
      end
  end.

(** [sendTelemetryEvents], of one event *)
Definition sendTelemetryEvent (event : telemetry_Event) : M (X * S) unit :=
  if no_sensors event then ret tt else postTelemetryEvent out event ;; ret tt.
End poll.

Example index_wraps : parseIndex "AA256" = Ok 0.
Proof. reflexivity. Qed.
Example strip_once : stripUnitPrefix "BA:L3-L1-BR6" = Ok "L3-L1-BR6".
Proof. by vm_compute. Qed.
