(* ===== verification/PduFacts.v ===== *)
(** Which unit a reading belongs to.

    A controller reports the branches, lines, outlets and sensors of all its
    units in one list each; a reading belongs to the unit whose name is a
    prefix of its own.  When no unit's name begins with another's, the readings
    are divided among the units ([units_partition]), and the telemetry tells
    for each of them which unit it comes from ([reading_located]); an event
    has a sensor for each of the outlets, or is not sent ([outlet_events]). *)
From Stdlib Require Import Sorted.
From S2P Require Import Prelude Ordering Values Pipelines RedisHelper Services Pdu PduDevice PduOutlets PduPolling.

(* ===================================================================== *)
(** * Prefixes                                                           *)
(* ===================================================================== *)

(** No name of a unit is the beginning of another's. *)
Definition separate (ids : list string) : Prop :=
  NoDup ids /\ forall i j, List.In i ids -> List.In j ids -> has_prefix i j = true -> i = j.
Definition covered (ids : list string) (id : string) : Prop :=
  exists i, List.In i ids /\ has_prefix i id = true.

Lemma has_prefix_cons a b p s : has_prefix (String a p) (String b s) = Ascii.eqb a b && has_prefix p s.
Proof.
  unfold has_prefix. cbn [String.prefix]. destruct (ascii_dec a b) as [->|Hn]; [by rewrite Ascii.eqb_refl|].
  by rewrite (proj2 (Ascii.eqb_neq a b) Hn).
Qed.

(** Of two beginnings of a text one is the beginning of the other. *)
Lemma prefixes_comparable i j s :
  has_prefix i s = true -> has_prefix j s = true -> has_prefix i j = true \/ has_prefix j i = true.
Proof.
  revert j s. induction i as [|a i IH]; intros j s Hi Hj; [left; by destruct j|].
  destruct j as [|b j]; [right; done|]. destruct s as [|c s]; [done|].
  rewrite has_prefix_cons in Hi, Hj. apply andb_true_iff in Hi as [->%Ascii.eqb_eq Hi], Hj as [->%Ascii.eqb_eq Hj].
  rewrite !has_prefix_cons, Ascii.eqb_refl. by apply (IH j s).
Qed.

Lemma separate_owner ids i j id :
  separate ids -> List.In i ids -> List.In j ids -> has_prefix i id = true -> has_prefix j id = true -> i = j.
Proof.
  intros [_ Hs] Hi Hj Hpi Hpj. destruct (prefixes_comparable i j id Hpi Hpj) as [H|H]; [by apply Hs|].
  symmetry. by apply Hs.
Qed.

(* ===================================================================== *)
(** * The units                                                          *)
(* ===================================================================== *)

(** The elements of a list go to the one owner that each of them has. *)
Lemma filter_owners {A U} (p : U -> A -> bool) (us : list U) (l : list A) :
  (forall a, List.In a l -> exists us1 u us2, us = us1 ++ u :: us2 /\ p u a = true /\
    forall v, List.In v (us1 ++ us2) -> p v a = false) ->
  List.concat (map (fun u => List.filter (p u) l) us) ≡ₚ l.
Proof.
  induction l as [|a l IH]; intros Hl.
  - induction us as [|u us IHu]; [done|]. simpl. apply IHu. by intros a [].
  - destruct (Hl a (or_introl eq_refl)) as (us1 & u & us2 & E & Hu & Hv).
    transitivity (a :: List.concat (map (fun u => List.filter (p u) l) us));
      [|apply Permutation_cons; [done|]; apply IH; intros b Hb; apply Hl; by right].
    rewrite E, !map_app, !concat_app. cbn [map List.concat List.filter]. rewrite Hu.
    assert (Hsame : forall us', (forall v, List.In v us' -> p v a = false) ->
      map (fun v => List.filter (p v) (a :: l)) us' = map (fun v => List.filter (p v) l) us').
    { intros us' Hus'. apply List.map_ext_in. intros v Hin. simpl. by rewrite Hus'. }
    cbn [List.filter] in Hsame. rewrite !Hsame by (intros v Hin; apply Hv, List.in_or_app; tauto).
    symmetry. apply Permutation_middle.
Qed.

Definition gather {A} (f : PDUnit -> list A) (us : list PDUnit) : list A := List.concat (map f us).

Lemma concat_map_app {A U} (f g : U -> list A) us :
  List.concat (map (fun u => f u ++ g u) us) ≡ₚ List.concat (map f us) ++ List.concat (map g us).
Proof.
  induction us as [|u us IH]; [done|]. simpl. rewrite IH, <- !app_assoc. apply Permutation_app_head.
  rewrite !app_assoc. apply Permutation_app_tail, Permutation_app_comm.
Qed.

Lemma owned_by_one us id :
  separate (map u_Id us) -> covered (map u_Id us) id ->
  exists us1 u us2, us = us1 ++ u :: us2 /\ has_prefix (u_Id u) id = true /\
    forall v, List.In v (us1 ++ us2) -> has_prefix (u_Id v) id = false.
Proof.
  intros Hs (i & Hi & Hp). apply List.in_map_iff in Hi as (u & <- & Hu). apply List.in_split in Hu as (us1 & us2 & ->).
  exists us1, u, us2. split; [done|]. split; [done|]. intros v Hv. destruct (has_prefix (u_Id v) id) eqn:E; [|done].
  assert (Hin : List.In v (us1 ++ u :: us2)) by (rewrite !List.in_app_iff in *; simpl; tauto).
  assert (Heq : u_Id u = u_Id v).
  { apply (separate_owner _ _ _ id Hs); [apply List.in_map, List.in_elt|by apply List.in_map|done..]. }
  destruct Hs as [Hnd _]. rewrite map_app in Hnd. cbn [map] in Hnd. exfalso.
  apply NoDup_ListNoDup, List.NoDup_remove_2 in Hnd. apply Hnd. rewrite Heq, <- map_app. by apply List.in_map.
Qed.

Lemma gather_assigned {A} (ID : A -> string) (f : PDUnit -> list A) us l :
  separate (map u_Id us) -> (forall a, List.In a l -> covered (map u_Id us) (ID a)) ->
  List.concat (map (fun u => f u ++ List.filter (fun a => has_prefix (u_Id u) (ID a)) l) us) ≡ₚ gather f us ++ l.
Proof.
  intros Hs Hl. rewrite concat_map_app. apply Permutation_app_head.
  apply (filter_owners (fun u a => has_prefix (u_Id u) (ID a))). intros a Ha. by apply owned_by_one, Hl.
Qed.

(** The names of what a controller reports *)
Definition reported (inv : Inventory) : list string :=
  map br_ID (inv_branches inv) ++ map ln_ID (inv_lines inv) ++ map ph_ID (inv_phases inv) ++
  map mo_ID (inv_outlets inv) ++ map co_ID (inv_outletConfigs inv) ++
  map ts_ID (inv_temperatureSensors inv) ++ map hs_ID (inv_humiditySensors inv).

(** C33: when no name of a unit is the beginning of another's, and everything
    that is reported begins with the name of a unit, the assignment divides
    what is reported among the units: nothing is lost, and nothing comes
    twice. *)
Theorem units_partition us inv :
  separate (map u_Id us) -> (forall id, List.In id (reported inv) -> covered (map u_Id us) id) ->
  let vs := map (assign_unit inv) us in
  map u_Id vs = map u_Id us /\
  gather u_Branches vs ≡ₚ gather u_Branches us ++ inv_branches inv /\
  gather u_Lines vs ≡ₚ gather u_Lines us ++ inv_lines inv /\
  gather u_Phases vs ≡ₚ gather u_Phases us ++ inv_phases inv /\
  gather u_Outlets vs ≡ₚ gather u_Outlets us ++ inv_outlets inv /\
  gather u_OutletConfigs vs ≡ₚ gather u_OutletConfigs us ++ inv_outletConfigs inv /\
  gather u_TemperatureSensors vs ≡ₚ gather u_TemperatureSensors us ++ inv_temperatureSensors inv /\
  gather u_HumiditySensors vs ≡ₚ gather u_HumiditySensors us ++ inv_humiditySensors inv.
Proof.
  intros Hs Hc vs. unfold vs, gather. rewrite !map_map. split; [done|]. unfold reported in Hc.
  split_and!; apply (gather_assigned _ _ us _ Hs); intros a Ha; apply Hc; rewrite !List.in_app_iff, !List.in_map_iff;
    naive_solver.
Qed.

(* ===================================================================== *)
(** * The telemetry                                                      *)
(* ===================================================================== *)

Lemma ltb_leb x y : String.ltb x y = negb (String.leb y x).
Proof. unfold String.ltb, String.leb. rewrite (String.compare_antisym x y). by destruct (String.compare y x). Qed.

(** The names before [i] *)
Definition before (i : string) (ids : list string) : list string := List.filter (fun j => String.ltb j i) ids.

Lemma ordinal_of_sorted ids i id :
  StronglySorted (fun a b => String.leb a b = true) ids ->
  (forall j, List.In j ids -> has_prefix j id = true -> j = i) -> List.In i ids -> has_prefix i id = true ->
  ordinal_of id ids = Some (List.length (before i ids)).
Proof.
  intros Hsorted. induction Hsorted as [|x l Hl IH Hx]; intros Honly Hin Hp; [done|].
  unfold before. cbn [ordinal_of List.filter]. destruct (has_prefix x id) eqn:E.
  - apply Honly in E as ->; [|by left]. rewrite ltb_leb.
    assert (Hii : String.leb i i = true) by by destruct (String.leb_total i i). rewrite Hii. cbn [negb].
    replace (List.filter _ l) with (@nil string); [done|]. clear -Hx.
    induction Hx as [|y l Hy Hl IH]; [done|]. simpl. by rewrite ltb_leb, Hy.
  - destruct Hin as [->|Hin]; [congruence|]. rewrite IH by (auto using List.in_cons). rewrite ltb_leb.
    destruct (String.leb i x) eqn:Ei; [|done].
    rewrite List.Forall_forall in Hx. assert (x = i) as -> by by apply String.leb_antisym; auto. congruence.
Qed.

Lemma before_perm i l1 l2 : l1 ≡ₚ l2 -> List.length (before i l1) = List.length (before i l2).
Proof.
  unfold before. induction 1 as [|x l l' _ IH|x y l|? ? ? _ IH1 _ IH2]; [done| | |congruence].
  - simpl. destruct (String.ltb x i); simpl; by rewrite ?IH.
  - simpl. destruct (String.ltb x i), (String.ltb y i); done.
Qed.

Lemma pduXName_owner helper i id :
  separate (pduIDs helper) -> List.In i (pduIDs helper) -> has_prefix i id = true ->
  pduXName helper id = Ok (pduControllerXName helper +:+ "p" +:+ format_nat (List.length (before i (pduIDs helper)))).
Proof.
  intros Hs Hi Hp. unfold pduXName.
  assert (Hin : forall j, List.In j (sort_strings (pduIDs helper)) <-> List.In j (pduIDs helper)).
  { intros j. rewrite <- !list_elem_of_In. by rewrite sort_strings_perm. }
  rewrite (ordinal_of_sorted _ i); [by rewrite (before_perm i _ _ (sort_strings_perm _))|..].
  - apply Sorted_StronglySorted; [|apply sort_strings_sorted]. exact leb_transitive.
  - intros j Hj Hpj. apply Hin in Hj. by apply (separate_owner _ _ _ id Hs).
  - by apply Hin.
  - done.
Qed.

Lemma span_digits_all s : str_forallb is_digit s = true -> span_digits s = (s, "").
Proof.
  induction s as [|a s IH]; [done|]. simpl. intros [-> Hs]%andb_true_iff. by rewrite (IH Hs).
Qed.

Lemma format_int_digits n : 0 <= n -> str_forallb is_digit (format_int n) = true.
Proof.
  intros Hn. assert (Hu : forall d, str_forallb is_digit (NilZero.string_of_uint d) = true)
    by (intros d; destruct d; [done|apply (string_of_uint_digits (_ d))..]).
  unfold format_int. destruct n as [|p|p]; simpl; [done|apply Hu|lia].
Qed.

Lemma upper_not_digit a : is_upper a = true -> is_digit a = false.
Proof. intros Ha. unfold is_upper, is_digit in *. change (N_of_ascii "A") with 65%N in *.
  change (N_of_ascii "0") with 48%N. change (N_of_ascii "9") with 57%N.
  apply andb_true_iff in Ha as [Ha _]. apply N.leb_le in Ha. apply andb_false_iff. right. apply N.leb_gt. lia.
Qed.

Lemma index_of_jaws_name a b n :
  is_upper a = true -> is_upper b = true -> 0 <= n -> getIndexFromJAWsID (jaws_name a b n) = format_int n.
Proof.
  intros Ha Hb Hn. unfold getIndexFromJAWsID, jaws_name. cbn [index_after andb]. rewrite Ha. cbn [index_after andb].
  rewrite (upper_not_digit b Hb), Hb. cbn [index_after]. assert (Hd := format_int_digits n Hn).
  assert (Hne := format_int_nonempty n). destruct (format_int n) as [|c s]; [done|].
  assert (Hc : is_digit c = true) by by apply andb_true_iff in Hd as [? _].
  cbn [index_after andb]. rewrite Hc. cbn [andb default]. by rewrite span_digits_all.
Qed.

(** C38: a reading of an outlet is located at the unit its name begins with:
    the unit's number is the count of the names of units before it, in
    whatever order the units are given; the index of the outlet is its number
    cut to eight bits, so that of outlets 256 apart it is the same. *)
Theorem reading_located helper i a b n :
  separate (pduIDs helper) -> List.In i (pduIDs helper) -> has_prefix i (jaws_name a b n) = true ->
  is_upper a = true -> is_upper b = true -> 0 <= n <= int64_max ->
  locate helper (jaws_name a b n) =
  Ok (pduControllerXName helper +:+ "p" +:+ format_nat (List.length (before i (pduIDs helper))), n mod 256).
Proof.
  intros Hs Hi Hp Ha Hb Hn. unfold locate. rewrite (pduXName_owner helper i) by done. cbn [result_bind].
  unfold parseIndex. rewrite index_of_jaws_name by (done || lia). rewrite parse_format_int; [done|].
  unfold in_int64, int64_min. lia.
Qed.

(* ===================================================================== *)
(** * Events                                                             *)
(* ===================================================================== *)

(** What a function tells of each element of a list, or one it tells nothing
    of *)
Lemma each_or_not {A B} (at_ : A -> result B) l :
  (exists a e, List.In a l /\ at_ a = Err e) \/ (exists bs, Forall2 (fun a b => at_ a = Ok b) l bs).
Proof.
  induction l as [|a l IH]; [right; by exists []|]. destruct (at_ a) as [b|e] eqn:Ea.
  - destruct IH as [(a' & e & Hin & He)|(bs & Hbs)]; [left; exists a', e; auto using List.in_cons|].
    right. exists (b :: bs). by constructor.
  - left. exists a, e. auto using List.in_eq.
Qed.

(** A loop whose readings have a sensor where they have a place *)
Definition placed {A B} (at_ : A -> result B) (f : A -> result (option CraySensorPayload)) g : Prop :=
  forall a, match at_ a with Ok b => f a = Ok (Some (g a b)) | Err e => f a = Err e end.

Lemma event_sensors_placed {A B} (at_ : A -> result B) f g l bs :
  placed at_ f g -> Forall2 (fun a b => at_ a = Ok b) l bs -> event_sensors f l = Ok (zip_with g l bs).
Proof.
  intros Hf. induction 1 as [|a b l bs Hab _ IH]; [done|]. specialize (Hf a). rewrite Hab in Hf.
  cbn [event_sensors]. by rewrite Hf, IH.
Qed.

Lemma event_sensors_misplaced {A B} (at_ : A -> result B) f g l :
  placed at_ f g -> (exists a e, List.In a l /\ at_ a = Err e) -> exists e, event_sensors f l = Err e.
Proof.
  intros Hf (a & e & Hin & He). induction l as [|a' l IH]; [done|]. cbn [event_sensors].
  destruct Hin as [->|Hin].
  - specialize (Hf a). rewrite He in Hf. rewrite Hf. by exists e.
  - destruct (f a') as [s|e']; cbn [result_bind]; [|by exists e'].
    destruct (IH Hin) as [e' ->]. by exists e'.
Qed.

Section events.
Context `{ReadingText}.
Variables (helper : JAWsTelemetryHelper) (timestamp : string).

(** What an event tells of an outlet: voltage, current, or the energy in
    joules *)
Definition outlet_value (tType : CrayTelemetryType) (outlet : MonitorOutlet) : string :=
  match tType with
  | Voltage => fixed_float (mo_Voltage outlet)
  | Current => fixed_float (mo_Current outlet)
  | _ => format_int (wrap64 (mo_Energy outlet * 3600))
  end.
Definition outlet_payload (tType : CrayTelemetryType) (outlet : MonitorOutlet) (at_ : string * Z) : CraySensorPayload :=
  mkSensorPayload timestamp (fst at_) "PDU" None "Outlet" (Some (snd at_)) "Output" "" None (outlet_value tType outlet).

(** The three events of a list of outlets tell of each outlet, in order,
    where it is and what it reads; or none of them is sent, because one of the
    outlets belongs to no unit or has no index. *)
Theorem outlet_events outlets :
  (exists outlet err, List.In outlet outlets /\ locate helper (mo_ID outlet) = Err err) /\
    SendOutletEvents helper timestamp outlets = []
  \/ exists places, Forall2 (fun outlet place => locate helper (mo_ID outlet) = Ok place) outlets places /\
    SendOutletEvents helper timestamp outlets =
    map (fun tType => newEvent helper timestamp tType (zip_with (outlet_payload tType) outlets places))
      [Voltage; Current; Energy].
Proof.
  assert (Hp : forall tType, tType <> Temperature ->
    placed (fun o => locate helper (mo_ID o)) (outlet_sensor helper timestamp tType) (outlet_payload tType)).
  { intros tType Ht outlet. unfold outlet_sensor. destruct (locate helper (mo_ID outlet)); [by destruct tType|done]. }
  unfold SendOutletEvents, OutletEvent.
  destruct (each_or_not (fun o => locate helper (mo_ID o)) outlets) as [Hbad|(places & Hplaces)].
  - left. split; [exact Hbad|].
    destruct (event_sensors_misplaced _ _ _ _ (Hp Voltage ltac:(done)) Hbad) as [e1 ->].
    destruct (event_sensors_misplaced _ _ _ _ (Hp Current ltac:(done)) Hbad) as [e2 ->].
    by destruct (event_sensors_misplaced _ _ _ _ (Hp Energy ltac:(done)) Hbad) as [e3 ->].
  - right. exists places. split; [exact Hplaces|].
    rewrite (event_sensors_placed _ _ _ _ places (Hp Voltage ltac:(done)) Hplaces).
    rewrite (event_sensors_placed _ _ _ _ places (Hp Current ltac:(done)) Hplaces).
    by rewrite (event_sensors_placed _ _ _ _ places (Hp Energy ltac:(done)) Hplaces).
Qed.
End events.
