(* ===== verification/PduWorkers.v ===== *)
(** Polling of power distribution units: the workers
    ([internal/backend_helpers/jaws_polling.go], [doPolling], [collectData]
    and [sendTelemetryEvents]).

    The program runs one goroutine that submits the devices again and again,
    [PollingWorkers] goroutines that poll them, and as many that send the
    events.  [polling_step] is what one of them does next; a poll, and the
    sending of an event, are one step each.  [XNameSet] has a lock for each of
    its operations, but a worker asks whether a device is polled in one
    operation and marks it in another: [double_polling] is what can happen in
    between, [polling_exclusive] that nothing happens otherwise. *)
From stdpp Require Import relations.
From S2P Require Import Prelude Values Redis Pipelines RedisHelper Services CredentialStores Pdu PduSetup PduDevice.
From S2P Require Import PduPolling.

(** What a worker is doing: it waits, it has received a device, it has found
    that the device is not polled, it polls it, it has polled it. *)
Inductive worker_phase :=
  | Waiting
  | Received (device : Device)
  | Unmarked (device : Device)
  | Polling (device : Device)
  | Polled (device : Device).

(** The rest of the round that submits devices, the channel, the set of the
    devices that are polled, the workers, and the memory *)
Record pool (T : Type) := mkPool {
  todo : list Device;
  pendingEndpoints : list Device;
  CurrentPolling : XNameSet;
  worker_phases : list worker_phase;
  pool_memory : T;
}.
Arguments mkPool {T}.
Arguments todo {T}.
Arguments pendingEndpoints {T}.
Arguments CurrentPolling {T}.
Arguments worker_phases {T}.
Arguments pool_memory {T}.

Definition set_phase {T} (worker : nat) (phase : worker_phase) (p : pool T) : pool T :=
  mkPool (todo p) (pendingEndpoints p) (CurrentPolling p) (<[worker:=phase]> (worker_phases p)) (pool_memory p).
Definition set_polling_mark {T} (xname : string) (value : bool) (p : pool T) : pool T :=
  mkPool (todo p) (pendingEndpoints p) (XNameSet_Set (CurrentPolling p) xname value) (worker_phases p) (pool_memory p).

Section workers.
Context {X S P V : Type} `{RedisOps S} `{!PipelineOps S P} `{ReadingText}.
Context (out : Outside (X * S) V) (jaws_api : JAWS (X * S)).
Variable jaws : lens X (JAWSBackedHelper P V).
Variable eventPayloads : lens X (list telemetry_Event).
Variable now_RFC3339Nano : M (X * S) string.

(** [doPolling], up to its loop: the workers are numbered from 1 in the
    program *)
Definition start_workers (s : X * S) : pool (X * S) :=
  mkPool [] [] NewXNameSet (repeat Waiting (Z.to_nat (PollingWorkers (lget jaws (fst s))))) s.

Inductive polling_step : pool (X * S) -> pool (X * S) -> Prop :=
  (* for _, endpoint := range helper.KnownDevices *)
  | step_round pending cur ws s devices :
      devices ≡ₚ map snd (jaws_KnownDevices (lget jaws (fst s))) ->
      polling_step (mkPool [] pending cur ws s) (mkPool devices pending cur ws s)
  (* pendingEndpoints <- endpoint *)
  | step_submit device devices pending cur ws s :
      (List.length pending < List.length ws)%nat ->
      polling_step (mkPool (device :: devices) pending cur ws s) (mkPool devices (pending ++ [device]) cur ws s)
  (* for endpoint := range pendingEndpoints *)
  | step_receive worker device devices pending cur ws s :
      ws !! worker = Some Waiting ->
      polling_step (mkPool devices (device :: pending) cur ws s)
        (mkPool devices pending cur (<[worker:=Received device]> ws) s)
  (* if helper.CurrentPolling.Get(endpoint.Xname) *)
  | step_skip worker device p :
      worker_phases p !! worker = Some (Received device) ->
      XNameSet_Get (CurrentPolling p) (dev_Xname device) = true ->
      polling_step p (set_phase worker Waiting p)
  | step_check worker device p :
      worker_phases p !! worker = Some (Received device) ->
      XNameSet_Get (CurrentPolling p) (dev_Xname device) = false ->
      polling_step p (set_phase worker (Unmarked device) p)
  (* helper.CurrentPolling.Set(endpoint.Xname, true) *)
  | step_mark worker device p :
      worker_phases p !! worker = Some (Unmarked device) ->
      polling_step p (set_phase worker (Polling device) (set_polling_mark (dev_Xname device) true p))
  (* helper.pollPDU(ctx, endpoint, eventPayloads) *)
  | step_poll worker device devices pending cur ws s s' :
      ws !! worker = Some (Polling device) ->
      pollPDU out jaws_api jaws eventPayloads now_RFC3339Nano device s = (Ret tt, s') ->
      polling_step (mkPool devices pending cur ws s)
        (mkPool devices pending cur (<[worker:=Polled device]> ws) s')
  (* helper.CurrentPolling.Set(endpoint.Xname, false) *)
  | step_unmark worker device p :
      worker_phases p !! worker = Some (Polled device) ->
      polling_step p (set_phase worker Waiting (set_polling_mark (dev_Xname device) false p))
  (* for event := range eventPayloads *)
  | step_send event events devices pending cur ws s s' :
      ws <> [] -> lget eventPayloads (fst s) = event :: events ->
      sendTelemetryEvent out event (lput eventPayloads events (fst s), snd s) = (Ret tt, s') ->
      polling_step (mkPool devices pending cur ws s) (mkPool devices pending cur ws s').

(** The steps, if a worker marked a device at once after its check *)
Inductive atomic_step : pool (X * S) -> pool (X * S) -> Prop :=
  | atomic_check_mark worker device p :
      worker_phases p !! worker = Some (Received device) ->
      XNameSet_Get (CurrentPolling p) (dev_Xname device) = false ->
      atomic_step p (set_phase worker (Polling device) (set_polling_mark (dev_Xname device) true p))
  | atomic_other p p' :
      polling_step p p' -> (forall worker device, worker_phases p' !! worker <> Some (Unmarked device)) ->
      atomic_step p p'.

(** A worker that polls a device, or has done so and not said it *)
Definition polls (p : pool (X * S)) (worker : nat) (xname : string) : Prop :=
  exists device, dev_Xname device = xname /\
    (worker_phases p !! worker = Some (Polling device) \/ worker_phases p !! worker = Some (Polled device)).

(** One worker at most polls a device, and the device is marked. *)
Definition exclusive (p : pool (X * S)) : Prop :=
  forall worker xname, polls p worker xname ->
    XNameSet_Get (CurrentPolling p) xname = true /\ forall other, polls p other xname -> other = worker.
Definition no_unmarked (p : pool (X * S)) : Prop :=
  forall worker device, worker_phases p !! worker <> Some (Unmarked device).

(* ===================================================================== *)
(** * Theorems                                                           *)
(* ===================================================================== *)

Lemma XNameSet_Get_Set s x y v :
  XNameSet_Get (XNameSet_Set s x v) y = if String.eqb x y then v else XNameSet_Get s y.
Proof.
  unfold XNameSet_Get, XNameSet_Set. destruct (String.eqb_spec x y) as [->|Hn].
  - by rewrite mget_mput_eq.
  - by rewrite mget_mput_ne by congruence.
Qed.

(** Who polls when a worker has come to another phase *)
Lemma polls_insert todo1 pending cur ws (s : X * S) worker phase w x :
  polls (mkPool todo1 pending cur (<[worker:=phase]> ws) s) w x ->
  (w = worker /\ exists d, dev_Xname d = x /\ (phase = Polling d \/ phase = Polled d))
  \/ (w <> worker /\ exists d, dev_Xname d = x /\ (ws !! w = Some (Polling d) \/ ws !! w = Some (Polled d))).
Proof.
  intros (d & Hd & Hw). simpl in Hw. destruct (decide (w = worker)) as [->|Hn].
  - left. split; [done|]. exists d. split; [done|].
    destruct Hw as [Hw|Hw]; apply list_lookup_insert_Some in Hw as [(_ & <- & _)|(? & _)]; naive_solver.
  - right. split; [done|]. exists d. by rewrite !list_lookup_insert_ne in Hw by done.
Qed.

(** A step that lets nobody poll more and leaves the marks alone *)
Lemma exclusive_fewer p p' :
  exclusive p -> CurrentPolling p' = CurrentPolling p -> (forall w x, polls p' w x -> polls p w x) -> exclusive p'.
Proof. intros He Hc Hp w x Hw. rewrite Hc. split; [by apply (He w x), Hp|]. intros o Ho. by apply (He w x); apply Hp. Qed.

Lemma exclusive_mark worker device p :
  worker_phases p !! worker = Some (Received device) ->
  XNameSet_Get (CurrentPolling p) (dev_Xname device) = false ->
  exclusive p -> exclusive (set_phase worker (Polling device) (set_polling_mark (dev_Xname device) true p)).
Proof.
  destruct p as [t pend cur ws s]. simpl. intros Hw Hfree He.
  assert (Hnone : forall w, ~ polls (mkPool t pend cur ws s) w (dev_Xname device)).
  { intros w Hp. apply He in Hp as [Hm _]. simpl in Hm. congruence. }
  intros w x Hp. simpl. rewrite XNameSet_Get_Set.
  destruct (polls_insert _ _ _ _ _ _ _ _ _ Hp) as [(-> & d & <- & Hd)|(Hne & Hx)].
  - assert (d = device) as -> by (destruct Hd; congruence). rewrite String.eqb_refl. split; [done|].
    intros o Ho. destruct (polls_insert _ _ _ _ _ _ _ _ _ Ho) as [(-> & _)|(_ & Hx)]; [done|].
    by destruct (Hnone o).
  - destruct (String.eqb_spec (dev_Xname device) x) as [<-|Hxne]; [by destruct (Hnone w)|].
    split; [by apply (He w x)|]. intros o Ho.
    destruct (polls_insert _ _ _ _ _ _ _ _ _ Ho) as [(-> & d & <- & [Hd|Hd])|(_ & Hx')]; [congruence..|].
    by apply (He w x).
Qed.

Lemma exclusive_unmark worker device p :
  worker_phases p !! worker = Some (Polled device) ->
  exclusive p -> exclusive (set_phase worker Waiting (set_polling_mark (dev_Xname device) false p)).
Proof.
  destruct p as [t pend cur ws s]. simpl. intros Hw He w x Hp. simpl. rewrite XNameSet_Get_Set.
  destruct (polls_insert _ _ _ _ _ _ _ _ _ Hp) as [(_ & d & _ & [?|?])|(Hne & Hx)]; [done..|].
  assert (Hx' : dev_Xname device <> x).
  { intros <-. apply Hne. apply (He worker (dev_Xname device)); [exists device; auto|done]. }
  rewrite (proj2 (String.eqb_neq _ _) Hx'). split; [by apply (He w x)|]. intros o Ho.
  destruct (polls_insert _ _ _ _ _ _ _ _ _ Ho) as [(_ & d & _ & [?|?])|(_ & Ho')]; [done..|]. by apply (He w x).
Qed.

Lemma exclusive_step p p' : polling_step p p' -> no_unmarked p -> exclusive p -> exclusive p'.
Proof.
  intros Hstep Hn He. destruct Hstep as [| | ? ? ? ? ? ? ? Hw|? ? [] Hw|? ? [] Hw|? ? p Hw|? ? ? ? ? ? ? ? Hw|? ? p Hw|].
  all: try (by apply (exclusive_fewer _ _ He)).
  all: try (apply (exclusive_fewer _ _ He); [done|]; intros w x;
    intros [(-> & d & <- & [Hd|Hd])|(_ & Hx)]%polls_insert; simplify_eq; (done || by (eexists; eauto))).
  - by destruct (Hn worker device).
  - by apply exclusive_unmark.
Qed.

(** A worker that marks at once takes two steps of the program. *)
Lemma atomic_step_steps p p' : atomic_step p p' -> rtc polling_step p p'.
Proof.
  intros [worker device q Hw Hfree|q q' Hstep _]; [|by apply rtc_once].
  eapply rtc_l; [by apply (step_check worker device)|]. apply rtc_once.
  destruct q as [t pend cur ws s]. simpl in *.
  replace (set_phase worker (Polling device) (set_polling_mark (dev_Xname device) true (mkPool t pend cur ws s)))
    with (set_phase worker (Polling device) (set_polling_mark (dev_Xname device) true
      (set_phase worker (Unmarked device) (mkPool t pend cur ws s)))).
  - apply step_mark. simpl. apply list_lookup_insert_eq. by apply lookup_lt_Some in Hw.
  - unfold set_phase, set_polling_mark. simpl. by rewrite list_insert_insert_eq.
Qed.

Lemma atomic_no_unmarked p p' : atomic_step p p' -> no_unmarked p -> no_unmarked p'.
Proof.
  intros [worker device [t pend cur ws s] Hw _|q q' _ Hq'] Hn; [|done].
  intros w d. simpl. intros [(_ & E & _)|(_ & Hw')]%list_lookup_insert_Some; [done|]. by apply (Hn w d).
Qed.

Lemma start_waiting s worker phase : worker_phases (start_workers s) !! worker = Some phase -> phase = Waiting.
Proof. simpl. intros Hw. by apply list_elem_of_lookup_2, list_elem_of_In, repeat_spec in Hw. Qed.


(** C39: but the check and the mark are two operations: two workers can poll
    the same controller at the same time, when it is submitted a second time
    before the first worker has marked it. *)
Theorem double_polling s key device n :
  jaws_KnownDevices (lget jaws (fst s)) = [(key, device)] ->
  PollingWorkers (lget jaws (fst s)) = Z.of_nat (2 + n) ->
  exists p, rtc polling_step (start_workers s) p /\ polls p 0 (dev_Xname device) /\ polls p 1 (dev_Xname device).
Proof.
  intros Hknown Hworkers. unfold start_workers. rewrite Hworkers, Nat2Z.id. simpl.
  set (ws := repeat Waiting n).
  assert (Hround : forall pend cur ws', polling_step (mkPool [] pend cur ws' s) (mkPool [device] pend cur ws' s)).
  { intros. apply step_round. by rewrite Hknown. }
  eexists. split.
  - do 2 (eapply rtc_l; [apply Hround|]; eapply rtc_l; [apply step_submit; simpl; lia|]). simpl.
    eapply rtc_l; [by apply (step_receive 0)|]. eapply rtc_l; [by apply (step_receive 1)|]. simpl.
    eapply rtc_l; [by apply (step_check 0 device)|]. eapply rtc_l; [by apply (step_check 1 device)|]. simpl.
    eapply rtc_l; [by apply (step_mark 0 device)|]. eapply rtc_l; [by apply (step_mark 1 device)|]. apply rtc_refl.
  - split; exists device; auto.
Qed.
End workers.
