(* ===== verification/Sls.v ===== *)
(** The client of the system layout service ([internal/slsapi/slsapi.go]).

    The service knows the management switches.  The client of HTTP, the URLs
    and the decoding of JSON are libraries: [SLSLibrary] is what the code asks
    of them. *)
From S2P Require Import Prelude Values Redis Pipelines.

Definition DefaultSlsUrl : string := "http://cray-sls/".

(** [slsReady] *)
Record slsReady := mkSlsReady { Ready : bool; Reason : string; Code : Z }.

(** [sls_common.ComptypeMgmtSwitch], the fields the program reads *)
Record ComptypeMgmtSwitch := mkComptypeMgmtSwitch {
  IP4Addr : string;
  SNMPAuthProtocol : string;
  SNMPPrivProtocol : string;
  Aliases : list string;
}.

Record ManagementSwitch := mkManagementSwitch {
  ms_Parent : string;
  ms_Children : list string;
  ms_Xname : string;
  ms_Type : string;
  ms_Class : string;
  ms_TypeString : string;
  ms_LastUpdated : Z;
  ms_LastUpdatedTime : string;
  ms_ExtraProperties : ComptypeMgmtSwitch;
}.

(** [T]: the world; [U]: URLs; [C]: clients *)
Record SLSLibrary (T U C : Type) := mkSLSLibrary {
  (* url.Parse, the field Scheme, URL.String *)
  url_Parse : string -> result U;
  Scheme : U -> string;
  with_Scheme : string -> U -> U;
  URL_String : U -> string;
  (* retryablehttp.NewClient, with the settings of the code *)
  NewClient : C;
  (* http.NewRequest of a GET, and retryablehttp.FromRequest *)
  NewRequest : string -> option go_error;
  FromRequest : string -> option go_error;
  (* client.Do with a user agent, and ReadAll of the body: the status *)
  Do : C -> string -> string -> M T (result (Z * result string));
  (* json.Unmarshal *)
  Unmarshal_ready : string -> result slsReady;
  Unmarshal_switches : string -> result (list ManagementSwitch);
  (* String() of MgmtSwitch, MgmtHLSwitch and CDUMgmtSwitch *)
  MgmtSwitch : string;
  MgmtHLSwitch : string;
  CDUMgmtSwitch : string;
}.
Arguments url_Parse {T U C}.
Arguments Scheme {T U C}.
Arguments with_Scheme {T U C}.
Arguments URL_String {T U C}.
Arguments NewClient {T U C}.
Arguments NewRequest {T U C}.
Arguments FromRequest {T U C}.
Arguments Do {T U C}.
Arguments Unmarshal_ready {T U C}.
Arguments Unmarshal_switches {T U C}.
Arguments MgmtSwitch {T U C}.
Arguments MgmtHLSwitch {T U C}.
Arguments CDUMgmtSwitch {T U C}.

Section sls.
Context {X S U C : Type} (lib : SLSLibrary (X * S) U C).
(** The global variable [serviceName] *)
Variable serviceName : lens X string.

(** Both are pointers that may be nil. *)
Record SLS := mkSLS { Url : option U; Client : option C }.

(** An URL that cannot be parsed is replaced, one without a scheme gets one. *)
Definition sls_url (slsUrl : string) : option U :=
  match url_Parse lib slsUrl with
  | Err _ => match url_Parse lib DefaultSlsUrl with Ok u => Some u | Err _ => None end
  | Ok u => Some (if Nat.eqb (String.length (Scheme lib u)) 0 then with_Scheme lib "http" u else u)
  end.

Definition NewSLS (slsUrl : string) (httpClient : option C) (svcName : string) : M (X * S) SLS :=
  assign serviceName svcName ;;
  ret (mkSLS (sls_url slsUrl) (Some (default (NewClient lib) httpClient))).

(** [doRequest]: the body of a reply that is not a success is the text of the
    error. *)
Definition doRequest (sls : SLS) (uri : string) : M (X * S) (result string) :=
  match Client sls with
  | None => ret (Err (ErrText "SLS struct has no HTTP Client"))
  | Some client =>
      name <- fetch serviceName ;;
      match FromRequest lib uri with
      | Some err => ret (Err err)
      | None =>
          rsp <- Do lib client name uri ;;
          match rsp with
          | Err err => ret (Err err)
          | Ok (_, Err err) => ret (Err err)
          | Ok (statusCode, Ok body) =>
              if Z.eqb statusCode 200 then ret (Ok body) else ret (Err (ErrText body))
          end
      end
  end.

(** A GET of a path below the URL *)
Definition sls_get (sls : SLS) (path : string) : M (X * S) (result string) :=
  match Url sls with
  | None => ret (Err (ErrText "SLS struct has no URL"))
  | Some url =>
      let uri := URL_String lib url +:+ path in
      match NewRequest lib uri with
      | Some err => ret (Err err)
      | None => doRequest sls uri
      end
  end.

Definition IsReady (sls : SLS) : M (X * S) (bool * option go_error) :=
  got <- sls_get sls "/ready" ;;
  match got with
  | Err err => ret (false, Some err)
  | Ok body =>
      match Unmarshal_ready lib body with
      | Err err => ret (false, Some err)
      | Ok ready =>
          if Ready ready then ret (true, None)
          else ret (false, Some (ErrText (format_int (Code ready) +:+ " - " +:+ Reason ready)))
      end
  end.

(** The switches of one type; the body of a reply is never nil. *)
Definition GetSwitchInfo (sls : SLS) (switchType : string) : M (X * S) (result (list ManagementSwitch)) :=
  body <-? sls_get sls ("/search/hardware?type=" +:+ switchType) ;;
  ret (Unmarshal_switches lib body).

Definition switchTypes : list string := [MgmtSwitch lib; MgmtHLSwitch lib; CDUMgmtSwitch lib].

(** The first error ends the query. *)
Definition GetAllSwitchInfo (sls : SLS) : M (X * S) (result (list ManagementSwitch)) :=
  match Url sls with
  | None => ret (Err (ErrText "SLS struct has no URL"))
  | Some _ =>
      fold_ok (fun switchHardware switchType =>
        mgmtSwitches <-? GetSwitchInfo sls switchType ;;
        ret (Ok (switchHardware ++ mgmtSwitches))) [] switchTypes
  end.
End sls.
Arguments SLS : clear implicits.
Arguments mkSLS {U C}.
Arguments Url {U C}.
Arguments Client {U C}.
