(* ===== verification/Snmp.v ===== *)
(** The queries of a switch ([internal/snmp_utilities/*.go]).

    A switch describes its hardware in a table; the row of the chassis is
    looked up first.  The protocol is a library: [SNMPLibrary] is what the
    code asks of it, [T] is the world, [C] a connection, [O] the identifiers
    of objects. *)
From S2P Require Import Prelude Values Redis Walk Pipelines RedisHelper Pdu.

(* ===================================================================== *)
(** * Data                                                               *)
(* ===================================================================== *)

Definition OIDEntPhysicalDescr : string := "1.3.6.1.2.1.47.1.1.1.1.2".
Definition OIDEntPhysicalClass : string := "1.3.6.1.2.1.47.1.1.1.1.5".
Definition OIDEntPhysicalName : string := "1.3.6.1.2.1.47.1.1.1.1.7".
Definition OIDEntPhysicalHardwareRev : string := "1.3.6.1.2.1.47.1.1.1.1.8".
Definition OIDEntPhysicalFirmwareRev : string := "1.3.6.1.2.1.47.1.1.1.1.9".
Definition OIDEntPhysicalSoftwareRev : string := "1.3.6.1.2.1.47.1.1.1.1.10".
Definition OIDEntPhysicalSerialNum : string := "1.3.6.1.2.1.47.1.1.1.1.11".
Definition OIDEntPhysicalMfgName : string := "1.3.6.1.2.1.47.1.1.1.1.12".
Definition OIDEntPhysicalModelName : string := "1.3.6.1.2.1.47.1.1.1.1.13".
Definition OIDEntPhysicalAlias : string := "1.3.6.1.2.1.47.1.1.1.1.14".
Definition OIDEntPhysicalAssetID : string := "1.3.6.1.2.1.47.1.1.1.1.15".
Definition OIDEntPhysicalUUID : string := "1.3.6.1.2.1.47.1.1.1.1.19".
Definition IANAPhysicalClassChassis : string := "3".

Definition OIDEntPhysicalEntryTable : list string :=
  [OIDEntPhysicalDescr; OIDEntPhysicalName; OIDEntPhysicalHardwareRev; OIDEntPhysicalFirmwareRev;
   OIDEntPhysicalSoftwareRev; OIDEntPhysicalSerialNum; OIDEntPhysicalMfgName; OIDEntPhysicalModelName;
   OIDEntPhysicalAlias; OIDEntPhysicalAssetID; OIDEntPhysicalUUID].

Definition EntryTableIndexDescr : nat := 0.
Definition EntryTableIndexName : nat := 1.
Definition EntryTableIndexHardwareRev : nat := 2.
Definition EntryTableIndexFirmwareRev : nat := 3.
Definition EntryTableIndexSoftwareRev : nat := 4.
Definition EntryTableIndexSerialNum : nat := 5.
Definition EntryTableIndexMfgName : nat := 6.
Definition EntryTableIndexModelName : nat := 7.
Definition EntryTableIndexAlias : nat := 8.
Definition EntryTableIndexAssetID : nat := 9.
Definition EntryTableIndexUUID : nat := 10.

Record EntityPhysicalTable := mkPhysicalTable {
  Index : string; Descr : string; ept_Name : string; HardwareRev : string; FirmwareRev : string;
  SoftwareRev : string; SerialNum : string; MfgName : string; ModelName : string; Alias : string;
  AssetID : string; UUID : string;
}.

Inductive SecurityLevel := NoAuthNoPriv | AuthNoPriv | AuthPriv.
Inductive AuthProtocol := Md5 | Sha.
Inductive PrivProtocol := Aes | Des.

(** [snmpgo.SNMPArguments]; a protocol that is not set is [None]. *)
Record SNMPArguments := mkSNMPArguments {
  snmp_Address : string;
  snmp_Retries : Z;
  snmp_UserName : string;
  snmp_SecurityLevel : SecurityLevel;
  snmp_AuthPassword : string;
  snmp_AuthProtocol : option AuthProtocol;
  snmp_PrivPassword : string;
  snmp_PrivProtocol : option PrivProtocol;
}.

(** A value of a reply: the identifier, and [Variable.String()] *)
Record VarBind (O : Type) := mkVarBind { vb_Oid : O; vb_Variable : string }.
Arguments mkVarBind {O}.
Arguments vb_Oid {O}.
Arguments vb_Variable {O}.

(** [snmpgo.Pdu]; [None] is [NoError], an error is given with its text. *)
Record Pdu (O : Type) := mkPdu { ErrorStatus : option string; VarBinds : list (VarBind O) }.
Arguments mkPdu {O}.
Arguments ErrorStatus {O}.
Arguments VarBinds {O}.

Record SNMPLibrary (T C O : Type) := mkSNMPLibrary {
  NewSNMP : SNMPArguments -> result C;
  NewOid : string -> result O;
  Oid_String : O -> string;
  (* VarBinds.MatchOid, which may be nil, and MatchBaseOids *)
  MatchOid : list (VarBind O) -> O -> option (VarBind O);
  MatchBaseOids : list (VarBind O) -> O -> list (VarBind O);
  snmp_Open : C -> M T (option go_error);
  snmp_Close : C -> M T unit;
  GetBulkWalk : C -> list O -> Z -> Z -> M T (result (Pdu O));
  GetRequest : C -> list O -> M T (result (Pdu O));
  (* configs/snmpSwitchPhysicalTable.json, decoded *)
  mock_tables : M T (result (gomap EntityPhysicalTable));
}.
Arguments NewSNMP {T C O}.
Arguments NewOid {T C O}.
Arguments Oid_String {T C O}.
Arguments MatchOid {T C O}.
Arguments MatchBaseOids {T C O}.
Arguments snmp_Open {T C O}.
Arguments snmp_Close {T C O}.
Arguments GetBulkWalk {T C O}.
Arguments GetRequest {T C O}.
Arguments mock_tables {T C O}.

(* ===================================================================== *)
(** * The interfaces                                                     *)
(* ===================================================================== *)

Section snmp.
Context {T C O : Type} (lib : SNMPLibrary T C O).

Record RealSNMP := mkRealSNMP { SNMP : C; SnmpIndex : string }.
Record MockSNMP := mkMockSNMP { SwitchXname : string }.
(** [SNMPInterface]: one of the two *)
Inductive SNMPInterface := Real (snmpInterface : RealSNMP) | Mock (snmpInterface : MockSNMP).

(** How the protocols of a switch are understood *)
Definition security_level (authProtocol privProtocol : string) : SecurityLevel :=
  if String.eqb (to_lower authProtocol) "none" then NoAuthNoPriv
  else if String.eqb (to_lower privProtocol) "none" then AuthNoPriv
  else AuthPriv.
Definition auth_type (level : SecurityLevel) (authProtocol : string) : option AuthProtocol :=
  match level with
  | NoAuthNoPriv => None
  | _ => Some (if String.eqb (to_lower authProtocol) "md5" then Md5
               else if String.eqb (to_lower authProtocol) "sha" then Sha
               else Md5)
  end.
Definition priv_type (level : SecurityLevel) (privProtocol : string) : option PrivProtocol :=
  match level with
  | AuthPriv => Some (if String.eqb (to_lower privProtocol) "aes" then Aes
                      else if String.eqb (to_lower privProtocol) "des" then Des
                      else Des)
  | _ => None
  end.

(** The port of SNMP is added to an address without one. *)
Definition snmp_address (address : string) : string :=
  if contains address ":" then address else address +:+ ":161".

Definition NewSNMPInterface (address user authPassword authProtocol privPassword privProtocol : string) :
    result SNMPInterface :=
  let securityLevel := security_level authProtocol privProtocol in
  match NewSNMP lib (mkSNMPArguments (snmp_address address) 5 user securityLevel
    authPassword (auth_type securityLevel authProtocol) privPassword (priv_type securityLevel privProtocol)) with
  | Err err => Err err
  | Ok snmpObject => Ok (Real (mkRealSNMP snmpObject ""))
  end.

Definition GetSNMPMockInterface (name : string) : result SNMPInterface := Ok (Mock (mkMockSNMP name)).

(* ===================================================================== *)
(** * The table                                                          *)
(* ===================================================================== *)

(** [snmpgo.NewOids] *)
Fixpoint NewOids (oids : list string) : result (list O) :=
  match oids with
  | [] => Ok []
  | l :: oids' =>
      match NewOid lib l with
      | Err err => Err err
      | Ok o => match NewOids oids' with Err err => Err err | Ok os => Ok (o :: os) end
      end
  end.

(** One query; the connection is closed after it, however it ends. *)
Definition snmpGet (snmp : C) (oids : list string) (walk : bool) : M T (result (Pdu O)) :=
  match NewOids oids with
  | Err err => ret (Err err)
  | Ok snmpOids =>
      opened <- snmp_Open lib snmp ;;
      match opened with
      | Some err => ret (Err err)
      | None =>
          deferring
            (result_ <-? (if walk then GetBulkWalk lib snmp snmpOids 0 10 else GetRequest lib snmp snmpOids) ;;
             match ErrorStatus result_ with
             | Some status => ret (Err (ErrText status))
             | None => ret (Ok result_)
             end)
            (snmp_Close lib snmp)
      end
  end.

(** The first component of the class chassis *)
Definition chassis (vbs : list (VarBind O)) : option (VarBind O) :=
  List.find (fun vb => String.eqb (vb_Variable vb) IANAPhysicalClassChassis) vbs.

(** The error of [NewOid] of a constant is ignored; the last part of an
    identifier always is there. *)
Definition snmpGetIndex (snmp : C) : M T (result string) :=
  result_ <-? snmpGet snmp [OIDEntPhysicalClass] true ;;
  match NewOid lib OIDEntPhysicalClass with
  | Err _ => panic nil_deref
  | Ok oid =>
      match chassis (MatchBaseOids lib (VarBinds result_) oid) with
      | None => ret (Err (ErrText "Unable to determine switch chassis index"))
      | Some vb => ret (Ok (List.last (split_on "." (Oid_String lib (vb_Oid vb))) ""))
      end
  end.

Definition getPhysicalTableOIDsForIndex (index : string) : list string :=
  map (fun oid => oid +:+ "." +:+ index) OIDEntPhysicalEntryTable.

(** [vbs.MatchOid(snmpOid).Variable.String()]: a value that the switch did not
    send is a nil pointer. *)
Definition table_value (vbs : list (VarBind O)) (oid : string) : M T string :=
  match NewOid lib oid with
  | Err _ => panic nil_deref
  | Ok snmpOid =>
      match MatchOid lib vbs snmpOid with
      | None => panic nil_deref
      | Some vb => ret (vb_Variable vb)
      end
  end.
Fixpoint table_values (vbs : list (VarBind O)) (oids : list string) : M T (list string) :=
  match oids with
  | [] => ret []
  | oid :: oids' => val <- table_value vbs oid ;; vals <- table_values vbs oids' ;; ret (val :: vals)
  end.

(** The loop with its [switch]: the [i]-th value is the one of a field. *)
Definition fill_table (index : string) (vals : list string) : EntityPhysicalTable :=
  let val i := List.nth i vals "" in
  mkPhysicalTable index (val EntryTableIndexDescr) (val EntryTableIndexName) (val EntryTableIndexHardwareRev)
    (val EntryTableIndexFirmwareRev) (val EntryTableIndexSoftwareRev) (val EntryTableIndexSerialNum)
    (val EntryTableIndexMfgName) (val EntryTableIndexModelName) (val EntryTableIndexAlias)
    (val EntryTableIndexAssetID) (val EntryTableIndexUUID).

(** The method has a value receiver: the index it finds is forgotten. *)
Definition RealSNMP_index (snmpInterface : RealSNMP) : M T (result string) :=
  if String.eqb (SnmpIndex snmpInterface) "" then
    found <- snmpGetIndex (SNMP snmpInterface) ;;
    match found with
    | Err idxErr => ret (Err (ErrText ("failed to get SNMP switch chassis index: " +:+ err_string idxErr)))
    | Ok snmpIndex => ret (Ok snmpIndex)
    end
  else ret (Ok (SnmpIndex snmpInterface)).

Definition RealSNMP_GetPhysicalTable (snmpInterface : RealSNMP) : M T (result EntityPhysicalTable) :=
  index <-? RealSNMP_index snmpInterface ;;
  let physicalTableOids := getPhysicalTableOIDsForIndex index in
  got <- snmpGet (SNMP snmpInterface) physicalTableOids false ;;
  match got with
  | Err getErr => ret (Err (ErrText ("failed to perform SNMP get: " +:+ err_string getErr)))
  | Ok result_ =>
      vals <- table_values (VarBinds result_) physicalTableOids ;;
      ret (Ok (fill_table index vals))
  end.

Definition MockSNMP_GetPhysicalTable (snmpInterface : MockSNMP) : M T (result EntityPhysicalTable) :=
  mockPhysTable <-? mock_tables lib ;;
  match mget (SwitchXname snmpInterface) mockPhysTable with
  | None => ret (Err (ErrText "switch xname not found"))
  | Some physTable => ret (Ok physTable)
  end.

Definition GetPhysicalTable (snmp : SNMPInterface) : M T (result EntityPhysicalTable) :=
  match snmp with
  | Real snmpInterface => RealSNMP_GetPhysicalTable snmpInterface
  | Mock snmpInterface => MockSNMP_GetPhysicalTable snmpInterface
  end.
End snmp.
Arguments SNMPInterface : clear implicits.
Arguments RealSNMP : clear implicits.
Arguments Real {C}.
Arguments Mock {C}.
Arguments mkRealSNMP {C}.
Arguments SNMP {C}.
Arguments SnmpIndex {C}.
