(* ===== verification/SnmpSwitch.v ===== *)
(** The backend helper for management switches
    ([internal/backend_helpers/snmpSwitch.go]).

    The switches are listed by the system layout service; their hardware is
    asked for with SNMP and written to Redis.  The discovery of several
    switches is concurrent in the program; here one follows the other. *)
From S2P Require Import Prelude Values Redis Walk Dispatcher Pipelines RedisHelper Services Certificates.
From S2P Require Import CredentialStores Sls Snmp.

(** A switch that was set up without an address has no interface. *)
Record SNMPDevice (C : Type) := mkSNMPDevice { sd_Xname : string; sd_SNMP : option (SNMPInterface C) }.
Arguments mkSNMPDevice {C}.
Arguments sd_Xname {C}.
Arguments sd_SNMP {C}.

(** [U], [H]: the URLs and the clients of HTTP; [C]: the connections of SNMP *)
Record SNMPSwitchHelper (P V U H C : Type) := mkSNMPSwitchHelper {
  snmp_RTSCredentialStore : option (RTSCredentialStore V);
  snmp_SLS : option (SLS U H);
  snmp_RedisHelper : RedisHelper P;
  snmp_KnownDevices : gomap (SNMPDevice C);
}.
Arguments mkSNMPSwitchHelper {P V U H C}.
Arguments snmp_RTSCredentialStore {P V U H C}.
Arguments snmp_SLS {P V U H C}.
Arguments snmp_RedisHelper {P V U H C}.
Arguments snmp_KnownDevices {P V U H C}.

Section switch.
Context {X S P V K U H C Oid : Type} `{RedisOps S} `{!PipelineOps S P} `{!Crypto K}.
Context (out : Outside (X * S) V) (storage : Storage (X * S) V).
Context (sls_lib : SLSLibrary (X * S) U H) (snmp_lib : SNMPLibrary (X * S) C Oid).
Variable globals : lens X (Globals V).
Variable serviceName : lens X string.
Variable switch : lens X (SNMPSwitchHelper P V U H C).
Variable cs : lens X (CertificateService P V K).
Variable SecureStorage_Lookup : V -> string -> M (X * S) (CertificatePair * option go_error).
Variable GenerateFromPassword : string -> M (X * S) (result string).

Definition snmp_RedisHelper_field : lens (SNMPSwitchHelper P V U H C) (RedisHelper P) :=
  mkLens snmp_RedisHelper
    (fun r h => mkSNMPSwitchHelper (snmp_RTSCredentialStore h) (snmp_SLS h) r (snmp_KnownDevices h)).
Definition snmp_helper : lens X (RedisHelper P) := lens_comp switch snmp_RedisHelper_field.

#[local] Abbreviation add := (addMemberToSet (S:=S) snmp_helper).
#[local] Abbreviation set := (setValueForPropertyInKeyspace (S:=S) snmp_helper).
#[local] Abbreviation push := (addMemberToArray (S:=S) (P:=P) snmp_helper).

(* ===================================================================== *)
(** * The resources of a switch                                          *)
(* ===================================================================== *)

Definition snmp_initChassis (xname : string) (switchInfo : EntityPhysicalTable) : M (X * S) (result unit) :=
  chassis <- add (path_join [xname; ServiceRootKeyspace]) "Chassis" ;;
  let chassisKeyspace := fst chassis in
  set chassisKeyspace "Name" "Chassis Collection" ;;
  add chassisKeyspace "@odata.id" ;;
  add chassisKeyspace "@odata.type" ;;
  add chassisKeyspace "Members" ;;
  member <- push chassisKeyspace "Members" ;;
  match member with
  | (_, Some _) => ret (Err (ErrText ("unable to add member to array for device: " +:+ xname)))
  | (thisMemberKeyspace, None) =>
      let newInstanceKeyspace := chassisKeyspace +:+ "/EthernetSwitch_0" in
      set thisMemberKeyspace "@odata.id" newInstanceKeyspace ;;
      add newInstanceKeyspace "@odata.id" ;;
      add newInstanceKeyspace "@odata.type" ;;
      set newInstanceKeyspace "Name" (Descr switchInfo) ;;
      set newInstanceKeyspace "Id" "EthernetSwitch_0" ;;
      set newInstanceKeyspace "ChassisType" "Drawer" ;;
      set newInstanceKeyspace "Manufacturer" (MfgName switchInfo) ;;
      set newInstanceKeyspace "Model" (ModelName switchInfo) ;;
      set newInstanceKeyspace "SerialNumber" (SerialNum switchInfo) ;;
      set newInstanceKeyspace "AssetTag" (AssetID switchInfo) ;;
      set newInstanceKeyspace "PowerState" "On" ;;
      set newInstanceKeyspace "UUID" (UUID switchInfo) ;;
      status <- add newInstanceKeyspace "Status" ;;
      let statusKeyspace := fst status in
      add statusKeyspace "State" ;;
      set statusKeyspace "Health" "OK" ;;
      ret (Ok tt)
  end.

Definition snmp_initManagers (xname : string) (switchInfo : EntityPhysicalTable) : M (X * S) (result unit) :=
  r <- initManagerCollection snmp_helper xname ;;
  match r with
  | Err err => ret (Err (ErrText ("unable to init manager collection for " +:+ xname +:+ ": " +:+ err_string err)))
  | Ok _ =>
      r <- initManager (P:=P) snmp_helper xname "RTS" "SNMP Switch" ;;
      match r with
      | Err err => ret (Err (ErrText ("unable to init manager for " +:+ xname +:+ ": " +:+ err_string err)))
      | Ok _ => ret (Ok tt)
      end
  end.

(** The keys of the service root, for every switch *)
Definition snmp_initRoot : M (X * S) unit :=
  root <- add "/redfish" "v1" ;;
  let rootKeyspace := fst root in
  set rootKeyspace "Name" "Service Root" ;;
  set rootKeyspace "Description" "The Redfish ServiceRoot" ;;
  add rootKeyspace "@odata.id" ;;
  add rootKeyspace "@odata.type" ;;
  match LookupEnv out "SCHEMA_VERSION" with
  | Some versionStr => set rootKeyspace "RedfishVersion" versionStr ;; ret tt
  | None => ret tt
  end ;;
  add rootKeyspace "Chassis" ;;
  add rootKeyspace "Managers" ;;
  ret tt.

Definition snmp_initFunctions : list (string -> EntityPhysicalTable -> M (X * S) (result unit)) :=
  [snmp_initChassis; snmp_initManagers].

(* ===================================================================== *)
(** * The set-up of a switch                                             *)
(* ===================================================================== *)

Definition bad_credentials (field : string) : go_error :=
  ErrText ("zero length " +:+ field +:+ " in credentials, skipping initialization").

(** The credentials of the switch, as far as they are needed *)
Definition snmp_credentials (device : ManagementSwitch) : M (X * S) (result CompCredentials) :=
  cred <-? get_credentials out globals (ms_Xname device) ;;
  if Nat.ltb (String.length (cc_Username cred)) 1 then ret (Err (bad_credentials "username"))
  else if Nat.ltb (String.length (cc_SNMPAuthPass cred)) 1 then ret (Err (bad_credentials "SNMPAuthPass"))
  else if Nat.ltb (String.length (cc_SNMPPrivPass cred)) 1 then ret (Err (bad_credentials "SNMPPrivPass"))
  else ret (Ok cred).

(** [helper.RTSCredentialStore.GetGlobalCredentials()] *)
Definition snmp_global_credentials : M (X * S) (Credential * option go_error) :=
  h <- fetch switch ;;
  match snmp_RTSCredentialStore h with
  | None => panic nil_deref
  | Some credStore => GetGlobalCredentials storage credStore
  end.

(** The alias of the switch on the management network, or its address *)
Definition switch_address (device : ManagementSwitch) : option string :=
  match Aliases (ms_ExtraProperties device) with
  | [] => if String.eqb (IP4Addr (ms_ExtraProperties device)) "" then None else Some (IP4Addr (ms_ExtraProperties device))
  | addr :: _ => Some (if has_suffix ".hmn" addr then addr else addr +:+ ".hmn")
  end.

(** [n] attempts, a second apart *)
Fixpoint wait_ready (xname : string) (n : nat) : M (X * S) unit :=
  match n with
  | O => ret tt
  | Datatypes.S n' =>
      rdy <- checkReady out globals xname ;;
      match rdy with
      | Ok _ => ret tt
      | Err _ => wait_ready xname n'
      end
  end.

(** The switch in Redis, then its accounts, certificates, name, credentials,
    and the state manager *)
Definition snmp_publish (xname : string) (cred : CompCredentials) (switchInfo : EntityPhysicalTable) :
    M (X * S) (result unit) :=
  _ <-? removeXnamePrependedKeys (P:=P) xname ;;
  snmp_initRoot ;;
  _ <-? in_active_pipeline snmp_helper
          (fold_ok (fun _ initFunction => initFunction xname switchInfo) tt snmp_initFunctions) ;;
  _ <-? initAccount (P:=P) snmp_helper GenerateFromPassword (cc_Username cred) "Administrator" (cc_Password cred) ;;
  _ <-? InitForXName cs SecureStorage_Lookup xname ;;
  _ <-? informDNS out (xname +:+ "-rts") ;;
  _ <-? store_credentials out globals cred ;;
  wait_ready xname 30 ;;
  informHSMWithFQDN out xname (cc_URL cred).

(** A switch without an address is no error: the device is empty. *)
Definition snmp_initDevice (xname : string) (device : ManagementSwitch) : M (X * S) (result (SNMPDevice C)) :=
  cred <-? snmp_credentials device ;;
  glob <- snmp_global_credentials ;;
  match glob with
  | (_, Some credErr) => ret (Err credErr)
  | (globCreds, None) =>
      let cred := mkCompCredentials (cc_Xname cred) (xname +:+ "-rts:8083") (cc_Username cred)
        (cred_Password globCreds) (cc_SNMPAuthPass cred) (cc_SNMPPrivPass cred) in
      match switch_address device with
      | None => ret (Ok (mkSNMPDevice "" None))
      | Some addr =>
          match NewSNMPInterface snmp_lib addr (cc_Username cred) (cc_SNMPAuthPass cred)
                  (SNMPAuthProtocol (ms_ExtraProperties device)) (cc_SNMPPrivPass cred)
                  (SNMPPrivProtocol (ms_ExtraProperties device)) with
          | Err snmpErr => ret (Err snmpErr)
          | Ok snmp =>
              switchInfo <-? GetPhysicalTable snmp_lib snmp ;;
              _ <-? snmp_publish xname cred switchInfo ;;
              ret (Ok (mkSNMPDevice xname (Some snmp)))
          end
      end
  end.

(* ===================================================================== *)
(** * The backend helper                                                 *)
(* ===================================================================== *)

(** A pipeline whose error is ignored *)
Definition populateRedisForSwitch (xname : string) (switchInfo : EntityPhysicalTable) : M (X * S) unit :=
  let baseKeyspace := path_join [xname; ChassisKeyspace; "EthernetSwitch_0"] in
  let put field value := mkExpiring (path_join [baseKeyspace; field]) value 0 in
  pipe_exec (queue_expiring (S:=S)
    [put "Name" (Descr switchInfo); put "Manufacturer" (MfgName switchInfo); put "Model" (ModelName switchInfo);
     put "SerialNumber" (SerialNum switchInfo); put "AssetTag" (AssetID switchInfo); put "UUID" (UUID switchInfo)]
    (startPipeline (S:=S) (P:=P))) ;;
  ret tt.

Definition set_switches (m : gomap (SNMPDevice C)) (h : SNMPSwitchHelper P V U H C) : SNMPSwitchHelper P V U H C :=
  mkSNMPSwitchHelper (snmp_RTSCredentialStore h) (snmp_SLS h) (snmp_RedisHelper h) m.

(** One switch of the list; the error stays that of the last one that failed. *)
Definition discover_switch (err : option go_error) (device : ManagementSwitch) : M (X * S) (option go_error) :=
  let xname := ms_Xname device in
  h <- fetch switch ;;
  if mmem xname (snmp_KnownDevices h) then ret err
  else
    r <- snmp_initDevice xname device ;;
    match r with
    | Err initErr => ret (Some (ErrText ("unable to initialize device: " +:+ err_string initErr)))
    | Ok snmpDevice =>
        h <- fetch switch ;;
        assign switch (set_switches (mput xname snmpDevice (snmp_KnownDevices h)) h) ;;
        ret err
    end.

Fixpoint discover_switches (err : option go_error) (devices : list ManagementSwitch) : M (X * S) (option go_error) :=
  match devices with
  | [] => ret err
  | device :: devices' => err' <- discover_switch err device ;; discover_switches err' devices'
  end.

Definition snmp_RunPeriodic : M (X * S) (result unit) :=
  h <- fetch switch ;;
  match snmp_SLS h with
  | None => panic nil_deref
  | Some sls =>
      devices <-? GetAllSwitchInfo sls_lib serviceName sls ;;
      err <- discover_switches None devices ;;
      ret (result_of err)
  end.

(** [SetupBackendHelper]; [fuel] attempts to reach Vault, and [httpClient] is
    the client that was created. *)
Definition snmp_SetupBackendHelper (httpClient : H) (fuel : nat) : M (X * S) (result unit) :=
  match LookupEnv out "SLS_URL" with
  | None => fatal "Environment variable slsURL was not set"
  | Some slsURL =>
      let name := match GetServiceInstanceName out with Ok n => n | Err _ => "RTS-SNMP" end in
      sls <- NewSLS sls_lib serviceName slsURL (Some httpClient) name ;;
      h <- fetch switch ;;
      assign switch (mkSNMPSwitchHelper (snmp_RTSCredentialStore h) (Some sls) (snmp_RedisHelper h)
        (snmp_KnownDevices h)) ;;
      match LookupEnv out "JAWS_VAULT_KEYPATH" with
      | None => fatal "Environment variable JAWS_VAULT_KEYPATH was not set"
      | Some rtsVaultKeypath =>
          secureStorage <- connectToVault out fuel ;;
          match secureStorage with
          | None => fatal "Unable to connect to Vault"
          | Some secureStorage =>
              h <- fetch switch ;;
              assign switch (mkSNMPSwitchHelper (Some (mkRTSCredStore rtsVaultKeypath secureStorage)) (snmp_SLS h)
                (snmp_RedisHelper h) (snmp_KnownDevices h)) ;;
              ok <- setupCompCredsVault out globals secureStorage ;;
              (if ok : bool then ret tt else fatal "Failed to setup CompCredsVault") ;;
              creds <- snmp_global_credentials ;;
              match creds with
              | (_, Some _) => fatal "Unable to get default credentails for RTS"
              | (creds, None) =>
                  _ <-? initAccount (P:=P) snmp_helper GenerateFromPassword (cred_Username creds) "Administrator"
                          (cred_Password creds) ;;
                  SetupCertificateService cs "RTS" GenericCertificateID
              end
          end
      end
  end.

Definition snmp_GetEnvForXname (xname : string) : M (X * S) (result (gomap string)) :=
  h <- fetch switch ;;
  match mget xname (snmp_KnownDevices h) with
  | Some snmpDevice => ret (Ok [("RTS_XNAME", sd_Xname snmpDevice)])
  | None => ret (Err (ErrText "Unable to find xname in device list"))
  end.

(** The state of the switch: it is asked for its table. *)
Definition switch_state (xname : string) (snmpDevice : SNMPDevice C) : M (X * S) (result string) :=
  match sd_SNMP snmpDevice with
  | None => panic nil_deref
  | Some snmp =>
      table <- GetPhysicalTable snmp_lib snmp ;;
      match table with
      | Err _ => ret (Ok "UnavailableOffline")
      | Ok table => populateRedisForSwitch xname table ;; ret (Ok "Enabled")
      end
  end.

Definition snmp_RunBackendHelper (key : string) (args : list string) (env : gomap string) : M (X * S) (result string) :=
  match mget "RTS_XNAME" env with
  | None => ret (Err (ErrText "RTS_XNAME not in environment variables"))
  | Some xname =>
      h <- fetch switch ;;
      match mget xname (snmp_KnownDevices h) with
      | None => ret (Err (ErrText ("unknown xname: " +:+ xname)))
      | Some snmpDevice =>
          match keyRegex key with
          | None => ret (Err (ErrText "key format not what expected"))
          | Some fullKey =>
              let strippedKey := trim_prefix ServiceRootKeyspace fullKey in
              if String.eqb strippedKey key then ret (Err (ErrText "unexpected key prefix"))
              else if String.eqb strippedKey "/Chassis/EthernetSwitch_0/Status/State" then
                switch_state xname snmpDevice
              else redis_get key
          end
      end
  end.

Definition SNMPSwitchHelper_backend (httpClient : H) (fuel : nat) : BackendHelper (X * S) := {|
  RunPeriodic := snmp_RunPeriodic;
  SetupBackendHelper := snmp_SetupBackendHelper httpClient fuel;
  GetEnvForXname := snmp_GetEnvForXname;
  RunBackendHelper := snmp_RunBackendHelper;
|}.
End switch.
