(* ===== verification/SwitchFacts.v ===== *)
(** What a management switch tells of itself, and a switch without an address.

    The table of the hardware is the row of the chassis, whatever row that is
    ([physical_table]).  A switch that the layout service lists without an
    alias and without an address is taken for known, and no request for it can
    be answered ([unaddressed_switch]). *)
From S2P Require Import Prelude Values Redis Walk Dispatcher Pipelines RedisHelper Performs Services Certificates DeviceSetup.
From S2P Require Import CredentialStores Sls Snmp SnmpSwitch.

(* ===================================================================== *)
(** * The table                                                          *)
(* ===================================================================== *)

(** The text of an identifier *)
Definition numeric (t : string) : bool := str_forallb (fun a => is_digit a || Ascii.eqb a ".") t.

(** A switch that answers: [mib] is the value it has for an identifier,
    [column] the identifiers and values below one.  The texts of numbers are
    identifiers; a request has no error, and its reply holds what was asked
    for and the switch has. *)
Class Agent {T C O : Type} (lib : SNMPLibrary T C O) (snmp : C) := {
  oid : string -> O;
  mib : string -> option string;
  column : string -> list (string * string);
  agent_oid t : numeric t = true -> NewOid lib t = Ok (oid t);
  agent_open s : exists s', snmp_Open lib snmp s = (Ret None, s');
  agent_close s : exists s', snmp_Close lib snmp s = (Ret tt, s');
  agent_walk base s : exists vbs s',
    GetBulkWalk lib snmp [oid base] 0 10 s = (Ret (Ok (mkPdu None vbs)), s') /\
    map (fun vb => (Oid_String lib (vb_Oid vb), vb_Variable vb)) (MatchBaseOids lib vbs (oid base)) = column base;
  agent_get ts s : exists vbs s',
    GetRequest lib snmp (map oid ts) s = (Ret (Ok (mkPdu None vbs)), s') /\
    forall t, List.In t ts -> MatchOid lib vbs (oid t) = option_map (mkVarBind (oid t)) (mib t);
}.

Lemma deferring_step {S A} (m : M S A) cleanup s o s1 s2 :
  m s = (o, s1) -> cleanup s1 = (Ret tt, s2) -> deferring m cleanup s = (o, s2).
Proof. intros E1 E2. unfold deferring. by rewrite E1, E2. Qed.

Lemma find_map {A B} (f : A -> B) (p : B -> bool) l :
  List.find p (map f l) = option_map f (List.find (fun a => p (f a)) l).
Proof. induction l as [|a l IH]; [done|]. simpl. by destruct (p (f a)). Qed.

(** A list of values, when there is one at each place *)
Lemma mapM_default {A B} (f : A -> B) (g : B -> option string) l :
  mapM g (map f l) =
  if decide (Forall (fun a => is_Some (g (f a))) l) then Some (map (fun a => default "" (g (f a))) l) else None.
Proof.
  induction l as [|a l IH]; [done|]. cbn [map mapM]. rewrite IH. destruct (g (f a)) as [v|] eqn:E.
  - cbn [mbind option_bind]. destruct (decide (Forall _ l)) as [Hl|Hl].
    + rewrite decide_True by (constructor; [by rewrite E|done]). done.
    + rewrite decide_False; [done|]. intros Hall. apply Forall_cons in Hall as [_ Hall]. by apply Hl.
  - cbn [mbind option_bind]. rewrite decide_False; [done|]. intros Hall. apply Forall_cons in Hall as [[? Hd] _]. congruence.
Qed.

Section agent.
Context {T C O : Type} (lib : SNMPLibrary T C O) (snmp : C) `{!Agent lib snmp}.

Lemma NewOids_numeric ts : forallb numeric ts = true -> NewOids lib ts = Ok (map oid ts).
Proof.
  induction ts as [|t ts IH]; [done|]. simpl. intros [Ht Hts]%andb_true_iff. by rewrite agent_oid, IH.
Qed.

(** A query whose reply comes without an error *)
Lemma snmpGet_step ts (walk : bool) s (good : list (VarBind O) -> Prop) :
  forallb numeric ts = true ->
  (forall s1, exists vbs s2,
     (if walk then GetBulkWalk lib snmp (map oid ts) 0 10 else GetRequest lib snmp (map oid ts)) s1
     = (Ret (Ok (mkPdu None vbs)), s2) /\ good vbs) ->
  exists vbs s2, snmpGet lib snmp ts walk s = (Ret (Ok (mkPdu None vbs)), s2) /\ good vbs.
Proof.
  intros Hts Hreply. unfold snmpGet. rewrite NewOids_numeric by done.
  destruct (agent_open s) as [s1 Hopen]. rewrite (bind_step _ _ _ _ _ Hopen).
  destruct (Hreply s1) as (vbs & s2 & Hr & Hgood). destruct (agent_close s2) as [s3 Hclose].
  exists vbs, s3. split; [|done]. eapply deferring_step; [|exact Hclose]. unfold bind_ok. by rewrite (bind_step _ _ _ _ _ Hr).
Qed.

Variables (index class : string).
Hypothesis Hindex : str_forallb is_digit index = true.
(** The first component of the class of the chassis *)
Hypothesis Hchassis :
  List.find (fun row => String.eqb (snd row) IANAPhysicalClassChassis) (column OIDEntPhysicalClass)
  = Some (OIDEntPhysicalClass +:+ "." +:+ index, class).

Lemma numeric_at base : numeric base = true -> numeric (base +:+ "." +:+ index) = true.
Proof using Hindex.
  unfold numeric. intros Hb. rewrite str_forallb_app, Hb. simpl.
  eapply str_forallb_impl; [|exact Hindex]. by intros a ->.
Qed.

Lemma last_part base : List.last (split_on "." (base +:+ "." +:+ index)) "" = index.
Proof using Hindex.
  change (base +:+ "." +:+ index) with (base +:+ String "." index). rewrite split_on_cut, (split_on_free "." index).
  - by apply List.last_last.
  - eapply str_forallb_impl; [|exact Hindex]. intros a Ha. apply negb_true_iff, Ascii.eqb_neq. by intros ->.
Qed.

Lemma snmpGetIndex_chassis s : exists s', snmpGetIndex lib snmp s = (Ret (Ok index), s').
Proof using Hindex Hchassis Agent0.
  destruct (snmpGet_step [OIDEntPhysicalClass] true s (fun vbs =>
    map (fun vb => (Oid_String lib (vb_Oid vb), vb_Variable vb)) (MatchBaseOids lib vbs (oid OIDEntPhysicalClass))
    = column OIDEntPhysicalClass)) as (vbs & s' & Hget & Hcol); [done|apply agent_walk|].
  exists s'. unfold snmpGetIndex, bind_ok. rewrite (bind_step _ _ _ _ _ Hget). rewrite agent_oid by done. cbn [VarBinds].
  rewrite <- Hcol, find_map in Hchassis. unfold chassis.
  destruct (List.find _ (MatchBaseOids _ _ _)) as [vb|]; [|done]. injection Hchassis as Hoid _.
  by rewrite Hoid, last_part.
Qed.

(** The rows of the table, one after the other *)
Lemma table_values_each vbs ts s :
  forallb numeric ts = true -> (forall t, List.In t ts -> MatchOid lib vbs (oid t) = option_map (mkVarBind (oid t)) (mib t)) ->
  table_values lib vbs ts s
  = (match mapM mib ts with Some vals => Ret vals | None => Panic nil_deref end, s).
Proof using Agent0.
  induction ts as [|t ts IH]; intros Hts Hvbs; [done|]. cbn [table_values].
  apply andb_true_iff in Hts as [Ht Hts]. unfold table_value. rewrite agent_oid by done.
  rewrite (Hvbs t) by by left. cbn [mapM]. destruct (mib t) as [v|]; cbn [option_map mbind option_bind]; [|done].
  rewrite (bind_step _ _ s v s) by done. specialize (IH Hts (fun u Hu => Hvbs u (or_intror Hu))).
  destruct (mapM mib ts) as [vals|]; cbn [mbind option_bind].
  - by rewrite (bind_step _ _ _ _ _ IH).
  - by rewrite (bind_panic _ _ _ _ _ IH).
Qed.

Lemma rows_numeric : forallb numeric (getPhysicalTableOIDsForIndex index) = true.
Proof using Hindex.
  unfold getPhysicalTableOIDsForIndex. apply List.forallb_forall. intros t Ht.
  apply List.in_map_iff in Ht as (base & <- & Hbase). apply numeric_at.
  assert (Hall : forallb numeric OIDEntPhysicalEntryTable = true) by done.
  rewrite List.forallb_forall in Hall. by apply Hall.
Qed.

(** What the switch says of the chassis in the column [base] *)
Definition cell (base : string) : option string := mib (base +:+ "." +:+ index).

(** C36: the table of a switch is the row of its chassis, whichever row that
    is, each value in its field; a switch that leaves one of the values out
    makes the program panic. *)
Theorem physical_table s :
  exists s', GetPhysicalTable lib (Real (mkRealSNMP snmp "")) s =
    ((if decide (Forall (fun base => is_Some (cell base)) OIDEntPhysicalEntryTable) then
        let value base := default "" (cell base) in
        Ret (Ok (mkPhysicalTable index (value OIDEntPhysicalDescr) (value OIDEntPhysicalName)
          (value OIDEntPhysicalHardwareRev) (value OIDEntPhysicalFirmwareRev) (value OIDEntPhysicalSoftwareRev)
          (value OIDEntPhysicalSerialNum) (value OIDEntPhysicalMfgName) (value OIDEntPhysicalModelName)
          (value OIDEntPhysicalAlias) (value OIDEntPhysicalAssetID) (value OIDEntPhysicalUUID)))
      else Panic nil_deref), s').
Proof using Hindex Hchassis Agent0.
  destruct (snmpGetIndex_chassis s) as [s1 Hidx].
  destruct (snmpGet_step (getPhysicalTableOIDsForIndex index) false s1 (fun vbs =>
    forall t, List.In t (getPhysicalTableOIDsForIndex index) -> MatchOid lib vbs (oid t) = option_map (mkVarBind (oid t)) (mib t)))
    as (vbs & s2 & Hget & Hvbs); [apply rows_numeric|apply agent_get|].
  exists s2. cbn [GetPhysicalTable]. unfold RealSNMP_GetPhysicalTable, RealSNMP_index, bind_ok. cbn [SnmpIndex SNMP].
  change (String.eqb "" "") with true. cbv iota.
  erewrite bind_step by (erewrite bind_step by exact Hidx; reflexivity). cbv beta iota zeta.
  rewrite (bind_step _ _ _ _ _ Hget). cbn [VarBinds].
  assert (Htab := table_values_each vbs _ s2 rows_numeric Hvbs).
  unfold getPhysicalTableOIDsForIndex in Htab at 2. rewrite mapM_default in Htab. unfold cell.
  destruct (decide _) as [Hall|Hsome].
  - by rewrite (bind_step _ _ _ _ _ Htab).
  - by rewrite (bind_panic _ _ _ _ _ Htab).
Qed.
End agent.

(* ===================================================================== *)
(** * A switch without an address                                        *)
(* ===================================================================== *)

Section unaddressed.
Context {X S P V K U H C Oid : Type} `{Laws : RedisLaws S} `{!PipelineOps S P} `{!Crypto K}.
Context (out : Outside (X * S) V) (storage : Storage (X * S) V) (snmp_lib : SNMPLibrary (X * S) C Oid).
Variable globals : lens X (Globals V).
Variable switch : lens X (SNMPSwitchHelper P V U H C).
Variable cs : lens X (CertificateService P V K).
Variable SecureStorage_Lookup : V -> string -> M (X * S) (CertificatePair * option go_error).
Variable GenerateFromPassword : string -> M (X * S) (result string).
Context `{!LensLaws switch}.

#[local] Abbreviation discover_switch :=
  (discover_switch out storage snmp_lib globals switch cs SecureStorage_Lookup GenerateFromPassword).

(** A switch that is listed without an alias and without an address is
    known after a round, although nothing of it is in Redis: later rounds pass
    it over, and every request for one of its properties is refused, with the
    name of no switch. *)
Theorem unaddressed_switch x ks device cred globCreds err key args :
  mget (ms_Xname device) (snmp_KnownDevices (lget switch x)) = None ->
  Aliases (ms_ExtraProperties device) = [] -> IP4Addr (ms_ExtraProperties device) = "" ->
  silent x (get_credentials out globals (ms_Xname device)) (Ok cred) x ->
  cc_Username cred <> "" -> cc_SNMPAuthPass cred <> "" -> cc_SNMPPrivPass cred <> "" ->
  silent x (snmp_global_credentials storage switch) (globCreds, None) x ->
  mget "" (snmp_KnownDevices (lget switch x)) = None -> ms_Xname device <> "" ->
  wpm x ks (discover_switch err device) (fun o x1 ks1 =>
    o = Ret err /\ ks1 = ks /\
    wpm x1 ks1 (discover_switch err device) (fun o x2 ks2 => o = Ret err /\ x2 = x1 /\ ks2 = ks1) /\
    wpm x1 ks1 (snmp_GetEnvForXname switch (ms_Xname device)) (fun o x2 ks2 =>
      exists env, o = Ret (Ok env) /\
      wpm x2 ks2 (snmp_RunBackendHelper snmp_lib switch key args env) (fun o x3 ks3 =>
        o = Ret (Err (ErrText "unknown xname: ")) /\ x3 = x1 /\ ks3 = ks))).
Proof using Laws LensLaws0.
  intros Hnew Hal Hip Hcred Hu Ha Hp Hglob Hempty Hx.
  assert (Hlen : forall s, s <> "" -> Nat.ltb (String.length s) 1 = false) by by intros [].
  unfold SnmpSwitch.discover_switch at 1. cell_steps. unfold mmem at 1. rewrite Hnew.
  unfold snmp_initDevice. cell_steps. unfold snmp_credentials. cell_steps.
  eapply wpm_silent; [exact Hcred|]. cell_steps. rewrite !Hlen by done. cell_steps.
  eapply wpm_silent; [exact Hglob|]. cell_steps. unfold switch_address. rewrite Hal, Hip.
  change (String.eqb "" "") with true. cbv iota. cell_steps.
  assert (Hmem : forall k d m, mmem k (mput k d m : gomap (SNMPDevice C)) = true)
    by (intros; unfold mmem; by rewrite mget_mput_eq).
  split; [done|]. split; [done|]. split.
  - unfold SnmpSwitch.discover_switch. cell_steps. rewrite lget_lput. cbn [snmp_KnownDevices set_switches].
    rewrite Hmem. by cell_steps.
  - unfold snmp_GetEnvForXname. cell_steps. rewrite lget_lput. cbn [snmp_KnownDevices set_switches].
    rewrite mget_mput_eq. cell_steps. eexists. split; [done|]. unfold snmp_RunBackendHelper.
    match goal with |- context [mget "RTS_XNAME" ?env] => change (mget "RTS_XNAME" env) with (Some "") end. cbv iota. cell_steps. rewrite lget_lput.
    cbn [snmp_KnownDevices set_switches]. rewrite mget_mput_ne, Hempty by congruence. by cell_steps.
Qed.
End unaddressed.
