(* ===== verification/GCloud.v ===== *)
(** The backend helper for virtual machines
    ([internal/backend_helpers/gcloud.go]).

    The nodes are instances of a cloud; one that has a label [xname] is
    presented as a system of that name.  Each round lists the instances: a new
    one gets its name service and its resources, then the helper waits until
    it answers ([waitReady]) and tells the state manager ([informHSM]).  The
    service of the cloud is a library, [Compute]; its lists come in pages. *)
From S2P Require Import Prelude Values Redis Walk Dispatcher Pipelines RedisHelper Services Certificates.
From S2P Require Import CredentialStores.

(** [compute.Instance], the fields the program reads *)
Record Instance := mkInstance {
  gi_Name : string;
  gi_Status : string;
  gi_Zone : string;
  gi_Labels : gomap string;
}.

(** [T]: the world; [C]: the service *)
Record Compute (T C : Type) := mkCompute {
  (* metadata.ProjectID, compute.NewService *)
  ProjectID : M T (result string);
  NewService : M T (result C);
  (* a page of Instances.AggregatedList, by its token: the instances of every
     zone, and the token of the next page, empty for the last one *)
  list_page : C -> string -> option string -> string -> M T (result (list (list Instance) * string));
  (* Instances.Start, Stop and Reset, by project, zone and name *)
  Instances_Start : C -> string -> string -> string -> M T (option go_error);
  Instances_Stop : C -> string -> string -> string -> M T (option go_error);
  Instances_Reset : C -> string -> string -> string -> M T (option go_error);
}.
Arguments ProjectID {T C}.
Arguments NewService {T C}.
Arguments list_page {T C}.
Arguments Instances_Start {T C}.
Arguments Instances_Stop {T C}.
Arguments Instances_Reset {T C}.

Record GCloudHelper (P V C : Type) := mkGCloudHelper {
  gc_RedisHelper : RedisHelper P;
  gc_project : string;
  gc_namespace : string;
  gc_computeService : option C;
  gc_KnownInstances : gomap Instance;
  gc_waitReady : gomap Z;
  gc_informHSM : gomap Z;
  gc_RTSCredentialStore : option (RTSCredentialStore V);
}.
Arguments mkGCloudHelper {P V C}.
Arguments gc_RedisHelper {P V C}.
Arguments gc_project {P V C}.
Arguments gc_namespace {P V C}.
Arguments gc_computeService {P V C}.
Arguments gc_KnownInstances {P V C}.
Arguments gc_waitReady {P V C}.
Arguments gc_informHSM {P V C}.
Arguments gc_RTSCredentialStore {P V C}.

Definition translateGCloudStatusToRF (status : string) : string :=
  let among l := existsb (String.eqb status) l in
  if among ["RUNNING"] then "On"
  else if among ["PROVISIONING"; "STAGING"] then "PoweringOn"
  else if among ["STOPPING"; "SUSPENDING"] then "PoweringOff"
  else if among ["STOPPED"; "SUSPENDED"; "TERMINATED"] then "Off"
  else "UNKNOWN".

(** [[^/]*$]: what comes after the last slash *)
Definition zoneRegex (zone : string) : string := List.last (split_slash zone) "".

Section gcloud.
Context {X S P V K C : Type} `{RedisOps S} `{!PipelineOps S P} `{!Crypto K}.
Context (out : Outside (X * S) V) (storage : Storage (X * S) V) (lib : Compute (X * S) C).
Variable globals : lens X (Globals V).
Variable gcloud : lens X (GCloudHelper P V C).
Variable cs : lens X (CertificateService P V K).
Variable SecureStorage_Lookup : V -> string -> M (X * S) (CertificatePair * option go_error).
Variable GenerateFromPassword : string -> M (X * S) (result string).

Definition gc_RedisHelper_field : lens (GCloudHelper P V C) (RedisHelper P) :=
  mkLens gc_RedisHelper (fun r h => mkGCloudHelper r (gc_project h) (gc_namespace h) (gc_computeService h)
    (gc_KnownInstances h) (gc_waitReady h) (gc_informHSM h) (gc_RTSCredentialStore h)).
Definition gc_helper : lens X (RedisHelper P) := lens_comp gcloud gc_RedisHelper_field.

#[local] Abbreviation add := (addMemberToSet (S:=S) gc_helper).
#[local] Abbreviation set := (setValueForPropertyInKeyspace (S:=S) gc_helper).
#[local] Abbreviation push := (addMemberToArray (S:=S) (P:=P) gc_helper).

Definition set_KnownInstances (m : gomap Instance) (h : GCloudHelper P V C) : GCloudHelper P V C :=
  mkGCloudHelper (gc_RedisHelper h) (gc_project h) (gc_namespace h) (gc_computeService h) m
    (gc_waitReady h) (gc_informHSM h) (gc_RTSCredentialStore h).
Definition set_waitReady (m : gomap Z) (h : GCloudHelper P V C) : GCloudHelper P V C :=
  mkGCloudHelper (gc_RedisHelper h) (gc_project h) (gc_namespace h) (gc_computeService h) (gc_KnownInstances h)
    m (gc_informHSM h) (gc_RTSCredentialStore h).
Definition set_informHSM (m : gomap Z) (h : GCloudHelper P V C) : GCloudHelper P V C :=
  mkGCloudHelper (gc_RedisHelper h) (gc_project h) (gc_namespace h) (gc_computeService h) (gc_KnownInstances h)
    (gc_waitReady h) m (gc_RTSCredentialStore h).

(** [helper.f = g(helper.f)] *)
Definition modify (f : GCloudHelper P V C -> GCloudHelper P V C) : M (X * S) unit :=
  h <- fetch gcloud ;; assign gcloud (f h).

(* ===================================================================== *)
(** * The cloud                                                          *)
(* ===================================================================== *)

(** The project; [fuel] attempts to find it out. *)
Fixpoint ProjectID_loop (fuel : nat) : M (X * S) string :=
  match fuel with
  | O => out_of_fuel
  | Datatypes.S fuel' =>
      r <- ProjectID lib ;;
      match r with
      | Ok project => ret project
      | Err _ => ProjectID_loop fuel'
      end
  end.
Definition getProjectID (fuel : nat) : M (X * S) string :=
  match LookupEnv out "GCLOUD_PROJECT" with
  | Some project => ret project
  | None => ProjectID_loop fuel
  end.

Definition the_service : M (X * S) C :=
  h <- fetch gcloud ;;
  match gc_computeService h with Some service => ret service | None => panic nil_deref end.

(** [req.Pages(ctx, f)], from the page [token] on; [fuel] pages *)
Fixpoint Pages {A} (filter : option string) (f : A -> list (list Instance) -> M (X * S) A) (a : A)
    (fuel : nat) (token : string) : M (X * S) (A * option go_error) :=
  match fuel with
  | O => out_of_fuel
  | Datatypes.S fuel' =>
      service <- the_service ;;
      h <- fetch gcloud ;;
      r <- list_page lib service (gc_project h) filter token ;;
      match r with
      | Err err => ret (a, Some err)
      | Ok (page, next) =>
          a' <- f a page ;;
          if String.eqb next "" then ret (a', None) else Pages filter f a' fuel' next
      end
  end.

(** The first instance of the page.  An instance that an earlier page held is
    replaced by the first one of the first zone of this page, if it has one. *)
Fixpoint first_instance (found : option Instance) (page : list (list Instance)) : option Instance :=
  match page with
  | [] => found
  | [] :: zones => match found with Some _ => found | None => first_instance found zones end
  | (instance :: _) :: _ => Some instance
  end.

Definition findInstanceByXname (fuel : nat) (xname : string) : M (X * S) (result Instance) :=
  found <- Pages (Some ("labels.xname = " +:+ xname)) (fun found page => ret (first_instance found page)) None fuel "" ;;
  match found with
  | (_, Some err) => ret (Err err)
  | (None, None) => ret (Err (ErrText "no instance with specified xname was found."))
  | (Some instance, None) => ret (Ok instance)
  end.

(* ===================================================================== *)
(** * The resources of an instance                                       *)
(* ===================================================================== *)

Definition gc_initSystem_reset (xname actionsKeyspace : string) : M (X * S) (result unit) :=
  let actionName := "ComputerSystem.Reset" in
  reset <- add actionsKeyspace ("#" +:+ actionName) ;;
  let computerSystemResetKeyspace := fst reset in
  let computerSystemResetTargetURI := path_join [actionsKeyspace; actionName] in
  set computerSystemResetKeyspace "target" computerSystemResetTargetURI ;;
  allowable <- add computerSystemResetKeyspace "ResetType@Redfish.AllowableValues" ;;
  match allowable with
  | (_, Some _) => ret (Err (ErrText ("unable to add AllowableValues to ResetType for xname " +:+ xname)))
  | (allowableValuesKeyspace, None) =>
      redis_rpush allowableValuesKeyspace ["On"; "GracefulShutdown"; "ForceRestart"] ;;
      ret (Ok tt)
  end.

Definition gc_initSystem (xname : string) : M (X * S) (result unit) :=
  system <- add (path_join [xname; ServiceRootKeyspace]) "Systems" ;;
  let systemKeyspace := fst system in
  set systemKeyspace "Name" "Computer System Collection" ;;
  add systemKeyspace "@odata.id" ;;
  add systemKeyspace "@odata.type" ;;
  add systemKeyspace "Members" ;;
  member <- push systemKeyspace "Members" ;;
  match member with
  | (_, Some _) => ret (Err (ErrText ("unable to add member to array for instance: " +:+ xname)))
  | (thisMemberKeyspace, None) =>
      let newInstanceKeyspace := systemKeyspace +:+ "/Self" in
      set thisMemberKeyspace "@odata.id" newInstanceKeyspace ;;
      add newInstanceKeyspace "@odata.id" ;;
      add newInstanceKeyspace "@odata.type" ;;
      set newInstanceKeyspace "Name" "Computer System Chassis" ;;
      set newInstanceKeyspace "Id" "Self" ;;
      set newInstanceKeyspace "Manufacturer" "Cray, Inc." ;;
      set newInstanceKeyspace "Model" "Google Cloud" ;;
      add newInstanceKeyspace "PowerState" ;;
      actions <- add newInstanceKeyspace "Actions" ;;
      match actions with
      | (_, Some _) => ret (Err (ErrText ("unable to add Actions to instance " +:+ xname)))
      | (actionsKeyspace, None) => gc_initSystem_reset xname actionsKeyspace
      end
  end.

Definition gc_initChassis (xname : string) : M (X * S) (result unit) :=
  chassis <- add (path_join [xname; ServiceRootKeyspace]) "Chassis" ;;
  let chassisKeyspace := fst chassis in
  set chassisKeyspace "Name" "Chassis Collection" ;;
  add chassisKeyspace "@odata.id" ;;
  add chassisKeyspace "@odata.type" ;;
  add chassisKeyspace "Members" ;;
  member <- push chassisKeyspace "Members" ;;
  match member with
  | (_, Some _) => ret (Err (ErrText ("unable to add member to array for instance: " +:+ xname)))
  | (thisMemberKeyspace, None) =>
      let newInstanceKeyspace := chassisKeyspace +:+ "/Self" in
      set thisMemberKeyspace "@odata.id" newInstanceKeyspace ;;
      add newInstanceKeyspace "@odata.id" ;;
      add newInstanceKeyspace "@odata.type" ;;
      set newInstanceKeyspace "Name" "Computer System Chassis" ;;
      set newInstanceKeyspace "Id" "Self" ;;
      set newInstanceKeyspace "Manufacturer" "Cray, Inc." ;;
      set newInstanceKeyspace "Model" "Google Cloud" ;;
      links <- add newInstanceKeyspace "Links" ;;
      systems <- push (fst links) "ComputerSystems" ;;
      set (fst systems) "@odata.id" (path_join [SystemsKeyspace; "Self"]) ;;
      ret (Ok tt)
  end.

Definition gc_initManagers (xname : string) : M (X * S) (result unit) :=
  r <- initManagerCollection gc_helper xname ;;
  match r with
  | Err err => ret (Err (ErrText ("unable to init manager collection for " +:+ xname +:+ ": " +:+ err_string err)))
  | Ok _ =>
      r <- initManager (P:=P) gc_helper xname "RTS" "Google Cloud" ;;
      match r with
      | Err err => ret (Err (ErrText ("unable to init manager for " +:+ xname +:+ ": " +:+ err_string err)))
      | Ok _ => ret (Ok tt)
      end
  end.

Definition gc_initRoot : M (X * S) unit :=
  root <- add "/redfish" "v1" ;;
  let rootKeyspace := fst root in
  set rootKeyspace "Name" "Service Root" ;;
  set rootKeyspace "Description" "The Redfish ServiceRoot" ;;
  add rootKeyspace "@odata.id" ;;
  add rootKeyspace "@odata.type" ;;
  match LookupEnv out "SCHEMA_VERSION" with
  | Some versionStr => set rootKeyspace "RedfishVersion" versionStr ;; ret tt
  | None => ret tt
  end ;;
  add rootKeyspace "Chassis" ;;
  add rootKeyspace "Systems" ;;
  add rootKeyspace "Managers" ;;
  ret tt.

Definition gc_initFunctions : list (string -> M (X * S) (result unit)) :=
  [gc_initChassis; gc_initSystem; gc_initManagers].

(* ===================================================================== *)
(** * An instance                                                        *)
(* ===================================================================== *)

(** The credentials of all instances *)
Definition gc_credentials : M (X * S) Credential :=
  h <- fetch gcloud ;;
  match gc_RTSCredentialStore h with
  | None => panic nil_deref
  | Some credStore =>
      creds <- GetGlobalCredentials storage credStore ;;
      match creds with
      | (_, Some _) => fatal "Unable to get default credentails for RTS"
      | (creds, None) => ret creds
      end
  end.

(** They are stored for the instance. *)
Definition flush_credentials (xname : string) : M (X * S) (result unit) :=
  creds <- gc_credentials ;;
  stored <- store_credentials out globals
    (mkCompCredentials xname (xname +:+ ":8083") (cred_Username creds) (cred_Password creds) "" "") ;;
  match stored with
  | Err compErr => ret (Err (ErrText ("unable to store credentials in Vault: " +:+ err_string compErr)))
  | Ok _ => ret (Ok tt)
  end.

(** The first part of [initInstance]: the resources *)
Definition gc_createInstance (xname : string) : M (X * S) (result unit) :=
  removed <- removeXnamePrependedKeys (P:=P) xname ;;
  match removed with
  | Err removeErr => ret (Err (ErrText ("unable to remove keys from Redis: " +:+ err_string removeErr)))
  | Ok _ =>
      gc_initRoot ;;
      _ <-? in_active_pipeline gc_helper (fold_ok (fun _ initFunction => initFunction xname) tt gc_initFunctions) ;;
      _ <-? InitForXName cs SecureStorage_Lookup xname ;;
      flush_credentials xname
  end.

(** The second part: an instance that is waited for, when it answers, is
    not waited for any more. *)
Definition gc_checkWaiting (xname : string) (found : bool) : M (X * S) bool :=
  if found then
    ready <- checkReady out globals xname ;;
    match ready with
    | Err _ =>
        modify (fun h => set_waitReady (mput xname (wrap64 (default 0 (mget xname (gc_waitReady h)) + 1)) (gc_waitReady h)) h) ;;
        ret false
    | Ok _ => modify (fun h => set_waitReady (mdel xname (gc_waitReady h)) h) ;; ret true
    end
  else ret true.

(** The third part: the state manager, if it is to be told *)
Definition gc_tellHSM (xname : string) : M (X * S) unit :=
  h <- fetch gcloud ;;
  if mmem xname (gc_informHSM h) then
    hsm <- informHSM out xname ;;
    match hsm with
    | Err _ => modify (fun h => set_informHSM (mput xname (wrap64 (default 0 (mget xname (gc_informHSM h)) + 1)) (gc_informHSM h)) h)
    | Ok _ => modify (fun h => set_informHSM (mdel xname (gc_informHSM h)) h)
    end
  else ret tt.

Definition gc_initInstance (instance : Instance) : M (X * S) (result unit) :=
  let xname := default "" (mget "xname" (gi_Labels instance)) in
  h <- fetch gcloud ;;
  let found := mmem xname (gc_waitReady h) in
  let count := default 0 (mget xname (gc_waitReady h)) in
  _ <-? (if negb found || Z.eqb count 0 then gc_createInstance xname else ret (Ok tt)) ;;
  ready <- gc_checkWaiting xname found ;;
  if ready : bool then gc_tellHSM xname ;; ret (Ok tt) else ret (Ok tt).

(** The errors of a set-up are ignored: the instance is known all the same. *)
Definition updateKnownInstance (instance : Instance) : M (X * S) unit :=
  match mget "xname" (gi_Labels instance) with
  | None => ret tt
  | Some xname =>
      h <- fetch gcloud ;;
      match mget xname (gc_KnownInstances h), mmem xname (gc_waitReady h) || mmem xname (gc_informHSM h) with
      | Some knownInstance, false =>
          flush_credentials xname ;;
          if String.eqb (gi_Status knownInstance) (gi_Status instance) then ret tt
          else
            postRFPowerEvent out globals xname (path_join [SystemsKeyspace; "Self"])
              (translateGCloudStatusToRF (gi_Status instance)) ;;
            ret tt
      | _, _ => gc_initInstance instance ;; ret tt
      end ;;
      modify (fun h => set_KnownInstances (mput xname instance (gc_KnownInstances h)) h)
  end.

(* ===================================================================== *)
(** * The backend helper                                                 *)
(* ===================================================================== *)

(** One instance of a round; [seen] are the names so far. *)
Definition visit_instance (seen : list string) (instance : Instance) : M (X * S) (list string) :=
  match mget "xname" (gi_Labels instance) with
  | None => ret seen
  | Some xname =>
      h <- fetch gcloud ;;
      added <- addXNameService out (gc_namespace h) xname ;;
      (if fst added : bool then
         modify (fun h => set_informHSM (mput xname 0 (gc_informHSM h)) (set_waitReady (mput xname 0 (gc_waitReady h)) h))
       else ret tt) ;;
      updateKnownInstance instance ;;
      ret (xname :: seen)
  end.

Fixpoint visit_instances (seen : list string) (instances : list Instance) : M (X * S) (list string) :=
  match instances with
  | [] => ret seen
  | instance :: instances' => seen' <- visit_instance seen instance ;; visit_instances seen' instances'
  end.

(** An instance that was not seen has disappeared. *)
Definition forget_instance (seen : list string) (k : string) : M (X * S) unit :=
  if existsb (String.eqb k) seen then ret tt
  else
    modify (fun h => set_KnownInstances (mdel k (gc_KnownInstances h)) h) ;;
    deleteFromHSM out k ;;
    ret tt.

Definition gc_RunPeriodic (fuel : nat) : M (X * S) (result unit) :=
  listed <- Pages None (fun seen page => visit_instances seen (List.concat page)) [] fuel "" ;;
  match listed with
  | (_, Some err) => ret (Err err)
  | (seen, None) =>
      h <- fetch gcloud ;;
      for_each (forget_instance seen) (mkeys (gc_KnownInstances h)) ;;
      ret (Ok tt)
  end.

(** [SetupBackendHelper]; [fuel] attempts to find the project, and to reach
    Vault *)
Definition gc_SetupBackendHelper (fuel : nat) : M (X * S) (result unit) :=
  project <- getProjectID fuel ;;
  let namespace := default "services" (LookupEnv out "XNAME_NAMESPACE") in
  modify (fun h => mkGCloudHelper (gc_RedisHelper h) project namespace (gc_computeService h) (gc_KnownInstances h) [] []
    (gc_RTSCredentialStore h)) ;;
  service <- NewService lib ;;
  match service with
  | Err serviceErr => fatal ("unable to setup new compute service: " +:+ err_string serviceErr)
  | Ok computeService =>
      modify (fun h => mkGCloudHelper (gc_RedisHelper h) (gc_project h) (gc_namespace h) (Some computeService)
        (gc_KnownInstances h) (gc_waitReady h) (gc_informHSM h) (gc_RTSCredentialStore h)) ;;
      match LookupEnv out "JAWS_VAULT_KEYPATH" with
      | None => fatal "Environment variable JAWS_VAULT_KEYPATH was not set"
      | Some jawsVaultKeypath =>
          secureStorage <- connectToVault out fuel ;;
          match secureStorage with
          | None => fatal "Unable to connect to Vault"
          | Some secureStorage =>
              ok <- setupCompCredsVault out globals secureStorage ;;
              (if ok : bool then ret tt else fatal "Failed to setup CompCredsVault") ;;
              _ <-? SetupCertificateService cs "RTS" GenericCertificateID ;;
              modify (fun h => mkGCloudHelper (gc_RedisHelper h) (gc_project h) (gc_namespace h) (gc_computeService h)
                (gc_KnownInstances h) (gc_waitReady h) (gc_informHSM h)
                (Some (mkRTSCredStore jawsVaultKeypath secureStorage))) ;;
              ok <- setupCompCredsVault out globals secureStorage ;;
              (if ok : bool then ret tt else fatal "Failed to setup CompCredsVault") ;;
              creds <- gc_credentials ;;
              initAccount (P:=P) gc_helper GenerateFromPassword (cred_Username creds) "Administrator" (cred_Password creds)
          end
      end
  end.

Definition gc_GetEnvForXname (xname : string) : M (X * S) (result (gomap string)) :=
  h <- fetch gcloud ;;
  match mget xname (gc_KnownInstances h) with
  | Some device => ret (Ok [("RTS_XNAME", default "" (mget "xname" (gi_Labels device)))])
  | None => ret (Err (ErrText "unable to find xname in instance list"))
  end.

(** ComputerSystem.Reset; an unknown type is only logged.  The power state is
    invalid after it, also when the cloud reports an error. *)
Definition gc_Reset (xname : string) (instance : Instance) (env : gomap string) : M (X * S) (result string) :=
  let zone := zoneRegex (gi_Zone instance) in
  let name := gi_Name instance in
  match mget "ResetType" env with
  | None => ret (Err (ErrText "ResetType action requested, but ResetType not provided"))
  | Some desiredPowerState =>
      let order (action : C -> string -> string -> string -> M (X * S) (option go_error)) :=
        service <- the_service ;;
        h <- fetch gcloud ;;
        err <- action service (gc_project h) zone name ;;
        invalidateRedisKeys [path_join [xname; SystemsKeyspace; "Self"; "PowerState"]] ;;
        ret (match err with Some e => Err e | None => Ok "" end) in
      if String.eqb desiredPowerState "On" then order (Instances_Start lib)
      else if String.eqb desiredPowerState "GracefulShutdown" then order (Instances_Stop lib)
      else if String.eqb desiredPowerState "ForceRestart" then order (Instances_Reset lib)
      else ret (Ok "")
  end.

(** The power state; an instance that is not found is a nil pointer. *)
Definition gc_PowerState (fuel : nat) (xname : string) : M (X * S) (result string) :=
  found <- findInstanceByXname fuel xname ;;
  match found with
  | Err _ => panic nil_deref
  | Ok instance =>
      updateKnownInstance instance ;;
      ret (Ok (translateGCloudStatusToRF (gi_Status instance)))
  end.

Definition gc_RunBackendHelper (fuel : nat) (key : string) (args : list string) (env : gomap string) :
    M (X * S) (result string) :=
  match mget "RTS_XNAME" env with
  | None => ret (Err (ErrText "RTS_XNAME not in environment variables"))
  | Some xname =>
      h <- fetch gcloud ;;
      match mget xname (gc_KnownInstances h) with
      | None => ret (Err (ErrText ("unknown xname: " +:+ xname)))
      | Some instance =>
          match keyRegex key with
          | None => ret (Err (ErrText "key format not what expected"))
          | Some fullKey =>
              let strippedKey := trim_prefix ServiceRootKeyspace fullKey in
              if String.eqb strippedKey key then ret (Err (ErrText "unexpected key prefix"))
              else if String.eqb strippedKey "/Systems/Self/Actions/ComputerSystem.Reset" then gc_Reset xname instance env
              else if String.eqb strippedKey "/Systems/Self/PowerState" then gc_PowerState fuel xname
              else redis_get key
          end
      end
  end.

Definition GCloudHelper_backend (fuel : nat) : BackendHelper (X * S) := {|
  RunPeriodic := gc_RunPeriodic fuel;
  SetupBackendHelper := gc_SetupBackendHelper fuel;
  GetEnvForXname := gc_GetEnvForXname;
  RunBackendHelper := gc_RunBackendHelper fuel;
|}.
End gcloud.
