(* ===== verification/CloudFacts.v ===== *)
(** The list of the instances of a project, page by page.

    The cloud gives the list in pages; the program follows the tokens to the
    last one ([Pages_chain]), so that it finds an instance wherever it is
    listed, and knows when there is none ([instance_found]).  The power state
    of an instance that has disappeared since the last round makes the program
    panic ([vanished_instance_panics]). *)
From S2P Require Import Prelude Values Redis Walk Dispatcher Pipelines RedisHelper Performs Services Certificates.
From S2P Require Import DeviceKeys DeviceSetup Replacement CredentialStores GCloud.

(* ===================================================================== *)
(** * The first instance                                                 *)
(* ===================================================================== *)

Lemma first_instance_none found page :
  first_instance found page = None <-> found = None /\ List.concat page = [].
Proof. revert found. induction page as [|[|i zone] page IH]; intros [j|]; simpl; naive_solver. Qed.

Lemma first_instance_some found page i :
  first_instance found page = Some i -> found = Some i \/ List.In i (List.concat page).
Proof.
  revert found. induction page as [|[|j zone] page IH]; intros found; simpl; [auto| |].
  - destruct found as [j|]; [auto|]. intros Hi. by apply IH.
  - intros [= <-]. right. by left.
Qed.

Lemma first_instances_none found pages :
  foldl first_instance found pages = None <-> found = None /\ List.concat (List.concat pages) = [].
Proof.
  revert found. induction pages as [|page pages IH]; intros found; simpl; [naive_solver|].
  rewrite IH, first_instance_none, concat_app. split; [intros [[-> ->] ->]; done|].
  intros [-> [-> ->]%app_eq_nil]. done.
Qed.

Lemma first_instances_some found pages i :
  foldl first_instance found pages = Some i -> found = Some i \/ List.In i (List.concat (List.concat pages)).
Proof.
  revert found. induction pages as [|page pages IH]; intros found; simpl; [auto|].
  rewrite concat_app, in_app_iff. intros [Hp|Hin]%IH; [|auto]. apply first_instance_some in Hp as [?|?]; auto.
Qed.

(* ===================================================================== *)
(** * Pages                                                              *)
(* ===================================================================== *)

Section cloud.
Context {X S P V K C : Type} `{Laws : RedisLaws S} `{!PipelineOps S P} `{!Crypto K}.
Context (out : Outside (X * S) V) (storage : Storage (X * S) V) (lib : Compute (X * S) C).
Variable globals : lens X (Globals V).
Variable gcloud : lens X (GCloudHelper P V C).
Variable cs : lens X (CertificateService P V K).
Variable SecureStorage_Lookup : V -> string -> M (X * S) (CertificatePair * option go_error).

(** The pages that the cloud gives from a token on; it only answers. *)
Inductive chain (x : X) (service : C) (filter : option string) : string -> list (list (list Instance)) -> Prop :=
  | chain_last token page :
      silent x (list_page lib service (gc_project (lget gcloud x)) filter token) (Ok (page, "")) x ->
      chain x service filter token [page]
  | chain_next token page next pages :
      silent x (list_page lib service (gc_project (lget gcloud x)) filter token) (Ok (page, next)) x -> next <> "" ->
      chain x service filter next pages ->
      chain x service filter token (page :: pages).

(** Every page is visited once, in order; there is fuel for as many pages. *)
Lemma Pages_chain {A} x ks service filter (g : A -> list (list Instance) -> A) token pages a fuel
    (Q : outcome (A * option go_error) -> X -> keys -> Prop) :
  gc_computeService (lget gcloud x) = Some service -> chain x service filter token pages ->
  (List.length pages <= fuel)%nat ->
  Q (Ret (foldl g a pages, None)) x ks ->
  wpm x ks (Pages lib gcloud filter (fun a page => ret (g a page)) a fuel token) Q.
Proof using Laws.
  intros Hservice Hchain. revert a fuel. induction Hchain as [token page Hlist|token page next pages Hlist Hnext _ IH];
    intros a [|fuel] Hfuel HQ; simpl in Hfuel; try lia; cbn [Pages]; unfold the_service; cell_steps; rewrite Hservice;
    cell_steps; (eapply wpm_silent; [exact Hlist|]); cell_steps.
  - change (String.eqb "" "") with true. cbv iota. cell_steps. exact HQ.
  - rewrite (proj2 (String.eqb_neq _ _) Hnext). apply IH; [lia|exact HQ].
Qed.

(** C37: the search for an instance ends after the last page, and changes
    nothing; it finds an instance when the pages hold one, the one they hold
    when there is only one, and is an error when they hold none. *)
Theorem instance_found x ks service xname pages fuel :
  gc_computeService (lget gcloud x) = Some service ->
  chain x service (Some ("labels.xname = " +:+ xname)) "" pages -> (List.length pages <= fuel)%nat ->
  wpm x ks (findInstanceByXname lib gcloud fuel xname) (fun o x1 ks1 => x1 = x /\ ks1 = ks /\
    match List.concat (List.concat pages) with
    | [] => o = Ret (Err (ErrText "no instance with specified xname was found."))
    | [instance] => o = Ret (Ok instance)
    | instances => exists instance, List.In instance instances /\ o = Ret (Ok instance)
    end).
Proof using Laws.
  intros Hservice Hchain Hfuel. unfold findInstanceByXname. cell_steps.
  apply (Pages_chain _ _ service _ _ _ pages); [done..|]. cell_steps.
  destruct (foldl first_instance None pages) as [i|] eqn:E; cell_steps; (split; [done|]); (split; [done|]).
  - apply first_instances_some in E as [E|E]; [done|].
    destruct (List.concat (List.concat pages)) as [|j [|k l]]; [done| |by exists i].
    by destruct E as [->|[]].
  - by apply first_instances_none in E as [_ ->].
Qed.

(** An instance that is known but is not listed any more is a nil pointer
    when its power state is asked for. *)
Theorem vanished_instance_panics x ks service xname instance pages fuel args :
  plain xname = true -> gc_computeService (lget gcloud x) = Some service ->
  mget xname (gc_KnownInstances (lget gcloud x)) = Some instance ->
  chain x service (Some ("labels.xname = " +:+ xname)) "" pages -> (List.length pages <= fuel)%nat ->
  List.concat (List.concat pages) = [] ->
  wpm x ks (gc_RunBackendHelper out storage lib globals gcloud cs SecureStorage_Lookup fuel
      (below xname ["redfish"; "v1"; "Systems"; "Self"; "PowerState"]) args [("RTS_XNAME", xname)])
    (fun o x1 ks1 => o = Panic nil_deref /\ x1 = x /\ ks1 = ks).
Proof using Laws.
  intros Hplain Hservice Hknown Hchain Hfuel Hnone. unfold gc_RunBackendHelper.
  match goal with |- context [mget "RTS_XNAME" ?env] => change (mget "RTS_XNAME" env) with (Some xname) end. cbv iota.
  cell_steps. rewrite Hknown. set (key := below xname _).
  assert (Hkey : keyRegex key = Some "/redfish/v1/Systems/Self/PowerState").
  { unfold key. rewrite below_suffix, keyRegex_device by by apply plain_free. by vm_compute. }
  rewrite Hkey. assert (Hstrip : trim_prefix ServiceRootKeyspace "/redfish/v1/Systems/Self/PowerState" = "/Systems/Self/PowerState")
    by by vm_compute.
  rewrite Hstrip. destruct (String.eqb_spec "/Systems/Self/PowerState" key) as [E|_].
  - exfalso. apply (f_equal keyRegex) in E. by rewrite Hkey in E.
  - change (String.eqb "/Systems/Self/PowerState" "/Systems/Self/Actions/ComputerSystem.Reset") with false.
    change (String.eqb "/Systems/Self/PowerState" "/Systems/Self/PowerState") with true. cbv iota.
    unfold gc_PowerState. cell_steps. unfold findInstanceByXname. cell_steps.
    apply (Pages_chain _ _ service _ _ _ pages); [done..|]. cell_steps.
    rewrite (proj2 (first_instances_none None pages)) by done. by cell_steps.
Qed.
End cloud.
