(* ===== verification/HelperExamples.v ===== *)
(** Concrete instances of what the backend helpers use, for the examples: a
    memory with a simulator and a certificate service, an outside without
    services, a hardware state manager, and a small text format with the laws
    of PEM. *)
From stdpp Require Import sets.
From S2P Require Import Prelude Values Redis Walk RedisStruct Dispatcher Accounts Pipelines RedisHelper Performs.
From S2P Require Import DeviceKeys Services Certificates Simulator DeviceSetup Replacement Collections Simulated Announce.

(* ===================================================================== *)
(** * Memory                                                             *)
(* ===================================================================== *)

Definition xmem : Type :=
  (RFSimulatorHelper (list command) * CertificateService (list command) unit unit)
  * (RedfishCredentials * Globals unit).

Definition x_sim : lens xmem (RFSimulatorHelper (list command)) :=
  mkLens (fun x => fst (fst x)) (fun a x => ((a, snd (fst x)), snd x)).
Definition x_cs : lens xmem (CertificateService (list command) unit unit) :=
  mkLens (fun x => snd (fst x)) (fun a x => ((fst (fst x), a), snd x)).
Definition x_credentials : lens xmem RedfishCredentials :=
  mkLens (fun x => fst (snd x)) (fun a x => (fst x, (a, snd (snd x)))).
Definition x_globals : lens xmem (Globals unit) :=
  mkLens (fun x => snd (snd x)) (fun a x => (fst x, (fst (snd x), a))).

#[export] Instance x_sim_laws : LensLaws x_sim.
Proof. by split; intros; destruct x as [[] []]. Qed.
#[export] Instance x_cs_laws : LensLaws x_cs.
Proof. by split; intros; destruct x as [[] []]. Qed.
#[export] Instance x_sim_cs : LensIndep x_sim x_cs.
Proof. by split; intros; destruct x as [[] []]. Qed.
#[export] Instance x_sim_globals : LensIndep x_sim x_globals.
Proof. by split; intros; destruct x as [[] []]. Qed.
#[export] Instance x_cs_globals : LensIndep x_cs x_globals.
Proof. by split; intros; destruct x as [[] []]. Qed.

(* ===================================================================== *)
(** * A text format for blocks                                           *)
(* ===================================================================== *)

Definition newline : ascii := "010"%char.

(** The text before the first newline, and after it *)
Fixpoint cut_line (s : string) : option (string * string) :=
  match s with
  | EmptyString => None
  | String a s' =>
      if Ascii.eqb a newline then Some ("", s')
      else match cut_line s' with Some (l, r) => Some (String a l, r) | None => None end
  end.

Lemma cut_line_shorter s l r : cut_line s = Some (l, r) -> (String.length r < String.length s)%nat.
Proof.
  revert l r. induction s as [|a s IH]; intros l r; [done|]. simpl.
  destruct (Ascii.eqb a newline); [intros [= <- <-]; lia|].
  destruct (cut_line s) as [[l' r']|]; [|done]. intros [= <- <-]. specialize (IH _ _ eq_refl). lia.
Qed.
Lemma cut_line_first l r : free_of newline l = true -> cut_line (l +:+ String newline r) = Some (l, r).
Proof.
  unfold free_of. str_induction l; [done|]. rewrite andb_true_iff, negb_true_iff. intros [-> Hl]. by rewrite IH.
Qed.

#[export] Instance toy_crypto : Crypto unit := {|
  pem_Decode s :=
    match cut_line s with
    | Some (t, rest) =>
        match cut_line rest with
        | Some (b, rest') => (Some (mkBlock t [] b), rest')
        | None => (None, s)
        end
    | None => (None, s)
    end;
  pem_EncodeToMemory b := block_Type b +:+ String newline (block_Bytes b +:+ String newline "");
  X509KeyPair c k := Ok tt;
  ParseCertificate b := Ok (mkX509 0 0 (mkName [] b [] [] [] []) (mkName [] b [] [] [] []));
  format_RFC3339 t := format_int t;
|}.

#[export] Program Instance toy_pem_laws : PemLaws unit := {|
  encodable b := block_Headers b = [] /\ free_of newline (block_Type b) = true /\ free_of newline (block_Bytes b) = true;
|}.
Next Obligation.
  intros s rest. simpl. destruct (cut_line s) as [[t r]|]; [|by intros [= <-]].
  destruct (cut_line r) as [[b r']|]; by intros [= <-].
Qed.
Next Obligation.
  intros s b rest. simpl. destruct (cut_line s) as [[t r]|] eqn:E; [|done].
  destruct (cut_line r) as [[b' r']|] eqn:E'; [|done]. intros [= <- <-].
  apply cut_line_shorter in E, E'. lia.
Qed.
Next Obligation.
  intros [t h b] (Hh & Ht & Hb). simpl in *. subst h. rewrite cut_line_first by done. by rewrite cut_line_first.
Qed.

(* ===================================================================== *)
(** * The outside                                                        *)
(* ===================================================================== *)

(** No service answers; Vault takes every credential. *)
Definition quiet {T} : Outside T unit := {|
  LookupEnv name := mget name [("SCHEMA_VERSION", "1.11.0"); ("COLLECTOR_URL", "http://collector")];
  GetServiceInstanceName := Ok "RTS";
  DoHTTPAction _ := ret ("", 0, Some (ErrText "unable to do request"));
  UnmarshalEP _ := Err (ErrText "unexpected end of JSON input");
  now_RFC3339 := ret "2020-01-01T00:00:00Z";
  NewVaultAdapter := ret (Ok tt);
  GetCompCred _ _ := ret (Err (ErrText "not found"));
  StoreCompCred _ _ := ret (Ok tt);
  k8s_client := ret (Err (ErrText "not in a cluster"));
  k8s_get _ _ := ret (Err (ErrText "not in a cluster"));
  k8s_delete _ _ := ret (Err (ErrText "not in a cluster"));
  k8s_create _ _ := ret (Err (ErrText "not in a cluster"));
|}.

Definition quiet_outside : Outside (xmem * memstore) unit := quiet.

(** The memory after the set-up of the helpers *)
Definition x0 : xmem :=
  ((mkSimulator (mkRedisHelper None) [("x0c0s0b0", tt)],
    mkCertificateService (mkRedisHelper None) "RTS" "1" None None (Some []) (Some [("x0c0s0b0", true)]) false),
   (mkRedfishCredentials "root" "secret", mkGlobals 1 (Some (mkCompCredStore "hms-creds" tt)))).

(** A Redis with a service root and keys of another device *)
Definition ks0 : memstore :=
  <["/redfish/v1" := RSet {["Chassis"]}]> (<["/redfish" := RSet {["v1"]}]>
    (<["x0c0s1b0/redfish/v1/Systems/Self/PowerState" := RStr "Off"]>
      (<["x0c0s0b0/redfish/v1/Systems/Members" := RStr "old"]> ∅))).

Definition no_certificates (v : unit) (key : string) : M (xmem * memstore) (CertificatePair * option go_error) :=
  ret (mkPair "" "", Some (ErrText "not found")).
Definition no_store (v : unit) (key : string) (p : CertificatePair) : M (xmem * memstore) (option go_error) :=
  ret None.

Definition set_up (xname : string) (xs : xmem * memstore) : outcome (result unit) * (xmem * memstore) :=
  initSimulator quiet_outside x_globals x_credentials x_sim x_cs no_certificates 8 xname xs.

(** What the set-up leaves *)
Example set_up_device :
  let ks := snd (snd (set_up "x0c0s0b0" (x0, ks0))) in
  fst (set_up "x0c0s0b0" (x0, ks0)) = Ret (Ok tt) /\
  ks !! "x0c0s0b0/redfish/v1/Systems/Self/PowerState" = Some (RStr "On") /\
  ks !! "x0c0s0b0/redfish/v1/UpdateService/FirmwareInventory/Members" = Some (RList ["0"; "1"]) /\
  ks !! "x0c0s0b0/redfish/v1/Managers/RTS/NetworkProtocol/HTTPS/Certificates/Members/0/@odata.id" =
    Some (RStr "x0c0s0b0/redfish/v1/Managers/RTS/NetworkProtocol/HTTPS/Certificates/1") /\
  ks !! "x0c0s1b0/redfish/v1/Systems/Self/PowerState" = Some (RStr "Off") /\
  ks !! "/redfish/v1" = Some (RSet {["Chassis"; "CertificateService"; "UpdateService"; "@odata.type"; "@odata.id";
    "Managers"; "Systems"; "Name"; "Description"; "RedfishVersion"]}).
Proof. vm_compute. repeat split. Qed.

(* ===================================================================== *)
(** * The theorems at work                                               *)
(* ===================================================================== *)

Lemma ready_x0 : ready x_globals x_sim x_cs x0.
Proof. by repeat (split || eexists). Qed.

Lemma root_typed_ks0 : root_typed quiet_outside ks0.
Proof.
  intros k v Hk Hv. unfold ks0 in Hv.
  rewrite !lookup_insert_Some, lookup_empty in Hv.
  destruct Hv as [[<- <-]|[_ [[<- <-]|[_ Hv]]]]; [by vm_compute..|]. exfalso. revert Hk. unfold root_key.
  rewrite !elem_of_cons, elem_of_nil.
  destruct Hv as [[<- _]|[_ [[<- _]|[_ Hv]]]]; [| |done];
    intros [Hk|[w Hk]]; (by destruct_or? Hk) || (by vm_compute in Hk).
Qed.

Lemma initSimulator_confined_witness :
  exists x' s',
    set_up "x0c0s0b0" (x0, ks0) = (Ret (Ok tt), (x', s')) /\ ready x_globals x_sim x_cs x' /\
    root_typed quiet_outside (keyspace s') /\
    forall k, has_prefix "x0c0s0b0" k = false -> ~ root_key quiet_outside k -> keyspace s' !! k = keyspace ks0 !! k.
Proof.
  apply (initSimulator_confined quiet_outside x_globals x_credentials x_sim x_cs no_certificates 8);
    [|reflexivity|apply ready_x0|apply root_typed_ks0].
  intros store cred x s. by exists s.
Defined.

Lemma initSimulator_repeatable_witness :
  exists x' s' s0' s'',
    set_up "x0c0s0b0" (x0, ks0) = (Ret (Ok tt), (x', s')) /\ set_up "x0c0s0b0" (x0, ∅) = (Ret (Ok tt), (x', s0')) /\
    (forall k, has_prefix "x0c0s0b0" k = true -> keyspace s' !! k = keyspace s0' !! k) /\
    set_up "x0c0s0b0" (x0, s') = (Ret (Ok tt), (x', s'')) /\ keyspace s'' = keyspace s'.
Proof.
  apply (initSimulator_repeatable quiet_outside x_globals x_credentials x_sim x_cs no_certificates 8);
    [|reflexivity|apply ready_x0|apply root_typed_ks0|].
  - intros store cred x s. by exists s.
  - intros k v _ Hv. change ((∅ : keys) !! k = Some v) in Hv. by rewrite lookup_empty in Hv.
Defined.

Lemma reset_sets_power_witness :
  let power := "x0c0s0b0/redfish/v1/Systems/Self/PowerState" in
  wpm x0 (snd (snd (set_up "x0c0s0b0" (x0, ks0))))
    (simulator_RunBackendHelper (S:=memstore) (P:=list command) quiet_outside x_globals x_sim (fun s => s)
      "x0c0s0b0/redfish/v1/Systems/Self/Actions/ComputerSystem.Reset" []
      [("RTS_XNAME", "x0c0s0b0"); ("ResetType", "GracefulShutdown")])
    (fun o x1 ks1 =>
      o = Ret (Ok "") /\
      (forall k, k <> "x0c0s0b0/redfish/v1/Systems/Self" -> k <> power ->
         ks1 !! k = snd (snd (set_up "x0c0s0b0" (x0, ks0))) !! k) /\
      wpm x1 ks1 (simulator_RunBackendHelper (S:=memstore) (P:=list command) quiet_outside x_globals x_sim (fun s => s)
          power [] [("RTS_XNAME", "x0c0s0b0")])
        (fun o x2 ks2 => o = Ret (Ok "Off") /\ x2 = x1 /\ ks2 = ks1)).
Proof.
  apply (reset_sets_power quiet_outside x_globals x_sim (fun s => s)) with
    (xname := "x0c0s0b0") (resetType := "GracefulShutdown"); try reflexivity.
  - intros request x. eexists. intros s. by exists s.
  - intros x. eexists. intros s. by exists s.
Defined.

Lemma collectionMembers_added_witness :
  wpm x0 ks0
    (for_each (add_link (P:=list command) (sim_helper x_sim) "x0c0s0b0/redfish/v1/Chassis")
       ["x0c0s0b0/redfish/v1/Chassis/Self"; "x0c0s0b0/redfish/v1/Chassis/PDU1"] ;;
     collectionMembers "x0c0s0b0/redfish/v1/Chassis/Members")
    (fun o x' _ => o = Ret (Ok ["Self"; "PDU1"]) /\ x' = x0).
Proof.
  apply (collectionMembers_added (P:=list command) (sim_helper x_sim) x0 ks0 "x0c0s0b0" ["redfish"; "v1"; "Chassis"]
    ["x0c0s0b0/redfish/v1/Chassis/Self"; "x0c0s0b0/redfish/v1/Chassis/PDU1"]); try reflexivity. by left.
Defined.

(** A second set-up of the account, on restart *)
Definition ks_account : memstore :=
  <[accounts := RSet {["Members"]}]> (<[child accounts "Members" := RList ["0"]]>
    (<[child accounts "Members/0/@odata.id" := RStr (child accounts "root")]> ∅)).

Lemma initAccount_stores_witness :
  wpm x0 ks_account
    (initAccount (P:=list command) (sim_helper x_sim) (fun p => ret (Ok ("$2a$" +:+ p))) "root" "Administrator" "secret")
    (fun o x' ks' => o = Ret (Ok tt) /\ x' = x0 /\
      links_at ks' (child accounts "Members") [child accounts "root"; child accounts "root"] /\
      exists h, account_fields "root" "Administrator" h ks' /\ DecodeString h = Some "$2a$secret").
Proof.
  apply (initAccount_stores (P:=list command) (sim_helper x_sim) "root" "Administrator") with
    (l := [child accounts "root"]); [reflexivity|done|reflexivity|..].
  - intros s. by exists s.
  - split; [reflexivity|]. intros [|i] link; [|done]. by intros [= <-].
  - right. by eexists.
Defined.

(** Two blocks, the key before the certificate *)
Definition key_block : Block := mkBlock "RSA PRIVATE KEY" [] "k".
Definition certificate_block : Block := mkBlock "CERTIFICATE" [] "c".
Definition posted : string :=
  "RSA PRIVATE KEY" +:+ String newline ("k" +:+ String newline ("CERTIFICATE" +:+ String newline ("c" +:+ String newline ""))).

Lemma posted_blocks : pem_blocks (K:=unit) posted [key_block; certificate_block].
Proof.
  apply blocks_next with (rest := "CERTIFICATE" +:+ String newline ("c" +:+ String newline "")); [done|by vm_compute|].
  apply blocks_next with (rest := ""); [done|by vm_compute|]. constructor.
Qed.

Lemma ParseCertificatePairFromString_spec_witness :
  exists bs, pem_blocks (K:=unit) posted bs /\
    forall s : memstore, ParseCertificatePairFromString (K:=unit) posted s = (Ret (pair_of_blocks (K:=unit) bs), s).
Proof. apply (ParseCertificatePairFromString_spec (T:=memstore) (K:=unit) posted). Defined.

Lemma replaced_certificate_served_witness :
  let dir := "/redfish/v1/Managers/RTS/NetworkProtocol/HTTPS/Certificates/1" in
  let cert := "CERTIFICATE" +:+ String newline ("c" +:+ String newline "") in
  wpm x0 ks0
    (certificates_RunBackendHelper (S:=memstore) x_cs no_store
      "x0c0s0b0/redfish/v1/CertificateService/Actions/CertificateService.ReplaceCertificate" []
      [("RTS_XNAME", "x0c0s0b0"); ("CertificateUri", dir); ("CertificateType", "PEM"); ("CertificateString", posted)])
    (fun o x1 ks1 =>
      o = Ret (Ok "") /\
      wpm x1 ks1 (ReturnCert (S:=memstore) x_cs "x0c0s0b0-rts") (fun o x2 _ => o = Ret (Ok tt) /\ x2 = x1) /\
      wpm x1 ks1 (certificates_RunBackendHelper (S:=memstore) x_cs no_store
          ("x0c0s0b0" +:+ dir +:+ "/CertificateString") [] [("RTS_XNAME", "x0c0s0b0")])
        (fun o x2 _ => o = Ret (Ok cert) /\ x2 = x1)).
Proof.
  apply (replaced_certificate_served (S:=memstore) x_cs no_store "x0c0s0b0" "RTS") with
    (text := posted) (certs := [])
    (cert := mkTuple ("CERTIFICATE" +:+ String newline ("c" +:+ String newline "")) tt
       (mkX509 0 0 (mkName [] "c" [] [] [] []) (mkName [] "c" [] [] [] []))); try reflexivity.
  - by left.
  - done.
  - exists [key_block; certificate_block], certificate_block, key_block. split_and!; try reflexivity;
      [apply posted_blocks|by repeat split..].
Defined.

(* ===================================================================== *)
(** * A hardware state manager                                           *)
(* ===================================================================== *)

Definition after_prefix (p s : string) : option string :=
  if has_prefix p s then Some (trim_prefix p s) else None.

(** It keeps the set of the registered xnames. *)
Definition small_hsm (request : HTTPRequest) (R : gset string) : string * Z * gset string :=
  if String.eqb (Method request) "POST" then
    match Payload request with
    | PayloadEP ep =>
        if decide (ep_ID ep ∈ R) then ("conflict", 409, R) else ("", 201, {[ep_ID ep]} ∪ R)
    | _ => ("bad request", 400, R)
    end
  else match after_prefix ("http://hsm" +:+ endpoints_path +:+ "/") (FullURL request) with
  | None => ("not found", 404, R)
  | Some xname =>
      if decide (xname ∈ R) then
        if String.eqb (Method request) "GET" then (xname, 200, R)
        else ("", 200, R ∖ {[xname]})
      else ("not found", 404, R)
  end.

(** The client reports a status that is not expected as an error. *)
Definition small_http {X} (request : HTTPRequest) : M (X * gset string) (string * Z * option go_error) :=
  fun s =>
    let '(body, status, R) := small_hsm request (snd s) in
    (Ret (body, status, if decide (status ∈ ExpectedStatusCodes request) then None else Some (unexpected status)),
     (fst s, R)).

Definition hsm_outside : Outside (unit * gset string) unit := {|
  LookupEnv name := mget name [("HSM_URL", "http://hsm")];
  GetServiceInstanceName := Ok "RTS";
  DoHTTPAction := small_http;
  UnmarshalEP body := Ok (mkRedfishEP body "" None);
  now_RFC3339 := ret "2020-01-01T00:00:00Z";
  NewVaultAdapter := ret (Ok tt);
  GetCompCred _ _ := ret (Err (ErrText "not found"));
  StoreCompCred _ _ := ret (Ok tt);
  k8s_client := ret (Err (ErrText "not in a cluster"));
  k8s_get _ _ := ret (Err (ErrText "not in a cluster"));
  k8s_delete _ _ := ret (Err (ErrText "not in a cluster"));
  k8s_create _ _ := ret (Err (ErrText "not in a cluster"));
|}.

Lemma small_hsm_path xname :
  after_prefix ("http://hsm" +:+ endpoints_path +:+ "/") ("http://hsm" +:+ endpoints_path +:+ "/" +:+ xname) = Some xname.
Proof. unfold after_prefix. by rewrite <- !str_app_assoc, has_prefix_app, trim_prefix_app. Qed.

#[export] Program Instance small_hsm_laws : HSM hsm_outside "http://hsm" := {|
  registered := fun R => R;
|}.
Next Obligation.
  intros x R xname [] Hm Hu H1 H2. cbn in *. subst. unfold answers_http, small_http, small_hsm. cbn [snd fst Method FullURL].
  change (String.eqb "GET" "POST") with false. rewrite small_hsm_path, String.eqb_refl. cbv iota.
  destruct (decide (xname ∈ R)); do 2 eexists; (split; [by rewrite decide_True|]); split_and!; eauto.
Qed.
Next Obligation.
  intros x R ep [] Hm Hu Hp H1 H2. cbn in *. subst. unfold answers_http, small_http, small_hsm. cbn [snd fst Method Payload].
  rewrite String.eqb_refl. cbv iota. rewrite (decide_False (P:=ep_ID ep ∈ R)) by done.
  do 2 eexists; (split; [by rewrite decide_True|]); split_and!; eauto.
Qed.
Next Obligation.
  intros x R xname [] Hm Hu H1. cbn in *. subst. unfold answers_http, small_http, small_hsm. cbn [snd fst Method FullURL].
  change (String.eqb "DELETE" "POST") with false. change (String.eqb "DELETE" "GET") with false.
  rewrite small_hsm_path. cbv iota.
  destruct (decide (xname ∈ R)); do 2 eexists; (split; [reflexivity|]); split_and!; eauto.
Qed.

Lemma inform_then_delete_witness :
  exists s1 s2 s3 s4 : gset string,
    informHSM hsm_outside "x0c0s0b0" (tt, {["x0c0s1b0"]}) = (Ret (Ok tt), (tt, s1)) /\
    registered s1 = {["x0c0s0b0"]} ∪ registered (HSM:=small_hsm_laws) {["x0c0s1b0"]} /\
    informHSM hsm_outside "x0c0s0b0" (tt, s1) = (Ret (Ok tt), (tt, s2)) /\ registered s2 = registered s1 /\
    deleteFromHSM hsm_outside "x0c0s0b0" (tt, s2) = (Ret (Ok tt), (tt, s3)) /\
    registered s3 = registered {["x0c0s1b0"]} ∖ {["x0c0s0b0"]} /\
    deleteFromHSM hsm_outside "x0c0s0b0" (tt, s3) = (Ret (Ok tt), (tt, s4)) /\ registered s4 = registered s3.
Proof.
  apply (inform_then_delete hsm_outside "http://hsm" eq_refl ltac:(discriminate) "x0c0s0b0" tt {["x0c0s1b0"]}).
Defined.
