(* ===== verification/Frames.v ===== *)
(** Invariants of actions: what the resolution of URIs, the reading of
    structures and the exchange with Redis preserve.

    [preserves I m] says that [m] keeps the invariant [I] of the states however
    it ends.  An invariant that the commands of Redis keep ([Unaffected]) and
    that the helpers, callbacks and programs of a dispatcher keep
    ([harmless]) is kept by what the dispatcher does. *)
From S2P Require Import Prelude Values Redis Schema Walk RedisStruct Dispatcher Actions.

Definition preserves {S A} (I : S -> Prop) (m : M S A) : Prop := forall s, I s -> I (snd (m s)).

Section preserves.
Context {S : Type} (I : S -> Prop).

Lemma preserves_ret {A} (a : A) : preserves I (ret a).
Proof. by intros s. Qed.
Lemma preserves_panic {A} msg : preserves I (panic (A:=A) msg).
Proof. by intros s. Qed.
Lemma preserves_fatal {A} msg : preserves I (fatal (A:=A) msg).
Proof. by intros s. Qed.
Lemma preserves_fuel {A} : preserves I (out_of_fuel (A:=A)).
Proof. by intros s. Qed.
Lemma preserves_ask {A} (f : S -> A) : preserves I (ask f).
Proof. by intros s. Qed.
Lemma preserves_bind {A B} (m : M S A) (k : A -> M S B) :
  preserves I m -> (forall a, preserves I (k a)) -> preserves I (bind m k).
Proof.
  intros Hm Hk s Hs. unfold bind. specialize (Hm s Hs). destruct (m s) as [[a|?|?|] s']; simpl in *; [by apply Hk|done..].
Qed.
Lemma preserves_bind_ok {A B} (m : M S (result A)) (k : A -> M S (result B)) :
  preserves I m -> (forall a, preserves I (k a)) -> preserves I (bind_ok m k).
Proof. intros Hm Hk. apply preserves_bind; [done|]. intros [a|e]; [apply Hk|apply preserves_ret]. Qed.
Lemma preserves_must {A} (m : M S (result A)) : preserves I m -> preserves I (must m).
Proof. intros Hm. apply preserves_bind; [done|]. intros [a|e]; [apply preserves_ret|apply preserves_panic]. Qed.
Lemma preserves_for_each {A} (f : A -> M S unit) l : (forall a, preserves I (f a)) -> preserves I (for_each f l).
Proof. intros Hf. induction l as [|a l IH]; [apply preserves_ret|]. by apply preserves_bind. Qed.
Lemma preserves_fold_ok {A B} (f : B -> A -> M S (result B)) l :
  (forall b a, preserves I (f b a)) -> forall b, preserves I (fold_ok f b l).
Proof. intros Hf. induction l as [|a l IH]; intros b; [apply preserves_ret|]. by apply preserves_bind_ok. Qed.
End preserves.

Create HintDb preserves_db.
#[export] Hint Resolve preserves_ret preserves_panic preserves_fatal preserves_fuel preserves_ask : preserves_db.
(** Follow the structure of an action. *)
Ltac preserves := repeat first
  [ progress intros | solve [eauto with preserves_db] | apply preserves_bind_ok | apply preserves_bind
  | apply preserves_must | apply preserves_for_each | apply preserves_fold_ok | case_match ].

(** The commands of Redis do not affect the invariant. *)
Class Unaffected {S} `{RedisOps S} (I : S -> Prop) := {
  unaffected_get k : preserves I (redis_get k);
  unaffected_type k : preserves I (redis_type k);
  unaffected_exists k : preserves I (redis_exists k);
  unaffected_smembers k : preserves I (redis_smembers k);
  unaffected_lrange k : preserves I (redis_lrange k);
  unaffected_hgetall k : preserves I (redis_hgetall k);
  unaffected_set k v : preserves I (redis_set k v);
  unaffected_del k : preserves I (redis_del k);
  unaffected_sadd k ms : preserves I (redis_sadd k ms);
}.
#[export] Hint Resolve unaffected_get unaffected_type unaffected_exists unaffected_smembers unaffected_lrange
  unaffected_hgetall unaffected_set unaffected_del unaffected_sadd : preserves_db.

Lemma preserves_on_snd {Y T A} (P : Y -> Prop) (m : M T A) : preserves (fun s => P (fst s)) (on_snd m).
Proof. intros [y t] HP. unfold on_snd. simpl. by destruct (m t). Qed.

(** The memory next to Redis is not affected. *)
#[export] Instance memory_unaffected {Y T} `{RedisOps T} (P : Y -> Prop) :
  Unaffected (S := Y * T) (fun s => P (fst s)).
Proof. split; intros; apply preserves_on_snd. Qed.

(** What a dispatcher calls keeps the invariant. *)
Record harmless_helper {S} (I : S -> Prop) (helper : BackendHelper S) : Prop := {
  harmless_env xname : preserves I (GetEnvForXname helper xname);
  harmless_run key args env : preserves I (RunBackendHelper helper key args env);
}.
Record harmless {S} (I : S -> Prop) (rfd : RedfishDispatcher S) : Prop := {
  harmless_callbacks : Forall (fun cb : CollectionCB S => forall c p i, preserves I (cb c p i)) (additionalCollectionCBs rfd);
  harmless_helpers : Forall (harmless_helper I) (BackendHelpers rfd);
  harmless_programs script args env : preserves I (run_program (world rfd) script args env);
}.

Section dispatcher.
Context {S : Type} `{RedisOps S} `{FloatText} (I : S -> Prop) `{!Unaffected I}.

Lemma preserves_assert_string v : preserves I (assert_string v).
Proof. unfold assert_string. preserves. Qed.
Lemma preserves_assert_object v : preserves I (assert_object v).
Proof. unfold assert_object. preserves. Qed.
Lemma preserves_assert_array v : preserves I (assert_array v).
Proof. unfold assert_array. preserves. Qed.

(** ** URIs *)

Section walk.
Variable cb : CollectionCB S.
Hypothesis Hcb : forall c p i, preserves I (cb c p i).

Lemma preserves_walk_tokens tokens : forall seen walking res prop, preserves I (walk_tokens cb seen walking res prop tokens).
Proof.
  induction tokens as [|t tokens IH]; intros seen walking res prop; [apply preserves_ret|]. cbn [walk_tokens]. unfold walk_enter. preserves.
Qed.
Lemma preserves_WalkTree root path : preserves I (WalkTree root cb path).
Proof. unfold WalkTree. pose proof preserves_walk_tokens. preserves. Qed.
End walk.

Variable rfd : RedfishDispatcher S.
Hypothesis Hrfd : harmless I rfd.

Lemma preserves_additional cbs c p i :
  Forall (fun cb : CollectionCB S => forall c p i, preserves I (cb c p i)) cbs -> preserves I (run_additional_cbs cbs c p i).
Proof. induction 1; cbn [run_additional_cbs]; preserves. Qed.
Lemma preserves_GetResource uri xname : preserves I (GetResource rfd uri xname).
Proof.
  apply preserves_WalkTree. intros c p i. unfold GetResource_cb.
  pose proof (preserves_additional _ c (xname +:+ p) i (harmless_callbacks _ _ Hrfd)). preserves.
Qed.

(** ** Structures *)

Lemma preserves_executeFile script args env : preserves I (executeFile rfd script args env).
Proof. unfold executeFile. pose proof (harmless_programs _ _ Hrfd). preserves. Qed.
Lemma preserves_DoFileHandler op uri args env : preserves I (DoFileHandler rfd op uri args env).
Proof.
  unfold DoFileHandler, DoFileHandler_override, DoFileHandler_global. pose proof preserves_executeFile. preserves.
Qed.

Variables (resource : option Resource) (uri xname : string).
Abbreviation r2s := (mkRedis2Interface S rfd resource uri xname).

Lemma preserves_generateOData key : preserves I (generateOData r2s key).
Proof. unfold generateOData. preserves. Qed.
Lemma preserves_buildAction key : preserves I (buildAction r2s key).
Proof. unfold buildAction, buildAction_member. preserves. Qed.
Lemma preserves_backends key helpers : Forall (harmless_helper I) helpers -> preserves I (getValueForKey_backends r2s key helpers).
Proof. induction 1 as [|helper helpers [Henv Hrun]]; cbn [getValueForKey_backends]; preserves. Qed.
Lemma preserves_getValueForKey key : preserves I (getValueForKey r2s key).
Proof.
  unfold getValueForKey. pose proof preserves_generateOData. pose proof preserves_DoFileHandler.
  pose proof (preserves_backends key _ (harmless_helpers _ _ Hrfd)). preserves.
Qed.

Section build.
Variable build : properties -> string -> M S (result object).
Hypothesis Hbuild : forall ps key, preserves I (build ps key).

Lemma preserves_expanded members key indexes : preserves I (buildAutoExpandedLink_members build members key indexes).
Proof. induction indexes; cbn [buildAutoExpandedLink_members]; preserves. Qed.
Lemma preserves_buildLink p key : preserves I (buildLink r2s build p key).
Proof.
  unfold buildLink, buildAutoExpandedLink, get_or_empty. pose proof preserves_expanded. preserves.
Qed.
Lemma preserves_buildArray p key : preserves I (buildArray r2s build p key).
Proof. unfold buildArray, buildArray_element, get_or_empty. preserves. Qed.
Lemma preserves_field ps key payload name : preserves I (BuildStruct_field r2s build ps key payload name).
Proof.
  unfold BuildStruct_field. pose proof preserves_buildAction. pose proof preserves_buildArray. pose proof preserves_buildLink.
  pose proof preserves_getValueForKey. preserves.
Qed.
Lemma preserves_body ps key : preserves I (BuildStruct_body r2s build ps key).
Proof. unfold BuildStruct_body. pose proof preserves_field. preserves. Qed.
End build.

Lemma preserves_BuildStruct ps key : preserves I (BuildStruct r2s ps key).
Proof.
  unfold BuildStruct. generalize (Datatypes.S (props_height ps)) as fuel. intros fuel. revert ps key.
  induction fuel as [|fuel IH]; intros ps key; [apply preserves_fuel|]. by apply preserves_body.
Qed.
End dispatcher.
#[export] Hint Resolve preserves_assert_string preserves_assert_object preserves_assert_array : preserves_db.
