(* ===== verification/Startup.v ===== *)
(** The start of the dispatcher and of the server ([NewDispatcher] of
    [internal/rfdispatcher/dispatcher/rfdispatcher.go], and what
    [newRedfishServer] of [cmd/rfdispatcher/rfserver.go] reads from outside).

    The memory of the program is that of the account service, [Memory], next
    to that of the backend helpers, [X], and Redis. *)
From S2P Require Import Prelude Values Redis Schema Versions Tree Parsing Configuration RedisStruct Dispatcher Messages Actions.
From S2P Require Import TreeBuilt Privileges Accounts AccountHooks JsonSchemas Server.

(** What belongs to one part of the memory, in the whole *)
Definition beside_helper {Y T} (helper : BackendHelper T) : BackendHelper (Y * T) := {|
  RunPeriodic := on_snd (RunPeriodic helper);
  SetupBackendHelper := on_snd (SetupBackendHelper helper);
  GetEnvForXname := fun xname => on_snd (GetEnvForXname helper xname);
  RunBackendHelper := fun key args env => on_snd (RunBackendHelper helper key args env);
|}.

Definition beside_world {Y T} (w : World T) : World (Y * T) := {|
  file_mode := fun s => file_mode w (snd s);
  file_contents := fun s => file_contents w (snd s);
  look_path := fun s => look_path w (snd s);
  run_program := fun script args env => on_snd (run_program w script args env);
|}.

(** The heap of the schema tree is new, and nothing else changes. *)
Definition on_new_heap {St A} (m : M tree_state A) : M St (A * tree_state) := fun s =>
  match m (mkTreeState [] [] []) with
  | (Ret a, t) => (Ret (a, t), s)
  | (Panic msg, _) => (Panic msg, s)
  | (Fatal msg, _) => (Fatal msg, s)
  | (OutOfFuel, _) => (OutOfFuel, s)
  end.

Section start.
Context {X S : Type} `{RedisOps S} `{JsonReferences} `{FloatText}.
Variable surroundings : Surroundings.
(** [os.Args[0]], and what there is next to the program *)
Variable arg0 : string.
Variable outside : World (X * S).
(** The files of a directory of mappings, the schema files of a configuration,
    and the JSON files of a directory *)
Variable mappings_in : string -> result (list (string * result VersionMapping)).
Variable schemas_of : Config -> SchemaFiles.
Variable json_files : string -> list (option request_body).
(** [redis.NewClient] with a network and an address, then [Ping] *)
Variable ping : string -> string -> M (X * S) (result string).
Variable certificateService : BackendHelper (X * S).
Variable device : backend_kind -> BackendHelper (X * S).
(** Bounds of the recursions of the schema files, and of the tree *)
Variables fuel depth : nat.

Abbreviation getenv := (env_lookup surroundings).

(** The tree is read from the heap when it is finished. *)
Definition load_tree (SchemaConfig : Config) : M (Memory * (X * S)) Resource :=
  loaded <- on_new_heap (LoadTreeFromConfig fuel [] (mappings_in (MappingDir SchemaConfig)) (schemas_of SchemaConfig) SchemaConfig) ;;
  match loaded with
  | (Err err, _) => panic (err_string err)
  | (Ok (_, root), heap) =>
      match read_resource depth (ts_heap heap) root with
      | Some tree => ret tree
      | None => out_of_fuel
      end
  end.

Definition RegistryDirs : list string :=
  ["contrib/Cray/hms-controllers/etc/message_registries"; "contrib/DMTF/DSP8011-Redfish_Standard_Registries"].
Definition registryFiles (SchemaConfig : Config) : list (option request_body) :=
  flat_map (fun regDir => json_files (path_join [ContribDirPrefix SchemaConfig; regDir])) RegistryDirs.

Definition RedisAddr : option string :=
  match getenv "REDIS_HOSTNAME", getenv "REDIS_PORT" with
  | Some redisHostname, Some redisPort => Some (redisHostname +:+ ":" +:+ redisPort)
  | _, _ => None
  end.

(** The dispatcher, and its [SchemaConfig] *)
Definition NewDispatcher : M (Memory * (X * S)) (Config * RedfishDispatcher (Memory * (X * S))) :=
  SchemaConfig <- must (ret (SetupEnvConfig surroundings)) ;;
  match RedisAddr with
  | None => panic "Redis hostname/port not set"
  | Some addr =>
      tree <- load_tree SchemaConfig ;;
      pingResult <- must (on_snd (ping (default "tcp" (getenv "REDIS_NETWORK")) addr)) ;;
      if negb (String.eqb pingResult "PONG") then panic "PING'd Redis, but it didn't PONG back"
      else
        registries <- InitMessageRegistries (registryFiles SchemaConfig) ;;
        helpers <- NewDispatcher_helpers (beside_helper certificateService) (fun kind => beside_helper (device kind))
                     (getenv "BACKEND_HELPER") ;;
        ret (SchemaConfig, mkDispatcher _ (default "/" (getenv "SCRIPT_DIR_PREFIX")) (path_base arg0) tree registries [] helpers (beside_world outside))
  end.

(* ===================================================================== *)
(** * The server                                                         *)
(* ===================================================================== *)

(** [json.Unmarshal] of the file of the privilege registry *)
Variable privilege_mappings : string -> option (list Mapping).
Variable GenerateFromPassword : string -> M (Memory * (X * S)) (result string).
(** The documents of the schema files *)
Variable pool : gomap object.

Definition privilegeRegistryPath (SchemaConfig : Config) (privilegeRegistryVersion : string) : string :=
  path_join [ContribDirPrefix SchemaConfig;
             "contrib/DMTF/DSP8011-Redfish_Standard_Registries/Redfish_" +:+ privilegeRegistryVersion +:+ "_PrivilegeRegistry.json"].

(** The part of [initAccountService] before the hooks *)
Definition load_accounts (SchemaConfig : Config) (rfd : RedfishDispatcher (Memory * (X * S))) :
    M (Memory * (X * S)) PrivilegeRegistry :=
  InitFromRedis rfd ;;
  match getenv "PRIVILEGE_REGISTRY_VERSION" with
  | None => panic "This requires the environment variable PRIVILEGE_REGISTRY_VERSION to be set"
  | Some version => must (ret (NewPrivilegeRegistry (privilege_mappings (privilegeRegistryPath SchemaConfig version))))
  end.

(** [newRedfishServer], with all that it reads *)
Definition start_server : M (Memory * (X * S)) (redfishServer (X * S)) :=
  dispatcher <- NewDispatcher ;;
  privileges <- load_accounts (fst dispatcher) (snd dispatcher) ;;
  ret (newRedfishServer GenerateFromPassword (snd dispatcher) privileges pool).
End start.
