(* ===== verification/AccountTable.v ===== *)
(** The accounts of a running server: the table of the account service
    ([accountservice/AccountService.go]) from the start of the server on.

    [start_server] fills the table; then the table is refreshed from Redis,
    locked accounts are released, and logins are checked. *)
From S2P Require Import Prelude Values Redis Schema Walk RedisStruct Dispatcher Actions Frames.
From S2P Require Import Versions Tree Parsing Configuration Privileges Accounts AccountHooks JsonSchemas Server Startup.

(** Every account is in the table under its user name. *)
Definition keyed (x : Memory) : Prop :=
  mwf (mem_Accounts x) /\
  forall name a, mget name (mem_Accounts x) = Some a -> exists ma, mem_heap x !! a = Some ma /\ UserName ma = name.

(** What the service does by itself, and on a login *)
Inductive account_event := Periodic (e : periodic_event) | Login (username password : string).

(** The structure of a resource is only read. *)
Lemma preserves_resource_at {S} `{RedisOps S} `{FloatText} (I : Memory * S -> Prop) `{!Unaffected I} rfd fail uri :
  harmless I rfd -> (forall msg, preserves I (fail msg)) -> preserves I (resource_at rfd fail uri).
Proof.
  intros Hrfd Hfail. unfold resource_at. apply preserves_bind; [by apply preserves_GetResource|].
  intros [[r|] [p|]]; [apply Hfail| |apply Hfail..]. apply preserves_bind; [by apply preserves_BuildStruct|]. preserves.
Qed.

Section table.
Context {S : Type} `{RedisOps S} `{FloatText}.
Variable time_now : M (Memory * S) Z.
Variable CompareHashAndPassword : string -> string -> bool.
Hypothesis Hclock : clock time_now.
Abbreviation I := (fun s : Memory * S => keyed (fst s)).

Definition account_step (rfd : RedfishDispatcher (Memory * S)) (e : account_event) : M (Memory * S) unit :=
  match e with
  | Periodic e => RunPeriodic_event rfd time_now e
  | Login username password => AuthenticateAccount time_now CompareHashAndPassword username password ;; ret tt
  end.

Lemma keyed_unaffected : Unaffected I.
Proof. apply memory_unaffected. Qed.
#[local] Hint Resolve keyed_unaffected : preserves_db typeclass_instances.

(** ** The table *)

Lemma keyed_heap x heap :
  keyed x -> (forall a ma, mem_heap x !! a = Some ma -> exists ma', heap !! a = Some ma' /\ UserName ma' = UserName ma) ->
  keyed (with_heap heap x).
Proof. intros [Hwf Hk] Hh. split; [done|]. intros n a Ha. destruct (Hk n a Ha) as (ma & Hl & <-). by apply Hh. Qed.

Lemma keyed_update x a ma ma' :
  keyed x -> mem_heap x !! a = Some ma -> UserName ma' = UserName ma -> keyed (with_heap (<[a:=ma']> (mem_heap x)) x).
Proof.
  intros Hk Ha Hn. apply keyed_heap; [done|]. intros b mb Hb. destruct (decide (b = a)) as [->|Hne].
  - rewrite Ha in Hb. injection Hb as ->. exists ma'. split; [|done]. by apply (lookup_store _ _ _ _ Ha).
  - exists mb. by rewrite list_lookup_insert_ne by done.
Qed.

Lemma keyed_alloc x ma : keyed x ->
  keyed (with_Accounts (mput (UserName ma) (List.length (mem_heap x)) (mem_Accounts x)) (with_heap (mem_heap x ++ [ma]) x)).
Proof.
  intros [Hwf Hk]. split; [by apply mwf_mput|]. intros n a. simpl. destruct (decide (n = UserName ma)) as [->|Hne].
  - rewrite mget_mput_eq. intros [= <-]. exists ma. by rewrite lookup_app_r, Nat.sub_diag by lia.
  - rewrite mget_mput_ne by done. intros (mb & Hb & Hn)%Hk. exists mb. split; [|done]. by apply lookup_app_l_Some.
Qed.

Lemma preserves_mem_field (P : Memory -> Prop) {A} (f : Memory -> A) : preserves (fun s : Memory * S => P (fst s)) (mem_field f).
Proof. by intros s. Qed.
Lemma preserves_now (P : Memory -> Prop) : preserves (fun s => P (fst s)) time_now.
Proof. intros s Hs. by destruct (Hclock s) as [t ->]. Qed.
#[local] Hint Resolve preserves_mem_field preserves_now : preserves_db.

(** The search by the name finds what the table has. *)
Lemma keyed_find x (s : S) username : keyed x ->
  find_username (mem_Accounts x) username (x, s) = (Ret (mget username (mem_Accounts x)), (x, s)).
Proof.
  intros [Hwf Hk]. unfold mwf in Hwf. revert Hwf Hk. induction (mem_Accounts x) as [|[n a] l IH]; intros Hwf Hk; [done|].
  cbn [find_username]. destruct (Hk n a) as (ma & Ha & Hn); [simpl; by rewrite String.eqb_refl|].
  unfold bind at 1, load, get_mem, bind. cbn [fst snd]. rewrite Ha. simpl. rewrite Hn, (String.eqb_sym username n).
  destruct (String.eqb_spec n username) as [->|Hne]; [done|]. apply NoDup_cons in Hwf as [Hnot Hwf]. apply IH; [done|].
  intros m b Hb. apply Hk. simpl. destruct (String.eqb_spec m n) as [->|?]; [|done].
  exfalso. apply Hnot. apply mget_Some_elem in Hb. by apply (list_elem_of_fmap_2 fst) in Hb.
Qed.

(** ** One account *)

(** The table is right, and the account at [a], if there is one, has the name
    [u]. *)
Definition named (a : nat) (u : string) (x : Memory) : Prop :=
  keyed x /\ forall ma, mem_heap x !! a = Some ma -> UserName ma = u.
Abbreviation J a u := (fun s : Memory * S => named a u (fst s)).

Lemma named_load {A} a u (k : ManagerAccount -> M (Memory * S) A) :
  (forall ma, UserName ma = u -> preserves (J a u) (k ma)) -> preserves (J a u) (ma <- load a ;; k ma).
Proof.
  intros Hk s Hs. unfold load, bind at 1, get_mem, bind. destruct (mem_heap (fst s) !! a) as [ma|] eqn:Ha; [|done].
  apply Hk; [|done]. by apply Hs.
Qed.
Lemma named_store a u ma : UserName ma = u -> preserves (J a u) (store a ma).
Proof.
  intros Hu [x s] [Hk Hn]. unfold store, get_mem, put_mem, bind. cbn [fst snd]. unfold named. simpl.
  destruct (mem_heap x !! a) as [old|] eqn:Ha.
  - split; [apply (keyed_update x a old); [done..|]; rewrite Hu; symmetry; by apply Hn|].
    simpl. intros ma'. rewrite (lookup_store _ _ _ _ Ha). by intros [= <-].
  - rewrite list_insert_ge by by apply lookup_ge_None. split; [by apply keyed_heap; [done|]; eauto|].
    simpl. rewrite Ha. done.
Qed.

(** Follow an action on the account: it is loaded and stored. *)
#[local] Ltac named known := repeat first
  [ progress intros | known | apply named_load | by apply named_store | apply preserves_now | apply preserves_mem_field
  | solve [eauto with preserves_db] | apply preserves_bind_ok | apply preserves_bind | case_match ].

Lemma named_setLockOut a u value : preserves (J a u) (setLockOut a value).
Proof.
  unfold setLockOut. cbn [RedisPatch RedisPatch_fields is_DNil]. unfold must.
  pose proof (memory_unaffected (T := S) (named a u)). named fail.
Qed.

Lemma named_Authenticate a u password : preserves (J a u) (Authenticate time_now CompareHashAndPassword a password).
Proof. unfold Authenticate, failedLogin. named ltac:(apply named_setLockOut). Qed.

Lemma named_updatePeriodic a u : preserves (J a u) (account_updatePeriodic time_now a).
Proof. unfold account_updatePeriodic. named ltac:(apply named_setLockOut). Qed.

(** Whatever the name is *)
Lemma keyed_of_named {A} a (m : M (Memory * S) A) : (forall u, preserves (J a u) m) -> preserves I m.
Proof.
  intros Hm s Hs. set (u := default "" (UserName <$> mem_heap (fst s) !! a)).
  apply (Hm u s). split; [done|]. intros ma Ha. unfold u. by rewrite Ha.
Qed.

(** ** The steps *)

Lemma preserves_find members username : preserves I (find_username members username).
Proof.
  induction members as [|[n a] members IH]; [apply preserves_ret|]. cbn [find_username].
  apply preserves_bind; [|preserves]. intros s Hs. unfold load, bind, get_mem. by destruct (mem_heap (fst s) !! a).
Qed.

Lemma preserves_Login username password : preserves I (AuthenticateAccount time_now CompareHashAndPassword username password).
Proof.
  unfold AuthenticateAccount. apply preserves_bind; [apply preserves_mem_field|]. intros members.
  apply preserves_bind; [apply preserves_find|]. intros [a|]; [|apply preserves_ret].
  apply preserves_bind_ok; [|preserves]. apply (keyed_of_named a). intros u. apply named_Authenticate.
Qed.

Lemma preserves_updatePeriodic : preserves I (updatePeriodic time_now).
Proof.
  unfold updatePeriodic. apply preserves_bind; [apply preserves_mem_field|]. intros members. apply preserves_for_each. intros [n a].
  apply preserves_bind; [|preserves]. apply (keyed_of_named a). intros u. apply named_updatePeriodic.
Qed.

Section loading.
Variable rfd : RedfishDispatcher (Memory * S).
Hypothesis Hrfd : harmless I rfd.

Lemma preserves_account uri : preserves I (account_initFromRedis rfd uri).
Proof.
  unfold account_initFromRedis.
  apply preserves_bind; [by apply (preserves_resource_at I); preserves|]. intros raw. apply preserves_bind; [preserves|].
  unfold account_initFromStruct, assert_bool. preserves.
Qed.

Lemma preserves_member raw : preserves I (accounts_initFromRedis_member rfd raw).
Proof.
  unfold accounts_initFromRedis_member. apply preserves_bind; [preserves|]. intros member.
  apply preserves_bind; [preserves|]. intros uri. apply preserves_bind; [apply preserves_account|]. intros ma.
  apply preserves_bind; [apply preserves_mem_field|]. intros members. case_match.
  - apply (keyed_of_named n). intros u. apply named_load. intros old Hu. by apply named_store.
  - intros [x s] Hx. exact (keyed_alloc x ma Hx).
Qed.

Lemma preserves_refresh : preserves I (accounts_initFromRedis rfd).
Proof.
  unfold accounts_initFromRedis. apply preserves_bind; [by apply (preserves_resource_at I); preserves|]. intros raw.
  pose proof preserves_member. preserves.
Qed.

Lemma preserves_step e : preserves I (account_step rfd e).
Proof.
  destruct e as [[|]|username password]; cbn [account_step RunPeriodic_event].
  - apply preserves_updatePeriodic.
  - apply preserves_refresh.
  - apply preserves_bind; [apply preserves_Login|preserves].
Qed.
End loading.
End table.

(* ===================================================================== *)
(** * The start                                                          *)
(* ===================================================================== *)

(** When [m] returns, the invariant holds. *)
Definition establishes {S A} (I : S -> Prop) (m : M S A) : Prop := forall s a s', m s = (Ret a, s') -> I s'.

Lemma establishes_bind {S A B} (I : S -> Prop) (m : M S A) (k : A -> M S B) :
  (forall a, establishes I (k a)) -> establishes I (bind m k).
Proof. intros Hk s b s' (a & s1 & _ & E)%bind_ret_inv. by apply (Hk a s1 b). Qed.
Lemma establishes_then {S A B} (I : S -> Prop) (m : M S A) (k : A -> M S B) :
  establishes I m -> (forall a, preserves I (k a)) -> establishes I (bind m k).
Proof.
  intros Hm Hk s b s' (a & s1 & Ea & Eb)%bind_ret_inv. specialize (Hk a s1 (Hm _ _ _ Ea)). by rewrite Eb in Hk.
Qed.

Section start.
Context {S : Type} `{RedisOps S} `{FloatText}.

Lemma preserves_roles rfd (I : Memory * S -> Prop) :
  harmless I rfd -> Unaffected I -> (forall x s roles, I (x, s) -> I (with_Roles roles x, s)) ->
  preserves I (roles_initFromRedis rfd).
Proof.
  intros Hrfd Hun Hroles.
  assert (Hstrings : forall l, preserves I (assert_strings l)) by (induction l; cbn [assert_strings]; preserves).
  unfold roles_initFromRedis. apply preserves_bind; [by apply (preserves_resource_at I); preserves|]. intros raw. apply preserves_bind; [preserves|].
  intros members. apply preserves_for_each. intros member. unfold roles_initFromRedis_member, role_initFromRedis.
  do 2 (apply preserves_bind; [preserves|]; intros ?). apply preserves_bind.
  - apply preserves_bind; [by apply (preserves_resource_at I); preserves|]. preserves.
  - intros role [x s] Hx. by apply Hroles.
Qed.

Lemma InitFromRedis_keyed rfd :
  harmless (fun s : Memory * S => keyed (fst s)) rfd -> establishes (fun s => keyed (fst s)) (InitFromRedis rfd).
Proof.
  intros Hrfd. unfold InitFromRedis. do 8 (apply establishes_bind; intros ?). apply establishes_then.
  - intros [x s] u s' [= <- <-]. split; [by apply NoDup_nil_2|done].
  - intros _. apply preserves_bind; [by apply preserves_refresh|]. intros _.
    apply preserves_roles; [done|apply memory_unaffected|done].
Qed.

(** A registered callback that only reads *)
Lemma harmless_register rfd (I : Memory * S -> Prop) cb :
  harmless I rfd -> (forall c p i, preserves I (cb c p i)) -> harmless I (RegisterCollectionCB rfd cb).
Proof. intros [Hc Hh Hp] Hcb. split; [|done..]. simpl. apply Forall_app. auto. Qed.
End start.

Lemma harmless_beside {Y T} (P : Y -> Prop) (helper : BackendHelper T) :
  harmless_helper (fun s => P (fst s)) (beside_helper helper).
Proof. split; intros; apply preserves_on_snd. Qed.

Lemma helpers_chosen {T} (c : BackendHelper T) device name (s : T) helpers s' :
  NewDispatcher_helpers c device name s = (Ret helpers, s') ->
  helpers = [c] \/ exists kind, helpers = [c; device kind].
Proof.
  unfold NewDispatcher_helpers. intros (hs & s1 & Ehs & E)%bind_ret_inv. apply bind_ret_inv in E as (u & s2 & _ & [= <- <-]).
  destruct name as [name|]; [|injection Ehs as <- _; by left]. destruct (backend_of_name name) as [kind|]; [|done].
  injection Ehs as <- _. right. by exists kind.
Qed.

Section server.
Context {X S : Type} `{RedisOps S} `{JsonReferences} `{FloatText}.
Variables (surroundings : Surroundings) (arg0 : string) (outside : World (X * S)).
Variable mappings_in : string -> result (list (string * result VersionMapping)).
Variables (schemas_of : Config -> SchemaFiles) (json_files : string -> list (option request_body)).
Variable ping : string -> string -> M (X * S) (result string).
Variables (certificateService : BackendHelper (X * S)) (device : backend_kind -> BackendHelper (X * S)).
Variables (fuel depth : nat).
Variable privilege_mappings : string -> option (list Mapping).
Variable GenerateFromPassword : string -> M (Memory * (X * S)) (result string).
Variable pool : gomap object.
Abbreviation NewDispatcher := (NewDispatcher surroundings arg0 outside mappings_in schemas_of json_files ping
  certificateService device fuel depth).
Abbreviation start_server := (start_server surroundings arg0 outside mappings_in schemas_of json_files ping
  certificateService device fuel depth privilege_mappings GenerateFromPassword pool).

Lemma NewDispatcher_harmless (P : Memory -> Prop) s config rfd s' :
  NewDispatcher s = (Ret (config, rfd), s') -> harmless (fun s => P (fst s)) rfd.
Proof.
  unfold Startup.NewDispatcher. intros (cfg & s1 & _ & E)%bind_ret_inv. destruct (RedisAddr surroundings) as [addr|]; [|done].
  apply bind_ret_inv in E as (tree & s2 & _ & E). apply bind_ret_inv in E as (pong & s3 & _ & E). case_match; [done|].
  apply bind_ret_inv in E as (registries & s4 & _ & E). apply bind_ret_inv in E as (helpers & s5 & Eh & [= <- <- <-]).
  apply helpers_chosen in Eh. split; simpl; [constructor| |intros; apply preserves_on_snd].
  destruct Eh as [->|[kind ->]]; repeat constructor; intros; apply preserves_on_snd.
Qed.

(** C15: From the start of the server on, every account is in the table under
    its user name: after any number of refreshes from Redis, periodic updates
    and logins, whichever succeed, fail or panic, a login is checked against
    exactly the account that the table has under the given name. *)
Theorem started_accounts time_now CompareHashAndPassword s rs s' events :
  clock time_now -> start_server s = (Ret rs, s') ->
  let '(_, s2) := for_each (account_step time_now CompareHashAndPassword (rs_rfd rs)) events s' in
  keyed (fst s2) /\
  forall username, find_username (mem_Accounts (fst s2)) username s2 = (Ret (mget username (mem_Accounts (fst s2))), s2).
Proof.
  intros Hclock (d & s1 & Ed & E)%bind_ret_inv. destruct d as [config rfd].
  apply bind_ret_inv in E as (privileges & s2 & Ep & [= <- <-]). cbn [fst snd] in *.
  pose proof (NewDispatcher_harmless keyed _ _ _ _ Ed) as Hrfd. unfold load_accounts in Ep.
  apply bind_ret_inv in Ep as (u & s3 & Ei & Ep). apply (InitFromRedis_keyed rfd Hrfd) in Ei.
  assert (Hk : keyed (fst s2)).
  { destruct (env_lookup surroundings "PRIVILEGE_REGISTRY_VERSION"); [|done].
    apply bind_ret_inv in Ep as (pr & s4 & [= <- <-] & Ep). destruct (NewPrivilegeRegistry _); [|done]. by injection Ep as _ <-. }
  assert (Hserver : harmless (fun s : Memory * (X * S) => keyed (fst s)) (rs_rfd (newRedfishServer GenerateFromPassword rfd privileges pool))).
  { apply harmless_register; [done|]. intros c p i. unfold JsonSchema_cb. preserves. }
  pose proof (preserves_for_each _ _ events (preserves_step time_now CompareHashAndPassword Hclock _ Hserver) s2 Hk) as Hend.
  destruct (for_each _ _ _) as [o s5]. simpl in Hend. split; [done|]. intros username. destruct s5 as [x5 s5]. by apply keyed_find.
Qed.
End server.
