(* ===== verification/Lifecycle.v ===== *)
(** The life of the process ([main] and [doRest] of
    [cmd/rfdispatcher/rfserver.go]): from the first goroutine to the end.

    Five goroutines of the program run next to each other: [main], [doRest],
    one that serves HTTP, one that serves HTTPS, and one that waits for a
    signal; besides, every request has one, the ticker has one, and so has the
    account service.  [step] is what one of them does next, and [dies] is how
    the process can end in the middle.  What [net/http] and [sync] do is as
    they document: [Shutdown] closes the listeners, whereupon [Serve] returns
    at once; it then waits for the requests in progress, or until its context
    is done, which is an error; [Wait] waits for the counter to be zero.

    A request is one step here, from its arrival in the memory to its answer. *)
From stdpp Require Import relations.
From S2P Require Import Prelude Values Redis Schema Pipelines Dispatcher Actions Accounts JsonSchemas Server Certificates.

(** ** The points of the goroutines *)

Inductive main_point := Adding | Launching | FirstRun | StartTicker | Waiting | Returned.
Inductive rest_point := Unlaunched | CreateHTTP | CreateHTTPS | AddHTTPS | LaunchHTTPS | LaunchHTTP | Launched.
Inductive serving_point := NotStarted | LoadCertificate | Listen | Serve | Ended.
Inductive listener := HTTP | HTTPS.
Inductive handler_point :=
  | AwaitSignal
  | CancelContext
  | Shutdown (l : listener)
  | AwaitRequests (l : listener)
  | StopTicker
  | Handled.

(** [restSrvHTTP] and [restSrvHTTPS], with the goroutine that serves, and how
    many requests are in progress *)
Record http_Server := mkHttpServer {
  created : bool;
  inShutdown : bool;
  serving : serving_point;
  in_progress : nat;
}.
Definition no_server : http_Server := mkHttpServer false false NotStarted 0.

Definition set_created (s : http_Server) : http_Server := mkHttpServer true (inShutdown s) (serving s) (in_progress s).
Definition set_inShutdown (s : http_Server) : http_Server := mkHttpServer (created s) true (serving s) (in_progress s).
Definition set_serving (p : serving_point) (s : http_Server) : http_Server := mkHttpServer (created s) (inShutdown s) p (in_progress s).
Definition set_in_progress (n : nat) (s : http_Server) : http_Server := mkHttpServer (created s) (inShutdown s) (serving s) n.

Record process (T : Type) := mkProcess {
  main_at : main_point;
  rest_at : rest_point;
  handler_at : handler_point;
  restSrvHTTP : http_Server;
  restSrvHTTPS : http_Server;
  waitGroup : Z;
  (* a signal in the channel, which has place for one *)
  signal : bool;
  (* [ctx] is cancelled *)
  cancelled : bool;
  ticker : option Z;
  memory : T;
}.
Arguments mkProcess {T}.
Arguments main_at {T}.
Arguments rest_at {T}.
Arguments handler_at {T}.
Arguments restSrvHTTP {T}.
Arguments restSrvHTTPS {T}.
Arguments waitGroup {T}.
Arguments signal {T}.
Arguments cancelled {T}.
Arguments ticker {T}.
Arguments memory {T}.

Section process.
Context {T : Type}.

(** The process when [signal.Notify] has been called and the goroutine that
    waits for a signal is started, with the memory that [newRedfishServer]
    left *)
Definition begin (m : T) : process T := mkProcess Adding Unlaunched AwaitSignal no_server no_server 0 false false None m.

Definition at_main (m : main_point) (p : process T) : process T :=
  mkProcess m (rest_at p) (handler_at p) (restSrvHTTP p) (restSrvHTTPS p) (waitGroup p) (signal p) (cancelled p) (ticker p) (memory p).
Definition at_rest (r : rest_point) (p : process T) : process T :=
  mkProcess (main_at p) r (handler_at p) (restSrvHTTP p) (restSrvHTTPS p) (waitGroup p) (signal p) (cancelled p) (ticker p) (memory p).
Definition at_handler (h : handler_point) (p : process T) : process T :=
  mkProcess (main_at p) (rest_at p) h (restSrvHTTP p) (restSrvHTTPS p) (waitGroup p) (signal p) (cancelled p) (ticker p) (memory p).
Definition wait_Add (n : Z) (p : process T) : process T :=
  mkProcess (main_at p) (rest_at p) (handler_at p) (restSrvHTTP p) (restSrvHTTPS p) (waitGroup p + n) (signal p) (cancelled p) (ticker p) (memory p).
Definition set_signal (b : bool) (p : process T) : process T :=
  mkProcess (main_at p) (rest_at p) (handler_at p) (restSrvHTTP p) (restSrvHTTPS p) (waitGroup p) b (cancelled p) (ticker p) (memory p).
Definition cancel (p : process T) : process T :=
  mkProcess (main_at p) (rest_at p) (handler_at p) (restSrvHTTP p) (restSrvHTTPS p) (waitGroup p) (signal p) true (ticker p) (memory p).
Definition set_ticker (t : option Z) (p : process T) : process T :=
  mkProcess (main_at p) (rest_at p) (handler_at p) (restSrvHTTP p) (restSrvHTTPS p) (waitGroup p) (signal p) (cancelled p) t (memory p).
Definition set_memory (m : T) (p : process T) : process T :=
  mkProcess (main_at p) (rest_at p) (handler_at p) (restSrvHTTP p) (restSrvHTTPS p) (waitGroup p) (signal p) (cancelled p) (ticker p) m.
Definition server_of (l : listener) (p : process T) : http_Server :=
  match l with HTTP => restSrvHTTP p | HTTPS => restSrvHTTPS p end.
Definition on_server (l : listener) (f : http_Server -> http_Server) (p : process T) : process T :=
  mkProcess (main_at p) (rest_at p) (handler_at p)
    (match l with HTTP => f (restSrvHTTP p) | HTTPS => restSrvHTTP p end)
    (match l with HTTP => restSrvHTTPS p | HTTPS => f (restSrvHTTPS p) end)
    (waitGroup p) (signal p) (cancelled p) (ticker p) (memory p).

(** The handler after a server *)
Definition after_shutdown (l : listener) : handler_point := match l with HTTP => Shutdown HTTPS | HTTPS => StopTicker end.
End process.

(** ** The ticker *)

(** PERIODIC_SLEEP, and [time.NewTicker]: the period in nanoseconds, or how
    the process ends. *)
Definition ticker_period (PERIODIC_SLEEP : option string) : outcome Z :=
  match match PERIODIC_SLEEP with None => Some 60%Z | Some periodSecondsString => parse_int periodSecondsString end with
  | None => Fatal "PERIODIC_SLEEP value not integer"
  | Some periodSeconds =>
      let d := seconds periodSeconds in
      if Z.leb d 0 then Panic "non-positive interval for NewTicker" else Ret d
  end.

(** How a call ends the process *)
Definition ends_process {A} (o : outcome A) (msg : string) : Prop := o = Panic msg \/ o = Fatal msg.

Section program.
Context {X S P V K : Type} `{RedisOps S} `{FloatText} `{TextParsers} `{!Crypto K}.
Variable getenv : string -> option string.
Variable server : redfishServer (X * S).
Variable ipc : IPC (Memory * (X * S)).
Variable fuel : nat.
Variable time_now : M (Memory * (X * S)) Z.
Variable CompareHashAndPassword : string -> string -> bool.
Variable cs : lens X (CertificateService P V K).
Variable ReadFile : string -> M (X * S) (result string).
Variable NewWatcher : M (X * S) (result unit).
Variable watcher_Add : string -> M (X * S) (result unit).

Abbreviation process := (process (Memory * (X * S))).

(** The certificate of the environment, when there is one *)
Definition https_files : option (string * string) :=
  match getenv "HTTPS_CERT", getenv "HTTPS_KEY" with
  | Some httpsCert, Some httpsKey => Some (httpsCert, httpsKey)
  | _, _ => None
  end.
Definition tls : bool := match https_files with Some _ => true | None => false end.

(** The goroutine that serves HTTPS, before it listens *)
Definition prepare_https (httpsCert httpsKey : string) : M (Memory * (X * S)) unit :=
  err <- on_snd (LoadDefaultCert cs ReadFile httpsCert httpsKey) ;;
  match err with
  | Err _ => fatal "Unable to load Default HTTPS Cert"
  | Ok _ =>
      err <- on_snd (WatchDefaultCertificate cs NewWatcher watcher_Add httpsCert httpsKey) ;;
      match err with Err _ => fatal "Unable to start the default HTTPS Cert watcher" | Ok _ => ret tt end
  end.

Inductive step : process -> process -> Prop :=
  (* waitGroup.Add(1) *)
  | step_add p : main_at p = Adding -> step p (at_main Launching (wait_Add 1 p))
  (* go doRest() *)
  | step_go p : main_at p = Launching ->
      step p (at_main (match BackendHelpers (rs_rfd server) with [] => Waiting | _ => FirstRun end) (at_rest CreateHTTP p))
  (* server.rfd.RunPeriodic() *)
  | step_first p m : main_at p = FirstRun -> RunPeriodic_all (rs_rfd server) (memory p) = (Ret tt, m) ->
      step p (at_main StartTicker (set_memory m p))
  (* time.NewTicker *)
  | step_ticker p d : main_at p = StartTicker -> ticker_period (getenv "PERIODIC_SLEEP") = Ret d ->
      step p (at_main Waiting (set_ticker (Some d) p))
  (* waitGroup.Wait() *)
  | step_wait p : main_at p = Waiting -> waitGroup p = 0 -> step p (at_main Returned p)
  (* doRest *)
  | step_create_http p : rest_at p = CreateHTTP -> step p (at_rest CreateHTTPS (on_server HTTP set_created p))
  | step_create_https p : rest_at p = CreateHTTPS -> step p (at_rest AddHTTPS (on_server HTTPS set_created p))
  | step_add_https p : rest_at p = AddHTTPS -> step p (at_rest LaunchHTTPS (if tls then wait_Add 1 p else p))
  | step_go_https p : rest_at p = LaunchHTTPS ->
      step p (at_rest LaunchHTTP (on_server HTTPS (set_serving (if tls then LoadCertificate else Ended)) p))
  | step_go_http p : rest_at p = LaunchHTTP -> step p (at_rest Launched (on_server HTTP (set_serving Listen) p))
  (* the goroutines that serve *)
  | step_certificate p httpsCert httpsKey m : serving (restSrvHTTPS p) = LoadCertificate ->
      https_files = Some (httpsCert, httpsKey) -> prepare_https httpsCert httpsKey (memory p) = (Ret tt, m) ->
      step p (on_server HTTPS (set_serving Listen) (set_memory m p))
  | step_listen l p : serving (server_of l p) = Listen -> inShutdown (server_of l p) = false ->
      step p (on_server l (set_serving Serve) p)
  | step_closed l p : serving (server_of l p) = Listen \/ serving (server_of l p) = Serve ->
      inShutdown (server_of l p) = true ->
      step p (on_server l (set_serving Ended) (wait_Add (-1) p))
  (* requests *)
  | step_accept l p : serving (server_of l p) = Serve -> inShutdown (server_of l p) = false ->
      step p (on_server l (fun s => set_in_progress (Datatypes.S (in_progress s)) s) p)
  | step_answer l p n r response m : in_progress (server_of l p) = Datatypes.S n ->
      handleRequest server ipc fuel time_now CompareHashAndPassword r (memory p) = (Ret response, m) ->
      step p (on_server l (set_in_progress n) (set_memory m p))
  (* a signal, and the goroutine that waits for it *)
  | step_signal p : step p (set_signal true p)
  | step_receive p : handler_at p = AwaitSignal -> signal p = true -> step p (at_handler CancelContext (set_signal false p))
  | step_cancel p : handler_at p = CancelContext -> step p (at_handler (Shutdown HTTP) (cancel p))
  | step_nil l p : handler_at p = Shutdown l -> created (server_of l p) = false -> step p (at_handler (after_shutdown l) p)
  | step_shutdown l p : handler_at p = Shutdown l -> created (server_of l p) = true ->
      step p (at_handler (AwaitRequests l) (on_server l set_inShutdown p))
  | step_quiet l p : handler_at p = AwaitRequests l -> in_progress (server_of l p) = 0%nat ->
      step p (at_handler (after_shutdown l) p)
  | step_stop p : handler_at p = StopTicker -> step p (at_handler Handled (set_ticker None p))
  (* the ticker, and the account service *)
  | step_tick p d m : ticker p = Some d -> RunPeriodic_all (rs_rfd server) (memory p) = (Ret tt, m) -> step p (set_memory m p)
  | step_accounts p e m : RunPeriodic_event (rs_rfd server) time_now e (memory p) = (Ret tt, m) -> step p (set_memory m p).

(** The ends of the process in the middle, with the text that is printed *)
Inductive dies : process -> string -> Prop :=
  | dies_first p o m msg : main_at p = FirstRun -> RunPeriodic_all (rs_rfd server) (memory p) = (o, m) ->
      ends_process o msg -> dies p msg
  | dies_ticker p msg : main_at p = StartTicker -> ends_process (ticker_period (getenv "PERIODIC_SLEEP")) msg -> dies p msg
  | dies_certificate p httpsCert httpsKey o m msg : serving (restSrvHTTPS p) = LoadCertificate ->
      https_files = Some (httpsCert, httpsKey) -> prepare_https httpsCert httpsKey (memory p) = (o, m) ->
      ends_process o msg -> dies p msg
  (* the address is in use *)
  | dies_listen l p : serving (server_of l p) = Listen -> inShutdown (server_of l p) = false ->
      dies p (match l with HTTP => "Unable to start REST HTTP server" | HTTPS => "Unable to setup TLS Listener" end)
  | dies_answer l p r o m msg : (0 < in_progress (server_of l p))%nat ->
      handleRequest server ipc fuel time_now CompareHashAndPassword r (memory p) = (o, m) -> ends_process o msg -> dies p msg
  | dies_shutdown l p : handler_at p = AwaitRequests l -> (0 < in_progress (server_of l p))%nat -> cancelled p = true ->
      dies p (match l with HTTP => "Unable to stop HTTP REST server!" | HTTPS => "Unable to stop HTTPS REST server!" end)
  | dies_counter p : waitGroup p < 0 -> dies p "sync: negative WaitGroup counter"
  | dies_tick p d o m msg : ticker p = Some d -> RunPeriodic_all (rs_rfd server) (memory p) = (o, m) ->
      ends_process o msg -> dies p msg
  | dies_accounts p e o m msg : RunPeriodic_event (rs_rfd server) time_now e (memory p) = (o, m) ->
      ends_process o msg -> dies p msg.

(** A step of a process of which [main] has not returned *)
Definition live_step (p p' : process) : Prop := main_at p <> Returned /\ step p p'.
Definition reachable (p : process) : Prop := exists m, rtc live_step (begin m) p.

(* ===================================================================== *)
(** * The invariant                                                      *)
(* ===================================================================== *)

(** What the two servers have added to the counter and not yet removed *)
Definition open_http (m : main_point) (s : http_Server) : Z :=
  match m with Adding => 0 | _ => match serving s with Ended => 0 | _ => 1 end end.
Definition open_https (r : rest_point) (s : http_Server) : Z :=
  match r with
  | LaunchHTTPS | LaunchHTTP | Launched => if tls then match serving s with Ended => 0 | _ => 1 end else 0
  | _ => 0
  end.

Record coherent (p : process) : Prop := {
  counted : waitGroup p = open_http (main_at p) (restSrvHTTP p) + open_https (rest_at p) (restSrvHTTPS p);
  rest_launched : match main_at p with Adding | Launching => rest_at p = Unlaunched | _ => rest_at p <> Unlaunched end;
  http_launched : match rest_at p with
                  | Launched => match serving (restSrvHTTP p) with Listen | Serve | Ended => True | _ => False end
                  | _ => serving (restSrvHTTP p) = NotStarted
                  end;
  https_launched : match rest_at p with
                   | LaunchHTTP | Launched =>
                       match serving (restSrvHTTPS p) with NotStarted => False | Ended => True | _ => tls = true end
                   | _ => serving (restSrvHTTPS p) = NotStarted
                   end;
  http_created : match rest_at p with Unlaunched | CreateHTTP => True | _ => created (restSrvHTTP p) = true end;
  https_created : match rest_at p with Unlaunched | CreateHTTP | CreateHTTPS => True | _ => created (restSrvHTTPS p) = true end;
  http_ended : serving (restSrvHTTP p) = Ended -> inShutdown (restSrvHTTP p) = true;
  returned_zero : main_at p = Returned -> waitGroup p = 0;
}.

Lemma coherent_begin m : coherent (begin m).
Proof. by split. Qed.

Lemma coherent_step p p' : live_step p p' -> coherent p -> coherent p'.
Proof.
  intros [Hlive Hstep] [Hc Hr Hh Hs Hcr Hcs He Hz].
  destruct Hstep; destruct p as [ma ra ha [c1 i1 s1 n1] [c2 i2 s2 n2] w sg ca ti me]; simpl in *; try destruct l; simpl in *.
  all: repeat match goal with H : _ \/ _ |- _ => destruct H end; subst; try done.
  all: split; simpl; try done; try congruence.
  all: repeat (case_match; subst; simpl in *; try done; try congruence); try lia.
Qed.

Lemma coherent_steps p p' : rtc live_step p p' -> coherent p -> coherent p'.
Proof. induction 1; [done|]. eauto using coherent_step. Qed.
Lemma reachable_coherent p : reachable p -> coherent p.
Proof. intros [m Hsteps]. by apply (coherent_steps _ _ Hsteps), coherent_begin. Qed.

Lemma open_http_bounds m s : 0 <= open_http m s <= 1.
Proof. unfold open_http. repeat case_match; lia. Qed.
Lemma open_https_bounds r s : 0 <= open_https r s <= 1.
Proof. unfold open_https. repeat case_match; lia. Qed.

(** What [main] waits for *)
Lemma returned_ended p : coherent p -> main_at p = Returned ->
  rest_at p = Launched /\ serving (restSrvHTTP p) = Ended /\ (tls = true -> serving (restSrvHTTPS p) = Ended).
Proof.
  intros [Hc _ Hh _ _ _ _ Hz] Hm. specialize (Hz Hm). rewrite Hm in Hc.
  pose proof (open_http_bounds Returned (restSrvHTTP p)). pose proof (open_https_bounds (rest_at p) (restSrvHTTPS p)).
  assert (Hs : serving (restSrvHTTP p) = Ended) by (unfold open_http in *; case_match; done || lia).
  rewrite Hs in Hh. destruct (rest_at p); try done. split; [done|]. split; [done|]. intros Htls.
  unfold open_https in *. rewrite Htls in *. case_match; done || lia.
Qed.

(** ** The handler of signals *)

(** The next step of a run *)
#[local] Ltac next_step rule :=
  eapply rtc_l; [split; [done|apply rule; simpl; auto; lia]|]; cbn -[tls Z.add].
(** The steps of a signal up to the second server, when no request is in progress *)
#[local] Ltac close_http :=
  next_step step_signal; next_step step_receive; next_step step_cancel; next_step (step_shutdown HTTP);
  next_step (step_closed HTTP); next_step (step_quiet HTTP); next_step (step_shutdown HTTPS).

(** A signal that was handled before there was a server *)
Lemma handled_step p p' :
  live_step p p' -> coherent p -> handler_at p = Handled -> inShutdown (restSrvHTTP p) = false ->
  handler_at p' = Handled /\ inShutdown (restSrvHTTP p') = false.
Proof. intros [_ Hstep] _ Hh Hi. destruct Hstep; simpl in *; try congruence; try destruct l; simpl in *; try done; case_match; done. Qed.

Lemma handled_steps p p' :
  rtc live_step p p' -> coherent p -> handler_at p = Handled -> inShutdown (restSrvHTTP p) = false ->
  handler_at p' = Handled /\ inShutdown (restSrvHTTP p') = false /\ coherent p'.
Proof.
  induction 1 as [|p q p' Hpq _ IH]; [done|]. intros Hc Hh Hi. destruct (handled_step _ _ Hpq Hc Hh Hi).
  apply IH; [|done..]. by apply (coherent_step p).
Qed.

(** A signal reaches the point where the HTTP server is shut down. *)
Lemma signal_arrives p : main_at p <> Returned -> handler_at p = AwaitSignal ->
  rtc live_step p (at_handler (Shutdown HTTP) (cancel (at_handler CancelContext (set_signal false (set_signal true p))))).
Proof.
  intros Hm Hh. eapply rtc_l; [split; [done|apply step_signal]|].
  eapply rtc_l; [split; [done|by apply step_receive]|]. apply rtc_once. split; [done|]. by apply step_cancel.
Qed.

Lemma signal_closes p : main_at p <> Returned -> handler_at p = AwaitSignal -> created (restSrvHTTP p) = true ->
  rtc live_step p (at_handler (AwaitRequests HTTP) (on_server HTTP set_inShutdown
    (at_handler (Shutdown HTTP) (cancel (at_handler CancelContext (set_signal false (set_signal true p))))))).
Proof.
  intros Hm Hh Hc. etrans; [by apply signal_arrives|]. apply rtc_once. split; [done|]. by apply (step_shutdown HTTP).
Qed.

(* ===================================================================== *)
(** * Properties                                                         *)
(* ===================================================================== *)

(** C16: The counter of the wait group is never negative, and [main] returns
    only after [doRest] is done and the goroutine that serves HTTP has ended,
    and the one that serves HTTPS, if there is a certificate: it cannot
    return before [doRest] has added the second server to the counter. *)
Theorem main_waits p : reachable p ->
  0 <= waitGroup p /\
  (main_at p = Returned ->
   rest_at p = Launched /\ serving (restSrvHTTP p) = Ended /\ (tls = true -> serving (restSrvHTTPS p) = Ended)).
Proof.
  intros Hp%reachable_coherent. split; [|by apply returned_ended]. rewrite (counted _ Hp).
  pose proof (open_http_bounds (main_at p) (restSrvHTTP p)). pose proof (open_https_bounds (rest_at p) (restSrvHTTPS p)). lia.
Qed.

(** C30: The shutdown does not wait for the requests in progress.  In every
    state in which a server without TLS serves and waits for a signal, a signal
    can lead to the end of [main] with every one of the requests still in
    progress; and if there is one, it can also lead to the panic of the handler
    of signals, because [Shutdown] is given a context that is already done. *)
Theorem shutdown_cuts_requests p : reachable p -> tls = false -> main_at p = Waiting -> handler_at p = AwaitSignal ->
  serving (restSrvHTTP p) = Serve ->
  (exists p', rtc live_step p p' /\ main_at p' = Returned /\ in_progress (restSrvHTTP p') = in_progress (restSrvHTTP p)) /\
  ((0 < in_progress (restSrvHTTP p))%nat -> exists p', rtc live_step p p' /\ dies p' "Unable to stop HTTP REST server!").
Proof.
  intros Hp%reachable_coherent Htls Hm Hh Hs.
  assert (Hlive : main_at p <> Returned) by congruence.
  assert (Hrest : rest_at p = Launched). { pose proof (http_launched _ Hp) as Hl. destruct (rest_at p); congruence. }
  assert (Hcr : created (restSrvHTTP p) = true). { pose proof (http_created _ Hp) as Hcr. by rewrite Hrest in Hcr. }
  assert (Hw : waitGroup p = 1). { rewrite (counted _ Hp), Hrest, Hm. unfold open_http, open_https. by rewrite Hs, Htls. }
  pose proof (signal_closes p Hlive Hh Hcr) as Hsteps. split.
  - eexists. split; [|split].
    + etrans; [exact Hsteps|]. eapply rtc_l; [split; [done|apply (step_closed HTTP); [right|]; done]|].
      apply rtc_once. split; [done|]. apply step_wait; [done|]. simpl. lia.
    + done.
    + done.
  - intros Hn. eexists. split; [exact Hsteps|]. by apply (dies_shutdown HTTP).
Qed.


(** C31: A signal that arrives before [doRest] has created a server is lost:
    its handler ends without a server to shut down, no signal is waited for
    any more, and whatever happens then, [main] does not return. *)
Theorem early_signal_lost m : exists p, rtc live_step (begin m) p /\ handler_at p = Handled /\
  forall p', rtc live_step p p' ->
    handler_at p' = Handled /\ inShutdown (restSrvHTTP p') = false /\ main_at p' <> Returned.
Proof.
  eexists. split.
  - etrans; [by apply signal_arrives|]. eapply rtc_l; [split; [done|by apply (step_nil HTTP)]|].
    eapply rtc_l; [split; [done|by apply (step_nil HTTPS)]|]. apply rtc_once. split; [done|]. by apply step_stop.
  - split; [done|]. intros p' Hsteps. eapply handled_steps in Hsteps as (Hh & Hi & Hc); [| |done..].
    + split; [done|]. split; [done|]. intros (_ & He & _)%returned_ended; [|done]. apply (http_ended _ Hc) in He. congruence.
    + split; done.
Qed.
End program.

(** The periods that the ticker takes as they are, and those that make the
    process panic: besides those that are not positive, those whose
    nanoseconds are too many for 63 bits. *)
Theorem ticker_period_bounds periodSeconds : in_int64 periodSeconds ->
  (1 <= periodSeconds <= 9223372036 -> ticker_period (Some (format_int periodSeconds)) = Ret (periodSeconds * second)) /\
  (-9223372036 <= periodSeconds <= 0 \/ 9223372037 <= periodSeconds <= 18446744073 ->
   ticker_period (Some (format_int periodSeconds)) = Panic "non-positive interval for NewTicker").
Proof.
  intros Hi. unfold ticker_period. rewrite (parse_format_int _ Hi). unfold seconds, wrap64.
  change second with 1000000000. split; intros Hp.
  - rewrite Z.mod_small by lia. case_match; [lia|]. f_equal. lia.
  - assert (Hd : (periodSeconds * 1000000000 + 2 ^ 63) mod 2 ^ 64 - 2 ^ 63 <= 0).
    { destruct Hp; [rewrite Z.mod_small by lia; lia|]. rewrite <- (Z_mod_plus_full _ (-1)), Z.mod_small by lia. lia. }
    by rewrite (proj2 (Z.leb_le _ _) Hd).
Qed.

(** Two seconds more, and the ticker ticks three times a second. *)
Example period_wraps : ticker_period (Some "18446744074") = Ret 290448384.
Proof. vm_compute. reflexivity. Qed.
