(* ===== verification/StartExamples.v ===== *)
(** A server that starts: from schema files and the content of Redis to a
    login.  Instances of the theorems on the start of the program. *)
From stdpp Require Import gmap relations.
From S2P Require Import Prelude Values Redis Schema Walk RedisStruct Dispatcher Actions Versions Tree Parsing SchemaTree.
From S2P Require Import Pipelines Certificates HelperExamples Lifecycle.
From S2P Require Import Configuration Privileges Accounts AccountHooks JsonSchemas Server Startup AccountTable.
Import SchemaTreeExample.

(** ** The schema of an account service *)

Definition schema_ref (name : string) : value := ref (url (name +:+ ".json") name).
Definition versioned (name : string) (ps : object) : string * result request_body :=
  (name +:+ ".v1_0_0.json", definitions name [(name, VObject [("additionalProperties", VBool false); ("required", VArray []); ("type", str "object"); ("properties", VObject ps)])]).
Definition collection_schema (name member : string) : string * result request_body :=
  (name +:+ ".json", definitions name [(name, VObject (("anyOf", VArray [idRef; fields
     [("Name", typed "string"); ("Members", VObject [("type", str "array"); ("items", schema_ref member)])]]) :: capabilities))]).
Definition account_schemas : list (string * result request_body) :=
  [("ServiceRoot.json", unversioned "ServiceRoot");
   versioned "ServiceRoot" [("AccountService", schema_ref "AccountService")];
   ("AccountService.json", unversioned "AccountService");
   versioned "AccountService" [("AccountLockoutDuration", typed "integer"); ("AccountLockoutCounterResetAfter", typed "integer");
     ("AccountLockoutThreshold", typed "integer"); ("MinPasswordLength", typed "integer"); ("MaxPasswordLength", typed "integer");
     ("ServiceEnabled", typed "boolean"); ("Accounts", schema_ref "ManagerAccountCollection"); ("Roles", schema_ref "RoleCollection")];
   collection_schema "ManagerAccountCollection" "ManagerAccount";
   ("ManagerAccount.json", unversioned "ManagerAccount");
   versioned "ManagerAccount" [("Id", typed "string"); ("UserName", typed "string"); ("RoleId", typed "string");
     ("Locked", typed "boolean"); ("Enabled", typed "boolean")];
   collection_schema "RoleCollection" "Role";
   ("Role.json", unversioned "Role");
   versioned "Role" [("RoleId", typed "string"); ("AssignedPrivileges", VObject [("type", str "array"); ("items", typed "string")])]].
Definition account_files : SchemaFiles := mkSchemaFiles (Ok account_schemas) (Ok (Ok [])) (Ok []).
Definition account_mapping : VersionMapping := mkVersionMapping Version2017_3
  [("ServiceRoot.json", "v1_0_0"); ("AccountService.json", "v1_0_0"); ("ManagerAccount.json", "v1_0_0"); ("Role.json", "v1_0_0")] []
  [("ManagerAccountCollection.json", true); ("RoleCollection.json", true)] [].
(** ** Redis, with one account *)

Definition struct_at (key : string) (fs : list (string * rval)) (ks : keys) : keys :=
  foldr (fun e ks => <[key +:+ "/" +:+ fst e := snd e]> ks) (<[key := RSet (list_to_set (map fst fs))]> ks) fs.
Definition link_at (key target : string) (ks : keys) : keys := <[key +:+ "/@odata.id" := RStr target]> ks.
Definition service_key : string := "/redfish/v1/AccountService".
Definition account_ks : keys :=
  struct_at service_key [("AccountLockoutDuration", RStr "30"); ("AccountLockoutCounterResetAfter", RStr "30");
    ("AccountLockoutThreshold", RStr "5"); ("MinPasswordLength", RStr "8"); ("MaxPasswordLength", RStr "64"); ("ServiceEnabled", RStr "true")]
  (struct_at (service_key +:+ "/Accounts") [("Members", RList ["0"])]
  (link_at (service_key +:+ "/Accounts/Members/0") (service_key +:+ "/Accounts/1")
  (struct_at (service_key +:+ "/Accounts/1") [("Id", RStr "1"); ("UserName", RStr "root"); ("RoleId", RStr "Administrator"); ("Locked", RStr "false"); ("Enabled", RStr "true")]
  (<[service_key +:+ "/Accounts/1/Password:hash" := RStr "736563726574"]>
  (struct_at (service_key +:+ "/Roles") [("Members", RList ["0"])]
  (link_at (service_key +:+ "/Roles/Members/0") (service_key +:+ "/Roles/Administrator")
  (struct_at (service_key +:+ "/Roles/Administrator") [("RoleId", RStr "Administrator"); ("AssignedPrivileges", RList ["Login"])] ∅))))))).
(** ** The surroundings *)

Definition small_surroundings : Surroundings := mkSurroundings (fun name => mget name
  [("SCHEMA_VERSION", "2017.3"); ("REDIS_HOSTNAME", "redis"); ("REDIS_PORT", "6379"); ("PRIVILEGE_REGISTRY_VERSION", "1.0.0"); ("BACKEND_HELPER", "Mock")])
  (fun _ => false).
Definition idle_helper : BackendHelper (unit * memstore) := mkBackendHelper _ (ret (Ok tt)) (ret (Ok tt)) (fun _ => ret (Ok [])) (fun _ _ _ => ret (Err ErrMockNoOp)).
Definition small_registry : request_body := BodyValue (VObject [("Id", VString "Base.1.4.0"); ("RegistryPrefix", VString "Base"); ("Messages", VObject [])]).
Definition no_world : World (unit * memstore) := mkWorld _ (fun _ _ => None) (fun _ _ => None) (fun _ _ => None) (fun _ _ _ => ret None).
Definition small_mappings (dir : string) : result (list (string * result VersionMapping)) := Ok [("2017.3.json", Ok account_mapping)].
Definition small_schemas (c : Config) : SchemaFiles := account_files.
Definition small_messages (dir : string) : list (option request_body) := [Some small_registry].
Definition small_ping (network addr : string) : M (unit * memstore) (result string) := ret (Ok "PONG").
Definition small_device (kind : backend_kind) : BackendHelper (unit * memstore) := idle_helper.
Definition small_privileges (path : string) : option (list Mapping) := Some [].
Definition small_hash (password : string) : M (Memory * (unit * memstore)) (result string) := ret (Ok password).
Definition small_start : M (Memory * (unit * memstore)) (redfishServer (unit * memstore)) :=
  start_server small_surroundings "/usr/bin/rfdispatcher" no_world small_mappings small_schemas small_messages small_ping
    idle_helper small_device 160 8 small_privileges small_hash [].
Definition empty_memory : Memory := mkMemory (mkAccountService 0 0 0 0 0 false) [] [] [].
Definition started := small_start (empty_memory, (tt, account_ks)).

Definition has_returned {S A} (r : outcome A * S) : bool := match fst r with Ret _ => true | _ => false end.

Lemma started_accounts_witness :
  has_returned started = true /\
  forall rs s', started = (Ret rs, s') ->
    let '(_, s2) := for_each (account_step (ret 0) String.eqb (rs_rfd rs))
      [Login "root" "wrong"; Periodic EveryHalfMinute; Login "root" "secret"] s' in
    keyed (fst s2) /\
    forall username, find_username (mem_Accounts (fst s2)) username s2 = (Ret (mget username (mem_Accounts (fst s2))), s2).
Proof.
  split; [vm_compute; reflexivity|]. unfold started, small_start. intros rs s'.
  exact (started_accounts small_surroundings "/usr/bin/rfdispatcher" no_world small_mappings small_schemas small_messages small_ping
    idle_helper small_device 160 8 small_privileges small_hash [] (ret 0) String.eqb _ rs s' _ (fun s => ex_intro _ 0 eq_refl)).
Defined.

(** The account that was started with, and one failed login *)
Example started_table :
  match started with
  | (Ret rs, s') =>
      let s2 := snd (for_each (account_step (ret 7) String.eqb (rs_rfd rs)) [Login "root" "wrong"; Periodic EveryHalfMinute] s') in
      (mem_Accounts (fst s2), map failedLoginAttempts (mem_heap (fst s2)))
  | _ => ([], [])
  end = ([("root", 0%nat)], [1]).
Proof. vm_compute. reflexivity. Qed.

(* ===================================================================== *)
(** * The life of a server                                               *)
(* ===================================================================== *)

#[local] Instance small_parsers : TextParsers := {|
  parse_rfc3339 _ := true; parse_request_uri _ := true; regexp_match _ _ := true;
|}.
Definition plain_environment (name : string) : option string := None.
Definition small_server : redfishServer (xmem * memstore) :=
  mkServer _ (mkDispatcher _ "" "" (mkResource (plain_resource_info "ServiceRoot" false) [] None) [] [] [] (mkWorld _ (fun _ _ => None) (fun _ _ => None) (fun _ _ => None) (fun _ _ _ => ret None)))
    (mkPrivilegeRegistry [] []) [] [].
Definition small_ipc : IPC (Memory * (xmem * memstore)) := mkIPC _ (ret "42") (fun _ => None) (fun _ => ret true).
Abbreviation life getenv := (live_step getenv small_server small_ipc 5 (ret 0) String.eqb x_cs
  (fun _ => ret (Err ErrRedisNil)) (ret (Ok tt)) (fun _ => ret (Ok tt))).

Section life.
Variable m : Memory * (xmem * memstore).

(** A server that answers a number of requests, and the end of one *)
Definition serving_process (n : nat) : process (Memory * (xmem * memstore)) :=
  mkProcess Waiting Launched AwaitSignal (mkHttpServer true false Serve n) (mkHttpServer true false Ended 0) 1 false false None m.
Definition ended_process : process (Memory * (xmem * memstore)) :=
  mkProcess Returned Launched (AwaitRequests HTTP) (mkHttpServer true true Ended 1) (mkHttpServer true false Ended 0) 0 false true None m.

#[local] Ltac take tac := eapply rtc_l; [split; [done|tac; simpl; auto]|]; cbn.

Lemma serving_reached n : rtc (life plain_environment) (begin m) (serving_process n).
Proof.
  assert (Hs : rtc (life plain_environment) (begin m) (serving_process 0)).
  { take ltac:(apply step_add). take ltac:(apply step_go). take ltac:(apply step_create_http). take ltac:(apply step_create_https). take ltac:(apply step_add_https). take ltac:(apply step_go_https).
    take ltac:(apply step_go_http). take ltac:(apply step_listen with (l := HTTP)). apply rtc_refl. }
  induction n as [|n IH]; [done|]. eapply rtc_r; [exact IH|]. split; [done|]. by apply step_accept with (l := HTTP).
Qed.

Lemma ended_reached : rtc (life plain_environment) (begin m) ended_process.
Proof.
  etrans; [apply (serving_reached 1)|]. take ltac:(apply step_signal). take ltac:(apply step_receive). take ltac:(apply step_cancel).
  take ltac:(apply step_shutdown with (l := HTTP)).
  take ltac:(apply step_closed with (l := HTTP)).
  take ltac:(apply step_wait). apply rtc_refl.
Qed.
End life.

Definition m0 : Memory * (xmem * memstore) := (empty_memory, (x0, account_ks)).
Abbreviation small_reachable := (reachable plain_environment small_server small_ipc 5 (ret 0) String.eqb x_cs
  (fun _ => ret (Err ErrRedisNil)) (ret (Ok tt)) (fun _ => ret (Ok tt))).
Abbreviation small_dies := (dies plain_environment small_server small_ipc 5 (ret 0) String.eqb x_cs
  (fun _ => ret (Err ErrRedisNil)) (ret (Ok tt)) (fun _ => ret (Ok tt))).

Lemma main_waits_witness :
  small_reachable (ended_process m0) /\ main_at (ended_process m0) = Returned /\ 0 <= waitGroup (ended_process m0) /\
  rest_at (ended_process m0) = Launched /\ serving (restSrvHTTP (ended_process m0)) = Ended.
Proof.
  assert (Hr : small_reachable (ended_process m0)) by (exists m0; apply ended_reached).
  destruct (main_waits _ _ _ _ _ _ _ _ _ _ (ended_process m0) Hr) as [Hw He].
  split; [exact Hr|]. split; [reflexivity|]. split; [exact Hw|]. destruct (He eq_refl) as (Hrest & Hs & _). by split.
Defined.

Lemma shutdown_cuts_requests_witness :
  (exists p', rtc (life plain_environment) (serving_process m0 2) p' /\ main_at p' = Returned /\ in_progress (restSrvHTTP p') = 2%nat) /\
  exists p', rtc (life plain_environment) (serving_process m0 2) p' /\ small_dies p' "Unable to stop HTTP REST server!".
Proof.
  assert (Hr : small_reachable (serving_process m0 2)) by (exists m0; apply serving_reached).
  destruct (shutdown_cuts_requests _ _ _ _ _ _ _ _ _ _ (serving_process m0 2) Hr eq_refl eq_refl eq_refl eq_refl) as [He Hd].
  split; [exact He|]. apply Hd. simpl. lia.
Defined.

(** The server without requests: there is nothing to serve with TLS. *)
Definition quiet_process : process (Memory * (xmem * memstore)) := serving_process m0 0.

Lemma ticker_period_bounds_witness :
  in_int64 9223372037 /\ ticker_period (Some "0") = Panic "non-positive interval for NewTicker" /\
  ticker_period (Some "9223372037") = Panic "non-positive interval for NewTicker" /\ ticker_period (Some "60") = Ret (60 * second).
Proof.
  assert (Hi : forall z, 0 <= z <= 9223372037 -> in_int64 z) by (unfold in_int64, int64_min, int64_max; lia).
  split; [apply Hi; lia|]. split; [|split].
  - apply (ticker_period_bounds 0); [apply Hi|]; lia.
  - apply (ticker_period_bounds 9223372037); [apply Hi|]; lia.
  - apply (ticker_period_bounds 60); [apply Hi|]; lia.
Defined.
