(* ===== verification/Tools.v ===== *)
(** The other programs: one prints the hash of a password
    ([cmd/hashgen/main.go]), one plays the backend of an action
    ([cmd/ipcbackend/main.go]), one lists the newest schema files
    ([cmd/rf_version_finder/rf_version_finder.go]). *)
From Stdlib Require Import Sorted.
From stdpp Require Import gmap.
From S2P Require Import Prelude Values Redis Schema Walk RedisStruct Dispatcher Actions Accounts JsonSchemas Ordering.

(* ===================================================================== *)
(** * hashgen                                                            *)
(* ===================================================================== *)

Section hashgen.
Context {T : Type}.
Variable GenerateFromPassword : string -> M T (result string).

(** The line that is printed, if a password was given *)
Definition hashgen (password : string) : M T (option string) :=
  if String.eqb password "" then ret None
  else
    hash <- must (GenerateFromPassword password) ;;
    ret (Some ("Password hash: " +:+ EncodeToString hash)).
End hashgen.

(* ===================================================================== *)
(** * ipcbackend                                                         *)
(* ===================================================================== *)

Definition keyspace_channel : string := "__keyspace@0__:".

(** The pattern of the subscription: a key with anything for the asterisk *)
Definition reset_prefix : string := "/redfish/v1/Chassis/".
Definition reset_suffix : string := "/Actions/Chassis.Reset/Target".
Definition subscribed (key : string) : bool :=
  has_prefix reset_prefix key && has_suffix reset_suffix key
  && Nat.leb (String.length reset_prefix + String.length reset_suffix) (String.length key).

Section ipcbackend.
Context {S : Type} `{RedisOps S}.

Definition handleIPC (targetKey : string) : M S unit :=
  request <- must (redis_hgetall targetKey) ;;
  let responseKey := default "" (request !! "ResponseKey") in
  let result := if String.eqb targetKey "/redfish/v1/Chassis/APC/Actions/Chassis.Reset/Target" then "Success" else "Bad Key" in
  must (redis_hmset responseKey {["Result" := result]}) ;;
  must (redis_del targetKey).

(** One message of the channel *)
Definition backend_message (Channel Payload : string) : M S unit :=
  if negb (String.eqb Payload "rename_to") then ret tt
  else if negb (has_prefix keyspace_channel Channel) then ret tt
  else handleIPC (trim_prefix keyspace_channel Channel).

(** The wait of the dispatcher for an answer, while this backend is running:
    the renaming of the request was a message, if the backend is subscribed to
    the key. *)
Definition await_backend (targetkey : string) : string -> M S bool := fun _ =>
  if subscribed targetkey then backend_message (keyspace_channel +:+ targetkey) "rename_to" ;; ret true
  else ret false.
End ipcbackend.

(* ===================================================================== *)
(** * rf_version_finder                                                  *)
(* ===================================================================== *)

Definition is_word (a : ascii) : bool := is_alnum a || Ascii.eqb a "_"%char.

(** What precedes the last occurrence of [sub], if there is one *)
Fixpoint before_last (sub s : string) : option string :=
  match s with
  | EmptyString => if has_prefix sub s then Some "" else None
  | String a s' =>
      match before_last sub s' with
      | Some t => Some (String a t)
      | None => if has_prefix sub s then Some "" else None
      end
  end.

(** [(^\w+)\.(v.+)\.json], with its two groups: [.] is any character but a
    newline, and the last [.json] of the line ends the match. *)
Definition fileRegex (name : string) : option (string * string) :=
  let schema := take_while is_word name in
  match schema, str_drop (String.length schema) name with
  | "", _ => None
  | _, String "." rest =>
      let line := take_while (fun a => negb (Ascii.eqb a "010"%char)) rest in
      match before_last ".json" line with
      | Some (String "v" (String _ _) as versioned) => Some (schema, versioned)
      | _ => None
      end
  | _, _ => None
  end.

Section version_finder.
Context {T : Type}.
(** Of the library for versions: [version.NewVersion] and [LessThan] *)
Context {V : Type}.
Variable NewVersion : string -> result V.
Variable LessThan : V -> V -> bool.

Definition dots (v : string) : string := replace_all "_" "." v.

(** [ByVersion.Less] *)
Definition Less (x y : string) : M T bool :=
  v1 <- must (ret (NewVersion (dots x))) ;;
  v2 <- must (ret (NewVersion (dots y))) ;;
  ret (LessThan v1 v2).

(** [sort.Sort]: every sort that uses [Less] gives the same order of different
    versions; this one inserts the elements one after the other. *)
Fixpoint insert_version (x : string) (l : list string) : M T (list string) :=
  match l with
  | [] => ret [x]
  | y :: l' =>
      less <- Less y x ;;
      if less : bool then r <- insert_version x l' ;; ret (y :: r) else ret (x :: l)
  end.
Fixpoint sort_versions (l : list string) : M T (list string) :=
  match l with
  | [] => ret []
  | x :: l' => r <- sort_versions l' ;; insert_version x r
  end.

Definition schemaPath (versionStr : string) : string :=
  "contrib/DMTF/DSP8010-Redfish_Schema/DSP8010_" +:+ versionStr +:+ "/json-schema".

(** [fileMap]: the versions of each schema *)
Fixpoint collect_files (versionStr schemaDir : string) (files : list string) (fileMap : gomap (list string)) : gomap (list string) :=
  match files with
  | [] => fileMap
  | jsonFile :: rest =>
      collect_files versionStr schemaDir rest
        (if String.eqb jsonFile schemaDir then fileMap
         else match fileRegex (trim_prefix (schemaPath versionStr +:+ "/") jsonFile) with
              | None => fileMap
              | Some (schema, v) => mput schema (default [] (mget schema fileMap) ++ [v]) fileMap
              end)
  end.

(** The last lines of the output: a schema, and its newest version *)
Fixpoint newest (fileMap : gomap (list string)) : M T (list (string * string)) :=
  match fileMap with
  | [] => ret []
  | (schema, files) :: rest =>
      sorted <- sort_versions files ;;
      lines <- newest rest ;;
      ret ((schema +:+ ".json", List.last sorted "") :: lines)
  end.

(** [walk] gives the paths below a directory. *)
Definition rf_version_finder (lookup_env : string -> option string) (walk : string -> list string) : M T (list (string * string)) :=
  let contribDirPrefix := default "." (lookup_env "CONTRIB_DIR_PREFIX") in
  match lookup_env "SCHEMA_VERSION" with
  | None => panic "SCHEMA_VERSION environment variable is not set"
  | Some versionStr =>
      let schemaDir := path_join [contribDirPrefix; schemaPath versionStr] in
      newest (collect_files versionStr schemaDir (sort_strings (walk schemaDir)) [])
  end.
End version_finder.

(* ===================================================================== *)
(** * Theorems                                                           *)
(* ===================================================================== *)

(** What is printed can be stored as the hash of a password: it is read back
    as the hash. *)
Theorem hashgen_readable {T} (gen : string -> M T (result string)) password s s' line :
  hashgen gen password s = (Ret (Some line), s') ->
  exists hash, gen password s = (Ret (Ok hash), s') /\ DecodeString (trim_prefix "Password hash: " line) = Some hash.
Proof.
  unfold hashgen. case_match; [done|]. intros (hash & s1 & Eh & [= <- <-])%bind_ret_inv.
  apply bind_ret_inv in Eh as ([h|e] & s2 & Eg & E); [|done]. injection E as <- <-. exists h. split; [done|].
  rewrite trim_prefix_app. apply hex_round_trip.
Qed.

(** ** An exchange *)

Lemma hash_fields_lookup {S} (ipc : IPC S) request : forall h k v t,
  hash_fields ipc request = Ok h -> mget k request = Some v -> hash_field ipc v = Some t -> h !! k = Some t.
Proof.
  induction request as [|[k' v'] request IH]; intros h k v t Hh Hk Ht; [done|]. simpl in Hh, Hk.
  destruct (hash_field ipc v') as [t'|] eqn:Et; [|done]. destruct (hash_fields ipc request) as [h'|] eqn:Eh; [|done].
  injection Hh as <-. destruct (String.eqb_spec k k') as [->|Hne].
  - injection Hk as ->. rewrite lookup_insert_eq. congruence.
  - rewrite lookup_insert_ne by done. by apply (IH h' k v t).
Qed.

Lemma prefix_differs p s t : has_prefix p s = true -> has_prefix p t = false -> s <> t.
Proof. congruence. Qed.

Section exchange.
Context {S : Type} `{RedisLaws S} `{FloatText}.
Variables (rfd : RedfishDispatcher S) (ipc : IPC S) (id targetkey : string).
Hypothesis Hid : forall s, new_uuid ipc s = (Ret id, s).
Hypothesis Hstring : forall t, hash_field ipc (VString t) = Some t.

Lemma backend_message_rename key : backend_message (S := S) (keyspace_channel +:+ key) "rename_to" = handleIPC key.
Proof. unfold backend_message. rewrite trim_prefix_app. unfold has_prefix. by rewrite prefix_app. Qed.

(** The answer of the backend *)
Definition backend_result (targetKey : string) : gmap string string :=
  {["Result" := if String.eqb targetKey "/redfish/v1/Chassis/APC/Actions/Chassis.Reset/Target" then "Success" else "Bad Key"]}.

Lemma wp_handleIPC key fields resp ks :
  ks !! key = Some (RHash fields) -> fields !! "ResponseKey" = Some resp -> ks !! resp = None -> key <> resp ->
  wp ks (handleIPC key) (returns (fun _ ks' => ks' = <[resp := RHash (backend_result key)]> (delete key ks))).
Proof.
  intros Hk Hf Hr Hne. unfold handleIPC. wp_steps. rewrite Hk. simpl. wp_steps. rewrite Hf. simpl. unfold hmset_effect.
  rewrite decide_False, Hr by apply map_non_empty_singleton. simpl. wp_steps. by rewrite delete_insert_ne.
Qed.

End exchange.

(** ** The newest versions *)

Section newest.
Context {T V : Type}.
Variables (NewVersion : string -> result V) (LessThan : V -> V -> bool) (ver : string -> V).
Hypothesis less_irreflexive : forall a, LessThan a a = false.
Hypothesis less_between : forall a b c, LessThan a c = true -> LessThan a b = true \/ LessThan b c = true.
Hypothesis less_asymmetric : forall a b, LessThan a b = true -> LessThan b a = false.

(** [x] is not newer than [y]. *)
Definition upto (x y : string) : Prop := LessThan (ver y) (ver x) = false.
Definition readable (l : list string) : Prop := Forall (fun x => NewVersion (dots x) = Ok (ver x)) l.

Lemma upto_trans x y z : upto x y -> upto y z -> upto x z.
Proof.
  unfold upto. intros Hxy Hyz. destruct (LessThan (ver z) (ver x)) eqn:E; [|done].
  destruct (less_between _ (ver y) _ E); congruence.
Qed.

Lemma Less_reads x y (s : T) : NewVersion (dots x) = Ok (ver x) -> NewVersion (dots y) = Ok (ver y) ->
  Less NewVersion LessThan x y s = (Ret (LessThan (ver x) (ver y)), s).
Proof. intros Hx Hy. unfold Less, must, bind, ret. by rewrite Hx, Hy. Qed.

Lemma insert_version_spec x l (s : T) : readable (x :: l) -> StronglySorted upto l ->
  exists r, insert_version NewVersion LessThan x l s = (Ret r, s) /\ r ≡ₚ x :: l /\ StronglySorted upto r.
Proof.
  intros Hr. apply Forall_cons in Hr as [Hx Hl]. induction Hl as [|y l Hy Hl IH]; intros Hs.
  - exists [x]. split; [done|]. split; [done|]. by repeat constructor.
  - apply StronglySorted_inv in Hs as [Hs Hall]. cbn [insert_version]. erewrite bind_step by by apply Less_reads.
    destruct (LessThan (ver y) (ver x)) eqn:E.
    + destruct (IH Hs) as (r & Er & Hp & Hsr). erewrite bind_step by exact Er. exists (y :: r). split; [done|].
      split; [rewrite Hp; constructor|]. constructor; [done|]. rewrite Hp. constructor; [|done]. by apply less_asymmetric.
    + exists (x :: y :: l). split; [done|]. split; [done|]. constructor; [by constructor|]. constructor; [done|].
      eapply Forall_impl; [exact Hall|]. intros z Hz. by apply (upto_trans x y z).
Qed.

Lemma sort_versions_spec l (s : T) : readable l ->
  exists r, sort_versions NewVersion LessThan l s = (Ret r, s) /\ r ≡ₚ l /\ StronglySorted upto r.
Proof.
  induction l as [|x l IH]; intros Hr; [by exists []; repeat constructor|]. pose proof Hr as [_ Hl]%Forall_cons.
  destruct (IH Hl) as (r & Er & Hp & Hs). cbn [sort_versions]. erewrite bind_step by exact Er.
  assert (Hxr : readable (x :: r)) by (unfold readable; rewrite Hp; exact Hr).
  destruct (insert_version_spec x r s Hxr Hs) as (r' & Er' & Hp' & Hs'). exists r'. split; [done|]. split; [|done]. by rewrite Hp', Hp.
Qed.

Lemma last_newest l d : l <> [] -> StronglySorted upto l -> List.last l d ∈ l /\ Forall (fun x => upto x (List.last l d)) l.
Proof.
  intros Hne Hs. induction Hs as [|x l Hs IH Hall]; [done|]. destruct l as [|y l].
  - split; [by left|]. constructor; [apply less_irreflexive|constructor].
  - destruct IH as [Hin Hmax]; [done|]. change (List.last (x :: y :: l) d) with (List.last (y :: l) d). split; [by right|].
    constructor; [|done]. rewrite Forall_forall in Hall. by apply Hall.
Qed.

(** Of every schema the program prints a version that was found, and than
    which no other found one is newer. *)
Theorem newest_printed fileMap (s : T) : Forall (fun e => snd e <> [] /\ readable (snd e)) fileMap ->
  exists lines, newest NewVersion LessThan fileMap s = (Ret lines, s) /\
    Forall2 (fun e line => fst line = fst e +:+ ".json" /\ snd line ∈ snd e /\ Forall (fun v => upto v (snd line)) (snd e))
      fileMap lines.
Proof.
  induction 1 as [|[schema files] fileMap [Hne Hr] _ IH]; [by exists []|]. destruct IH as (lines & El & Hlines). cbn [fst snd] in *.
  destruct (sort_versions_spec files s Hr) as (r & Er & Hp & Hs). eexists. split.
  - cbn [newest]. erewrite bind_step by exact Er. by erewrite bind_step by exact El.
  - constructor; [|done]. cbn [fst snd]. split; [done|].
    assert (Hr0 : r <> []) by (intros ->; apply Hne; by apply Permutation_nil_l in Hp).
    destruct (last_newest r "" Hr0 Hs) as [Hin Hmax]. by rewrite <- Hp.
Qed.
End newest.

(** With a contrib directory that is given by an absolute path, no file of a
    schema is found: only the path below the working directory is taken off
    before the name is matched. *)
Theorem absolute_contrib_finds_nothing {T V} (NewVersion : string -> result V) LessThan lookup_env walk prefix v (s : T) :
  lookup_env "CONTRIB_DIR_PREFIX" = Some prefix -> lookup_env "SCHEMA_VERSION" = Some v ->
  (forall d, Forall (fun f => has_prefix "/" f = true) (walk d)) ->
  rf_version_finder NewVersion LessThan lookup_env walk s = (Ret [], s).
Proof.
  intros Hprefix Hv Hwalk. unfold rf_version_finder. rewrite Hprefix, Hv. cbn [default].
  set (dir := path_join _). assert (Hall : Forall (fun f => has_prefix "/" f = true) (sort_strings (walk dir))).
  { rewrite sort_strings_perm. apply Hwalk. }
  enough (E : collect_files v dir (sort_strings (walk dir)) [] = []) by by rewrite E.
  induction Hall as [|f files Hf _ IH]; [done|]. cbn [collect_files]. case_match; [done|].
  apply prefix_true in Hf as [t ->]. exact IH.
Qed.

(** ** An exchange about the chassis that the backend knows *)

Module ToolsExample.
Definition apc : string := "/redfish/v1/Chassis/APC/Actions/Chassis.Reset/Target".
Definition apc_ipc : IPC memstore :=
  mkIPC memstore (ret "42") (fun v => match v with VString s => Some s | _ => None end) (await_backend apc).
Definition apc_store : memstore := {["/redfish/v1/Managers/BMC" := RSet {["Id"]}]}.
Definition apc_fields : gmap string string :=
  <["ResetType" := "On"]> (<["ResponseKey" := "Cray:rts:IPC:42:Response"]> ∅).


Example version_of_file : fileRegex "AccountService.v1_10_0.json" = Some ("AccountService", "v1_10_0").
Proof. reflexivity. Qed.
Example root_file : fileRegex "AccountService.json" = None.
Proof. reflexivity. Qed.
End ToolsExample.
