(* ===== verification/DeviceExamples.v ===== *)
(** Concrete instances of what the helpers for power units, switches and the
    cloud use, for the examples: a controller that keeps the state of its
    outlets, a switch with two components, and a cloud of two pages. *)
From stdpp Require Import relations.
From S2P Require Import Prelude Values Redis Walk Schema Versions Tree Parsing SchemaTree Configuration.
From S2P Require Import RedisStruct Dispatcher Presentation Pipelines RedisHelper Performs.
From S2P Require Import DeviceKeys Services Certificates DeviceSetup Replacement CredentialStores.
From S2P Require Import Pdu PduSetup PduDevice PduRequests PduOutlets PduPolling PduWorkers PduFacts.
From S2P Require Import Sls Snmp SnmpSwitch SwitchFacts GCloud CloudFacts HelperExamples.

(* ===================================================================== *)
(** * A controller                                                       *)
(* ===================================================================== *)

(** The texts of readings do not matter to the examples. *)
#[export] Instance toy_readings : ReadingText := {|
  redis_float _ := "0";
  fixed_float _ := "0.000000";
  atoi_error s := "strconv.Atoi: parsing " +:+ s;
|}.

(** The memory, and the states of the outlets of the controller *)
Definition pmem : Type :=
  (JAWSBackedHelper (list command) unit * CertificateService (list command) unit unit) * (Globals unit * gomap string).

Definition p_jaws : lens pmem (JAWSBackedHelper (list command) unit) :=
  mkLens (fun x => fst (fst x)) (fun a x => ((a, snd (fst x)), snd x)).
Definition p_cs : lens pmem (CertificateService (list command) unit unit) :=
  mkLens (fun x => snd (fst x)) (fun a x => ((fst (fst x), a), snd x)).
Definition p_globals : lens pmem (Globals unit) :=
  mkLens (fun x => fst (snd x)) (fun a x => (fst x, (a, snd (snd x)))).
Definition p_outlets : lens pmem (gomap string) :=
  mkLens (fun x => snd (snd x)) (fun a x => (fst x, (fst (snd x), a))).

#[export] Instance p_jaws_laws : LensLaws p_jaws.
Proof. by split; intros; destruct x as [[] []]. Qed.
#[export] Instance p_jaws_globals : LensIndep p_jaws p_globals.
Proof. by split; intros; destruct x as [[] []]. Qed.

Definition small_url : string := "https://x3000m0/jaws".

(** It switches an outlet on, or else off, and reports its state. *)
Definition small_controller (request : HTTPRequest) : M (pmem * memstore) (value * option go_error) := fun s =>
  if String.eqb (Method request) "PATCH" then
    match after_prefix (small_url +:+ "/control/outlets/") (FullURL request), Payload request with
    | Some o, PayloadStrings [(_, p)] =>
        (Ret (VNil, None),
         (lput p_outlets (mput o (if String.eqb p "on" then "On" else "Off") (lget p_outlets (fst s))) (fst s), snd s))
    | _, _ => (Ret (VNil, Some (ErrText "bad request")), s)
    end
  else
    match after_prefix (small_url +:+ "/monitor/outlets/") (FullURL request) with
    | Some o =>
        (Ret (VObject [("id", VString o); ("state", VString (default "" (mget o (lget p_outlets (fst s)))))], None), s)
    | None => (Ret (VNil, Some (ErrText "not found")), s)
    end.

Definition small_outlet (m : object) : result MonitorOutlet :=
  match mget "id" m, mget "state" m with
  | Some (VString o), Some (VString state) =>
      let z := float_of_Z 0 in
      Ok (mkMonitorOutlet o o 0 "Normal" 0 "" "" z z 0 "Normal" z 0 "" "" 0 z "Normal" "" "" "" state "Normal" z)
  | _, _ => Err (ErrText "no outlet")
  end.

Definition small_jaws : JAWS (pmem * memstore) :=
  let none {A B} (_ : A) : result B := Err (ErrText "not decoded") in
  mkJAWS _ small_controller none none none none none none none none none none none small_outlet none none none.

Lemma after_prefix_path base path o :
  after_prefix (base +:+ path) (base +:+ path +:+ o) = Some o.
Proof. unfold after_prefix. by rewrite <- str_app_assoc, has_prefix_app, trim_prefix_app. Qed.

#[export] Program Instance small_controller_laws :
    Controller (S:=memstore) p_jaws small_jaws small_url "root" "secret" := {|
  power x o := default "" (mget o (lget p_outlets x));
  switched p := if String.eqb p "on" then "On" else "Off";
|}.
Next Obligation.
  intros x o p request Hm Hurl Hp _ _. eexists. split; [|split].
  - intros s. exists s. split; [|done]. unfold small_jaws, small_controller. cbn [GetBodyForHTTPRequest]. rewrite Hm, Hurl, Hp.
    change (String.eqb "PATCH" "PATCH") with true. cbv iota. rewrite (after_prefix_path small_url "/control/outlets/"). cbn [fst snd]. reflexivity.
  - destruct x as [[] []]. simpl. by rewrite mget_mput_eq.
  - by destruct x as [[] []].
Qed.
Next Obligation.
  intros x o request Hm Hurl _ _. exists [("id", VString o); ("state", VString (default "" (mget o (lget p_outlets x))))].
  eexists. split; [|split; [reflexivity|split; reflexivity]].
  intros s. exists s. split; [|done]. unfold small_jaws, small_controller. cbn [GetBodyForHTTPRequest]. rewrite Hm, Hurl.
  change (String.eqb "GET" "PATCH") with false. cbv iota. by rewrite (after_prefix_path small_url "/monitor/outlets/").
Qed.

(* ===================================================================== *)
(** * Outlets                                                            *)
(* ===================================================================== *)

Lemma outlet_names_witness :
  translateJAWSToRedfishOutlet "BA7" = Ok "BA07" /\ translateRedfishToJAWSOutlet "BA07" = Ok "BA7" /\
  (forall m, 0 <= m < 7 -> 7 < 100 -> String.ltb (redfish_name "B" "A" m) (redfish_name "B" "A" 7) = true).
Proof. apply (outlet_names "B" "A" 7). unfold int64_max. lia. Defined.

Definition pdu_device : Device := mkDevice "x3000m0" small_url "root" "secret".
Definition pdu_helper : JAWSBackedHelper (list command) unit :=
  mkJAWSBackedHelper (mkRedisHelper None) None None [("x3000m0", pdu_device)] true 30 2 60 60.
Definition p0 : pmem :=
  ((pdu_helper, mkCertificateService (mkRedisHelper None) "RTS" "1" None None (Some []) (Some []) false),
   (mkGlobals 1 None, [("BA7", "On")])).
Definition outlet_BA07 : string := "x3000m0/redfish/v1/PowerEquipment/RackPDUs/B/Outlets/BA07".
Definition pks : memstore := <[outlet_BA07 +:+ "/PowerState" := RStr "On"]> (<["other" := RStr "1"]> ∅).

Definition no_storage {T} : Storage T unit :=
  mkStorage _ _ (fun _ _ => ret (mkCredential "" "", Some (ErrText "not found"))) (fun _ _ _ => ret None)
    (fun _ _ => ret (mkDevice "" "" "" "", Some (ErrText "not found"))) (fun _ _ _ => ret None)
    (fun _ _ => ret (Ok [])) (fun _ _ _ => ret None).

Definition pdu_dispatcher : RedfishDispatcher (pmem * memstore) :=
  mkDispatcher _ "" "" (mkResource (plain_resource_info "ServiceRoot" false) [] None) [] []
    [JAWSBackedHelper_backend (K:=unit) (P:=list command) quiet small_jaws no_storage p_globals p_jaws p_cs
       (fun _ _ => ret (mkPair "" "", Some (ErrText "not found"))) (fun p => ret (Ok p)) (ret tt) 8]
    (mkWorld _ (fun _ _ => None) (fun _ _ => None) (fun _ _ => None) (fun _ _ _ => ret None)).

Lemma switched_outlet_shown_witness :
  let control := order_key "x3000m0" "B" "B" "A" 7 in
  let state := power_key "x3000m0" "B" "B" "A" 7 in
  let request := request_for "x3000m0" pdu_dispatcher "/redfish/v1/PowerEquipment/RackPDUs/B/Outlets/BA07" in
  (control = outlet_BA07 +:+ "/Actions/Outlet.PowerControl" /\ state = outlet_BA07 +:+ "/PowerState" /\
   pks !! state = Some (RStr "On") /\ switched (Controller:=small_controller_laws) "off" = "Off") /\
  wpm p0 pks (jaws_RunBackendHelper quiet small_jaws p_globals p_jaws control []
      (("PowerState", "off") :: device_env small_url "root" "secret" "x3000m0")) (fun o x1 ks1 =>
    o = Ret (Ok "") /\ ks1 = delete state pks /\
    wpm x1 ks1 (getValueForKey request state) (fun o x2 ks2 =>
      o = Ret (Ok (switched "off")) /\ x2 = x1 /\ ks2 !! state = Some (RStr (switched "off")) /\
      wpm x2 ks2 (getValueForKey request state) (fun o x3 ks3 =>
        o = Ret (Ok (switched "off")) /\ x3 = x2 /\ ks3 = ks2))).
Proof.
  split; [by vm_compute|].
  apply (switched_outlet_shown quiet small_jaws no_storage p_globals p_jaws p_cs small_url "root" "secret"
    (fun request x => ex_intro _ _ (fun s => ex_intro _ s (conj eq_refl eq_refl)))
    (fun x => ex_intro _ _ (fun s => ex_intro _ s (conj eq_refl eq_refl)))); try reflexivity.
  - unfold int64_max. lia.
  - by exists (fun _ _ => ret (mkPair "" "", Some (ErrText "not found"))), (fun p => ret (Ok p)), (ret tt), 8%nat.
Defined.

(* ===================================================================== *)
(** * Workers                                                            *)
(* ===================================================================== *)

(** The memory of the workers: the helper, and the queue of the events *)
Definition wmem : Type := JAWSBackedHelper (list command) unit * list telemetry_Event.
Definition w_jaws : lens wmem (JAWSBackedHelper (list command) unit) := mkLens fst (fun a x => (a, snd x)).
Definition w_events : lens wmem (list telemetry_Event) := mkLens snd (fun a x => (fst x, a)).
Definition w0 : wmem * memstore := ((pdu_helper, []), ∅).

(** A controller that cannot be reached *)
Definition silent_jaws {T} : JAWS T :=
  let none {A B} (_ : A) : result B := Err (ErrText "not decoded") in
  mkJAWS _ (fun _ => ret (VNil, Some (ErrText "timeout")))
    none none none none none none none none none none none none none none none.

Definition small_steps :=
  polling_step (S:=memstore) (P:=list command) quiet silent_jaws w_jaws w_events (ret "2020-01-01T00:00:00Z").
Definition small_atomic_steps :=
  atomic_step (S:=memstore) (P:=list command) quiet silent_jaws w_jaws w_events (ret "2020-01-01T00:00:00Z").


Lemma double_polling_witness :
  exists p, rtc small_steps (start_workers w_jaws w0) p /\ polls p 0 "x3000m0" /\ polls p 1 "x3000m0".
Proof.
  apply (double_polling quiet silent_jaws w_jaws w_events (ret "2020-01-01T00:00:00Z") w0 "x3000m0" pdu_device 0);
    reflexivity.
Defined.

(* ===================================================================== *)
(** * Units and telemetry                                                *)
(* ===================================================================== *)

Definition small_branch (id : string) : Branch :=
  let z := float_of_Z 0 in mkBranch id id z z "Normal" z "" "" "On" "Normal".
Definition small_monitor (id : string) : MonitorOutlet :=
  let z := float_of_Z 0 in
  mkMonitorOutlet id id 0 "Normal" 0 "" "" z z 0 "Normal" z 0 "" "" 0 z "Normal" "" "" "" "On" "Normal" z.
Definition small_unit (id : string) : PDUnit := mkUnit id id "" "" "" "" [] [] [] [] [] [] [] [].

Definition small_inventory : Inventory :=
  mkInventory [small_branch "BA:BR1"; small_branch "AA:BR1"; small_branch "AA:BR2"] [] []
    [small_monitor "AA1"; small_monitor "BA1"] [] [] [] [].

Lemma separate_AB : separate ["B"; "A"].
Proof.
  split; [by apply (bool_decide_unpack _); vm_compute|].
  intros i j [<-|[<-|[]]] [<-|[<-|[]]]; by vm_compute.
Defined.

Lemma units_partition_witness :
  let vs := map (assign_unit small_inventory) [small_unit "B"; small_unit "A"] in
  map (fun v => (u_Id v, map br_ID (u_Branches v), map mo_ID (u_Outlets v))) vs
  = [("B", ["BA:BR1"], ["BA1"]); ("A", ["AA:BR1"; "AA:BR2"], ["AA1"])] /\
  gather u_Branches vs ≡ₚ inv_branches small_inventory.
Proof.
  split; [by vm_compute|].
  apply (units_partition [small_unit "B"; small_unit "A"] small_inventory); [exact separate_AB|].
  intros id Hid. simpl in Hid. destruct Hid as [<-|[<-|[<-|[<-|[<-|[]]]]]];
    [exists "B"|exists "A"|exists "A"|exists "A"|exists "B"]; split; (by vm_compute) || (simpl; auto).
Defined.

Lemma reading_located_witness :
  locate (mkTelemetryHelper ["B"; "A"] "x3000m0") "BA300" = Ok ("x3000m0p1", 44).
Proof.
  apply (reading_located (mkTelemetryHelper ["B"; "A"] "x3000m0") "B" "B" "A" 300);
    [exact separate_AB|by left|done..|unfold int64_max; lia].
Defined.

(* ===================================================================== *)
(** * A switch                                                           *)
(* ===================================================================== *)

(** Its second component is the chassis, whose index is 101001. *)
Definition small_column (base : string) : list (string * string) :=
  if String.eqb base OIDEntPhysicalClass then [(base +:+ ".7", "9"); (base +:+ ".101001", "3")] else [].
Definition small_mib (t : string) : option string :=
  if has_suffix ".101001" t then
    Some (if has_prefix OIDEntPhysicalModelName t then "JL635A" else "value")
  else None.

Definition small_reply (ts : list string) : list (VarBind string) :=
  List.concat (map (fun t => match small_mib t with Some v => [mkVarBind t v] | None => [] end) ts).

(** Replies come in the order of the request; the identifiers are texts. *)
Definition small_snmp {T} : SNMPLibrary T unit string :=
  mkSNMPLibrary T unit string (fun _ => Ok tt) (fun t => Ok t) (fun o => o)
    (fun vbs o => List.find (fun vb => String.eqb (vb_Oid vb) o) vbs)
    (fun vbs o => List.filter (fun vb => has_prefix o (vb_Oid vb)) vbs)
    (fun _ => ret None) (fun _ => ret tt)
    (fun _ bases _ _ => ret (Ok (mkPdu None (map (fun row => mkVarBind (fst row) (snd row))
       (List.concat (map small_column bases))))))
    (fun _ ts => ret (Ok (mkPdu None (small_reply ts))))
    (ret (Ok [])).

Lemma find_reply ts t :
  List.find (fun vb => String.eqb (vb_Oid vb) t) (small_reply ts)
  = if existsb (String.eqb t) ts then option_map (mkVarBind t) (small_mib t) else None.
Proof.
  unfold small_reply. induction ts as [|u ts IH]; [done|]. simpl. destruct (small_mib u) as [v|] eqn:Eu; simpl.
  - rewrite (String.eqb_sym t u). destruct (String.eqb_spec u t) as [->|]; [by rewrite Eu|exact IH].
  - rewrite IH. destruct (String.eqb_spec t u) as [->|]; [|done]. rewrite Eu. by destruct (existsb _ ts).
Qed.

#[export] Program Instance small_agent {T} : Agent (T:=T) small_snmp tt := {|
  oid t := t;
  mib := small_mib;
  column := small_column;
|}.
Next Obligation. done. Qed.
Next Obligation. intros T s. by exists s. Qed.
Next Obligation. intros T s. by exists s. Qed.
Next Obligation.
  intros T base s. eexists _, s. split; [reflexivity|]. simpl. unfold small_column.
  destruct (String.eqb_spec base OIDEntPhysicalClass) as [->|]; by vm_compute.
Qed.
Next Obligation. intros T ts s. eexists _, s. split; [reflexivity|]. intros t Ht.
  cbn [MatchOid small_snmp]. rewrite find_reply, List.map_id. replace (existsb (String.eqb t) ts) with true; [done|].
  symmetry. apply existsb_exists. exists t. split; [done|apply String.eqb_refl].
Qed.

Lemma physical_table_witness :
  exists s', GetPhysicalTable small_snmp (Real (mkRealSNMP tt "")) tt =
    (Ret (Ok (mkPhysicalTable "101001" "value" "value" "value" "value" "value" "value" "value" "JL635A"
       "value" "value" "value")), s').
Proof.
  destruct (physical_table (T:=unit) small_snmp tt (Agent0:=small_agent) "101001" "3" eq_refl eq_refl tt) as [s' E].
  exists s'. rewrite E. by vm_compute.
Defined.

(** A switch that the layout service lists without an address *)
Definition unaddressed : ManagementSwitch :=
  mkManagementSwitch "x3000" [] "x3000c0w22" "comptype_mgmt_switch" "River" "MgmtSwitch" 0 ""
    (mkComptypeMgmtSwitch "" "MD5" "DES" []).

Definition smem : Type := SNMPSwitchHelper (list command) unit unit unit unit * Globals unit.
Definition s_switch : lens smem (SNMPSwitchHelper (list command) unit unit unit unit) :=
  mkLens fst (fun a x => (a, snd x)).
Definition s_globals : lens smem (Globals unit) := mkLens snd (fun a x => (fst x, a)).
Definition s_cs : lens smem (CertificateService (list command) unit unit) :=
  mkLens (fun _ => mkCertificateService (mkRedisHelper None) "RTS" "1" None None None None false) (fun _ x => x).
#[export] Instance s_switch_laws : LensLaws s_switch.
Proof. by split; intros; destruct x. Qed.
Definition s0 : smem :=
  (mkSNMPSwitchHelper (Some (mkRTSCredStore "secret/rts" tt)) None (mkRedisHelper None) [],
   mkGlobals 1 (Some (mkCompCredStore "secret/hms-creds" tt))).

(** Vault has the credentials of the switch, and the global ones. *)
Definition switch_credentials : CompCredentials := mkCompCredentials "x3000c0w22" "" "admin" "" "authpass" "privpass".
Definition vault_outside {T} : Outside T unit := {|
  LookupEnv name := None;
  GetServiceInstanceName := Ok "RTS";
  DoHTTPAction _ := ret ("", 0, Some (ErrText "unable to do request"));
  UnmarshalEP _ := Err (ErrText "unexpected end of JSON input");
  now_RFC3339 := ret "2020-01-01T00:00:00Z";
  NewVaultAdapter := ret (Ok tt);
  GetCompCred _ _ := ret (Ok switch_credentials);
  StoreCompCred _ _ := ret (Ok tt);
  k8s_client := ret (Err (ErrText "not in a cluster"));
  k8s_get _ _ := ret (Err (ErrText "not in a cluster"));
  k8s_delete _ _ := ret (Err (ErrText "not in a cluster"));
  k8s_create _ _ := ret (Err (ErrText "not in a cluster"));
|}.
Definition vault_storage {T} : Storage T unit :=
  mkStorage _ _ (fun _ _ => ret (mkCredential "root" "secret", None)) (fun _ _ _ => ret None)
    (fun _ _ => ret (mkDevice "" "" "" "", Some (ErrText "not found"))) (fun _ _ _ => ret None)
    (fun _ _ => ret (Ok [])) (fun _ _ _ => ret None).

Lemma unaddressed_switch_witness :
  let discover := discover_switch (S:=memstore) (P:=list command) (K:=unit) vault_outside vault_storage small_snmp
    s_globals s_switch s_cs (fun _ _ => ret (mkPair "" "", None)) (fun p => ret (Ok p)) None unaddressed in
  let key := "x3000c0w22/redfish/v1/Chassis/EthernetSwitch_0/Status/State" in
  wpm s0 pks discover (fun o x1 ks1 =>
    o = Ret None /\ ks1 = pks /\
    wpm x1 ks1 discover (fun o x2 ks2 => o = Ret None /\ x2 = x1 /\ ks2 = ks1) /\
    wpm x1 ks1 (snmp_GetEnvForXname s_switch "x3000c0w22") (fun o x2 ks2 =>
      exists env, o = Ret (Ok env) /\
      wpm x2 ks2 (snmp_RunBackendHelper small_snmp s_switch key [] env) (fun o x3 ks3 =>
        o = Ret (Err (ErrText "unknown xname: ")) /\ x3 = x1 /\ ks3 = pks))).
Proof.
  apply (unaddressed_switch (S:=memstore) (P:=list command) (K:=unit) vault_outside vault_storage small_snmp s_globals s_switch s_cs
    (fun _ _ => ret (mkPair "" "", None)) (fun p => ret (Ok p)) s0 pks unaddressed switch_credentials (mkCredential "root" "secret"));
    try done; intros s; by exists s.
Defined.

(* ===================================================================== *)
(** * A cloud                                                            *)
(* ===================================================================== *)

(** Two pages: the first one has a zone without instances. *)
Definition small_instance : Instance := mkInstance "node" "RUNNING" "zones/us-central1-a" [("xname", "x0c0s0b0")].
Definition small_cloud {T} : Compute T unit :=
  mkCompute T unit (ret (Ok "project")) (ret (Ok tt))
    (fun _ _ filter token => ret (Ok (
       if String.eqb token "" then ([[]], "next")
       else (if decide (filter = Some "labels.xname = x0c0s0b0") then [[]; [small_instance]] else [[]], ""))))
    (fun _ _ _ _ => ret None) (fun _ _ _ _ => ret None) (fun _ _ _ _ => ret None).

Definition gmem : Type := GCloudHelper (list command) unit unit.
Definition g_gcloud : lens gmem (GCloudHelper (list command) unit unit) := mkLens (fun x => x) (fun a _ => a).
Definition g_globals : lens gmem (Globals unit) := mkLens (fun _ => mkGlobals 1 None) (fun _ x => x).
Definition g_cs : lens gmem (CertificateService (list command) unit unit) :=
  mkLens (fun _ => mkCertificateService (mkRedisHelper None) "RTS" "1" None None None None false) (fun _ x => x).
Definition g0 : gmem :=
  mkGCloudHelper (mkRedisHelper None) "project" "default" (Some tt) [("x0c0s1b0", small_instance)] [] [] None.

Lemma small_chain filter :
  chain (S:=memstore) small_cloud g_gcloud g0 tt filter ""
    [[[]]; if decide (filter = Some "labels.xname = x0c0s0b0") then [[]; [small_instance]] else [[]]].
Proof.
  apply chain_next with "next"; [by intros s; exists s|done|]. apply chain_last. by intros s; exists s.
Defined.

Lemma instance_found_witness :
  wpm g0 pks (findInstanceByXname small_cloud g_gcloud 2 "x0c0s0b0") (fun o x1 ks1 =>
    x1 = g0 /\ ks1 = pks /\ o = Ret (Ok small_instance)).
Proof.
  apply (instance_found small_cloud g_gcloud g0 pks tt "x0c0s0b0" [[[]]; [[]; [small_instance]]] 2);
    [done|apply (small_chain (Some "labels.xname = x0c0s0b0"))|simpl; lia].
Defined.

Lemma vanished_instance_panics_witness :
  wpm g0 pks (gc_RunBackendHelper (P:=list command) quiet no_storage small_cloud g_globals g_gcloud g_cs
      (fun _ _ => ret (mkPair "" "", None)) 2 "x0c0s1b0/redfish/v1/Systems/Self/PowerState" [] [("RTS_XNAME", "x0c0s1b0")])
    (fun o x1 ks1 => o = Panic nil_deref /\ x1 = g0 /\ ks1 = pks).
Proof.
  apply (vanished_instance_panics quiet no_storage small_cloud g_globals g_gcloud g_cs
    (fun _ _ => ret (mkPair "" "", None)) g0 pks tt "x0c0s1b0" small_instance [[[]]; [[]]] 2);
    [done..|apply (small_chain (Some "labels.xname = x0c0s1b0"))|simpl; lia|done].
Defined.

(* ===================================================================== *)
(** * The configuration                                                  *)
(* ===================================================================== *)

#[local] Existing Instance SchemaTreeExample.json_references.

Lemma LoadTreeFromConfig_once_witness :
  let load mapper := LoadTreeFromConfig 160 mapper (Ok [("2017.3.json", Ok SchemaTreeExample.mapping)])
    SchemaTreeExample.files SchemaTreeExample.config in
  exists s', load [] SchemaTreeExample.start = (Ret (Ok (SchemaTreeExample.mapper, 0%nat)), s') /\
    load SchemaTreeExample.mapper s' =
    (Ret (Err (ErrText "Unable to add mapping file: 2017.3.json Reason: Version mapping already exists")), s').
Proof.
  eexists. split; [vm_compute; reflexivity|].
  apply (LoadTreeFromConfig_once 160 [] SchemaTreeExample.mapper "2017.3.json" SchemaTreeExample.mapping []
    SchemaTreeExample.files SchemaTreeExample.config SchemaTreeExample.start _ 0%nat). vm_compute. reflexivity.
Defined.
